(* ===== verification/_CoqProject ===== *)
-Q . S2P
Prelude.v
Memory.v
StdMap.v
Common.v
Serialization.v
Body.v
Query.v
Result.v
Message.v
StreamStorage.v
MpmcQueue.v
MpmcWeak.v
Request.v
RequestWeak.v
SslSession.v
SslContext.v
HeapEffects.v
Connection.v
Typing.v
ConnectionFacts.v
Receive.v
Lifecycle.v
Answers.v
Tls.v
Exchange.v
Pipeline.v
Invariant.v
Pool.v
PoolFacts.v
PoolInvariant.v
Session.v
Cluster.v
Server.v
