(* ===== verification/Prelude.v ===== *)
(** * Verification of the uv-client-server CQL driver

    The repository is an early driver for the native protocol (version 2) of
    Cassandra: headers under src/include/, a client and a test server under
    src/src/.  Bytes move through raw [char*] buffers, state lives in objects
    that the callbacks of libuv share, TLS goes through OpenSSL.  The
    development models this code as executable programs and proves what they do.

    ** How the code is modelled

    A program is a function [S -> outcome (A * S)] ([prog] below): it returns a
    value and the new state, or a [fault], which is every way to leave defined
    behaviour (an access outside a block, the use of an indeterminate byte, a
    null pointer, a use after free, a failed assertion, an exception).  The
    memory ([Memory]) is a list of blocks whose cells may be indeterminate, and
    every read and write is checked; how much a request of [new char[n]] really
    gets is a parameter ([Allocator], at least [n]).  Machine integers are [Z]
    with the conversions [u8] ... [i64] written out where the code converts.
    Loops over decoded counts recurse on the count; loops without one have
    fuel, and a theorem says how much is enough ([consume_terminates]: one more
    than the number of bytes; [event_recursion_bounded]: the recursion through
    the handlers is two deep; [mpmc_sequential]: the loops run once).
    Concurrent code (the queue and the requests) is a relation between
    configurations of threads, one step per atomic operation, and its theorems
    hold for every interleaving of any number of threads; each is modelled twice,
    with atomics that are sequentially consistent ([MpmcQueue], [Request]) and with
    the memory orders the code asks for ([MpmcWeak], [RequestWeak]).  libuv, OpenSSL and
    the code of the user are parameters: [LibUV], [OpenSSL], [Client], and the
    answers of the calls of OpenSSL in [SslContext].

    ** The files, and the code they model

    - [Prelude]: outcomes and programs, [safe] and [keeps] (invariants of
      programs, with the tactics that go through a program), integers, lists.
      [Memory]: the heap.  [StdMap]: std::map over strings.
    - [Common]: cql.h, cql_error.hpp, cql_common.hpp.  [Serialization]:
      cql_serialization.hpp.
    - [Body] (cql_body.hpp and the bodies ERROR, OPTIONS, READY, STARTUP,
      SUPPORTED, PREPARE), [Query] (cql_body_query.hpp), [Result]
      (cql_body_result.hpp): the virtual interface is the class [Body], with an
      instance for each body.
    - [Message]: cql_message.hpp.  [StreamStorage]: cql_stream_storage.hpp.
      [MpmcQueue] and [MpmcWeak]: cql_mpmc_queue.hpp.  [Request] and [RequestWeak]:
      cql_request.hpp.
    - [SslSession]: cql_ssl_session.hpp.  [SslContext]: cql_ssl_context.hpp.
    - [Connection]: cql_client_connection.hpp, over a [world] (the heap, the
      connection, the requests, a trace of what libuv is asked to do and what
      the user is told).  A callback of libuv and a call of the user is a
      program over the world; the handlers of received messages take the call
      [event_received] as a parameter, and [event_received_n] ties the knot.
      [HeapEffects] and [ConnectionFacts] hold what its pieces do to the heap
      and to the world.
    - [Typing] (the types of messages and their bodies), [Receive], [Lifecycle],
      [Answers], [Tls], [Exchange], [Pipeline], [Invariant]: the theorems on a
      connection.
    - [Pool], [PoolFacts] and [PoolInvariant]: cql_pool.hpp, over a world its
      connections share.  [Session]: cql_session.hpp, with the threads and the
      loops it asks libuv for as a trace.  [Cluster]: cql_cluster.hpp and
      src/client/main.cpp.  [Server]: src/server/main.cpp.  The base class of
      cql_iterable.hpp is in [Result].

    ** What is shown

    - Connections.  [connection_invariant]: over all sequences of events of a
      connection, with or without TLS, each request is on at most one stream and
      is notified at most once, with an answer; [pool_invariant]: the same for all
      connections of a loop, whose events interleave.  [consume_frames]: the loop
      over a received buffer refines the specification that handles one frame
      after the other; [consume_terminates].  [handshake_sequence]: the run from
      a new connection to READY.  [send_message_spec], [on_result_spec], and
      [request_exchange]: a request from its call of [exec], through the frame
      as the peer decodes it, to its notification.  [pipelined_requests]: many
      requests at a time, whose answers come in any order and in any number of
      reads; [session_run]: the same from the construction of the connection.
      What the code gets wrong:
      [error_response_dropped], [failures_ignored], [close_aborts].
    - Framing.  [message_prepare_spec], [message_consume_spec] and
      [message_roundtrip]; [message_type_safety]: the copies into the header buffer
      fit and the body has the type its opcode says; [message_split_body]
      is the case in which a body in two reads is written to the wrong place.
    - Bodies.  Decoders are related to reference parsers on every input
      ([collections_refine_parsers]), to the wire format ([result_consume_spec],
      [supported_consume_spec]) and to the encoders
      ([string_map_roundtrip], [startup_roundtrip]); [query_prepare_spec]: a query
      is the v2 body unless it has a paging state; [iterator_visits_rows],
      [null_cell_desync] and [rows_metadata_shifted] for the rows of a result.
    - Streams.  [stream_storage_invariant] for any sequence of calls, with the
      calls that index past an array; [stream_roundtrip], [streams_exhausted].
    - Concurrency.  [mpmc_refines_fifo]: the lock-free queue refines a bounded
      FIFO queue under every interleaving, as long as the values that are pushed
      and the slots together are fewer than 2^62; [mpmc_weak]: the same under
      the memory orders of the code, without a data race, except that a call may
      return false although it need not ([mpmc_spurious_full]);
      [size_check_equiv] for the sizes it accepts.  [request_safety] for the waiting
      on a request; [wait_completes]: every schedule brings back a thread that has
      not yet found the flag unset, and [lost_wakeup]: one that has may sleep for
      ever; [result_ordering] for the order its flag is loaded with.
    - TLS.  [read_write_spec] for a session; [tls_read_refines]: the loop of a
      read is the specification that consumes the chunks of plaintext in order,
      with [tls_read_buffered], [tls_handshake_fault] and [tls_read_never_returns]
      for what it does to the last bytes, to a call that waits and to one that
      fails, which is made again without end; [create_cert_resources] and
      [context_resources] for the ownership of the objects of OpenSSL.
    - The rest.  [pool_never_lends] and [borrow_spec], [add_pool_spec],
      [cluster_option_spec], [server_forgets].

    ** Bounds

    A received message and the bytes that go to it are counted in 31 bits (the
    code counts in [int32_t]); the queue has a power of two up to 2^61 of
    slots.  A table of streams has 127 ids, as the connection makes it, and is
    generic in [StreamStorage].

    ** Not modelled

    What libuv and OpenSSL do inside, what runs on the threads a session starts
    (their loops have no handler of the driver yet), and the text that goes to
    the standard output but for the log.  The constructor of a request makes a
    std::string of NULL, which is undefined or throws: its outcome is an argument
    of the programs that make a request, and the theorems that say a request is
    made take an outcome that returns.  Alignment and padding, the mismatch of [new char[]]
    and [delete], the private copy constructors, and the request objects that
    are allocated for libuv are left out.  src/test/main.cpp holds the tests;
    what they expect was compared with the model.

    Of the memory model of C++ the two weak models keep: loads that return any
    value stored so far, views that release stores attach and acquire loads
    join, and data races as accesses that no view orders.  They have no loads of
    values that are stored later, and a thread may read an older value than it
    read before, so they allow more reads than coherence does.  The condition
    variable and the mutex of a request are in [Request] only.  *)

From stdpp Require Export base tactics numbers option list sorting strings sets.
From Stdlib Require Export ZArith Lia.

#[global] Open Scope Z_scope.

(** ** Outcomes

    The ways a run of the C++ code leaves defined behaviour or unwinds. *)

Inductive fault : Set :=
  | OutOfBounds      (* an access outside the block the pointer points into *)
  | Uninitialised    (* the value of an indeterminate byte is used *)
  | NullPointer      (* a null pointer is dereferenced *)
  | UseAfterFree     (* an access to a deleted block, or a second delete *)
  | ReadOnly         (* a write to a string constant *)
  | AssertFailed     (* [assert] aborts the process *)
  | BadArrayLength   (* [new T[n]] throws std::bad_array_new_length *)
  | LengthError      (* a container throws std::length_error *)
  | LogicError       (* std::string(nullptr) throws std::logic_error *)
  | NoReturn         (* control falls off the end of a non-void function *)
  | OutOfFuel.       (* the model's bound on a loop was reached *)

#[global] Instance fault_eq_dec : EqDecision fault.
Proof. solve_decision. Defined.

Inductive outcome (A : Type) : Type :=
  | Ok (a : A)
  | Fault (f : fault).
Arguments Ok {A} a.
Arguments Fault {A} f.

(** For examples. *)
Definition returned {A} (o : outcome A) : bool :=
  match o with Ok _ => true | Fault _ => false end.

(** A program over a state [S]: it returns a value and the new state, or
    faults. *)
Definition prog (S A : Type) : Type := S -> outcome (A * S).

#[global] Instance prog_ret S : MRet (prog S) := fun A a s => Ok (a, s).
#[global] Instance prog_bind S : MBind (prog S) := fun A B k m s =>
  match m s with
  | Ok (a, s') => k a s'
  | Fault f => Fault f
  end.

Definition fail {S A} (f : fault) : prog S A := fun _ => Fault f.
Definition get {S} : prog S S := fun s => Ok (s, s).
Definition put {S} (s : S) : prog S unit := fun _ => Ok (tt, s).
Definition modify {S} (f : S -> S) : prog S unit := fun s => Ok (tt, f s).
Definition assert_ {S} (b : bool) : prog S unit :=
  if b then mret tt else fail AssertFailed.
Definition when {S} (b : bool) (m : prog S unit) : prog S unit :=
  if b then m else mret tt.

(** A program over a part of the state, run on the whole. *)
Definition zoom {S T A} (view : T -> S) (set : S -> T -> T) (m : prog S A)
    : prog T A := fun t =>
  match m (view t) with
  | Ok (a, s) => Ok (a, set s t)
  | Fault f => Fault f
  end.

Section prog_lemmas.
Context {S : Type}.
Implicit Types (s : S).

Lemma bind_run {A B} (m : prog S A) (k : A -> prog S B) s a s' :
  m s = Ok (a, s') -> (m ≫= k) s = k a s'.
Proof. unfold mbind, prog_bind. by intros ->. Qed.

Lemma bind_fault {A B} (m : prog S A) (k : A -> prog S B) s f :
  m s = Fault f -> (m ≫= k) s = Fault f.
Proof. unfold mbind, prog_bind. by intros ->. Qed.

Lemma bind_inv {A B} (m : prog S A) (k : A -> prog S B) s b s2 :
  (m ≫= k) s = Ok (b, s2) ->
  exists a s1, m s = Ok (a, s1) /\ k a s1 = Ok (b, s2).
Proof.
  unfold mbind, prog_bind. destruct (m s) as [[a s1]|f]; naive_solver.
Qed.

Lemma ret_run {A} (a : A) s : (mret a : prog S A) s = Ok (a, s).
Proof. done. Qed.

Lemma bind_assoc {A B C} (m : prog S A) (k : A -> prog S B)
    (k' : B -> prog S C) s :
  ((m ≫= k) ≫= k') s = (m ≫= (fun a => k a ≫= k')) s.
Proof. unfold mbind, prog_bind. by destruct (m s) as [[a s1]|f]. Qed.

Lemma bind_ext {A B} (m : prog S A) (k k' : A -> prog S B) s :
  (forall a s', k a s' = k' a s') -> (m ≫= k) s = (m ≫= k') s.
Proof. unfold mbind, prog_bind. destruct (m s) as [[a s']|f]; auto. Qed.

Lemma bind_ext_run {A B} (m : prog S A) (k k' : A -> prog S B) s :
  (forall a s', m s = Ok (a, s') -> k a s' = k' a s') -> (m ≫= k) s = (m ≫= k') s.
Proof. unfold mbind, prog_bind. destruct (m s) as [[a s']|f]; auto. Qed.

Lemma bind_cong {A B} (m m' : prog S A) (k k' : A -> prog S B) s :
  m s = m' s -> (forall a s', k a s' = k' a s') -> (m ≫= k) s = (m' ≫= k') s.
Proof. unfold mbind, prog_bind. intros ->. destruct (m' s) as [[a s']|f]; auto. Qed.

Lemma bind_ret {A B} (a : A) (k : A -> prog S B) s :
  (mret a ≫= k) s = k a s.
Proof. done. Qed.
End prog_lemmas.

(** ** Programs that keep an invariant

    [safe K m Q]: from a state in [K] the program [m] does not exhaust the fuel
    of a loop, and if it returns, the state is in [K] again and the value
    satisfies [Q]. *)
Definition safe {S A} (K : S -> Prop) (m : prog S A) (Q : A -> Prop) : Prop :=
  forall s, K s ->
  match m s with Ok (a, s') => K s' /\ Q a | Fault f => f <> OutOfFuel end.

(** A program that does not change the state. *)
Definition readonly {S A} (m : prog S A) : Prop := forall K, safe K m (fun _ => True).

Section safe_lemmas.
Context {S : Type} (K : S -> Prop).

Lemma safe_ret {A} (a : A) (Q : A -> Prop) : Q a -> safe K (mret a) Q.
Proof. intros Ha s Hs. by split. Qed.

Lemma safe_fail {A} f (Q : A -> Prop) : f <> OutOfFuel -> safe K (fail f) Q.
Proof. by intros Hf s Hs. Qed.

Lemma safe_bind {A B} (m : prog S A) (k : A -> prog S B) (Q : A -> Prop) (R : B -> Prop) :
  safe K m Q -> (forall a, Q a -> safe K (k a) R) -> safe K (m ≫= k) R.
Proof.
  intros Hm Hk s Hs. unfold mbind, prog_bind. specialize (Hm s Hs).
  destruct (m s) as [[a s']|f]; [|done]. destruct Hm. by apply Hk.
Qed.

Lemma safe_mono {A} (m : prog S A) (Q R : A -> Prop) :
  safe K m Q -> (forall a, Q a -> R a) -> safe K m R.
Proof.
  intros Hm HQ s Hs. specialize (Hm s Hs). destruct (m s) as [[a s']|f]; naive_solver.
Qed.

Lemma safe_true {A} (m : prog S A) (Q : A -> Prop) :
  safe K m Q -> safe K m (fun _ => True).
Proof. intros Hm. by eapply safe_mono. Qed.

Lemma safe_run {A} (m : prog S A) (Q : A -> Prop) s a s' :
  safe K m Q -> K s -> m s = Ok (a, s') -> K s' /\ Q a.
Proof. intros Hm Hs Hr. specialize (Hm s Hs). by rewrite Hr in Hm. Qed.

Lemma safe_when b (m : prog S unit) :
  safe K m (fun _ => True) -> safe K (when b m) (fun _ => True).
Proof. destruct b; [done|]. intros _. by apply safe_ret. Qed.

Lemma readonly_safe {A} (m : prog S A) : readonly m -> safe K m (fun _ => True).
Proof. by intros Hm. Qed.
End safe_lemmas.

Lemma readonly_run {S A} (m : prog S A) s a s' : readonly m -> m s = Ok (a, s') -> s' = s.
Proof.
  intros Hm Hr. destruct (safe_run (fun s1 => s1 = s) m _ s a s' (Hm _) eq_refl Hr). done.
Qed.

Create HintDb safe.

(** [safe_solve] goes through a program with the lemmas of the database; what it
    knows of the value of a statement is what a lemma says, or nothing. *)
Ltac safe_step :=
  lazymatch goal with
  | |- readonly _ => let K := fresh "K" in intros K
  | |- safe _ (mret _) _ => apply safe_ret
  | |- safe _ (fail _) _ => apply safe_fail; discriminate
  | |- safe _ (when _ _) _ => apply safe_when
  | |- safe _ (_ ≫= _) _ =>
      first
        [ eapply safe_bind; [solve [eauto with safe]|]
        | apply (safe_bind _ _ _ (fun _ => True)); [solve [repeat safe_step]|] ];
      let a := fresh "a" in let Ha := fresh "Ha" in intros a Ha
  | |- safe _ (match ?x with _ => _ end) _ => destruct x
  | |- safe _ _ _ => solve [eauto with safe | eapply safe_true; eauto with safe]
  | |- True => exact I
  end.
Ltac safe_solve := repeat safe_step.

#[export] Hint Resolve readonly_safe : safe.

(** The partial version: [keeps K m Q] says nothing of a run that faults. *)
Definition keeps {S A} (K : S -> Prop) (m : prog S A) (Q : A -> Prop) : Prop :=
  forall s a s', K s -> m s = Ok (a, s') -> K s' /\ Q a.

Section keeps_lemmas.
Context {S : Type} (K : S -> Prop).

Lemma keeps_ret {A} (a : A) (Q : A -> Prop) : Q a -> keeps K (mret a) Q.
Proof. intros Ha s a' s' Hs [= <- <-]. by split. Qed.

Lemma keeps_fail {A} f (Q : A -> Prop) : keeps K (fail f) Q.
Proof. done. Qed.

Lemma keeps_bind {A B} (m : prog S A) (k : A -> prog S B) (Q : A -> Prop) (R : B -> Prop) :
  keeps K m Q -> (forall a, Q a -> keeps K (k a) R) -> keeps K (m ≫= k) R.
Proof.
  intros Hm Hk s b s2 Hs (a & s1 & H1 & H2)%bind_inv.
  destruct (Hm _ _ _ Hs H1) as [Hs1 Ha]. by eapply Hk.
Qed.

Lemma keeps_when b (m : prog S unit) :
  keeps K m (fun _ => True) -> keeps K (when b m) (fun _ => True).
Proof. destruct b; [done|]. intros _. by apply keeps_ret. Qed.
End keeps_lemmas.

Create HintDb keeps.

(** [keeps_solve] goes through a program like [safe_solve]. *)
Ltac keeps_step :=
  lazymatch goal with
  | |- keeps _ (mret _) _ => apply keeps_ret
  | |- keeps _ (fail _) _ => apply keeps_fail
  | |- keeps _ (when _ _) _ => apply keeps_when
  | |- keeps _ (_ ≫= _) _ =>
      first
        [ solve [eauto with keeps]
        | apply (keeps_bind _ _ _ (fun _ => True)); [solve [repeat keeps_step]|];
          let a := fresh "a" in let Ha := fresh "Ha" in intros a Ha ]
  | |- keeps _ (match ?x with _ => _ end) _ => destruct x
  | |- keeps _ _ _ => solve [eauto with keeps]
  | |- True => exact I
  end.
Ltac keeps_solve := repeat keeps_step.

(** [run_step H] runs the first statement of a program with the equation
    [H]; [inv_prog] takes apart the successful run of a sequence. *)
Ltac run_step H := erewrite bind_run by (eapply H; eauto); cbv beta iota.
Ltac inv_prog :=
  repeat match goal with
    | H : (_ ≫= _) _ = Ok _ |- _ =>
        apply bind_inv in H as (? & ? & ? & H)
    | H : mret _ _ = Ok _ |- _ => unfold mret, prog_ret in H
    | x : _ * _ |- _ => destruct x; cbn [fst snd] in *
    | _ => progress simplify_eq
    end.

(** ** Machine integers

    An unsigned [w]-bit integer is a [Z] in [0, 2^w), a signed one a [Z] in
    [-2^(w-1), 2^(w-1)); a conversion wraps modulo [2^w]. *)

Definition u8  (z : Z) : Z := z mod 256.
Definition u16 (z : Z) : Z := z mod 65536.
Definition u32 (z : Z) : Z := z mod 4294967296.
Definition u64 (z : Z) : Z := z mod 18446744073709551616.
Definition i8  (z : Z) : Z := (z + 128) mod 256 - 128.
Definition i16 (z : Z) : Z := (z + 32768) mod 65536 - 32768.
Definition i32 (z : Z) : Z := (z + 2147483648) mod 4294967296 - 2147483648.
Definition i64 (z : Z) : Z :=
  (z + 9223372036854775808) mod 18446744073709551616 - 9223372036854775808.

(** [int_solve] decides linear goals that mention the conversions. *)
Ltac int_solve :=
  unfold u8, u16, u32, u64, i8, i16, i32, i64 in *;
  Z.to_euclidean_division_equations; lia.

Lemma u8_range z : 0 <= u8 z < 256.
Proof. int_solve. Qed.
Lemma u16_range z : 0 <= u16 z < 65536.
Proof. int_solve. Qed.
Lemma u32_range z : 0 <= u32 z < 4294967296.
Proof. int_solve. Qed.
Lemma i32_range z : -2147483648 <= i32 z < 2147483648.
Proof. int_solve. Qed.
Lemma u16_small z : 0 <= z < 65536 -> u16 z = z.
Proof. int_solve. Qed.
Lemma u32_small z : 0 <= z < 4294967296 -> u32 z = z.
Proof. int_solve. Qed.
Lemma u64_small z : 0 <= z < 18446744073709551616 -> u64 z = z.
Proof. int_solve. Qed.
Lemma i8_small z : -128 <= z < 128 -> i8 z = z.
Proof. int_solve. Qed.
Lemma i16_small z : -32768 <= z < 32768 -> i16 z = z.
Proof. int_solve. Qed.
Lemma i32_small z : -2147483648 <= z < 2147483648 -> i32 z = z.
Proof. int_solve. Qed.
Lemma u16_i16 z : u16 (i16 z) = u16 z.
Proof. int_solve. Qed.
Lemma i16_u16 z : i16 (u16 z) = i16 z.
Proof. int_solve. Qed.
Lemma u32_i32 z : u32 (i32 z) = u32 z.
Proof. int_solve. Qed.
Lemma i32_u32 z : i32 (u32 z) = i32 z.
Proof. int_solve. Qed.

(** ** Bytes *)

Definition is_byte (z : Z) : Prop := 0 <= z < 256.
#[global] Instance is_byte_dec z : Decision (is_byte z) := _.

(** The object representation of an [n]-byte integer on the (little-endian)
    host, and the integer a representation holds. *)
Fixpoint le_bytes (n : nat) (z : Z) : list Z :=
  match n with
  | O => []
  | S n => z mod 256 :: le_bytes n (z / 256)
  end.

Fixpoint le_value (bs : list Z) : Z :=
  match bs with
  | [] => 0
  | b :: bs => b + 256 * le_value bs
  end.

(** The length of a list as a [Z]. *)
Abbreviation zlen l := (Z.of_nat (length l)).

Section bytes_lemmas.
Implicit Types (bs : list Z).

Lemma length_le_bytes n z : length (le_bytes n z) = n.
Proof. revert z; induction n; intros; cbn; auto. Qed.

Lemma le_bytes_is_byte n z : Forall is_byte (le_bytes n z).
Proof.
  revert z; induction n; intros; cbn; constructor; auto.
  unfold is_byte. int_solve.
Qed.

Lemma le_value_bytes n z : le_value (le_bytes n z) = z mod 256 ^ Z.of_nat n.
Proof.
  revert z; induction n as [|n IH]; intros z.
  - cbn. by rewrite Z.mod_1_r.
  - cbn [le_bytes le_value].
    rewrite IH, Nat2Z.inj_succ, Z.pow_succ_r, Z.rem_mul_r by lia. lia.
Qed.

Lemma le_bytes_value bs :
  Forall is_byte bs -> le_bytes (length bs) (le_value bs) = bs.
Proof.
  induction 1 as [|b bs Hb Hbs IH]; [done|].
  cbn [length le_bytes le_value]. unfold is_byte in Hb.
  replace ((b + 256 * le_value bs) mod 256) with b by int_solve.
  replace ((b + 256 * le_value bs) / 256) with (le_value bs) by int_solve.
  by rewrite IH.
Qed.

Lemma le_value_range bs :
  Forall is_byte bs -> 0 <= le_value bs < 256 ^ zlen bs.
Proof.
  intros Hbs. rewrite <- (le_bytes_value bs) at 1 2 by done.
  rewrite le_value_bytes. apply Z.mod_pos_bound. lia.
Qed.
End bytes_lemmas.

(** The bytes of an ASCII literal. *)
Definition bytes_of_string (s : string) : list Z :=
  map (fun a => Z.of_nat (Ascii.nat_of_ascii a)) (String.list_ascii_of_string s).

(** ** Lists *)

(** The [n] elements at offset [off], if they lie inside the list. *)
Definition slice {A} (l : list A) (off n : Z) : option (list A) :=
  if decide (0 <= off /\ 0 <= n /\ off + n <= zlen l)
  then Some (take (Z.to_nat n) (drop (Z.to_nat off) l))
  else None.

(** [l] with the elements at offset [off] on replaced by [xs]. *)
Definition splice {A} (l : list A) (off : Z) (xs : list A) : list A :=
  take (Z.to_nat off) l ++ xs ++ drop (Z.to_nat off + length xs) l.

Section list_lemmas.
Context {A : Type}.
Implicit Types (l xs ys : list A).

Lemma slice_Some l off n xs :
  slice l off n = Some xs <->
  exists pre post, l = pre ++ xs ++ post /\ zlen pre = off /\ zlen xs = n.
Proof.
  unfold slice. split.
  - case_decide as Hd; [|done]. intros [= <-].
    exists (take (Z.to_nat off) l), (drop (Z.to_nat n) (drop (Z.to_nat off) l)).
    rewrite !take_drop. split; [done|].
    rewrite !length_take, length_drop. lia.
  - intros (pre & post & -> & <- & <-).
    rewrite decide_True by (rewrite !length_app; lia).
    by rewrite !Nat2Z.id, drop_app_length, take_app_length.
Qed.

Lemma slice_length l off n xs : slice l off n = Some xs -> zlen xs = n.
Proof. intros (?&?&?&?&?)%slice_Some. done. Qed.

Lemma slice_app l off n m xs ys :
  slice l off n = Some xs -> slice l (off + n) m = Some ys ->
  slice l off (n + m) = Some (xs ++ ys).
Proof.
  unfold slice. do 2 (case_decide; [|done]). intros [= <-] [= <-].
  rewrite decide_True by lia.
  rewrite (Z2Nat.inj_add off n), (Z2Nat.inj_add n m) by lia.
  by rewrite <- (drop_drop l), take_take_drop.
Qed.

Lemma slice_app_inv l off n m zs :
  0 <= n -> 0 <= m -> slice l off (n + m) = Some zs ->
  slice l off n = Some (take (Z.to_nat n) zs) /\
  slice l (off + n) m = Some (drop (Z.to_nat n) zs).
Proof.
  intros Hn Hm (pre & post & -> & Hpre & Hzs)%slice_Some.
  split; apply slice_Some.
  - exists pre, (drop (Z.to_nat n) zs ++ post).
    rewrite (app_assoc (take _ _)), take_drop.
    split; [done|]. rewrite length_take. lia.
  - exists (pre ++ take (Z.to_nat n) zs), post.
    rewrite <- app_assoc, (app_assoc (take _ zs)), take_drop.
    split; [done|]. rewrite length_app, length_take, length_drop. lia.
Qed.

Lemma length_splice l off xs :
  0 <= off -> off + zlen xs <= zlen l -> length (splice l off xs) = length l.
Proof.
  intros. unfold splice. rewrite !length_app, length_take, length_drop. lia.
Qed.

Lemma splice_nil l off : splice l off [] = l.
Proof. unfold splice. cbn. rewrite Nat.add_0_r. apply take_drop. Qed.

Lemma splice_app l off xs ys :
  0 <= off -> off + zlen xs <= zlen l ->
  splice (splice l off xs) (off + zlen xs) ys = splice l off (xs ++ ys).
Proof.
  intros H0 H1. unfold splice.
  set (pre := take (Z.to_nat off) l).
  assert (Hpre : zlen pre = off) by (subst pre; rewrite length_take; lia).
  replace (Z.to_nat (off + zlen xs)) with (length (pre ++ xs))%nat
    by (rewrite length_app; lia).
  rewrite (app_assoc pre xs), take_app_length, drop_app_add, drop_drop.
  by rewrite <- !app_assoc, length_app, Nat.add_assoc.
Qed.

Lemma slice_splice l off xs :
  0 <= off -> off + zlen xs <= zlen l ->
  slice (splice l off xs) off (zlen xs) = Some xs.
Proof.
  intros. apply slice_Some. unfold splice. do 2 eexists. split; [done|].
  rewrite length_take. lia.
Qed.

Lemma splice_replicate (x : A) n m xs :
  splice (replicate (n + length xs + m) x) (Z.of_nat n) xs =
  replicate n x ++ xs ++ replicate m x.
Proof.
  unfold splice. rewrite Nat2Z.id, take_replicate, drop_replicate.
  f_equal; [f_equal; lia|]. f_equal. f_equal. lia.
Qed.
End list_lemmas.

Create HintDb cql.
Create Rewrite HintDb len.
#[export] Hint Resolve le_bytes_is_byte u8_range u16_range u32_range : cql.
#[export] Hint Rewrite @length_app @length_map @length_take @length_drop
  @length_replicate length_le_bytes @length_rev @length_cons : len.
Ltac len_solve := autorewrite with len in *; cbn [length] in *; lia.
