(* ===== verification/Memory.v ===== *)
(** * Memory

    The part of the C++ memory the driver reads and writes through [char*]:
    blocks allocated by [new char[n]], read and written through pointers, and
    released by [delete].  Every access is checked against the block, so a
    buffer overrun, the use of an indeterminate byte, a use after free and a
    double delete are faults of the model.  The size a block really has is the
    allocator's business ([usable]): the language guarantees at least the
    requested size. *)

From S2P Require Import Prelude.

(** ** Blocks, pointers, the heap *)

(** A byte of memory: indeterminate until it is written. *)
Abbreviation cell := (option Z).
Abbreviation block := (list cell).

(** Blocks are numbered in the order of their allocation; a deleted block
    keeps its number. *)
Abbreviation heap := (list (option block)).

(** A [char*]: null, into a block of the heap, or into the characters of a
    string constant or std::string, which end in a NUL. *)
Inductive ptr : Set :=
  | Null
  | Heap (l : nat) (off : Z)
  | Chars (s : list Z) (off : Z).

#[global] Instance ptr_eq_dec : EqDecision ptr.
Proof. solve_decision. Defined.

Definition padd (p : ptr) (n : Z) : ptr :=
  match p with
  | Null => Null
  | Heap l off => Heap l (off + n)
  | Chars s off => Chars s (off + n)
  end.

(** The bytes [malloc] makes usable for a request of [n] bytes. *)
Class Allocator := {
  usable : Z -> Z;
  usable_ge : forall n, n <= usable n
}.

(** The allocator that adds nothing to a request. *)
Definition exact_allocator : Allocator := {|
  usable := fun n => n;
  usable_ge := Z.le_refl
|}.

(** The allocator of a 64-bit glibc: chunks of at least 24 usable bytes, in
    steps of 16. *)
Definition glibc_usable (n : Z) : Z := Z.max 24 ((n + 23) / 16 * 16 - 8).

Lemma glibc_usable_ge n : n <= glibc_usable n.
Proof. unfold glibc_usable. int_solve. Qed.

Definition glibc_allocator : Allocator := {|
  usable := glibc_usable;
  usable_ge := glibc_usable_ge
|}.

(** ** Accesses *)

Definition block_at (l : nat) (h : heap) : outcome block :=
  match h !! l with
  | Some (Some b) => Ok b
  | Some None => Fault UseAfterFree
  | None => Fault OutOfBounds
  end.

(** The cells a pointer reaches: those of its block, or of its constant. *)
Definition target (p : ptr) (h : heap) : outcome (block * Z) :=
  match p with
  | Null => Fault NullPointer
  | Heap l off =>
      match block_at l h with Ok b => Ok (b, off) | Fault f => Fault f end
  | Chars s off => Ok (Some <$> (s ++ [0]), off)
  end.

(** The source of [memcpy(_, p, n)]: the cells are copied as they are. *)
Definition read_cells (p : ptr) (n : Z) : prog heap block := fun h =>
  if decide (n = 0) then Ok ([], h) else
  match target p h with
  | Ok (b, off) =>
      match slice b off n with
      | Some cs => Ok (cs, h)
      | None => Fault OutOfBounds
      end
  | Fault f => Fault f
  end.

Definition initialised (cs : block) : option (list Z) := mapM id cs.

(** [n] bytes whose values are used. *)
Definition read_bytes (p : ptr) (n : Z) : prog heap (list Z) :=
  cs ← read_cells p n;
  match initialised cs with
  | Some bs => mret bs
  | None => fail Uninitialised
  end.

(** The characters of a NUL-terminated string: the cells up to the first NUL;
    running off the block is an overrun. *)
Fixpoint scan_nul (cs : block) : outcome (list Z) :=
  match cs with
  | [] => Fault OutOfBounds
  | None :: _ => Fault Uninitialised
  | Some b :: cs =>
      if decide (b = 0) then Ok [] else
      match scan_nul cs with Ok bs => Ok (b :: bs) | Fault f => Fault f end
  end.

Definition read_cstring (p : ptr) : prog heap (list Z) := fun h =>
  match target p h with
  | Ok (b, off) =>
      if decide (0 <= off) then
        match scan_nul (drop (Z.to_nat off) b) with
        | Ok bs => Ok (bs, h)
        | Fault f => Fault f
        end
      else Fault OutOfBounds
  | Fault f => Fault f
  end.

Definition write_cells (p : ptr) (cs : block) : prog heap unit := fun h =>
  if decide (cs = []) then Ok (tt, h) else
  match p with
  | Null => Fault NullPointer
  | Chars _ _ => Fault ReadOnly
  | Heap l off =>
      match block_at l h with
      | Ok b =>
          if decide (0 <= off /\ off + zlen cs <= zlen b)
          then Ok (tt, <[l := Some (splice b off cs)]> h)
          else Fault OutOfBounds
      | Fault f => Fault f
      end
  end.

Definition write_bytes (p : ptr) (bs : list Z) : prog heap unit :=
  write_cells p (Some <$> bs).

(** [memcpy(dst, src, n)]. *)
Definition memcpy (dst src : ptr) (n : Z) : prog heap unit :=
  cs ← read_cells src n;
  write_cells dst cs.

(** [new char[n]] for an [n] that was converted to size_t: lengths above
    PTRDIFF_MAX throw. *)
Definition new_chars `{Allocator} (n : Z) : prog heap ptr := fun h =>
  if decide (u64 n < 9223372036854775808)
  then Ok (Heap (length h) 0,
           h ++ [Some (replicate (Z.to_nat (usable (u64 n))) None)])
  else Fault BadArrayLength.

(** [delete p]. *)
Definition delete_chars (p : ptr) : prog heap unit := fun h =>
  match p with
  | Null => Ok (tt, h)
  | Heap l 0 =>
      match block_at l h with
      | Ok _ => Ok (tt, <[l := None]> h)
      | Fault f => Fault f
      end
  | _ => Fault OutOfBounds
  end.

(** ** What a pointer points to *)

Definition cells_at (h : heap) (p : ptr) (cs : block) : Prop :=
  read_cells p (zlen cs) h = Ok (cs, h).

Definition bytes_at (h : heap) (p : ptr) (bs : list Z) : Prop :=
  cells_at h p (Some <$> bs).

Lemma initialised_Some bs : initialised (Some <$> bs) = Some bs.
Proof.
  unfold initialised. induction bs as [|b bs IH]; [done|].
  cbn. by rewrite IH.
Qed.

Lemma initialised_inv cs bs : initialised cs = Some bs -> cs = Some <$> bs.
Proof.
  unfold initialised. revert bs. induction cs as [|c cs IH]; intros bs.
  - by intros [= <-].
  - cbn. destruct c as [b|]; [|done]. cbn.
    destruct (mapM id cs) as [bs'|]; [|done]. intros [= <-].
    cbn. by rewrite (IH bs').
Qed.

Section memory_lemmas.
Implicit Types (h : heap) (p : ptr) (cs : block) (bs : list Z).

Lemma read_cells_at h p cs n :
  cells_at h p cs -> n = zlen cs -> read_cells p n h = Ok (cs, h).
Proof. by intros ? ->. Qed.

Lemma read_bytes_at h p bs n :
  bytes_at h p bs -> n = zlen bs -> read_bytes p n h = Ok (bs, h).
Proof.
  intros Hat ->. unfold read_bytes.
  erewrite bind_run.
  2:{ apply (read_cells_at h p _ _ Hat). by rewrite length_fmap. }
  by rewrite initialised_Some.
Qed.

Lemma read_cells_heap h p n h' cs :
  read_cells p n h = Ok (cs, h') -> h' = h.
Proof. unfold read_cells. intros. repeat case_match; by simplify_eq. Qed.

Lemma read_bytes_heap h p n h' bs :
  read_bytes p n h = Ok (bs, h') -> h' = h.
Proof.
  unfold read_bytes. intros (cs & h1 & Hr & Hi)%bind_inv.
  apply read_cells_heap in Hr as ->. case_match; by inv_prog.
Qed.

Lemma read_cells_length h p n h' cs :
  read_cells p n h = Ok (cs, h') -> 0 <= n /\ zlen cs = n.
Proof.
  unfold read_cells. case_decide; [by intros [= <- <-]; subst|].
  repeat case_match; try done. intros [= <- <-].
  match goal with Hs : slice _ _ _ = Some _ |- _ =>
    pose proof (slice_length _ _ _ _ Hs) end.
  lia.
Qed.

Lemma cells_at_read h p n h' cs :
  read_cells p n h = Ok (cs, h') -> cells_at h p cs.
Proof.
  intros Hr. pose proof (read_cells_heap _ _ _ _ _ Hr) as ->.
  pose proof (read_cells_length _ _ _ _ _ Hr) as [_ <-]. exact Hr.
Qed.

Lemma bytes_at_read h p n h' bs :
  read_bytes p n h = Ok (bs, h') -> bytes_at h p bs /\ zlen bs = n.
Proof.
  unfold read_bytes. intros Hr. apply bind_inv in Hr as (cs & h1 & Hr & Hi).
  destruct (initialised cs) as [bs'|] eqn:E; [|done].
  injection Hi as -> ->. apply initialised_inv in E as ->.
  split; [by eapply cells_at_read|].
  apply read_cells_length in Hr as [_ Hl]. by rewrite length_fmap in Hl.
Qed.

Lemma cells_at_nil h p : cells_at h p [].
Proof. done. Qed.

Lemma target_padd h p b off n :
  target p h = Ok (b, off) -> target (padd p n) h = Ok (b, off + n).
Proof.
  destruct p as [|l o|s o]; cbn; [done| |].
  - destruct (block_at l h); [|done]. by intros [= -> ->].
  - by intros [= <- ->].
Qed.

(** Reading across a boundary is reading both sides. *)
Lemma cells_at_app h p cs1 cs2 :
  cells_at h p (cs1 ++ cs2) <->
  cells_at h p cs1 /\ cells_at h (padd p (zlen cs1)) cs2.
Proof.
  unfold cells_at, read_cells.
  destruct cs1 as [|c1 cs1].
  { assert (padd p (zlen (@nil cell)) = p) as ->.
    { destruct p; cbn; f_equal; lia. }
    cbn. tauto. }
  destruct cs2 as [|c2 cs2]; [rewrite app_nil_r; cbn; tauto|].
  rewrite !decide_False by (cbn; lia).
  destruct (target p h) as [[b off]|f] eqn:E.
  2:{ split; [done|]. intros [[=] _]. }
  rewrite (target_padd _ _ _ _ _ E), length_app, Nat2Z.inj_add. split.
  - intros H. destruct (slice b off _) as [cs|] eqn:Es; [|done].
    injection H as ->.
    apply slice_app_inv in Es as [-> ->]; [|lia..].
    rewrite Nat2Z.id, (app_comm_cons cs1).
    by rewrite take_app_length, drop_app_length.
  - intros [H1 H2].
    destruct (slice b off _) as [cs|] eqn:Es1; [|done]. injection H1 as ->.
    destruct (slice b (off + _) _) as [cs|] eqn:Es2; [|done].
    injection H2 as ->.
    by rewrite (slice_app _ _ _ _ _ _ Es1 Es2).
Qed.

Lemma bytes_at_app h p bs1 bs2 :
  bytes_at h p (bs1 ++ bs2) <->
  bytes_at h p bs1 /\ bytes_at h (padd p (zlen bs1)) bs2.
Proof.
  unfold bytes_at. by rewrite fmap_app, cells_at_app, length_fmap.
Qed.

Lemma padd_padd p n m : padd (padd p n) m = padd p (n + m).
Proof. destruct p; cbn; f_equal; lia. Qed.

Lemma padd_0 p : padd p 0 = p.
Proof. destruct p; cbn; f_equal; lia. Qed.

Lemma cells_at_heap h l off b cs :
  h !! l = Some (Some b) -> slice b off (zlen cs) = Some cs ->
  cells_at h (Heap l off) cs.
Proof.
  intros Hl Hs. unfold cells_at, read_cells, target, block_at.
  rewrite Hl, Hs. case_decide; [|done]. by destruct cs.
Qed.

Lemma bytes_at_chars h s : bytes_at h (Chars s 0) s.
Proof.
  unfold bytes_at, cells_at, read_cells. cbn. case_decide as Hd.
  - destruct s; [done|]. cbn in Hd. lia.
  - rewrite (proj2 (slice_Some _ _ _ (Some <$> s))); [done|].
    exists [], [Some 0]. by rewrite fmap_app.
Qed.

(** A read that does not touch block [l] is not changed by writing it. *)
Definition off_block (l : nat) (p : ptr) : Prop :=
  match p with Heap l' _ => l' <> l | _ => True end.

Lemma cells_at_insert h l p cs ob :
  (cs <> [] -> off_block l p) -> cells_at h p cs ->
  cells_at (<[l := ob]> h) p cs.
Proof.
  unfold cells_at, read_cells. intros Hp. case_decide.
  { by intros [= <-]. }
  assert (off_block l p) as Hp' by (apply Hp; by destruct cs).
  clear Hp; rename Hp' into Hp.
  destruct p as [|l' off|s off]; cbn in *; [done| |].
  - unfold block_at. rewrite list_lookup_insert_ne by done.
    repeat case_match; naive_solver.
  - case_match; naive_solver.
Qed.

Lemma cells_at_alloc h p cs x :
  cells_at h p cs -> cells_at (h ++ [x]) p cs.
Proof.
  unfold cells_at, read_cells. case_decide; [by intros [= <-]|].
  destruct p as [|l off|s off]; cbn; [done| |].
  - unfold block_at. destruct (h !! l) as [ob|] eqn:E; [|done].
    rewrite lookup_app_l by (by eapply lookup_lt_Some). rewrite E.
    repeat case_match; naive_solver.
  - case_match; naive_solver.
Qed.

Lemma cells_at_fresh h p cs :
  cells_at h p cs -> cs <> [] -> off_block (length h) p.
Proof.
  unfold cells_at, read_cells. intros Hr Hcs.
  rewrite decide_False in Hr by (destruct cs; cbn; [done|lia]).
  destruct p as [|l off|s off]; cbn in *; [done| |done].
  unfold block_at in Hr. destruct (h !! l) as [ob|] eqn:E; [|done].
  apply lookup_lt_Some in E. lia.
Qed.

Lemma write_cells_run h l off b cs :
  h !! l = Some (Some b) -> 0 <= off -> off + zlen cs <= zlen b ->
  write_cells (Heap l off) cs h = Ok (tt, <[l := Some (splice b off cs)]> h).
Proof.
  intros Hl H0 Hb. unfold write_cells, block_at. rewrite Hl.
  case_decide as Hd.
  - subst cs. rewrite splice_nil. by rewrite list_insert_id.
  - by rewrite decide_True by lia.
Qed.

Lemma write_cells_oob h l off b cs :
  h !! l = Some (Some b) -> cs <> [] -> zlen b < off + zlen cs ->
  write_cells (Heap l off) cs h = Fault OutOfBounds.
Proof.
  intros Hl Hcs Hb. unfold write_cells, block_at.
  rewrite decide_False by done. rewrite Hl. by rewrite decide_False by lia.
Qed.

(** Two writes that meet are one write, faults included. *)
Lemma write_cells_app {A} p cs1 cs2 (k : prog heap A) h :
  cs2 <> [] ->
  (write_cells p cs1 ;; write_cells (padd p (zlen cs1)) cs2 ;; k) h =
  (write_cells p (cs1 ++ cs2) ;; k) h.
Proof.
  intros Hcs. destruct (decide (cs1 = [])) as [->|Hne].
  { cbn [length app]. by rewrite padd_0. }
  unfold mbind, prog_bind, write_cells at 1 3. rewrite !decide_False; [|by destruct cs1|done].
  destruct p as [|l off|]; [done| |done]. unfold block_at.
  destruct (h !! l) as [[b|]|] eqn:Hl; [|done..].
  destruct (decide (0 <= off /\ off + zlen cs1 <= zlen b)) as [Hb|Hb].
  - unfold write_cells. cbn [padd]. rewrite decide_False by done. unfold block_at.
    rewrite list_lookup_insert_eq by by eapply lookup_lt_Some.
    rewrite length_splice, length_app by lia.
    destruct (decide (0 <= off + zlen cs1 /\ _)) as [Hb2|Hb2].
    + rewrite decide_True by lia.
      by rewrite list_insert_insert_eq, splice_app by lia.
    + by rewrite decide_False by lia.
  - by rewrite decide_False by (rewrite length_app; lia).
Qed.

Lemma new_chars_run `{Allocator} h n :
  0 <= n < 9223372036854775808 ->
  new_chars n h =
    Ok (Heap (length h) 0, h ++ [Some (replicate (Z.to_nat (usable n)) None)]).
Proof.
  intros. unfold new_chars. rewrite u64_small by lia.
  by rewrite decide_True by lia.
Qed.
End memory_lemmas.

#[export] Hint Resolve cells_at_nil bytes_at_chars : cql.
