(* ===== verification/StdMap.v ===== *)
(** * std::map over strings

    A [std::map<std::string, V>] is the list of its entries in the order of
    its iteration: strictly ascending keys, compared byte by byte.  [insert]
    keeps an entry that is present, [operator[]] overwrites it.  A
    [std::unordered_map] is only read through [find], so it is modelled by the
    same operations. *)

From S2P Require Import Prelude.

(** The order of std::string: bytes as unsigned values, a prefix first. *)
Fixpoint bytes_lt (a b : list Z) : bool :=
  match a, b with
  | _, [] => false
  | [], _ :: _ => true
  | x :: a, y :: b => (x <? y) || (x =? y) && bytes_lt a b
  end.

Definition blt (a b : list Z) : Prop := bytes_lt a b = true.
#[global] Instance blt_dec a b : Decision (blt a b) := decide (bytes_lt a b = true).

Section std_map.
Context {V : Type}.
Abbreviation map := (list (list Z * V)).
Implicit Types (m : map) (k : list Z) (v : V).

Fixpoint find k m : option V :=
  match m with
  | [] => None
  | (k', v') :: m => if decide (k = k') then Some v' else find k m
  end.

(** [map.insert(std::make_pair(k, v))]. *)
Fixpoint map_insert k v m : map :=
  match m with
  | [] => [(k, v)]
  | (k', v') :: m' =>
      if decide (k = k') then m
      else if decide (blt k k') then (k, v) :: m
      else (k', v') :: map_insert k v m'
  end.

(** [map[k] = v]. *)
Fixpoint map_assign k v m : map :=
  match m with
  | [] => [(k, v)]
  | (k', v') :: m' =>
      if decide (k = k') then (k, v) :: m'
      else if decide (blt k k') then (k, v) :: m
      else (k', v') :: map_assign k v m'
  end.

(** The representation invariant: keys strictly ascending. *)
Definition map_sorted m : Prop := StronglySorted blt m.*1.
End std_map.

(** ** The order is a strict total order *)

Lemma blt_irrefl a : ~ blt a a.
Proof.
  unfold blt. induction a as [|x a IH]; cbn; [done|].
  rewrite Z.ltb_irrefl, Z.eqb_refl. exact IH.
Qed.

Lemma blt_cons x y a b : blt (x :: a) (y :: b) <-> x < y \/ x = y /\ blt a b.
Proof.
  unfold blt. cbn. by rewrite orb_true_iff, andb_true_iff, Z.ltb_lt, Z.eqb_eq.
Qed.

Lemma blt_trans a b c : blt a b -> blt b c -> blt a c.
Proof.
  revert b c. induction a as [|x a IH]; intros [|y b] [|z c]; try done.
  rewrite !blt_cons. intros [?|[-> ?]] [?|[<- ?]]; eauto with lia.
Qed.

Lemma blt_total a b : blt a b \/ a = b \/ blt b a.
Proof.
  revert b. induction a as [|x a IH]; intros [|y b]; [by right; left|by left| |].
  { by right; right. }
  rewrite !blt_cons. destruct (Z.lt_total x y) as [?|[->|?]]; [by auto| |by auto].
  destruct (IH b) as [?|[->|?]]; auto.
Qed.

#[global] Instance blt_transitive : Transitive blt := blt_trans.

Section std_map_lemmas.
Context {V : Type}.
Implicit Types (m : list (list Z * V)) (k : list Z) (v : V).

Lemma elem_of_insert k k' v m :
  k' ∈ (map_insert k v m).*1 <-> k' = k \/ k' ∈ m.*1.
Proof.
  induction m as [|[k1 v1] m IH]; cbn; [set_solver|].
  repeat case_decide; cbn; set_solver.
Qed.

Lemma elem_of_assign k k' v m :
  k' ∈ (map_assign k v m).*1 <-> k' = k \/ k' ∈ m.*1.
Proof.
  induction m as [|[k1 v1] m IH]; cbn; [set_solver|].
  repeat case_decide; cbn; set_solver.
Qed.

(** Inserting keeps the keys sorted. *)
Lemma insert_sorted k v m : map_sorted m -> map_sorted (map_insert k v m).
Proof.
  unfold map_sorted. induction m as [|[k1 v1] m IH]; cbn.
  { repeat constructor. }
  intros [Hm Hk]%StronglySorted_inv.
  repeat case_decide; cbn; constructor; auto.
  - by constructor.
  - constructor; [done|]. rewrite Forall_forall in *. eauto using blt_trans.
  - rewrite Forall_forall in *. intros x Hx%elem_of_insert.
    destruct (blt_total k1 k) as [?|[?|?]]; naive_solver.
Qed.

Lemma assign_sorted k v m : map_sorted m -> map_sorted (map_assign k v m).
Proof.
  unfold map_sorted. induction m as [|[k1 v1] m IH]; cbn.
  { repeat constructor. }
  intros [Hm Hk]%StronglySorted_inv.
  repeat case_decide; cbn; simplify_eq; constructor; auto.
  - by constructor.
  - constructor; [done|]. rewrite Forall_forall in *. eauto using blt_trans.
  - rewrite Forall_forall in *. intros x Hx%elem_of_assign.
    destruct (blt_total k1 k) as [?|[?|?]]; naive_solver.
Qed.

Lemma find_insert_eq k v m :
  map_sorted m ->
  find k (map_insert k v m) =
    match find k m with Some v' => Some v' | None => Some v end.
Proof.
  unfold map_sorted. induction m as [|[k1 v1] m IH]; cbn.
  { by rewrite decide_True. }
  intros [Hm Hk]%StronglySorted_inv.
  destruct (decide (k = k1)) as [->|Hne].
  { cbn. by rewrite decide_True. }
  case_decide as Hlt; cbn.
  - rewrite decide_True by done.
    destruct (find k m) as [v'|] eqn:E; [|done]. exfalso.
    assert (k ∈ m.*1) as Hin.
    { clear -E. induction m as [|[k2 v2] m IH]; cbn in *; [done|].
      case_decide; set_solver. }
    rewrite Forall_forall in Hk.
    eapply blt_irrefl, blt_trans; [exact Hlt|by apply Hk].
  - rewrite decide_False by done. auto.
Qed.

Lemma find_insert_ne k k' v m :
  k <> k' -> find k' (map_insert k v m) = find k' m.
Proof.
  intros Hne. induction m as [|[k1 v1] m IH]; cbn; [by rewrite decide_False|].
  repeat case_decide; cbn; subst; repeat case_decide; congruence.
Qed.

(** Appending an entry above every key. *)
Lemma insert_last k v m :
  Forall (fun k' => blt k' k) m.*1 -> map_insert k v m = m ++ [(k, v)].
Proof.
  induction m as [|[k1 v1] m IH]; cbn; [done|].
  intros [Hk1 Hm]%Forall_cons. rewrite !decide_False; [by rewrite IH| |].
  - intros Hlt. eapply blt_irrefl, blt_trans; eauto.
  - intros ->. by eapply blt_irrefl.
Qed.

Lemma sorted_app m1 m2 :
  map_sorted (m1 ++ m2) ->
  map_sorted m1 /\ map_sorted m2 /\
  forall k, k ∈ m2.*1 -> Forall (fun k' => blt k' k) m1.*1.
Proof.
  unfold map_sorted. rewrite fmap_app.
  induction m1 as [|[k1 v1] m1 IH]; cbn.
  { intros. split_and!; [constructor|done|]. constructor. }
  intros [Hm Hk]%StronglySorted_inv. apply IH in Hm as (H1 & H2 & H3).
  apply Forall_app in Hk as [Hk1 Hk2]. split_and!.
  - by constructor.
  - done.
  - intros k Hk. constructor; [|by apply H3].
    rewrite Forall_forall in Hk2. by apply Hk2.
Qed.

(** Inserting a sorted run of entries one by one appends it. *)
Lemma insert_run m1 m2 :
  map_sorted (m1 ++ m2) ->
  foldl (fun m e => map_insert e.1 e.2 m) m1 m2 = m1 ++ m2.
Proof.
  revert m1. induction m2 as [|[k v] m2 IH]; intros m1 Hs; cbn.
  { by rewrite app_nil_r. }
  rewrite insert_last.
  - rewrite IH by by rewrite <- app_assoc. by rewrite <- app_assoc.
  - apply sorted_app in Hs as (_ & _ & Hs). apply Hs. cbn. set_solver.
Qed.
End std_map_lemmas.

#[export] Hint Resolve insert_sorted assign_sorted : cql.
