(* ===== verification/Common.v ===== *)
(** * cql.h, cql_error.hpp, cql_common.hpp

    The constants of the public header, the error value, the names of the
    opcodes and the buffer helpers. *)

From S2P Require Import Prelude Memory.

(** ** cql.h *)

(** Log levels. *)
Definition CQL_LOG_CRITICAL : Z := 0x00.
Definition CQL_LOG_ERROR : Z := 0x01.
Definition CQL_LOG_INFO : Z := 0x02.
Definition CQL_LOG_DEBUG : Z := 0x03.

(** Error sources. *)
Definition CQL_ERROR_SOURCE_OS : Z := 1.
Definition CQL_ERROR_SOURCE_NETWORK : Z := 2.
Definition CQL_ERROR_SOURCE_SSL : Z := 3.
Definition CQL_ERROR_SOURCE_COMPRESSION : Z := 4.
Definition CQL_ERROR_SOURCE_SERVER : Z := 5.
Definition CQL_ERROR_SOURCE_LIBRARY : Z := 6.

(** Error codes. *)
Definition CQL_ERROR_NO_ERROR : Z := 0.
Definition CQL_ERROR_SSL_CERT : Z := 1000000.
Definition CQL_ERROR_SSL_PRIVATE_KEY : Z := 1000001.
Definition CQL_ERROR_SSL_CA_CERT : Z := 1000002.
Definition CQL_ERROR_SSL_CRL : Z := 1000003.
Definition CQL_ERROR_SSL_READ : Z := 1000004.
Definition CQL_ERROR_SSL_WRITE : Z := 1000005.
Definition CQL_ERROR_SSL_READ_WAITING : Z := 1000006.
Definition CQL_ERROR_SSL_WRITE_WAITING : Z := 1000007.
Definition CQL_ERROR_LIB_NO_STREAMS : Z := 1000008.
Definition CQL_ERROR_LIB_MAX_CONNECTIONS : Z := 1000009.

(** Opcodes of the native protocol. *)
Definition CQL_OPCODE_ERROR : Z := 0x00.
Definition CQL_OPCODE_STARTUP : Z := 0x01.
Definition CQL_OPCODE_READY : Z := 0x02.
Definition CQL_OPCODE_AUTHENTICATE : Z := 0x03.
Definition CQL_OPCODE_CREDENTIALS : Z := 0x04.
Definition CQL_OPCODE_OPTIONS : Z := 0x05.
Definition CQL_OPCODE_SUPPORTED : Z := 0x06.
Definition CQL_OPCODE_QUERY : Z := 0x07.
Definition CQL_OPCODE_RESULT : Z := 0x08.
Definition CQL_OPCODE_PREPARE : Z := 0x09.
Definition CQL_OPCODE_EXECUTE : Z := 0x0a.
Definition CQL_OPCODE_REGISTER : Z := 0x0b.
Definition CQL_OPCODE_EVENT : Z := 0x0c.

(** Consistency levels. *)
Definition CQL_CONSISTENCY_ANY : Z := 0x0000.
Definition CQL_CONSISTENCY_ONE : Z := 0x0001.
Definition CQL_CONSISTENCY_TWO : Z := 0x0002.
Definition CQL_CONSISTENCY_THREE : Z := 0x0003.
Definition CQL_CONSISTENCY_QUORUM : Z := 0x0004.
Definition CQL_CONSISTENCY_ALL : Z := 0x0005.
Definition CQL_CONSISTENCY_LOCAL_QUORUM : Z := 0x0006.
Definition CQL_CONSISTENCY_EACH_QUORUM : Z := 0x0007.
Definition CQL_CONSISTENCY_SERIAL : Z := 0x0008.
Definition CQL_CONSISTENCY_LOCAL_SERIAL : Z := 0x0009.
Definition CQL_CONSISTENCY_LOCAL_ONE : Z := 0x000a.

(** Column types. *)
Definition CQL_COLUMN_TYPE_UNKNOWN : Z := 0xffff.
Definition CQL_COLUMN_TYPE_CUSTOM : Z := 0x0000.
Definition CQL_COLUMN_TYPE_ASCII : Z := 0x0001.
Definition CQL_COLUMN_TYPE_BIGINT : Z := 0x0002.
Definition CQL_COLUMN_TYPE_BLOB : Z := 0x0003.
Definition CQL_COLUMN_TYPE_BOOLEAN : Z := 0x0004.
Definition CQL_COLUMN_TYPE_COUNTER : Z := 0x0005.
Definition CQL_COLUMN_TYPE_DECIMAL : Z := 0x0006.
Definition CQL_COLUMN_TYPE_DOUBLE : Z := 0x0007.
Definition CQL_COLUMN_TYPE_FLOAT : Z := 0x0008.
Definition CQL_COLUMN_TYPE_INT : Z := 0x0009.
Definition CQL_COLUMN_TYPE_TEXT : Z := 0x000a.
Definition CQL_COLUMN_TYPE_TIMESTAMP : Z := 0x000b.
Definition CQL_COLUMN_TYPE_UUID : Z := 0x000c.
Definition CQL_COLUMN_TYPE_VARCHAR : Z := 0x000d.
Definition CQL_COLUMN_TYPE_VARINT : Z := 0x000e.
Definition CQL_COLUMN_TYPE_TIMEUUID : Z := 0x000f.
Definition CQL_COLUMN_TYPE_INET : Z := 0x0010.
Definition CQL_COLUMN_TYPE_LIST : Z := 0x0020.
Definition CQL_COLUMN_TYPE_MAP : Z := 0x0021.
Definition CQL_COLUMN_TYPE_SET : Z := 0x0022.

(** Cluster options. *)
Definition CQL_OPTION_THREADS_IO : Z := 1.
Definition CQL_OPTION_THREADS_CALLBACK : Z := 2.
Definition CQL_OPTION_CONTACT_POINT_ADD : Z := 3.
Definition CQL_OPTION_PORT : Z := 4.
Definition CQL_OPTION_CQL_VERSION : Z := 5.
Definition CQL_OPTION_SCHEMA_AGREEMENT_WAIT : Z := 6.
Definition CQL_OPTION_CONTROL_CONNECTION_TIMEOUT : Z := 7.
Definition CQL_OPTION_COMPRESSION : Z := 9.
Definition CQL_OPTION_COMPRESSION_NONE : Z := 0.
Definition CQL_OPTION_COMPRESSION_SNAPPY : Z := 1.
Definition CQL_OPTION_COMPRESSION_LZ4 : Z := 2.

(** ** cql_error.hpp *)

(** [struct Error]; an [Error*] that may be NULL ([CQL_ERROR_NO_ERROR]) is an
    [option Error]. *)
Record Error := {
  e_source  : Z;
  e_code    : Z;
  e_message : list Z;
  e_file    : string;
  e_line    : Z
}.

(** ** cql_common.hpp *)

(** [opcode_to_string]: an opcode outside the table is an assertion failure. *)
Definition opcode_to_string (opcode : Z) : outcome string :=
  if decide (opcode = CQL_OPCODE_ERROR) then Ok "CQL_OPCODE_ERROR"%string
  else if decide (opcode = CQL_OPCODE_STARTUP) then Ok "CQL_OPCODE_STARTUP"%string
  else if decide (opcode = CQL_OPCODE_READY) then Ok "CQL_OPCODE_READY"%string
  else if decide (opcode = CQL_OPCODE_AUTHENTICATE) then Ok "CQL_OPCODE_AUTHENTICATE"%string
  else if decide (opcode = CQL_OPCODE_CREDENTIALS) then Ok "CQL_OPCODE_CREDENTIALS"%string
  else if decide (opcode = CQL_OPCODE_OPTIONS) then Ok "CQL_OPCODE_OPTIONS"%string
  else if decide (opcode = CQL_OPCODE_SUPPORTED) then Ok "CQL_OPCODE_SUPPORTED"%string
  else if decide (opcode = CQL_OPCODE_QUERY) then Ok "CQL_OPCODE_QUERY"%string
  else if decide (opcode = CQL_OPCODE_RESULT) then Ok "CQL_OPCODE_RESULT"%string
  else if decide (opcode = CQL_OPCODE_PREPARE) then Ok "CQL_OPCODE_PREPARE"%string
  else if decide (opcode = CQL_OPCODE_EXECUTE) then Ok "CQL_OPCODE_EXECUTE"%string
  else if decide (opcode = CQL_OPCODE_REGISTER) then Ok "CQL_OPCODE_REGISTER"%string
  else if decide (opcode = CQL_OPCODE_EVENT) then Ok "CQL_OPCODE_EVENT"%string
  else Fault AssertFailed.

(** The names are total exactly on the opcodes of the protocol. *)
Lemma opcode_to_string_total opcode :
  (exists s, opcode_to_string opcode = Ok s) <-> 0 <= opcode <= 12.
Proof.
  unfold opcode_to_string. repeat (case_decide; [subst; unfold
    CQL_OPCODE_ERROR, CQL_OPCODE_STARTUP, CQL_OPCODE_READY,
    CQL_OPCODE_AUTHENTICATE, CQL_OPCODE_CREDENTIALS, CQL_OPCODE_OPTIONS,
    CQL_OPCODE_SUPPORTED, CQL_OPCODE_QUERY, CQL_OPCODE_RESULT,
    CQL_OPCODE_PREPARE, CQL_OPCODE_EXECUTE, CQL_OPCODE_REGISTER,
    CQL_OPCODE_EVENT in *; split; [lia|eauto]|]).
  split; [by intros [s Hs]|].
  unfold
    CQL_OPCODE_ERROR, CQL_OPCODE_STARTUP, CQL_OPCODE_READY,
    CQL_OPCODE_AUTHENTICATE, CQL_OPCODE_CREDENTIALS, CQL_OPCODE_OPTIONS,
    CQL_OPCODE_SUPPORTED, CQL_OPCODE_QUERY, CQL_OPCODE_RESULT,
    CQL_OPCODE_PREPARE, CQL_OPCODE_EXECUTE, CQL_OPCODE_REGISTER,
    CQL_OPCODE_EVENT in *. lia.
Qed.

(** A [uv_buf_t]. *)
Record uv_buf := { buf_base : ptr; buf_len : Z }.

Section buffers.
Context `{Allocator}.

(** libuv's constructor of [uv_buf_t]. *)
Variable uv_buf_init : ptr -> Z -> uv_buf.

Definition alloc_buffer (suggested_size : Z) : prog heap uv_buf :=
  p ← new_chars suggested_size;
  mret (uv_buf_init p suggested_size).
End buffers.

Definition free_buffer (buf : uv_buf) : prog heap unit := delete_chars (buf_base buf).

(** The loop of [clear_buffer_deque], and the clearing of the deque. *)
Fixpoint free_buffers (buffers : list uv_buf) : prog heap unit :=
  match buffers with
  | [] => mret tt
  | b :: bs => free_buffer b ;; free_buffers bs
  end.

Definition clear_buffer_deque (buffers : list uv_buf) : prog heap (list uv_buf) :=
  free_buffers buffers ;; mret [].

(** Nothing uses it yet. *)
Inductive HostDistance : Set :=
  | LOCAL
  | REMOTE
  | IGNORED.
