(* ===== verification/Serialization.v ===== *)
(** * cql_serialization.hpp

    The encoders write at a [char*] and return the pointer after what they
    wrote; the decoders read at a [char*] and return the value and the pointer
    after it.  Neither is given the size of the buffer.  The theorems relate
    them to the wire format of the protocol: big-endian integers, strings with
    a two- or four-byte length. *)

From S2P Require Import Prelude Memory StdMap Common.

(** ** Byte order *)

(** The byte swap of an [n]-byte integer; on the little-endian host it is
    [htons], [ntohs], [htonl] and [ntohl]. *)
Definition bswap (n : nat) (v : Z) : Z := le_value (rev (le_bytes n v)).

Definition htons (v : Z) : Z := bswap 2 v.
Definition ntohs (v : Z) : Z := bswap 2 v.
Definition htonl (v : Z) : Z := bswap 4 v.
Definition ntohl (v : Z) : Z := bswap 4 v.

(** ** Encoders and decoders of integers and strings *)

Definition encode_byte (output : ptr) (value : Z) : prog heap ptr :=
  write_bytes output [u8 value] ;;
  mret (padd output 1).

Definition decode_short (input : ptr) : prog heap (Z * ptr) :=
  raw ← read_bytes input 2;
  mret (i16 (ntohs (le_value raw)), padd input 2).

Definition encode_short (output : ptr) (value : Z) : prog heap ptr :=
  let value := i16 value in
  let net_value := i16 (htons value) in
  write_bytes output (le_bytes 2 net_value) ;;
  mret (padd output 2).

Definition decode_int (input : ptr) : prog heap (Z * ptr) :=
  raw ← read_bytes input 4;
  mret (i32 (ntohl (le_value raw)), padd input 4).

Definition encode_int (output : ptr) (value : Z) : prog heap ptr :=
  let value := i32 value in
  let net_value := i32 (htonl value) in
  write_bytes output (le_bytes 4 net_value) ;;
  mret (padd output 4).

(** The store through [(int16_t&) size] (or [(int32_t&) size]) replaces the
    low two (four) bytes of the size_t and leaves the others. *)
Definition set_low16 (size v : Z) : Z := size / 65536 * 65536 + u16 v.
Definition set_low32 (size v : Z) : Z := size / 4294967296 * 4294967296 + u32 v.

(** Results: [*output], [size], and the pointer after the string. *)
Definition decode_string (input : ptr) (size : Z) : prog heap (ptr * Z * ptr) :=
  '(v, output) ← decode_short input;
  let size := set_low16 size v in
  mret (output, size, padd output size).

Definition encode_string (output input : ptr) (size : Z) : prog heap ptr :=
  buffer ← encode_short output size;
  memcpy buffer input size ;;
  mret (padd buffer size).

Definition decode_long_string (input : ptr) (size : Z) : prog heap (ptr * Z * ptr) :=
  '(v, output) ← decode_int input;
  let size := set_low32 size v in
  mret (output, size, padd output size).

Definition encode_long_string (output input : ptr) (size : Z) : prog heap ptr :=
  buffer ← encode_int output size;
  memcpy buffer input size ;;
  mret (padd buffer size).

(** ** Collections *)

(** The loop of [encode_string_map] over the entries of the map. *)
Fixpoint encode_entries (map : list (list Z * list Z)) (buffer : ptr)
    : prog heap ptr :=
  match map with
  | [] => mret buffer
  | (first, second) :: map =>
      buffer ← encode_string buffer (Chars first 0) (zlen first);
      buffer ← encode_string buffer (Chars second 0) (zlen second);
      encode_entries map buffer
  end.

Definition encode_string_map (output : ptr) (map : list (list Z * list Z))
    : prog heap ptr :=
  buffer ← encode_short output (zlen map);
  encode_entries map buffer.

(** [n] iterations of the loop of [decode_string_map]; [std::string(key,
    key_size)] reads the key. *)
Fixpoint decode_entries (n : nat) (buffer : ptr) (map : list (list Z * list Z))
    : prog heap (list (list Z * list Z) * ptr) :=
  match n with
  | O => mret (map, buffer)
  | S n =>
      '(key, key_size, buffer) ← decode_string buffer 0;
      '(value, value_size, buffer) ← decode_string buffer 0;
      k ← read_bytes key key_size;
      v ← read_bytes value value_size;
      decode_entries n buffer (map_insert k v map)
  end.

Definition decode_string_map (input : ptr)
    : prog heap (list (list Z * list Z) * ptr) :=
  '(len, buffer) ← decode_short input;
  decode_entries (Z.to_nat len) buffer [].

Fixpoint decode_strings (n : nat) (buffer : ptr) (output : list (list Z))
    : prog heap (list (list Z) * ptr) :=
  match n with
  | O => mret (output, buffer)
  | S n =>
      '(s, s_size, buffer) ← decode_string buffer 0;
      s ← read_bytes s s_size;
      decode_strings n buffer (output ++ [s])
  end.

Definition decode_stringlist (input : ptr) : prog heap (list (list Z) * ptr) :=
  '(len, buffer) ← decode_short input;
  decode_strings (Z.to_nat len) buffer [].

(** [string_multimap_t]: a std::map to lists of strings. *)
Abbreviation string_multimap := (list (list Z * list (list Z))).

Fixpoint decode_multi_entries (n : nat) (buffer : ptr) (output : string_multimap)
    : prog heap (string_multimap * ptr) :=
  match n with
  | O => mret (output, buffer)
  | S n =>
      '(key, key_size, buffer) ← decode_string buffer 0;
      '(value, buffer) ← decode_stringlist buffer;
      k ← read_bytes key key_size;
      decode_multi_entries n buffer (map_insert k value output)
  end.

Definition decode_string_multimap (input : ptr)
    : prog heap (string_multimap * ptr) :=
  '(len, buffer) ← decode_short input;
  decode_multi_entries (Z.to_nat len) buffer [].

(** Results: [type], [*class_name], [class_name_size], the pointer after. *)
Definition decode_option (input class_name : ptr) (class_name_size : Z)
    : prog heap (Z * ptr * Z * ptr) :=
  '(type, buffer) ← decode_short input;
  if decide (type = CQL_COLUMN_TYPE_CUSTOM)
  then
    '(class_name, class_name_size, buffer) ← decode_string buffer class_name_size;
    mret (type, class_name, class_name_size, buffer)
  else mret (type, class_name, class_name_size, buffer).

(** ** The wire format *)

(** The [n] bytes of an integer, most significant first. *)
Definition be (n : nat) (v : Z) : list Z := rev (le_bytes n v).
Definition be_value (bs : list Z) : Z := le_value (rev bs).

Definition wire_string (s : list Z) : list Z := be 2 (zlen s) ++ s.
Definition wire_long_string (s : list Z) : list Z := be 4 (zlen s) ++ s.
Definition wire_string_map (m : list (list Z * list Z)) : list Z :=
  be 2 (zlen m) ++ concat ((fun e => wire_string e.1 ++ wire_string e.2) <$> m).
Definition wire_stringlist (ss : list (list Z)) : list Z :=
  be 2 (zlen ss) ++ concat (wire_string <$> ss).
Definition wire_multimap (m : string_multimap) : list Z :=
  be 2 (zlen m) ++ concat ((fun e => wire_string e.1 ++ wire_stringlist e.2) <$> m).

Section byte_order.
Lemma length_be n v : length (be n v) = n.
Proof. unfold be. by rewrite length_rev, length_le_bytes. Qed.

Lemma be_is_byte n v : Forall is_byte (be n v).
Proof. unfold be. apply Forall_rev. apply le_bytes_is_byte. Qed.

Lemma be_value_be n v : be_value (be n v) = v mod 256 ^ Z.of_nat n.
Proof. unfold be, be_value. by rewrite rev_involutive, le_value_bytes. Qed.

Lemma le_bytes_mod n v w :
  v mod 256 ^ Z.of_nat n = w mod 256 ^ Z.of_nat n -> le_bytes n v = le_bytes n w.
Proof.
  intros Hvw. rewrite <- !le_value_bytes in Hvw.
  rewrite <- (le_bytes_value (le_bytes n v)) by apply le_bytes_is_byte.
  rewrite <- (le_bytes_value (le_bytes n w)) by apply le_bytes_is_byte.
  by rewrite !length_le_bytes, Hvw.
Qed.

(** Storing the swapped integer in host order writes the wire format. *)
Lemma le_bytes_bswap n v : le_bytes n (bswap n v) = be n v.
Proof.
  unfold bswap, be.
  rewrite <- (length_le_bytes n v) at 1. rewrite <- length_rev.
  apply le_bytes_value. apply Forall_rev. apply le_bytes_is_byte.
Qed.

Lemma bswap_load bs : Forall is_byte bs -> bswap (length bs) (le_value bs) = be_value bs.
Proof. intros Hb. unfold bswap, be_value. by rewrite le_bytes_value. Qed.

Lemma short_store v : le_bytes 2 (i16 (htons (i16 v))) = be 2 v.
Proof.
  transitivity (le_bytes 2 (bswap 2 (i16 v))).
  - apply le_bytes_mod. change (256 ^ Z.of_nat 2) with 65536.
    unfold htons. generalize (bswap 2 (i16 v)); intros; int_solve.
  - rewrite le_bytes_bswap. unfold be. f_equal. apply le_bytes_mod.
    change (256 ^ Z.of_nat 2) with 65536. int_solve.
Qed.

Lemma int_store v : le_bytes 4 (i32 (htonl (i32 v))) = be 4 v.
Proof.
  transitivity (le_bytes 4 (bswap 4 (i32 v))).
  - apply le_bytes_mod. change (256 ^ Z.of_nat 4) with 4294967296.
    unfold htonl. generalize (bswap 4 (i32 v)); intros; int_solve.
  - rewrite le_bytes_bswap. unfold be. f_equal. apply le_bytes_mod.
    change (256 ^ Z.of_nat 4) with 4294967296. int_solve.
Qed.

Lemma short_load v : i16 (ntohs (le_value (be 2 v))) = i16 v.
Proof.
  unfold ntohs. rewrite <- (length_be 2 v) at 1.
  rewrite bswap_load by apply be_is_byte. rewrite be_value_be.
  change (256 ^ Z.of_nat 2) with 65536. int_solve.
Qed.

Lemma int_load v : i32 (ntohl (le_value (be 4 v))) = i32 v.
Proof.
  unfold ntohl. rewrite <- (length_be 4 v) at 1.
  rewrite bswap_load by apply be_is_byte. rewrite be_value_be.
  change (256 ^ Z.of_nat 4) with 4294967296. int_solve.
Qed.

Lemma short_load_bytes x y :
  is_byte x -> is_byte y -> i16 (ntohs (le_value [x; y])) = i16 (be_value [x; y]).
Proof.
  intros. unfold ntohs. change 2%nat with (length [x; y]).
  rewrite bswap_load; [done|]. by constructor; [|constructor].
Qed.

Lemma set_low16_fresh v : set_low16 0 v = u16 v.
Proof. done. Qed.
Lemma set_low32_fresh v : set_low32 0 v = u32 v.
Proof. done. Qed.
End byte_order.

#[export] Hint Rewrite length_be : len.
#[export] Hint Resolve be_is_byte : cql.

(** ** What the encoders write

    [emits ss enc cs]: given room for the cells [cs] at the output pointer and
    sources [ss] that lie outside the output block, [enc] writes exactly [cs]
    there and returns the pointer after them. *)

Definition sources_ok (ss : list (ptr * block)) (h : heap) (l : nat) : Prop :=
  Forall (fun s => (s.2 <> [] -> off_block l s.1) /\ cells_at h s.1 s.2) ss.

Definition emits (ss : list (ptr * block)) (enc : ptr -> prog heap ptr)
    (cs : block) : Prop :=
  forall h l off b,
    h !! l = Some (Some b) -> 0 <= off -> off + zlen cs <= zlen b ->
    sources_ok ss h l ->
    enc (Heap l off) h =
      Ok (Heap l (off + zlen cs), <[l := Some (splice b off cs)]> h).

Section encoders.
Implicit Types (ss : list (ptr * block)) (cs : block).

Lemma sources_ok_insert ss h l ob :
  sources_ok ss h l -> sources_ok ss (<[l := ob]> h) l.
Proof.
  unfold sources_ok. intros Hs. eapply Forall_impl; [exact Hs|].
  intros [p cs] [Hp Hc]. cbn. auto using cells_at_insert.
Qed.

Lemma sources_ok_elem ss h l p cs :
  sources_ok ss h l -> (p, cs) ∈ ss ->
  (cs <> [] -> off_block l p) /\ cells_at h p cs.
Proof. unfold sources_ok. rewrite Forall_forall. intros H. apply H. Qed.

Lemma emits_ret ss : emits ss mret [].
Proof.
  intros h l off b Hl H0 Hb _. rewrite ret_run, splice_nil, Z.add_0_r.
  by rewrite list_insert_id.
Qed.

Lemma emits_bind ss e1 e2 cs1 cs2 :
  emits ss e1 cs1 -> emits ss e2 cs2 ->
  emits ss (fun p => q ← e1 p; e2 q) (cs1 ++ cs2).
Proof.
  intros He1 He2 h l off b Hl H0 Hb Hs.
  rewrite length_app, Nat2Z.inj_add in Hb.
  assert (Hl' := lookup_lt_Some _ _ _ Hl).
  erewrite bind_run by (apply He1; [done..|lia|done]).
  rewrite (He2 _ l _ (splice b off cs1)); [| |lia| |].
  - rewrite list_insert_insert_eq, splice_app by lia.
    by rewrite length_app, Nat2Z.inj_add, Z.add_assoc.
  - by apply list_lookup_insert_eq.
  - rewrite length_splice by lia. lia.
  - by apply sources_ok_insert.
Qed.

Lemma emits_write ss bs :
  emits ss (fun p => write_bytes p bs ;; mret (padd p (zlen bs))) (Some <$> bs).
Proof.
  intros h l off b Hl H0 Hb _. unfold write_bytes.
  erewrite bind_run by by apply write_cells_run.
  by rewrite ret_run, length_fmap.
Qed.

Lemma emits_byte ss v : emits ss (fun p => encode_byte p v) [Some (u8 v)].
Proof. exact (emits_write ss [u8 v]). Qed.

Lemma emits_short ss v : emits ss (fun p => encode_short p v) (Some <$> be 2 v).
Proof. unfold encode_short. rewrite short_store. apply emits_write. Qed.

Lemma emits_int ss v : emits ss (fun p => encode_int p v) (Some <$> be 4 v).
Proof. unfold encode_int. rewrite int_store. apply emits_write. Qed.

Lemma emits_memcpy ss src cs n :
  (src, cs) ∈ ss -> n = zlen cs ->
  emits ss (fun p => memcpy p src n ;; mret (padd p n)) cs.
Proof.
  intros Hsrc -> h l off b Hl H0 Hb Hs.
  eapply sources_ok_elem in Hs as [_ Hc]; [|exact Hsrc].
  unfold memcpy. rewrite bind_assoc.
  erewrite bind_run by exact Hc.
  erewrite bind_run by by apply write_cells_run.
  done.
Qed.

Lemma emits_string ss src cs n :
  (src, cs) ∈ ss -> n = zlen cs ->
  emits ss (fun p => encode_string p src n) ((Some <$> be 2 n) ++ cs).
Proof.
  intros. unfold encode_string. apply emits_bind; [apply emits_short|].
  by apply emits_memcpy.
Qed.

Lemma emits_long_string ss src cs n :
  (src, cs) ∈ ss -> n = zlen cs ->
  emits ss (fun p => encode_long_string p src n) ((Some <$> be 4 n) ++ cs).
Proof.
  intros. unfold encode_long_string. apply emits_bind; [apply emits_int|].
  by apply emits_memcpy.
Qed.

(** Sources of a heap lie outside the block that is allocated next. *)
Lemma sources_ok_alloc ss h b :
  Forall (fun s => cells_at h s.1 s.2) ss -> sources_ok ss (h ++ [b]) (length h).
Proof.
  intros Hss. eapply Forall_impl; [exact Hss|]. intros [p cs] Hc; cbn in *.
  split; [eauto using cells_at_fresh|by apply cells_at_alloc].
Qed.

(** The source of a std::string is available whatever the heap. *)
Lemma emits_chars ss s enc cs :
  emits ((Chars s 0, Some <$> s) :: ss) enc cs -> emits ss enc cs.
Proof.
  intros He h l off b Hl H0 Hb Hs. apply He; [done..|].
  constructor; [|done]. split; [done|]. apply bytes_at_chars.
Qed.

Lemma emits_std_string ss s :
  emits ss (fun p => encode_string p (Chars s 0) (zlen s))
    (Some <$> wire_string s).
Proof.
  unfold wire_string. rewrite fmap_app. apply (emits_chars ss s).
  apply emits_string; [set_solver|]. by rewrite length_fmap.
Qed.

Lemma emits_std_long_string ss s :
  emits ss (fun p => encode_long_string p (Chars s 0) (zlen s))
    (Some <$> wire_long_string s).
Proof.
  unfold wire_long_string. rewrite fmap_app. apply (emits_chars ss s).
  apply emits_long_string; [set_solver|]. by rewrite length_fmap.
Qed.

Lemma emits_entries ss m :
  emits ss (encode_entries m)
    (Some <$> concat ((fun e => wire_string e.1 ++ wire_string e.2) <$> m)).
Proof.
  induction m as [|[k v] m IH]; [apply emits_ret|].
  cbn [encode_entries fmap list_fmap concat fst snd].
  rewrite !fmap_app, <- app_assoc.
  apply emits_bind; [apply emits_std_string|].
  apply emits_bind; [apply emits_std_string|exact IH].
Qed.

Lemma emits_string_map ss m :
  emits ss (fun p => encode_string_map p m) (Some <$> wire_string_map m).
Proof.
  unfold wire_string_map. rewrite fmap_app.
  apply emits_bind; [apply emits_short|apply emits_entries].
Qed.
End encoders.

#[export] Hint Resolve emits_ret emits_bind emits_byte emits_short emits_int
  emits_std_string emits_std_long_string emits_string_map : cql.

(** ** What the decoders read *)

Section decoders.
Implicit Types (h : heap) (p : ptr) (bs s : list Z).

Lemma decode_short_bytes h p bs :
  bytes_at h p bs -> length bs = 2%nat ->
  decode_short p h = Ok ((i16 (ntohs (le_value bs)), padd p 2), h).
Proof.
  intros Hat Hlen. unfold decode_short.
  erewrite bind_run by (eapply read_bytes_at; [done|lia]). done.
Qed.

Lemma decode_short_run h p v :
  bytes_at h p (be 2 v) -> decode_short p h = Ok ((i16 v, padd p 2), h).
Proof.
  intros Hat. erewrite decode_short_bytes by (eauto; apply length_be).
  by rewrite short_load.
Qed.

Lemma decode_int_run h p v :
  bytes_at h p (be 4 v) -> decode_int p h = Ok ((i32 v, padd p 4), h).
Proof.
  intros Hat. unfold decode_int.
  erewrite bind_run by (eapply read_bytes_at; [done|by rewrite length_be]).
  by rewrite int_load.
Qed.

(** A string of fewer than 2^16 bytes is found where it is, whatever is in
    the low bytes of [size] before; the pointers are computed and the
    characters not read. *)
Lemma decode_string_run h p s size :
  bytes_at h p (be 2 (zlen s)) -> zlen s < 65536 -> 0 <= size < 65536 ->
  decode_string p size h = Ok ((padd p 2, zlen s, padd p (2 + zlen s)), h).
Proof.
  intros Hat Hs Hsize. unfold decode_string.
  erewrite bind_run by by apply decode_short_run.
  unfold set_low16. rewrite u16_i16, u16_small, (Z.div_small size) by lia.
  by rewrite padd_padd.
Qed.

Lemma decode_long_string_run h p s size :
  bytes_at h p (be 4 (zlen s)) -> zlen s < 4294967296 ->
  0 <= size < 4294967296 ->
  decode_long_string p size h =
    Ok ((padd p 4, zlen s, padd p (4 + zlen s)), h).
Proof.
  intros Hat Hs Hsize. unfold decode_long_string.
  erewrite bind_run by by apply decode_int_run.
  unfold set_low32. rewrite u32_i32, u32_small, (Z.div_small size) by lia.
  by rewrite padd_padd.
Qed.

(** The parts of a wire string. *)
Lemma bytes_at_string h p s :
  bytes_at h p (wire_string s) ->
  bytes_at h p (be 2 (zlen s)) /\ bytes_at h (padd p 2) s.
Proof. unfold wire_string. rewrite bytes_at_app, length_be. done. Qed.

Lemma bytes_at_long_string h p s :
  bytes_at h p (wire_long_string s) ->
  bytes_at h p (be 4 (zlen s)) /\ bytes_at h (padd p 4) s.
Proof. unfold wire_long_string. rewrite bytes_at_app, length_be. done. Qed.
End decoders.

(** ** The collection decoders against a parser of the wire format

    The reference parsers work on the bytes that are left in the block and
    fail when they run out; [refines dec parse] says that the decoder computes
    what the parser does, and that it reads past the input exactly when the
    parser fails. *)

Definition parse_short (bs : list Z) : option (Z * list Z) :=
  match bs with
  | x :: y :: bs => Some (i16 (be_value [x; y]), bs)
  | _ => None
  end.

Definition parse_string (bs : list Z) : option (list Z * list Z) :=
  '(n, bs) ← parse_short bs;
  if decide (u16 n <= zlen bs)
  then Some (take (Z.to_nat (u16 n)) bs, drop (Z.to_nat (u16 n)) bs)
  else None.

Fixpoint parse_entries (n : nat) (bs : list Z) (m : list (list Z * list Z))
    : option (list (list Z * list Z) * list Z) :=
  match n with
  | O => Some (m, bs)
  | S n =>
      '(k, bs) ← parse_string bs;
      '(v, bs) ← parse_string bs;
      parse_entries n bs (map_insert k v m)
  end.

Definition parse_string_map (bs : list Z) :=
  '(n, bs) ← parse_short bs;
  parse_entries (Z.to_nat n) bs [].

Fixpoint parse_strings (n : nat) (bs : list Z) (ss : list (list Z))
    : option (list (list Z) * list Z) :=
  match n with
  | O => Some (ss, bs)
  | S n =>
      '(s, bs) ← parse_string bs;
      parse_strings n bs (ss ++ [s])
  end.

Definition parse_stringlist (bs : list Z) :=
  '(n, bs) ← parse_short bs;
  parse_strings (Z.to_nat n) bs [].

Fixpoint parse_multi_entries (n : nat) (bs : list Z) (m : string_multimap)
    : option (string_multimap * list Z) :=
  match n with
  | O => Some (m, bs)
  | S n =>
      '(k, bs) ← parse_string bs;
      '(v, bs) ← parse_stringlist bs;
      parse_multi_entries n bs (map_insert k v m)
  end.

Definition parse_string_multimap (bs : list Z) :=
  '(n, bs) ← parse_short bs;
  parse_multi_entries (Z.to_nat n) bs [].

(** [bs] are the bytes from the pointer on that were written: what follows them
    in the block, if anything, is indeterminate. *)
Definition tail_at (h : heap) (p : ptr) (bs : list Z) : Prop :=
  exists l off b n, p = Heap l off /\ h !! l = Some (Some b) /\
    0 <= off <= zlen b /\
    drop (Z.to_nat off) b = (Some <$> bs) ++ replicate n None /\
    Forall is_byte bs.

(** The pointer is past the last byte that was written. *)
Definition past_end (h : heap) (p : ptr) : Prop :=
  exists l off b n, p = Heap l off /\ h !! l = Some (Some b) /\ 0 <= off /\
    drop (Z.to_nat off) b = replicate n None.

(** A read out of the block, or of a byte nobody wrote. *)
Definition bad_read {A} (r : outcome A) : Prop :=
  r = Fault OutOfBounds \/ r = Fault Uninitialised.

Definition refines {A} (dec : ptr -> prog heap (A * ptr))
    (parse : list Z -> option (A * list Z)) : Prop :=
  forall h p bs, tail_at h p bs ->
    match parse bs with
    | Some (a, bs') => exists q, dec p h = Ok ((a, q), h) /\ tail_at h q bs'
    | None => bad_read (dec p h)
    end.

Section tails.
Implicit Types (h : heap) (p : ptr) (bs : list Z).

Lemma bind_bad {A B} (m : prog heap A) (k : A -> prog heap B) h :
  bad_read (m h) -> bad_read ((m ≫= k) h).
Proof. intros [Hm|Hm]; [left|right]; by apply bind_fault. Qed.

Lemma tail_inv h p bs :
  tail_at h p bs -> exists l off b n, p = Heap l off /\ h !! l = Some (Some b) /\
    0 <= off /\ zlen b = off + zlen bs + Z.of_nat n /\
    drop (Z.to_nat off) b = (Some <$> bs) ++ replicate n None /\
    Forall is_byte bs.
Proof.
  intros (l & off & b & n & -> & Hl & Hoff & Hd & Hby). exists l, off, b, n.
  split_and!; [done..|lia| |done|done].
  apply (f_equal length) in Hd.
  rewrite length_drop, length_app, length_fmap, length_replicate in Hd. lia.
Qed.

(** A read of [n] of the bytes that are left. *)
Lemma tail_read h p bs n :
  tail_at h p bs -> 0 <= n <= zlen bs ->
  read_bytes p n h = Ok (take (Z.to_nat n) bs, h) /\
  tail_at h (padd p n) (drop (Z.to_nat n) bs).
Proof.
  intros (l & off & b & k & -> & Hl & H0 & Hb & Hd & Hby)%tail_inv Hn. split.
  - eapply read_bytes_at; [|rewrite length_take; lia].
    eapply cells_at_heap; [exact Hl|]. apply slice_Some.
    exists (take (Z.to_nat off) b),
      ((Some <$> drop (Z.to_nat n) bs) ++ replicate k None).
    rewrite (app_assoc (Some <$> _)), <- fmap_app, take_drop, <- Hd, take_drop.
    rewrite length_take. split_and!; [done|lia|done].
  - eexists l, (off + n), b, k. split_and!; [done..|lia|lia| |by apply Forall_drop].
    rewrite Z2Nat.inj_add, <- drop_drop, Hd by lia.
    by rewrite drop_app_le, fmap_drop by (rewrite length_fmap; lia).
Qed.

Lemma tail_past_end h p bs n :
  tail_at h p bs -> zlen bs <= n -> past_end h (padd p n).
Proof.
  intros (l & off & b & k & -> & Hl & H0 & Hb & Hd & _)%tail_inv Hn.
  exists l, (off + n), b, (k - (Z.to_nat n - length bs))%nat.
  split_and!; [done..|lia|].
  rewrite Z2Nat.inj_add, <- drop_drop, Hd by lia.
  rewrite drop_app_ge, length_fmap, drop_replicate by (rewrite length_fmap; lia).
  done.
Qed.

Lemma past_end_read h p n :
  past_end h p -> n <> 0 -> bad_read (read_bytes p n h).
Proof.
  intros (l & off & b & k & -> & Hl & H0 & Hd) Hn.
  unfold read_bytes, read_cells, bad_read, mbind, prog_bind.
  cbn. unfold block_at. rewrite Hl, decide_False by done.
  destruct (slice b off n) as [cs|] eqn:Es; [|by left].
  right. unfold slice in Es. case_decide as Hs; [|done]. injection Es as <-.
  rewrite Hd, take_replicate.
  assert (k = length b - Z.to_nat off)%nat as Hk.
  { apply (f_equal length) in Hd. by rewrite length_drop, length_replicate in Hd. }
  destruct (Z.to_nat n `min` k)%nat eqn:E; [lia|done].
Qed.

(** A read across the last byte that was written. *)
Lemma tail_read_short h p bs n :
  tail_at h p bs -> zlen bs < n -> bad_read (read_bytes p n h).
Proof.
  intros (l & off & b & k & -> & Hl & H0 & Hb & Hd & _)%tail_inv Hn.
  unfold read_bytes, read_cells, bad_read, mbind, prog_bind.
  cbn. unfold block_at. rewrite Hl, decide_False by lia.
  destruct (slice b off n) as [cs|] eqn:Es; [|by left].
  right. unfold slice in Es. case_decide as Hs; [|done]. injection Es as <-.
  rewrite Hd, take_app_ge, take_replicate by (rewrite length_fmap; lia).
  rewrite length_fmap.
  destruct ((Z.to_nat n - length bs) `min` k)%nat eqn:E; [lia|].
  cbn [replicate].
  assert (forall cs, initialised ((Some <$> bs) ++ None :: cs) = None) as ->.
  { clear. intros cs. unfold initialised.
    induction bs as [|b bs IH]; [done|]. cbn in *. by rewrite IH. }
  done.
Qed.

Lemma past_end_short h p : past_end h p -> bad_read (decode_short p h).
Proof. intros. unfold decode_short. apply bind_bad. by apply past_end_read. Qed.

Lemma past_end_string h p size :
  past_end h p -> bad_read (decode_string p size h).
Proof. intros. unfold decode_string. apply bind_bad. by apply past_end_short. Qed.

Lemma decode_short_refines : refines decode_short parse_short.
Proof.
  intros h p bs Ht. destruct bs as [|x [|y bs]]; cbn [parse_short].
  - unfold decode_short. apply bind_bad. by eapply tail_read_short.
  - unfold decode_short. apply bind_bad. by eapply tail_read_short.
  - destruct (tail_read _ _ _ 2 Ht) as [Hr Ht']; [cbn; lia|].
    eexists. split; [|exact Ht'].
    unfold decode_short. erewrite bind_run by exact Hr.
    change (take (Z.to_nat 2) (x :: y :: bs)) with [x; y].
    rewrite <- (short_load_bytes x y); [done|..];
      apply tail_inv in Ht as (? & ? & ? & ? & _ & _ & _ & _ & _ & Hby);
      by apply Forall_cons in Hby as [? [? _]%Forall_cons].
Qed.

(** [decode_string]: the length is read; the string is in the block or the
    pointer after it is past the end. *)
Lemma decode_string_tail h p bs :
  tail_at h p bs ->
  match parse_short bs with
  | None => bad_read (decode_string p 0 h)
  | Some (n, bs') =>
      decode_string p 0 h =
        Ok ((padd p 2, u16 n, padd (padd p 2) (u16 n)), h) /\
      tail_at h (padd p 2) bs'
  end.
Proof.
  intros Ht. unfold decode_string.
  destruct bs as [|x [|y bs]]; cbn [parse_short].
  - apply bind_bad. by apply (decode_short_refines _ _ _ Ht).
  - apply bind_bad. by apply (decode_short_refines _ _ _ Ht).
  - destruct (decode_short_refines _ _ _ Ht) as (q & Hr & Ht').
    assert (q = padd p 2) as -> by
      (unfold decode_short in Hr; by inv_prog).
    split; [|exact Ht']. by erewrite bind_run by exact Hr.
Qed.
End tails.

Section collections.
Implicit Types (h : heap) (p : ptr) (bs : list Z).

(** A string of the buffer: it is complete, or everything that reads it or
    what follows it is a bad read. *)
Lemma string_cases h p bs :
  tail_at h p bs ->
  match parse_string bs with
  | Some (s, bs') =>
      exists q, decode_string p 0 h = Ok ((padd p 2, zlen s, q), h) /\
        bytes_at h (padd p 2) s /\ tail_at h q bs'
  | None =>
      bad_read (decode_string p 0 h) \/
      exists n q, decode_string p 0 h = Ok ((padd p 2, n, q), h) /\
        past_end h q /\ bad_read (read_bytes (padd p 2) n h)
  end.
Proof.
  intros Ht. pose proof (decode_string_tail h p bs Ht) as Hd.
  unfold parse_string. destruct (parse_short bs) as [[n bs']|]; cbn; [|by left].
  destruct Hd as [Hd Ht']. pose proof (u16_range n). case_decide as Hn.
  - destruct (tail_read h (padd p 2) bs' (u16 n) Ht') as [Hr Htl]; [lia|].
    apply bytes_at_read in Hr as [Hr Hz]. rewrite Hz. eauto.
  - right. do 2 eexists. split; [exact Hd|].
    split; [eapply tail_past_end|eapply tail_read_short]; (exact Ht' || lia).
Qed.

(** Case analysis on the next string of the buffer. *)
Ltac next_string Ht :=
  let Hs := fresh "Hs" in
  pose proof (string_cases _ _ _ Ht) as Hs;
  match type of Hs with
  | match parse_string ?bs with _ => _ end =>
      destruct (parse_string bs) as [[? ?]|]; cbn [mbind option_bind]
  end;
  [destruct Hs as (? & Hs & ? & ?); run_step Hs
  |destruct Hs as [Hs|(? & ? & Hs & ? & ?)];
    [by apply bind_bad|run_step Hs]].

Ltac read_string Hb :=
  erewrite bind_run by (apply (read_bytes_at _ _ _ _ Hb); reflexivity);
  cbv beta iota.

Lemma decode_entries_refines n m :
  refines (fun p => decode_entries n p m) (fun bs => parse_entries n bs m).
Proof.
  revert m. induction n as [|n IH]; intros m h p bs Ht;
    cbn [decode_entries parse_entries]; [eauto|].
  next_string Ht; [|by apply bind_bad, past_end_string].
  match goal with H : tail_at _ _ _ |- _ => clear Ht; rename H into Ht end.
  match goal with H : bytes_at _ _ _ |- _ => rename H into Hk end.
  next_string Ht; read_string Hk; [|by apply bind_bad].
  match goal with H : bytes_at _ _ l1 |- _ => read_string H end.
  by apply IH.
Qed.

Lemma decode_strings_refines n ss :
  refines (fun p => decode_strings n p ss) (fun bs => parse_strings n bs ss).
Proof.
  revert ss. induction n as [|n IH]; intros ss h p bs Ht;
    cbn [decode_strings parse_strings]; [eauto|].
  next_string Ht; [|by apply bind_bad].
  match goal with H : bytes_at _ _ _ |- _ => read_string H end.
  by apply IH.
Qed.

Lemma refines_counted {A} (dec : nat -> ptr -> prog heap (A * ptr)) parse :
  (forall n, refines (dec n) (parse n)) ->
  refines (fun p => '(len, buffer) ← decode_short p; dec (Z.to_nat len) buffer)
    (fun bs => '(n, bs) ← parse_short bs; parse (Z.to_nat n) bs).
Proof.
  intros Hn h p bs Ht. pose proof (decode_short_refines h p bs Ht) as Hd.
  destruct (parse_short bs) as [[n bs']|]; cbn [mbind option_bind].
  - destruct Hd as (q & Hd & Ht'). run_step Hd. by apply Hn.
  - by apply bind_bad.
Qed.

Lemma decode_stringlist_refines : refines decode_stringlist parse_stringlist.
Proof.
  apply (refines_counted (fun n p => decode_strings n p [])
    (fun n bs => parse_strings n bs [])).
  intros n. apply decode_strings_refines.
Qed.

Lemma decode_multi_entries_refines n m :
  refines (fun p => decode_multi_entries n p m)
    (fun bs => parse_multi_entries n bs m).
Proof.
  revert m. induction n as [|n IH]; intros m h p bs Ht;
    cbn [decode_multi_entries parse_multi_entries]; [eauto|].
  next_string Ht.
  2:{ unfold decode_stringlist. rewrite bind_assoc.
      by apply bind_bad, past_end_short. }
  match goal with H : tail_at _ _ l0 |- _ =>
    pose proof (decode_stringlist_refines _ _ _ H) as Hv end.
  destruct (parse_stringlist l0) as [[v bs']|]; cbn [mbind option_bind].
  - destruct Hv as (q & Hv & Ht'). run_step Hv.
    match goal with H : bytes_at _ _ _ |- _ => read_string H end.
    by apply IH.
  - by apply bind_bad.
Qed.

Lemma decode_string_map_refines : refines decode_string_map parse_string_map.
Proof.
  apply (refines_counted (fun n p => decode_entries n p [])
    (fun n bs => parse_entries n bs [])). intros n. apply decode_entries_refines.
Qed.

Lemma decode_string_multimap_refines : refines decode_string_multimap parse_string_multimap.
Proof.
  apply (refines_counted (fun n p => decode_multi_entries n p [])
    (fun n bs => parse_multi_entries n bs [])). intros n. apply decode_multi_entries_refines.
Qed.

End collections.

(** ** Parsing the wire format *)

(** The strings of an entry fit their 16-bit length. *)
Definition short_string (s : list Z) : Prop := zlen s < 65536.
Definition short_entry (e : list Z * list Z) : Prop :=
  short_string e.1 /\ short_string e.2.

Section parsers.
Implicit Types (bs s : list Z).

Lemma parse_short_be v bs : parse_short (be 2 v ++ bs) = Some (i16 v, bs).
Proof.
  cbn [be le_bytes rev app parse_short]. do 2 f_equal.
  unfold be_value. cbn [rev app le_value]. int_solve.
Qed.

Lemma parse_string_wire s bs :
  parse_string (wire_string s ++ bs) =
    Some (take (Z.to_nat (u16 (zlen s))) s,
          drop (Z.to_nat (u16 (zlen s))) s ++ bs).
Proof.
  unfold parse_string, wire_string. rewrite <- app_assoc, parse_short_be.
  cbn [mbind option_bind]. rewrite u16_i16.
  assert (u16 (zlen s) <= zlen s) as Hle by int_solve.
  pose proof (u16_range (zlen s)).
  rewrite decide_True by (rewrite length_app; lia).
  by rewrite take_app_le, drop_app_le by lia.
Qed.

Lemma parse_string_short s bs :
  short_string s -> parse_string (wire_string s ++ bs) = Some (s, bs).
Proof.
  unfold short_string. intros Hs. rewrite parse_string_wire.
  rewrite u16_small, Nat2Z.id by lia. by rewrite firstn_all, drop_all.
Qed.

Lemma parse_entries_wire m m0 bs :
  Forall short_entry m ->
  parse_entries (length m)
    (concat ((fun e => wire_string e.1 ++ wire_string e.2) <$> m) ++ bs) m0 =
    Some (foldl (fun m e => map_insert e.1 e.2 m) m0 m, bs).
Proof.
  intros Hm. revert m0. induction Hm as [|[k v] m [Hk Hv] Hm IH]; intros m0; [done|].
  cbn [length fmap list_fmap concat parse_entries foldl fst snd] in *.
  rewrite <- !app_assoc, parse_string_short by done. cbn [mbind option_bind].
  rewrite parse_string_short by done. cbn [mbind option_bind]. apply IH.
Qed.

Lemma parse_string_map_wire m bs :
  zlen m < 32768 -> Forall short_entry m ->
  parse_string_map (wire_string_map m ++ bs) =
    Some (foldl (fun m e => map_insert e.1 e.2 m) [] m, bs).
Proof.
  intros Hlen Hm. unfold parse_string_map, wire_string_map.
  rewrite <- app_assoc, parse_short_be. cbn [mbind option_bind].
  rewrite i16_small, Nat2Z.id by lia. by apply parse_entries_wire.
Qed.

Lemma wire_string_is_byte s : Forall is_byte s -> Forall is_byte (wire_string s).
Proof. intros. apply Forall_app. auto with cql. Qed.

Lemma wire_string_map_is_byte m :
  Forall (fun e => Forall is_byte e.1 /\ Forall is_byte e.2) m ->
  Forall is_byte (wire_string_map m).
Proof.
  intros Hm. apply Forall_app. split; [auto with cql|].
  induction Hm as [|[k v] m [Hk Hv] Hm IH]; [constructor|].
  cbn [fmap list_fmap concat fst snd] in *. apply Forall_app. split; [|exact IH].
  apply Forall_app. auto using wire_string_is_byte.
Qed.
End parsers.

(** What an encoder wrote at the end of a block is the tail of the block. *)
Lemma tail_at_spliced h l off b bs :
  h !! l = Some (Some b) -> 0 <= off -> off + zlen bs = zlen b ->
  Forall is_byte bs ->
  tail_at (<[l := Some (splice b off (Some <$> bs))]> h) (Heap l off) bs.
Proof.
  intros Hl H0 Hb Hby. exists l, off, (splice b off (Some <$> bs)), 0%nat.
  split_and!; [done| |done| | |done].
  - apply list_lookup_insert_eq. by eapply lookup_lt_Some.
  - rewrite length_splice; rewrite ?length_fmap; lia.
  - unfold splice. rewrite drop_app_ge; rewrite length_take; [|lia].
    replace (_ - _)%nat with O by lia. rewrite drop_0.
    rewrite drop_ge; [done|]. rewrite length_fmap. lia.
Qed.

(** ** Theorems *)

(** [encode_short] and [encode_int] write the integer most significant byte
    first, touch nothing else, and are inverted by [decode_short] and
    [decode_int]. *)
Theorem integer_roundtrip h l off b v w :
  h !! l = Some (Some b) -> 0 <= off -> off + 6 <= zlen b ->
  -32768 <= v < 32768 -> -2147483648 <= w < 2147483648 ->
  exists h',
    (p ← encode_short (Heap l off) v; encode_int p w) h =
      Ok (Heap l (off + 6), h') /\
    h' = <[l := Some (splice b off (Some <$>
           [v / 256 mod 256; v mod 256;
            w / 256 / 256 / 256 mod 256; w / 256 / 256 mod 256;
            w / 256 mod 256; w mod 256]))]> h /\
    ('(v', p) ← decode_short (Heap l off); '(w', p) ← decode_int p;
     mret (v', w', p)) h' = Ok ((v, w, Heap l (off + 6)), h').
Proof.
  intros Hl H0 Hb Hv Hw.
  pose proof (emits_bind [] _ _ _ _ (emits_short [] v) (emits_int [] w)) as He.
  rewrite <- fmap_app in He.
  assert (zlen (Some <$> (be 2 v ++ be 4 w)) = 6) as H6 by done.
  eexists. split; [rewrite (He h l off b Hl H0); [rewrite H6; done|by rewrite H6|constructor]|].
  split; [done|].
  set (h' := <[l := _]> h).
  assert (bytes_at h' (Heap l off) (be 2 v ++ be 4 w)) as [Hv' Hw']%bytes_at_app.
  { eapply cells_at_heap; [apply list_lookup_insert_eq; by eapply lookup_lt_Some|].
    apply slice_splice; [done|]. by rewrite H6. }
  run_step decode_short_run. rewrite i16_small by done.
  run_step decode_int_run. by rewrite i32_small, padd_padd by done.
Qed.

(** A witness block: eight indeterminate bytes. *)
Theorem integer_roundtrip_witness :
  exists h',
    (p ← encode_short (Heap 0 1) (-2); encode_int p 305419896)
      [Some (replicate 8 None)] = Ok (Heap 0 7, h') /\
    h' = [Some [None; Some 255; Some 254; Some 18; Some 52; Some 86; Some 120; None]].
Proof.
  destruct (integer_roundtrip [Some (replicate 8 None)] 0 1 (replicate 8 None)
    (-2) 305419896) as (h' & He & Hh & _); [reflexivity|cbn; lia..|].
  exists h'. split; [exact He|]. rewrite Hh. vm_compute. reflexivity.
Defined.

(** A std::map whose strings and size fit the 16-bit lengths survives the
    wire: [decode_string_map] reads back, from the end of a block, exactly the
    map [encode_string_map] wrote there, and stops at the end of it. *)
Theorem string_map_roundtrip h l off b m :
  h !! l = Some (Some b) -> 0 <= off ->
  off + zlen (wire_string_map m) = zlen b ->
  map_sorted m -> zlen m < 32768 -> Forall short_entry m ->
  Forall (fun e => Forall is_byte e.1 /\ Forall is_byte e.2) m ->
  exists h',
    encode_string_map (Heap l off) m h = Ok (Heap l (zlen b), h') /\
    exists p, decode_string_map (Heap l off) h' = Ok ((m, p), h') /\ tail_at h' p [].
Proof.
  intros Hl H0 Hb Hs Hlen Hm Hby.
  eexists. split.
  { rewrite (emits_string_map [] m h l off b Hl H0); [|by rewrite length_fmap; lia|constructor].
    by rewrite length_fmap, Hb. }
  pose proof (refines_counted (fun n p => decode_entries n p [])
    (fun n bs => parse_entries n bs []) (fun n => decode_entries_refines n [])) as Hr.
  pose proof (tail_at_spliced h l off b _ Hl H0 Hb (wire_string_map_is_byte m Hby)) as Ht.
  specialize (Hr _ _ _ Ht). cbv beta in Hr.
  pose proof (parse_string_map_wire m [] Hlen Hm) as Hp. rewrite app_nil_r in Hp.
  unfold parse_string_map in Hp. rewrite Hp in Hr.
  by rewrite (insert_run [] m Hs) in Hr.
Qed.

Theorem string_map_roundtrip_witness :
  let m := [(bytes_of_string "COMPRESSION", bytes_of_string "lz4");
            (bytes_of_string "CQL_VERSION", bytes_of_string "3.0.0")] in
  exists h' p, decode_string_map (Heap 0 0) h' = Ok ((m, p), h').
Proof.
  intros m.
  destruct (string_map_roundtrip [Some (replicate 40 None)] 0 0 (replicate 40 None) m)
    as (h' & _ & p & Hd & _).
  1, 2: done.
  - reflexivity.
  - vm_compute. repeat constructor.
  - reflexivity.
  - repeat constructor.
  - vm_compute. repeat constructor; discriminate.
  - eauto.
Defined.

(** C27: the collection decoders compute what the reference parsers compute, on
    any bytes; where the parser finds the input truncated the decoder, which
    is not given the size of its buffer, reads past the input: out of the
    block, or bytes nobody wrote. *)
Theorem collections_refine_parsers :
  refines decode_string_map parse_string_map /\
  refines decode_stringlist parse_stringlist /\
  refines decode_string_multimap parse_string_multimap.
Proof.
  split_and!; [apply decode_string_map_refines|apply decode_stringlist_refines|
    apply decode_string_multimap_refines].
Qed.

(** [encode_string] writes all the characters under a 16-bit length, so
    [decode_string] finds the string and its end exactly when the string is
    shorter than 2^16; a longer one is cut to its length modulo 2^16 and the
    rest is taken for what follows. *)
Theorem string_roundtrip_bound h l off b s :
  h !! l = Some (Some b) -> 0 <= off -> off + 2 + zlen s <= zlen b ->
  exists h',
    encode_string (Heap l off) (Chars s 0) (zlen s) h =
      Ok (Heap l (off + (2 + zlen s)), h') /\
    decode_string (Heap l off) 0 h' =
      Ok ((Heap l (off + 2), zlen s mod 65536,
           Heap l (off + 2 + zlen s mod 65536)), h') /\
    bytes_at h' (Heap l (off + 2)) s /\
    (Heap l (off + 2 + zlen s mod 65536) = Heap l (off + (2 + zlen s))
      <-> zlen s < 65536).
Proof.
  intros Hl H0 Hb.
  assert (zlen (Some <$> wire_string s) = 2 + zlen s) as Hw.
  { rewrite length_fmap. unfold wire_string. rewrite length_app, length_be. lia. }
  eexists. split.
  { rewrite (emits_std_string [] s h l off b Hl H0); [by rewrite Hw|lia|constructor]. }
  set (h' := <[l := _]> h).
  assert (bytes_at h' (Heap l off) (wire_string s)) as [Hn Hs]%bytes_at_string.
  { eapply cells_at_heap; [apply list_lookup_insert_eq; by eapply lookup_lt_Some|].
    apply slice_splice; [done|]. lia. }
  split_and!; [|exact Hs|].
  - unfold decode_string. run_step decode_short_run.
    by rewrite set_low16_fresh, u16_i16.
  - split.
    + intros [= Heq]. int_solve.
    + intros Hlt. f_equal. int_solve.
Qed.

Theorem string_roundtrip_bound_witness :
  exists h', encode_string (Heap 0 0) (Chars (bytes_of_string "USE system") 0) 10
    [Some (replicate 12 None)] = Ok (Heap 0 12, h').
Proof.
  destruct (string_roundtrip_bound [Some (replicate 12 None)] 0 0
    (replicate 12 None) (bytes_of_string "USE system")) as (h' & He & _);
    [reflexivity|cbn; lia..|].
  exists h'. exact He.
Defined.
