(* ===== verification/Body.v ===== *)
(** * cql_body.hpp and the simple bodies

    [Body] is the interface of a message body: its opcode, [consume], which
    decodes it from a buffer, and [prepare], which allocates a buffer with
    [reserved] bytes in front and encodes it there.  Instances for the error,
    options, ready, startup, supported and prepare bodies; the query and result
    bodies have files of their own. *)

From S2P Require Import Prelude Memory StdMap Common Serialization.

(** ** cql_body.hpp *)

(** [consume body buffer size] returns the result and the updated body;
    [prepare body reserved output size] the result and the new [*output] and
    [size]. *)
Class Body `{Allocator} (T : Type) := {
  opcode  : T -> Z;
  consume : T -> ptr -> Z -> prog heap (bool * T);
  prepare : T -> Z -> ptr -> Z -> prog heap (bool * ptr * Z)
}.

(** Sizes are [size_t] sums. *)
Definition sizeof_int16 : Z := 2.
Definition sizeof_int32 : Z := 4.

(** The block [prepare] leaves: [reserved] indeterminate bytes, the encoded
    cells, and what is left of the [n] bytes asked for and of the slack of the
    allocator. *)
Definition prepared `{Allocator} (n reserved : Z) (cs : block) : block :=
  replicate (Z.to_nat reserved) None ++ cs ++
  replicate (Z.to_nat (usable n - reserved - zlen cs)) None.

Section prepare_lemmas.
Context `{Allocator}.

(** [new char[size]], then the encoder at [output + reserved]. *)
Lemma alloc_emit_run {A} ss enc cs n reserved (k : ptr -> prog heap A) h :
  emits ss enc cs ->
  Forall (fun s => cells_at h s.1 s.2) ss ->
  0 <= reserved -> reserved + zlen cs <= n < 9223372036854775808 ->
  (p ← new_chars n; enc (padd p reserved) ;; k p) h =
    k (Heap (length h) 0) (h ++ [Some (prepared n reserved cs)]).
Proof.
  intros He Hss Hr Hn. pose proof (usable_ge n).
  erewrite bind_run by (apply new_chars_run; lia).
  cbn [padd]. rewrite Z.add_0_l.
  erewrite bind_run.
  2:{ apply He.
      - by apply list_lookup_middle.
      - lia.
      - rewrite length_replicate. lia.
      - by apply sources_ok_alloc. }
  f_equal. rewrite insert_app_r_alt, Nat.sub_diag by lia. cbn [insert list_insert].
  do 3 f_equal. unfold prepared.
  pose proof (splice_replicate (@None Z) (Z.to_nat reserved)
    (Z.to_nat (usable n - reserved - zlen cs)) cs) as Hsp.
  rewrite Z2Nat.id in Hsp by lia. rewrite <- Hsp. do 2 f_equal. lia.
Qed.
End prepare_lemmas.

(** ** cql_body_error.hpp *)

Record BodyError := {
  err_guard        : ptr;
  err_code         : Z;
  err_message      : ptr;
  err_message_size : Z
}.

Section body_error.
Context `{Allocator}.

Definition BodyError_default : BodyError := {|
  err_guard := Null; err_code := i32 0xffffffff;
  err_message := Null; err_message_size := 0
|}.

(** The constructor from a code and a message, which it copies. *)
Definition BodyError_init (code : Z) (input : ptr) (input_size : Z)
    : prog heap BodyError :=
  guard ← new_chars input_size;
  memcpy guard input input_size ;;
  mret {| err_guard := guard; err_code := i32 code;
          err_message := guard; err_message_size := input_size |}.

Definition BodyError_opcode (_ : BodyError) : Z := CQL_OPCODE_ERROR.

(** The message is left where it is in the buffer. *)
Definition BodyError_consume (e : BodyError) (buffer : ptr) (_ : Z)
    : prog heap (bool * BodyError) :=
  '(code, buffer) ← decode_int buffer;
  '(message, message_size, _) ← decode_string buffer (err_message_size e);
  mret (true, {| err_guard := err_guard e; err_code := code;
                 err_message := message; err_message_size := message_size |}).

Definition BodyError_prepare (e : BodyError) (reserved : Z) (output : ptr) (size : Z)
    : prog heap (bool * ptr * Z) :=
  let size := u64 (reserved + sizeof_int32 + sizeof_int16 + err_message_size e) in
  output ← new_chars size;
  (buffer ← encode_int (padd output reserved) (err_code e);
   encode_string buffer (err_message e) (err_message_size e)) ;;
  mret (true, output, size).

#[export] Instance body_error : Body BodyError := {|
  opcode := BodyError_opcode;
  consume := BodyError_consume;
  prepare := BodyError_prepare
|}.
End body_error.

(** ** cql_body_options.hpp, cql_body_ready.hpp *)

Inductive BodyOptions : Set := mkBodyOptions.
Inductive BodyReady : Set := mkBodyReady.

Section body_empty.
Context `{Allocator}.

Definition BodyOptions_opcode (_ : BodyOptions) : Z := CQL_OPCODE_OPTIONS.

Definition BodyOptions_consume (o : BodyOptions) (_ : ptr) (_ : Z)
    : prog heap (bool * BodyOptions) := mret (true, o).

(** The buffer is allocated with the size the caller passed in, and only
    then is the size set. *)
Definition BodyOptions_prepare (_ : BodyOptions) (reserved : Z) (output : ptr)
    (size : Z) : prog heap (bool * ptr * Z) :=
  output ← new_chars size;
  mret (true, output, reserved).

#[export] Instance body_options : Body BodyOptions := {|
  opcode := BodyOptions_opcode;
  consume := BodyOptions_consume;
  prepare := BodyOptions_prepare
|}.

Definition BodyReady_opcode (_ : BodyReady) : Z := CQL_OPCODE_READY.

Definition BodyReady_consume (o : BodyReady) (_ : ptr) (_ : Z)
    : prog heap (bool * BodyReady) := mret (true, o).

Definition BodyReady_prepare (_ : BodyReady) (reserved : Z) (output : ptr)
    (size : Z) : prog heap (bool * ptr * Z) :=
  output ← new_chars size;
  mret (true, output, reserved).

#[export] Instance body_ready : Body BodyReady := {|
  opcode := BodyReady_opcode;
  consume := BodyReady_consume;
  prepare := BodyReady_prepare
|}.
End body_empty.

(** ** cql_body_startup.hpp *)

Definition key_COMPRESSION : list Z := bytes_of_string "COMPRESSION".
Definition key_CQL_VERSION : list Z := bytes_of_string "CQL_VERSION".

Record BodyStartup := {
  cql_version : list Z;
  compression : list Z
}.

Section body_startup.
Context `{Allocator}.

Definition BodyStartup_default : BodyStartup := {|
  cql_version := bytes_of_string "3.0.0"; compression := []
|}.

Definition BodyStartup_opcode (_ : BodyStartup) : Z := CQL_OPCODE_STARTUP.

Definition BodyStartup_consume (s : BodyStartup) (buffer : ptr) (_ : Z)
    : prog heap (bool * BodyStartup) :=
  '(options, _) ← decode_string_map buffer;
  let compression :=
    match find key_COMPRESSION options with
    | Some c => c
    | None => compression s
    end in
  let cql_version :=
    match find key_CQL_VERSION options with
    | Some v => v
    | None => cql_version s
    end in
  mret (true, {| cql_version := cql_version; compression := compression |}).

(** The options that are sent: the non-empty ones. *)
Definition startup_options (s : BodyStartup) : list (list Z * list Z) :=
  let options := [] in
  let options :=
    if decide (compression s = []) then options
    else map_assign key_COMPRESSION (compression s) options in
  if decide (cql_version s = []) then options
  else map_assign key_CQL_VERSION (cql_version s) options.

(** The size that is allocated for them. *)
Definition startup_size (s : BodyStartup) (reserved : Z) : Z :=
  let size := u64 (reserved + sizeof_int16) in
  let size :=
    if decide (compression s = []) then size
    else u64 (size + (sizeof_int16 + zlen key_COMPRESSION)
                   + (sizeof_int16 + zlen (compression s))) in
  if decide (cql_version s = []) then size
  else u64 (size + (sizeof_int16 + zlen key_CQL_VERSION)
                 + (sizeof_int16 + zlen (cql_version s))).

Definition BodyStartup_prepare (s : BodyStartup) (reserved : Z) (output : ptr)
    (size : Z) : prog heap (bool * ptr * Z) :=
  let size := startup_size s reserved in
  output ← new_chars size;
  encode_string_map (padd output reserved) (startup_options s) ;;
  mret (true, output, size).

#[export] Instance body_startup : Body BodyStartup := {|
  opcode := BodyStartup_opcode;
  consume := BodyStartup_consume;
  prepare := BodyStartup_prepare
|}.
End body_startup.

(** ** cql_body_supported.hpp *)

Record BodySupported := {
  sup_compression  : list (list Z);
  sup_cql_versions : list (list Z)
}.

Section body_supported.
Context `{Allocator}.

Definition BodySupported_default : BodySupported := {|
  sup_compression := []; sup_cql_versions := []
|}.

Definition BodySupported_opcode (_ : BodySupported) : Z := CQL_OPCODE_SUPPORTED.

Definition BodySupported_consume (s : BodySupported) (buffer : ptr) (_ : Z)
    : prog heap (bool * BodySupported) :=
  '(supported, _) ← decode_string_multimap buffer;
  let compression :=
    match find key_COMPRESSION supported with
    | Some c => c
    | None => sup_compression s
    end in
  let cql_versions :=
    match find key_CQL_VERSION supported with
    | Some v => v
    | None => sup_cql_versions s
    end in
  mret (true, {| sup_compression := compression;
                 sup_cql_versions := cql_versions |}).

(** Not sent by a client: [prepare] fails and leaves its outputs alone. *)
Definition BodySupported_prepare (_ : BodySupported) (_ : Z) (output : ptr)
    (size : Z) : prog heap (bool * ptr * Z) :=
  mret (false, output, size).

#[export] Instance body_supported : Body BodySupported := {|
  opcode := BodySupported_opcode;
  consume := BodySupported_consume;
  prepare := BodySupported_prepare
|}.
End body_supported.

(** ** cql_body_prepare.hpp *)

Record BodyPrepare := { prepare_ : list Z }.

Section body_prepare.
Context `{Allocator}.

Definition BodyPrepare_default : BodyPrepare := {| prepare_ := [] |}.

Definition BodyPrepare_opcode (_ : BodyPrepare) : Z := CQL_OPCODE_PREPARE.

Definition prepare_string_chars (_ : BodyPrepare) (input : ptr) (size : Z)
    : prog heap BodyPrepare :=
  s ← read_bytes input size;
  mret {| prepare_ := s |}.

Definition prepare_string (_ : BodyPrepare) (input : list Z) : BodyPrepare :=
  {| prepare_ := input |}.

Definition BodyPrepare_consume (b : BodyPrepare) (_ : ptr) (_ : Z)
    : prog heap (bool * BodyPrepare) := mret (true, b).

Definition BodyPrepare_prepare (b : BodyPrepare) (reserved : Z) (output : ptr)
    (size : Z) : prog heap (bool * ptr * Z) :=
  let size := u64 (reserved + sizeof_int32 + zlen (prepare_ b)) in
  output ← new_chars size;
  encode_long_string (padd output reserved)
    (Chars (prepare_ b) 0) (zlen (prepare_ b)) ;;
  mret (true, output, size).

#[export] Instance body_prepare : Body BodyPrepare := {|
  opcode := BodyPrepare_opcode;
  consume := BodyPrepare_consume;
  prepare := BodyPrepare_prepare
|}.
End body_prepare.

(** ** The contract of a body that is sent

    [wire t h cs]: in the heap [h] the body [t] encodes to the cells [cs];
    [excess t] is what [prepare] allocates beyond them.  [prepare_wire] is what
    a client of [prepare] relies on. *)
Class BodyLaws `{Allocator} (T : Type) `{!Body T} := {
  wire : T -> heap -> block -> Prop;
  excess : T -> Z;
  excess_nonneg : forall t, 0 <= excess t;
  prepare_wire : forall t h cs reserved output size,
    wire t h cs -> 0 <= reserved ->
    reserved + zlen cs + excess t < 9223372036854775808 ->
    prepare t reserved output size h =
      Ok ((true, Heap (length h) 0, reserved + zlen cs + excess t),
          h ++ [Some (prepared (reserved + zlen cs + excess t) reserved cs)])
}.

(** The cells of an error body: the code, and the message where it is. *)
Definition error_wire (e : BodyError) (h : heap) (cs : block) : Prop :=
  exists msg, cells_at h (err_message e) msg /\ zlen msg = err_message_size e /\
    cs = (Some <$> be 4 (err_code e)) ++ (Some <$> be 2 (err_message_size e)) ++ msg.

Section body_laws.
Context `{Allocator}.

Lemma error_prepare_wire e h cs reserved output size :
  error_wire e h cs -> 0 <= reserved ->
  reserved + zlen cs + 0 < 9223372036854775808 ->
  BodyError_prepare e reserved output size h =
    Ok ((true, Heap (length h) 0, reserved + zlen cs + 0),
        h ++ [Some (prepared (reserved + zlen cs + 0) reserved cs)]).
Proof.
  intros (msg & Hm & Hn & ->) Hr Hb.
  rewrite !length_app, !length_fmap, !length_be in *.
  unfold BodyError_prepare, sizeof_int16, sizeof_int32.
  rewrite u64_small by lia.
  replace (reserved + 4 + 2 + err_message_size e) with
    (reserved + Z.of_nat (4 + (2 + length msg)) + 0) by lia.
  rewrite (alloc_emit_run [(err_message e, msg)]
    (fun p => buffer ← encode_int p (err_code e);
              encode_string buffer (err_message e) (err_message_size e))
    ((Some <$> be 4 (err_code e)) ++ (Some <$> be 2 (err_message_size e)) ++ msg)).
  - done.
  - apply emits_bind; [apply emits_int|]. apply emits_string; [set_solver|done].
  - by repeat constructor.
  - done.
  - rewrite !length_app, !length_fmap, !length_be. lia.
Qed.

(** The options of a startup body, case by case. *)
Lemma startup_options_cases s :
  startup_options s =
    (if decide (compression s = []) then [] else [(key_COMPRESSION, compression s)]) ++
    (if decide (cql_version s = []) then [] else [(key_CQL_VERSION, cql_version s)]).
Proof.
  unfold startup_options. repeat case_decide; reflexivity.
Qed.

Lemma startup_size_exact s reserved :
  0 <= reserved ->
  reserved + zlen (wire_string_map (startup_options s)) < 9223372036854775808 ->
  startup_size s reserved = reserved + zlen (wire_string_map (startup_options s)).
Proof.
  rewrite startup_options_cases. unfold startup_size, wire_string_map, sizeof_int16.
  change (zlen key_COMPRESSION) with 11. change (zlen key_CQL_VERSION) with 11.
  intros Hr. repeat case_decide;
    cbn [app fmap list_fmap concat fst snd];
    unfold wire_string; rewrite !length_app, ?length_app, !length_be;
    change (length key_COMPRESSION) with 11%nat;
    change (length key_CQL_VERSION) with 11%nat; cbn [length]; intros Hb;
    rewrite (u64_small (reserved + 2)) by lia; int_solve.
Qed.

Definition startup_wire (s : BodyStartup) (_ : heap) (cs : block) : Prop :=
  cs = Some <$> wire_string_map (startup_options s).

Lemma startup_prepare_wire s h cs reserved output size :
  startup_wire s h cs -> 0 <= reserved ->
  reserved + zlen cs + 0 < 9223372036854775808 ->
  BodyStartup_prepare s reserved output size h =
    Ok ((true, Heap (length h) 0, reserved + zlen cs + 0),
        h ++ [Some (prepared (reserved + zlen cs + 0) reserved cs)]).
Proof.
  unfold startup_wire. intros -> Hr. rewrite length_fmap. intros Hb.
  unfold BodyStartup_prepare.
  rewrite startup_size_exact, Z.add_0_r by lia.
  rewrite (alloc_emit_run [] (fun p => encode_string_map p (startup_options s))
    (Some <$> wire_string_map (startup_options s))); [done|..].
  - apply emits_string_map.
  - constructor.
  - done.
  - rewrite length_fmap. lia.
Qed.

Definition prepare_wire_cells (b : BodyPrepare) (_ : heap) (cs : block) : Prop :=
  cs = Some <$> wire_long_string (prepare_ b).

Lemma prepare_prepare_wire b h cs reserved output size :
  prepare_wire_cells b h cs -> 0 <= reserved ->
  reserved + zlen cs + 0 < 9223372036854775808 ->
  BodyPrepare_prepare b reserved output size h =
    Ok ((true, Heap (length h) 0, reserved + zlen cs + 0),
        h ++ [Some (prepared (reserved + zlen cs + 0) reserved cs)]).
Proof.
  unfold prepare_wire_cells, wire_long_string. intros -> Hr.
  rewrite length_fmap, length_app, length_be. intros Hb.
  unfold BodyPrepare_prepare, sizeof_int32. rewrite u64_small by lia.
  replace (reserved + 4 + zlen (prepare_ b))
    with (reserved + Z.of_nat (4 + length (prepare_ b)) + 0) by lia.
  rewrite (alloc_emit_run []
    (fun p => encode_long_string p (Chars (prepare_ b) 0) (zlen (prepare_ b)))
    (Some <$> wire_long_string (prepare_ b))); [done|..].
  - apply emits_std_long_string.
  - constructor.
  - done.
  - unfold wire_long_string. rewrite length_fmap, length_app, length_be. lia.
Qed.

#[export] Instance error_laws : BodyLaws BodyError := {|
  wire := error_wire; excess := fun _ => 0;
  excess_nonneg := fun _ => Z.le_refl 0; prepare_wire := error_prepare_wire
|}.
#[export] Instance startup_laws : BodyLaws BodyStartup := {|
  wire := startup_wire; excess := fun _ => 0;
  excess_nonneg := fun _ => Z.le_refl 0; prepare_wire := startup_prepare_wire
|}.
#[export] Instance prepare_laws : BodyLaws BodyPrepare := {|
  wire := prepare_wire_cells; excess := fun _ => 0;
  excess_nonneg := fun _ => Z.le_refl 0; prepare_wire := prepare_prepare_wire
|}.

(** An options or ready body allocates what the caller's [size] says, and
    reports the reserved size. *)
Lemma options_prepare_run o h reserved output size :
  0 <= size < 9223372036854775808 ->
  BodyOptions_prepare o reserved output size h =
    Ok ((true, Heap (length h) 0, reserved),
        h ++ [Some (replicate (Z.to_nat (usable size)) None)]).
Proof.
  intros Hs. unfold BodyOptions_prepare.
  by erewrite bind_run by by apply new_chars_run.
Qed.
End body_laws.

(** ** Theorems *)

(** The bytes after the reserved ones, as they arrive in a block at the other
    end. *)
Definition received_cells (b : block) (reserved n : Z) : block :=
  take (Z.to_nat (n - reserved)) (drop (Z.to_nat reserved) b).

Section body_lemmas.
Context `{Allocator}.

Lemma received_prepared n reserved cs :
  0 <= reserved -> reserved + zlen cs <= n ->
  received_cells (prepared n reserved cs) reserved n =
    cs ++ replicate (Z.to_nat (n - reserved - zlen cs)) None.
Proof.
  intros Hr Hn. pose proof (usable_ge n). unfold received_cells, prepared.
  rewrite drop_app_ge; rewrite length_replicate; [|lia].
  rewrite Nat.sub_diag, drop_0, take_app_ge by lia.
  rewrite take_replicate. do 2 f_equal. lia.
Qed.

(** A block that holds [bs] and nothing else. *)
Lemma tail_at_block h l bs :
  h !! l = Some (Some (Some <$> bs)) -> Forall is_byte bs ->
  tail_at h (Heap l 0) bs.
Proof.
  intros Hl Hb. exists l, 0, (Some <$> bs), 0%nat.
  split_and!; [done..|lia| |done]. by rewrite app_nil_r.
Qed.

Lemma bytes_at_block h l bs :
  h !! l = Some (Some (Some <$> bs)) -> bytes_at h (Heap l 0) bs.
Proof.
  intros Hl. eapply cells_at_heap; [exact Hl|]. apply slice_Some.
  exists [], []. by rewrite app_nil_r.
Qed.
End body_lemmas.

(** The values a startup body carries fit a 16-bit length. *)
Definition startup_short (s : BodyStartup) : Prop :=
  short_string (compression s) /\ short_string (cql_version s) /\
  Forall is_byte (compression s) /\ Forall is_byte (cql_version s).

(** A startup body survives the wire: [prepare] allocates the reserved bytes
    and exactly the encoding, and [consume] of the encoding sets the fields
    that were sent, the non-empty ones, and keeps the others. *)
Theorem startup_roundtrip `{Allocator} s s0 h reserved output size :
  startup_short s -> 0 <= reserved < 4611686018427387904 ->
  exists n b,
    prepare s reserved output size h =
      Ok ((true, Heap (length h) 0, n), h ++ [Some b]) /\
    n = reserved + zlen (received_cells b reserved n) /\
    forall h' l, h' !! l = Some (Some (received_cells b reserved n)) ->
      consume s0 (Heap l 0) (n - reserved) h' =
        Ok ((true,
             {| cql_version := if decide (cql_version s = [])
                               then cql_version s0 else cql_version s;
                compression := if decide (compression s = [])
                               then compression s0 else compression s |}), h').
Proof.
  intros (Hc & Hv & Hcb & Hvb) Hr. unfold short_string in *.
  set (w := wire_string_map (startup_options s)).
  assert (Forall short_entry (startup_options s) /\
    Forall (fun e => Forall is_byte e.1 /\ Forall is_byte e.2) (startup_options s) /\
    map_sorted (startup_options s) /\ zlen (startup_options s) < 32768 /\
    zlen w < 200000) as (Hse & Hby & Hso & Hlen & Hw).
  { subst w. rewrite startup_options_cases. unfold wire_string_map, wire_string.
    repeat case_decide; cbn [app fmap list_fmap concat fst snd];
      rewrite ?length_app, ?length_be;
      (split_and!; [..|cbn; lia|rewrite ?length_app, ?length_be; cbn; lia]);
      repeat constructor; cbn; unfold is_byte; done || lia. }
  assert (zlen (Some <$> w) = zlen w) as Hfw by by rewrite length_fmap.
  eexists _, _. split.
  { apply (prepare_wire s h (Some <$> w)); [reflexivity|lia|cbn [excess startup_laws]; lia]. }
  cbn [excess startup_laws]. rewrite received_prepared; [|lia..].
  replace (reserved + _ + 0 - reserved - _) with 0 by lia. rewrite app_nil_r.
  split; [lia|]. intros h' l Hl.
  assert (tail_at h' (Heap l 0) w) as Ht.
  { apply tail_at_block; [done|]. by apply wire_string_map_is_byte. }
  pose proof (decode_string_map_refines h' _ _ Ht) as Hd.
  pose proof (parse_string_map_wire (startup_options s) [] Hlen Hse) as Hp.
  rewrite app_nil_r in Hp. fold w in Hp. rewrite Hp in Hd.
  rewrite (insert_run [] _ Hso) in Hd. destruct Hd as (q & Hd & _).
  cbn [consume body_startup]. unfold BodyStartup_consume. run_step Hd.
  cbn [app]. rewrite startup_options_cases. repeat case_decide; reflexivity.
Qed.

Theorem startup_roundtrip_witness :
  exists n b,
    prepare (Body := @body_startup exact_allocator) BodyStartup_default 8 Null 0 [] =
      Ok ((true, Heap 0 0, n), [Some b]) /\ n = 30.
Proof.
  destruct (@startup_roundtrip exact_allocator BodyStartup_default
    BodyStartup_default [] 8 Null 0) as (n & b & Hp & _).
  - split_and!; try (vm_compute; reflexivity);
      vm_compute; repeat constructor; discriminate.
  - lia.
  - exists n, b. split; [exact Hp|]. vm_compute in Hp. by simplify_eq.
Defined.

(** An error body survives the wire: the encoding is the code, the length
    and the message, wherever the message was; [consume] of it finds the code,
    and a message pointer and size that denote the same characters inside the
    received buffer. *)
Theorem error_roundtrip `{Allocator} e e0 h msg reserved output size :
  bytes_at h (err_message e) msg -> Forall is_byte msg ->
  err_message_size e = zlen msg -> short_string msg ->
  -2147483648 <= err_code e < 2147483648 ->
  0 <= err_message_size e0 < 65536 ->
  0 <= reserved < 4611686018427387904 ->
  exists n b,
    prepare e reserved output size h =
      Ok ((true, Heap (length h) 0, n), h ++ [Some b]) /\
    received_cells b reserved n =
      Some <$> be 4 (err_code e) ++ wire_string msg /\
    forall h' l, h' !! l = Some (Some (received_cells b reserved n)) ->
      bytes_at h' (Heap l 6) msg /\
      consume e0 (Heap l 0) (n - reserved) h' =
        Ok ((true, {| err_guard := err_guard e0; err_code := err_code e;
                      err_message := Heap l 6;
                      err_message_size := zlen msg |}), h').
Proof.
  intros Hm Hby Hsz Hs Hc Hs0 Hr. unfold short_string in Hs.
  set (w := be 4 (err_code e) ++ wire_string msg).
  assert (zlen (Some <$> w) = 6 + zlen msg) as Hw.
  { subst w. unfold wire_string. rewrite length_fmap, !length_app, !length_be. lia. }
  eexists _, _. split.
  { apply (prepare_wire e h (Some <$> w)); [|lia|cbn [excess error_laws]; lia].
    exists (Some <$> msg). rewrite length_fmap. split_and!; [exact Hm|done|].
    subst w. unfold wire_string. by rewrite !fmap_app, Hsz. }
  cbn [excess error_laws]. rewrite received_prepared; [|lia..].
  replace (Z.to_nat (_ - _ - _)) with O by lia. cbn [replicate].
  rewrite app_nil_r. split; [done|]. intros h' l Hl.
  apply bytes_at_block in Hl. subst w.
  apply bytes_at_app in Hl as [Hcode Hmsg]. rewrite length_be in Hmsg.
  apply bytes_at_string in Hmsg as [Hn Hmsg]. split; [exact Hmsg|].
  cbn [consume body_error]. unfold BodyError_consume.
  run_step decode_int_run. rewrite i32_small by lia.
  cbn [padd] in *. run_step decode_string_run. done.
Qed.

Theorem error_roundtrip_witness :
  exists n b,
    prepare (Body := @body_error exact_allocator)
      {| err_guard := Null; err_code := -1;
         err_message := Chars (bytes_of_string "foobar") 0; err_message_size := 6 |}
      8 Null 0 [] = Ok ((true, Heap 0 0, n), [Some b]).
Proof.
  destruct (@error_roundtrip exact_allocator
    {| err_guard := Null; err_code := -1;
       err_message := Chars (bytes_of_string "foobar") 0; err_message_size := 6 |}
    (@BodyError_default) [] (bytes_of_string "foobar") 8 Null 0)
    as (n & b & Hp & _); try (cbn; lia).
  - apply bytes_at_chars.
  - vm_compute. repeat constructor; discriminate.
  - vm_compute. reflexivity.
  - exists n, b. exact Hp.
Defined.

(** C29: [BodySupported::consume] is total over its input: of any received bytes
    that hold a complete multimap it takes the values of COMPRESSION and
    CQL_VERSION, keeps a field whose key is absent, and ignores the rest;
    anything else makes it read past the input. *)
Theorem supported_consume_spec `{Allocator} s h p bs n :
  tail_at h p bs ->
  match parse_string_multimap bs with
  | Some (m, _) =>
      consume s p n h =
        Ok ((true,
             {| sup_compression :=
                  match find key_COMPRESSION m with
                  | Some c => c | None => sup_compression s end;
                sup_cql_versions :=
                  match find key_CQL_VERSION m with
                  | Some v => v | None => sup_cql_versions s end |}), h)
  | None => bad_read (consume s p n h)
  end.
Proof.
  intros Ht. pose proof (decode_string_multimap_refines h p bs Ht) as Hd.
  cbn [consume body_supported]. unfold BodySupported_consume.
  destruct (parse_string_multimap bs) as [[m bs']|].
  - destruct Hd as (q & Hd & _). by run_step Hd.
  - by apply bind_bad.
Qed.

Theorem supported_consume_spec_witness :
  consume (Body := @body_supported exact_allocator) BodySupported_default
    (Heap 0 0) 0
    [Some (Some <$> wire_multimap
       [(key_CQL_VERSION, [bytes_of_string "3.0.0"; bytes_of_string "2.0.0"])])] =
  Ok ((true, {| sup_compression := [];
                sup_cql_versions := [bytes_of_string "3.0.0"; bytes_of_string "2.0.0"] |}),
      [Some (Some <$> wire_multimap
       [(key_CQL_VERSION, [bytes_of_string "3.0.0"; bytes_of_string "2.0.0"])])]).
Proof.
  refine (@supported_consume_spec exact_allocator BodySupported_default
    [Some (Some <$> wire_multimap
       [(key_CQL_VERSION, [bytes_of_string "3.0.0"; bytes_of_string "2.0.0"])])]
    (Heap 0 0) (wire_multimap
       [(key_CQL_VERSION, [bytes_of_string "3.0.0"; bytes_of_string "2.0.0"])]) 0 _).
  apply tail_at_block; [reflexivity|].
  vm_compute. repeat constructor; discriminate.
Defined.
