(* ===== verification/Query.v ===== *)
(** * cql_body_query.hpp

    The query body: its setters, the size and the flags [prepare] computes, and
    the encoding.  The values of a query are kept as pointers into the memory of
    the caller and read only when the query is prepared. *)

From S2P Require Import Prelude Memory StdMap Common Serialization Body.

Definition CQL_QUERY_FLAG_VALUES : Z := 0x01.
Definition CQL_QUERY_FLAG_SKIP_METADATA : Z := 0x02.
Definition CQL_QUERY_FLAG_PAGE_SIZE : Z := 0x04.
Definition CQL_QUERY_FLAG_PAGING_STATE : Z := 0x08.
Definition CQL_QUERY_FLAG_SERIAL_CONSISTENCY : Z := 0x10.

Record BodyQuery := {
  query_              : list Z;
  consistency_        : Z;
  page_size_          : Z;
  page_size_set_      : bool;
  paging_state_       : list Z;
  serial_consistent_  : bool;
  serial_consistency_ : Z;
  values_             : list (ptr * Z)
}.

Definition BodyQuery_default : BodyQuery := {|
  query_ := []; consistency_ := CQL_CONSISTENCY_ANY; page_size_ := 0;
  page_size_set_ := false; paging_state_ := []; serial_consistent_ := false;
  serial_consistency_ := CQL_CONSISTENCY_SERIAL; values_ := []
|}.

Definition BodyQuery_opcode (_ : BodyQuery) : Z := CQL_OPCODE_QUERY.

(** ** Setters *)

(** The three overloads of [query_string]: from a C string, from characters
    and a size, and from a std::string. *)
Definition query_string (q : BodyQuery) (input : list Z) : BodyQuery := {|
  query_ := input; consistency_ := consistency_ q; page_size_ := page_size_ q;
  page_size_set_ := page_size_set_ q; paging_state_ := paging_state_ q;
  serial_consistent_ := serial_consistent_ q;
  serial_consistency_ := serial_consistency_ q; values_ := values_ q
|}.

Definition query_string_cstr (q : BodyQuery) (input : ptr) : prog heap BodyQuery :=
  s ← read_cstring input;
  mret (query_string q s).

Definition query_string_chars (q : BodyQuery) (input : ptr) (size : Z)
    : prog heap BodyQuery :=
  s ← read_bytes input size;
  mret (query_string q s).

Definition page_size (q : BodyQuery) (size : Z) : BodyQuery := {|
  query_ := query_ q; consistency_ := consistency_ q; page_size_ := size;
  page_size_set_ := true; paging_state_ := paging_state_ q;
  serial_consistent_ := serial_consistent_ q;
  serial_consistency_ := serial_consistency_ q; values_ := values_ q
|}.

(** The paging state is copied. *)
Definition paging_state (q : BodyQuery) (state : ptr) (size : Z)
    : prog heap BodyQuery :=
  s ← read_bytes state size;
  mret {|
    query_ := query_ q; consistency_ := consistency_ q; page_size_ := page_size_ q;
    page_size_set_ := page_size_set_ q; paging_state_ := s;
    serial_consistent_ := serial_consistent_ q;
    serial_consistency_ := serial_consistency_ q; values_ := values_ q
  |}.

(** A value is not copied: the pointer is kept. *)
Definition add_value (q : BodyQuery) (value : ptr) (size : Z) : BodyQuery := {|
  query_ := query_ q; consistency_ := consistency_ q; page_size_ := page_size_ q;
  page_size_set_ := page_size_set_ q; paging_state_ := paging_state_ q;
  serial_consistent_ := serial_consistent_ q;
  serial_consistency_ := serial_consistency_ q;
  values_ := values_ q ++ [(value, size)]
|}.

Definition consistency (q : BodyQuery) (consistency : Z) : BodyQuery := {|
  query_ := query_ q; consistency_ := consistency; page_size_ := page_size_ q;
  page_size_set_ := page_size_set_ q; paging_state_ := paging_state_ q;
  serial_consistent_ := serial_consistent_ q;
  serial_consistency_ := serial_consistency_ q; values_ := values_ q
|}.

Definition serial_consistency (q : BodyQuery) (consistency : Z) : BodyQuery := {|
  query_ := query_ q; consistency_ := consistency_ q; page_size_ := page_size_ q;
  page_size_set_ := page_size_set_ q; paging_state_ := paging_state_ q;
  serial_consistent_ := true; serial_consistency_ := consistency;
  values_ := values_ q
|}.

(** ** consume and prepare *)

Definition BodyQuery_consume (q : BodyQuery) (_ : ptr) (_ : Z)
    : prog heap (bool * BodyQuery) := mret (true, q).

(** The flags, in the order the code sets them. *)
Definition query_flags (q : BodyQuery) : Z :=
  let flags := 0x00 in
  let flags := if serial_consistent_ q
    then Z.lor flags CQL_QUERY_FLAG_SERIAL_CONSISTENCY else flags in
  let flags := if decide (paging_state_ q = []) then flags
    else Z.lor flags CQL_QUERY_FLAG_PAGING_STATE in
  let flags := if decide (values_ q = []) then flags
    else Z.lor flags CQL_QUERY_FLAG_VALUES in
  let flags := if page_size_set_ q
    then Z.lor flags CQL_QUERY_FLAG_PAGE_SIZE else flags in
  if serial_consistent_ q
  then Z.lor flags CQL_QUERY_FLAG_SERIAL_CONSISTENCY else flags.

(** The loop over the values that adds up their sizes. *)
Definition values_size (size : Z) (values : list (ptr * Z)) : Z :=
  foldl (fun size v => u64 (size + (sizeof_int32 + v.2))) size values.

(** The size, in the order the code adds it up. *)
Definition query_size (q : BodyQuery) (reserved : Z) : Z :=
  let size := u64 (reserved + sizeof_int32 + zlen (query_ q)) in
  let size := u64 (size + sizeof_int16) in
  let size := u64 (size + 1) in
  let size := if serial_consistent_ q then u64 (size + sizeof_int16) else size in
  let size := if decide (paging_state_ q = []) then size
    else u64 (size + (sizeof_int16 + zlen (paging_state_ q))) in
  let size := if decide (values_ q = []) then size
    else values_size (u64 (size + sizeof_int16)) (values_ q) in
  let size := if page_size_set_ q then u64 (size + sizeof_int32) else size in
  if serial_consistent_ q then u64 (size + sizeof_int16) else size.

Fixpoint encode_values (values : list (ptr * Z)) (buffer : ptr) : prog heap ptr :=
  match values with
  | [] => mret buffer
  | (first, second) :: values =>
      buffer ← encode_long_string buffer first second;
      encode_values values buffer
  end.

Definition encode_query (q : BodyQuery) (buffer : ptr) : prog heap ptr :=
  buffer ← encode_long_string buffer (Chars (query_ q) 0) (zlen (query_ q));
  buffer ← encode_short buffer (consistency_ q);
  buffer ← encode_byte buffer (query_flags q);
  buffer ← (if decide (values_ q = []) then mret buffer else
    buffer ← encode_short buffer (zlen (values_ q));
    encode_values (values_ q) buffer);
  buffer ← (if page_size_set_ q then encode_int buffer (page_size_ q)
            else mret buffer);
  buffer ← (if decide (paging_state_ q = []) then mret buffer else
    encode_string buffer (Chars (paging_state_ q) 0) (zlen (paging_state_ q)));
  if serial_consistent_ q then encode_short buffer (serial_consistency_ q)
  else mret buffer.

Definition BodyQuery_prepare `{Allocator} (q : BodyQuery) (reserved : Z)
    (output : ptr) (size : Z) : prog heap (bool * ptr * Z) :=
  let size := query_size q reserved in
  output ← new_chars size;
  encode_query q (padd output reserved) ;;
  mret (true, output, size).

#[export] Instance body_query `{Allocator} : Body BodyQuery := {|
  opcode := BodyQuery_opcode;
  consume := BodyQuery_consume;
  prepare := BodyQuery_prepare
|}.

(** ** The wire format of a query *)

(** The values of the query have the contents [vals] in the heap [h]. *)
Definition values_at (h : heap) (values : list (ptr * Z)) (vals : list (list Z)) : Prop :=
  Forall2 (fun v bs => bytes_at h v.1 bs /\ v.2 = zlen bs) values vals.

(** The cells a value list reads. *)
Definition value_sources (values : list (ptr * Z)) (vals : list (list Z))
    : list (ptr * block) :=
  zip values.*1 ((fun bs : list Z => (Some <$> bs : block)) <$> vals).

Definition query_bytes (q : BodyQuery) (vals : list (list Z)) : list Z :=
  wire_long_string (query_ q) ++
  be 2 (consistency_ q) ++
  [query_flags q] ++
  (if decide (vals = []) then []
   else be 2 (zlen vals) ++ concat (wire_long_string <$> vals)) ++
  (if page_size_set_ q then be 4 (page_size_ q) else []) ++
  (if decide (paging_state_ q = []) then [] else wire_string (paging_state_ q)) ++
  (if serial_consistent_ q then be 2 (serial_consistency_ q) else []).

Definition query_excess (q : BodyQuery) : Z :=
  if serial_consistent_ q then sizeof_int16 else 0.

Definition query_wire (q : BodyQuery) (h : heap) (cs : block) : Prop :=
  exists vals, values_at h (values_ q) vals /\ cs = Some <$> query_bytes q vals.

Section query_lemmas.
Context `{Allocator}.
Implicit Types (q : BodyQuery).

Lemma query_flags_byte q : u8 (query_flags q) = query_flags q.
Proof. unfold query_flags. repeat case_match; reflexivity. Qed.

Lemma values_at_nil h values vals :
  values_at h values vals -> values = [] <-> vals = [].
Proof. intros Hv. destruct Hv; split; done. Qed.

Lemma emits_values h values vals ss :
  values_at h values vals ->
  Forall (fun v => v ∈ ss) (value_sources values vals) ->
  emits ss (encode_values values)
    (Some <$> concat (wire_long_string <$> vals)).
Proof.
  unfold value_sources.
  induction 1 as [|[p n] bs values vals [Hp Hn] Hv IH]; [intros; apply emits_ret|].
  cbn [fmap list_fmap zip zip_with encode_values concat fst snd] in *.
  intros [Hs Hss]%Forall_cons. rewrite fmap_app.
  apply emits_bind; [|by apply IH].
  unfold wire_long_string. rewrite fmap_app, <- Hn.
  apply emits_long_string; [done|]. by rewrite length_fmap.
Qed.

Lemma emits_query h q vals :
  values_at h (values_ q) vals ->
  emits (value_sources (values_ q) vals) (encode_query q)
    (Some <$> query_bytes q vals).
Proof.
  intros Hv. pose proof (values_at_nil _ _ _ Hv) as Hnil.
  unfold encode_query, query_bytes. rewrite !fmap_app.
  apply emits_bind; [apply emits_std_long_string|].
  apply emits_bind; [apply emits_short|].
  apply emits_bind.
  { pose proof (emits_byte (value_sources (values_ q) vals) (query_flags q)) as Hb.
    rewrite query_flags_byte in Hb. exact Hb. }
  apply emits_bind.
  { destruct (decide (values_ q = [])) as [Hq|Hq].
    - rewrite decide_True by by apply Hnil. apply emits_ret.
    - rewrite decide_False by by rewrite <- Hnil. rewrite fmap_app.
      rewrite (Forall2_length _ _ _ Hv).
      apply emits_bind; [apply emits_short|].
      eapply emits_values; [exact Hv|]. by apply Forall_forall. }
  apply emits_bind.
  { destruct (page_size_set_ q); [apply emits_int|apply emits_ret]. }
  apply emits_bind.
  { case_decide; [apply emits_ret|apply emits_std_string]. }
  destruct (serial_consistent_ q); [apply emits_short|apply emits_ret].
Qed.

Lemma values_size_exact size values vals h :
  values_at h values vals -> 0 <= size ->
  size + zlen (concat (wire_long_string <$> vals)) < 9223372036854775808 ->
  values_size size values = size + zlen (concat (wire_long_string <$> vals)).
Proof.
  intros Hv. revert size.
  induction Hv as [|[p n] bs values vals [Hp Hn] Hv IH]; intros size Hs; cbn.
  { lia. }
  cbn in Hn. subst n. unfold sizeof_int32.
  rewrite !length_app. intros Hb. rewrite u64_small by lia.
  fold (values_size (size + (4 + zlen bs)) values).
  rewrite IH by lia. lia.
Qed.

Lemma query_size_exact q reserved vals h :
  values_at h (values_ q) vals -> 0 <= reserved ->
  reserved + zlen (query_bytes q vals) + query_excess q < 9223372036854775808 ->
  query_size q reserved = reserved + zlen (query_bytes q vals) + query_excess q.
Proof.
  intros Hv Hr. pose proof (values_at_nil _ _ _ Hv) as Hnil.
  unfold query_size, query_bytes, query_excess, sizeof_int16, sizeof_int32.
  unfold wire_long_string at 1 3. unfold wire_string.
  rewrite !length_app, !length_be. cbn [length]. intros Hb.
  rewrite !(u64_small (reserved + 4 + zlen (query_ q))) by (repeat case_match; lia).
  destruct (decide (values_ q = [])) as [Hq|Hq];
    [rewrite (decide_True (P := vals = [])) in * by by apply Hnil
    |rewrite (decide_False (P := vals = [])) in * by by rewrite <- Hnil].
  - destruct (serial_consistent_ q), (page_size_set_ q);
      case_decide; rewrite ?length_app, ?length_be in *; cbn [length] in *;
      int_solve.
  - rewrite length_app, length_be in *.
    erewrite values_size_exact; [|exact Hv|apply Z.mod_pos_bound; lia|].
    all: destruct (serial_consistent_ q), (page_size_set_ q);
      case_decide; rewrite ?length_app, ?length_be in *; cbn [length] in *;
      int_solve.
Qed.

Lemma value_sources_ok h values vals :
  values_at h values vals ->
  Forall (fun s => cells_at h s.1 s.2) (value_sources values vals).
Proof.
  unfold value_sources.
  induction 1 as [|[p n] bs values vals [Hp Hn] Hv IH]; [constructor|].
  cbn. by constructor.
Qed.

Lemma query_prepare_wire q h cs reserved output size :
  query_wire q h cs -> 0 <= reserved ->
  reserved + zlen cs + query_excess q < 9223372036854775808 ->
  BodyQuery_prepare q reserved output size h =
    Ok ((true, Heap (length h) 0, reserved + zlen cs + query_excess q),
        h ++ [Some (prepared (reserved + zlen cs + query_excess q) reserved cs)]).
Proof.
  intros (vals & Hv & ->) Hr. rewrite length_fmap. intros Hb.
  assert (0 <= query_excess q) as Hx
    by (unfold query_excess, sizeof_int16; case_match; lia).
  unfold BodyQuery_prepare. rewrite (query_size_exact q reserved vals h) by done.
  rewrite (alloc_emit_run (value_sources (values_ q) vals) (encode_query q)
    (Some <$> query_bytes q vals)); [done|..].
  - by eapply emits_query.
  - by apply value_sources_ok.
  - done.
  - rewrite length_fmap. lia.
Qed.

Lemma query_excess_nonneg q : 0 <= query_excess q.
Proof. unfold query_excess, sizeof_int16. case_match; lia. Qed.
End query_lemmas.

#[export] Instance query_laws `{Allocator} : BodyLaws BodyQuery := {|
  wire := query_wire; excess := query_excess;
  excess_nonneg := query_excess_nonneg; prepare_wire := query_prepare_wire
|}.

(** ** The receiver of a query

    A parser that is driven by the flags, as a server has it.  [parse_query] is that
    of the v2 protocol, in which the values and the paging state are [bytes], with a
    length of four bytes; [parse_query_short_paging] differs in one thing: it expects
    the paging state with a length of two bytes, which the code gives it. *)

Record query_content := {
  qc_query        : list Z;
  qc_consistency  : Z;
  qc_values       : option (list (list Z));
  qc_page_size    : option Z;
  qc_paging_state : option (list Z);
  qc_serial       : option Z
}.

Definition parse_int (bs : list Z) : option (Z * list Z) :=
  match bs with
  | w :: x :: y :: z :: bs => Some (i32 (be_value [w; x; y; z]), bs)
  | _ => None
  end.

Definition parse_byte (bs : list Z) : option (Z * list Z) :=
  match bs with
  | x :: bs => Some (x, bs)
  | [] => None
  end.

Definition parse_long_string (bs : list Z) : option (list Z * list Z) :=
  '(n, bs) ← parse_int bs;
  if decide (0 <= n <= zlen bs)
  then Some (take (Z.to_nat n) bs, drop (Z.to_nat n) bs)
  else None.

Fixpoint parse_values (n : nat) (bs : list Z) : option (list (list Z) * list Z) :=
  match n with
  | O => Some ([], bs)
  | S n =>
      '(v, bs) ← parse_long_string bs;
      '(vs, bs) ← parse_values n bs;
      Some (v :: vs, bs)
  end.

(** An optional part: parsed when its flag is set. *)
Definition parse_if {A} (flag : bool) (parse : list Z -> option (A * list Z))
    (bs : list Z) : option (option A * list Z) :=
  if flag then '(a, bs) ← parse bs; Some (Some a, bs) else Some (None, bs).

Definition parse_query_with (parse_paging : list Z -> option (list Z * list Z))
    (bs : list Z) : option (query_content * list Z) :=
  '(query, bs) ← parse_long_string bs;
  '(consistency, bs) ← parse_short bs;
  '(flags, bs) ← parse_byte bs;
  '(values, bs) ← parse_if (Z.testbit flags 0)
    (fun bs => '(n, bs) ← parse_short bs; parse_values (Z.to_nat (u16 n)) bs) bs;
  '(page_size, bs) ← parse_if (Z.testbit flags 2) parse_int bs;
  '(paging, bs) ← parse_if (Z.testbit flags 3) parse_paging bs;
  '(serial, bs) ← parse_if (Z.testbit flags 4) parse_short bs;
  Some ({| qc_query := query; qc_consistency := consistency;
           qc_values := values; qc_page_size := page_size;
           qc_paging_state := paging; qc_serial := serial |}, bs).

Definition parse_query : list Z -> option (query_content * list Z) :=
  parse_query_with parse_long_string.
Definition parse_query_short_paging : list Z -> option (query_content * list Z) :=
  parse_query_with parse_string.

(** What a query asks for. *)
Definition content (q : BodyQuery) (vals : list (list Z)) : query_content := {|
  qc_query := query_ q;
  qc_consistency := i16 (consistency_ q);
  qc_values := if decide (vals = []) then None else Some vals;
  qc_page_size := if page_size_set_ q then Some (i32 (page_size_ q)) else None;
  qc_paging_state := if decide (paging_state_ q = []) then None
                     else Some (paging_state_ q);
  qc_serial := if serial_consistent_ q then Some (i16 (serial_consistency_ q))
               else None
|}.

(** Lengths that fit their fields. *)
Definition query_short (q : BodyQuery) (vals : list (list Z)) : Prop :=
  zlen (query_ q) < 2147483648 /\ zlen (paging_state_ q) < 65536 /\
  zlen vals < 65536 /\ Forall (fun v => zlen v < 2147483648) vals.

Section query_parse.
Lemma parse_int_be v bs : parse_int (be 4 v ++ bs) = Some (i32 v, bs).
Proof.
  cbn [be le_bytes rev app parse_int]. do 2 f_equal.
  unfold be_value. cbn [rev app le_value]. int_solve.
Qed.

Lemma parse_long_string_wire s bs :
  zlen s < 2147483648 ->
  parse_long_string (wire_long_string s ++ bs) = Some (s, bs).
Proof.
  intros Hs. unfold parse_long_string, wire_long_string.
  rewrite <- app_assoc, parse_int_be. cbn [mbind option_bind].
  rewrite i32_small, decide_True, Nat2Z.id by (rewrite ?length_app; lia).
  by rewrite take_app_length, drop_app_length.
Qed.

Lemma parse_values_wire vals bs :
  Forall (fun v => zlen v < 2147483648) vals ->
  parse_values (length vals) (concat (wire_long_string <$> vals) ++ bs) =
    Some (vals, bs).
Proof.
  induction 1 as [|v vals Hv Hvals IH]; [done|].
  cbn [length fmap list_fmap concat parse_values].
  rewrite <- app_assoc, parse_long_string_wire by done. cbn [mbind option_bind].
  by rewrite IH.
Qed.

(** Each flag says whether its part is there. *)
Lemma query_flags_spec q :
  Z.testbit (query_flags q) 0 = negb (bool_decide (values_ q = [])) /\
  Z.testbit (query_flags q) 2 = page_size_set_ q /\
  Z.testbit (query_flags q) 3 = negb (bool_decide (paging_state_ q = [])) /\
  Z.testbit (query_flags q) 4 = serial_consistent_ q.
Proof.
  unfold query_flags. rewrite !bool_decide_decide.
  destruct (serial_consistent_ q), (page_size_set_ q),
    (decide (values_ q = [])), (decide (paging_state_ q = []));
    split_and!; reflexivity.
Qed.

(** The parser up to the paging state, and what it still has to read. *)
Lemma parse_query_prefix paging q h vals bs :
  values_at h (values_ q) vals -> query_short q vals ->
  parse_query_with paging (query_bytes q vals ++ bs) =
    ('(state, bs) ← parse_if (negb (bool_decide (paging_state_ q = []))) paging
       ((if decide (paging_state_ q = []) then [] else wire_string (paging_state_ q)) ++
        (if serial_consistent_ q then be 2 (serial_consistency_ q) else []) ++ bs);
     '(serial, bs) ← parse_if (serial_consistent_ q) parse_short bs;
     Some ({| qc_query := query_ q; qc_consistency := i16 (consistency_ q);
              qc_values := if decide (vals = []) then None else Some vals;
              qc_page_size := if page_size_set_ q then Some (i32 (page_size_ q)) else None;
              qc_paging_state := state; qc_serial := serial |}, bs)).
Proof.
  unfold query_short. intros Hv (Hq & Hp & Hn & Hvals).
  pose proof (values_at_nil _ _ _ Hv) as Hnil.
  destruct (query_flags_spec q) as (F0 & F2 & F3 & F4).
  unfold parse_query_with, query_bytes. rewrite <- !app_assoc.
  rewrite parse_long_string_wire by done. cbn [mbind option_bind].
  rewrite parse_short_be. cbn [mbind option_bind app parse_byte].
  rewrite F0, F2, F3, F4. rewrite !(bool_decide_decide (values_ q = [])).
  destruct (decide (values_ q = [])) as [Hq0|Hq0];
    [rewrite !(decide_True (P := vals = [])) by by apply Hnil
    |rewrite !(decide_False (P := vals = [])) by by rewrite <- Hnil].
  all: cbn [negb parse_if app]; rewrite <- ?app_assoc, ?parse_short_be;
    cbn [mbind option_bind]; rewrite ?u16_i16, ?u16_small, ?Nat2Z.id by lia;
    rewrite ?parse_values_wire by done; cbn [mbind option_bind].
  all: destruct (page_size_set_ q); cbn [parse_if app];
    rewrite ?parse_int_be; reflexivity.
Qed.

Lemma parse_serial_wire q bs :
  parse_if (serial_consistent_ q) parse_short
    ((if serial_consistent_ q then be 2 (serial_consistency_ q) else []) ++ bs) =
  Some (if serial_consistent_ q then Some (i16 (serial_consistency_ q)) else None, bs).
Proof.
  destruct (serial_consistent_ q); [|done]. cbn [parse_if]. by rewrite parse_short_be.
Qed.

Lemma parse_query_bytes paging q h vals bs :
  values_at h (values_ q) vals -> query_short q vals ->
  (paging_state_ q <> [] -> forall bs', paging (wire_string (paging_state_ q) ++ bs') =
     Some (paging_state_ q, bs')) ->
  parse_query_with paging (query_bytes q vals ++ bs) = Some (content q vals, bs).
Proof.
  intros Hv Hs Hpg. erewrite parse_query_prefix by done.
  rewrite bool_decide_decide. unfold content.
  destruct (decide (paging_state_ q = [])) as [E|E]; cbn [negb parse_if app].
  - cbn [mbind option_bind]. by rewrite parse_serial_wire.
  - rewrite Hpg by done. cbn [mbind option_bind]. by rewrite parse_serial_wire.
Qed.

(** The length that a v2 receiver takes for that of the paging state is made of the
    two bytes of the length and the next two bytes: more than there is. *)
Lemma short_length_rejected s bs :
  s <> [] -> zlen s < 65536 -> Forall is_byte (s ++ bs) -> zlen bs <= 4 ->
  parse_long_string (wire_string s ++ bs) = None.
Proof.
  intros Hne Hs Hb Hbs. unfold parse_long_string, wire_string. rewrite <- app_assoc.
  assert (1 <= zlen s) as Hs1 by (destruct s; [done|cbn [length]; lia]).
  pose proof (length_app s bs) as Hlen. revert Hb Hlen.
  generalize (s ++ bs). intros l Hb Hlen. cbn [be le_bytes rev app parse_int].
  destruct l as [|y [|z l]]; [done|done|].
  apply Forall_cons in Hb as [Hy Hb]. apply Forall_cons in Hb as [Hz _].
  cbn [mbind option_bind length] in *. rewrite decide_False; [done|].
  unfold be_value. cbn [rev app le_value]. unfold i32.
  rewrite ?(Z.mod_small (zlen s)) by lia. unfold is_byte in *. int_solve.
Qed.

Lemma paging_rejected q h vals bs :
  values_at h (values_ q) vals -> query_short q vals -> paging_state_ q <> [] ->
  Forall is_byte (paging_state_ q ++ bs) -> zlen bs <= 2 ->
  parse_query (query_bytes q vals ++ bs) = None.
Proof.
  intros Hv Hs Hne Hb Hbs. unfold parse_query. erewrite parse_query_prefix by done.
  rewrite bool_decide_decide, !(decide_False (P := paging_state_ q = [])) by done. cbn [negb parse_if].
  apply Forall_app in Hb as [Hb1 Hb2].
  rewrite short_length_rejected; [done|done|apply Hs| |].
  - apply Forall_app. split; [done|]. apply Forall_app. split; [|done].
    destruct (serial_consistent_ q); [|done]. apply be_is_byte.
  - rewrite length_app. destruct (serial_consistent_ q); rewrite ?length_be; cbn; lia.
Qed.
End query_parse.

(** ** A body of the tests

    The body that the test of a query with a value expects has a length of two bytes
    before the value, where the protocol and [encode_long_string] have four. *)
Definition TEST_MESSAGE_QUERY_VALUE_body : list Z :=
  [0x00; 0x00; 0x00; 0x10] ++ bytes_of_string "SELECT * FROM ?;" ++
  [0x00; 0x01; 0x01; 0x00; 0x01; 0x00; 0x0c] ++ bytes_of_string "system.peers".

Lemma test_query_value_length :
  let q := consistency (query_string BodyQuery_default (bytes_of_string "SELECT * FROM ?;"))
             CQL_CONSISTENCY_ONE in
  let sent := query_bytes (add_value q (Heap 0 0) 12) [bytes_of_string "system.peers"] in
  zlen sent = zlen TEST_MESSAGE_QUERY_VALUE_body + 2 /\
  parse_query sent = Some (content (add_value q (Heap 0 0) 12) [bytes_of_string "system.peers"], []) /\
  parse_query TEST_MESSAGE_QUERY_VALUE_body = None.
Proof. split_and!; vm_compute; reflexivity. Qed.

(** ** Theorems *)

(** C28: [prepare] of a query writes exactly [query_bytes] after the reserved bytes,
    with the values read from the caller's memory at this moment.  The buffer is
    exactly that long, except that a query with a serial consistency counts its two
    bytes twice: it ends in two indeterminate bytes, which are sent.  Without a paging
    state the bytes are the body of the v2 protocol: its parser reads back exactly the
    query (string, consistency, values, page size, serial consistency), whatever
    follows.  With a paging state they are not: its length has two bytes instead of
    four, and a v2 receiver takes the next two bytes for a part of the length and
    rejects the body, whatever the indeterminate bytes are; only a receiver that
    expects the short length reads back the query. *)
Theorem query_prepare_spec `{Allocator} q h vals reserved output size :
  values_at h (values_ q) vals -> query_short q vals ->
  0 <= reserved ->
  reserved + zlen (query_bytes q vals) + 2 < 9223372036854775808 ->
  let excess := if serial_consistent_ q then 2%nat else 0%nat in
  exists n b,
    prepare q reserved output size h =
      Ok ((true, Heap (length h) 0, n), h ++ [Some b]) /\
    n = reserved + zlen (query_bytes q vals) + Z.of_nat excess /\
    received_cells b reserved n =
      (Some <$> query_bytes q vals) ++ replicate excess None /\
    (if decide (paging_state_ q = [])
     then forall bs, parse_query (query_bytes q vals ++ bs) = Some (content q vals, bs)
     else (forall bs, parse_query_short_paging (query_bytes q vals ++ bs) =
             Some (content q vals, bs)) /\
          (forall bs, Forall is_byte (paging_state_ q ++ bs) ->
             length bs = excess -> parse_query (query_bytes q vals ++ bs) = None)).
Proof.
  intros Hv Hs Hr Hb excess. pose proof (query_excess_nonneg q) as Hx.
  assert (query_excess q = Z.of_nat excess) as Hex
    by (unfold excess, query_excess, sizeof_int16; by destruct (serial_consistent_ q)).
  assert (Z.of_nat excess <= 2) as He2 by (unfold excess; case_match; lia).
  assert (zlen (Some <$> query_bytes q vals) = zlen (query_bytes q vals)) as Hw
    by by rewrite length_fmap.
  eexists _, _. split_and!.
  - apply (prepare_wire q h (Some <$> query_bytes q vals)); [by exists vals|done|].
    cbn [Body.excess query_laws]. lia.
  - cbn [Body.excess query_laws]. lia.
  - cbn [Body.excess query_laws]. rewrite received_prepared by lia.
    do 2 f_equal. lia.
  - case_decide as Hpg.
    + intros bs. by eapply parse_query_bytes.
    + split.
      * intros bs. eapply parse_query_bytes; [done..|]. intros _ bs'.
        apply parse_string_short, Hs.
      * intros bs Hbs Hl. eapply paging_rejected; [done..|]. lia.
Qed.

(** A query with a value and a serial consistency. *)
Definition sample_query : BodyQuery :=
  serial_consistency
    (add_value (query_string BodyQuery_default (bytes_of_string "SELECT ?;"))
       (Heap 0 1) 3) CQL_CONSISTENCY_LOCAL_SERIAL.

(** The same query with a paging state. *)
Definition paging_query : BodyQuery := {|
  query_ := query_ sample_query; consistency_ := consistency_ sample_query;
  page_size_ := 0; page_size_set_ := false; paging_state_ := bytes_of_string "foobar";
  serial_consistent_ := true; serial_consistency_ := CQL_CONSISTENCY_LOCAL_SERIAL;
  values_ := values_ sample_query
|}.

Theorem query_prepare_spec_witness :
  (exists b,
    prepare (Body := @body_query exact_allocator) sample_query 8 Null 0
      [Some (Some <$> [0; 1; 2; 3])] =
      Ok ((true, Heap 1 0, 37), [Some (Some <$> [0; 1; 2; 3]); Some b]) /\
    parse_query (query_bytes sample_query [[1; 2; 3]]) =
      Some (content sample_query [[1; 2; 3]], [])) /\
  parse_query (query_bytes paging_query [[1; 2; 3]] ++ [0; 0]) = None.
Proof.
  assert (values_at [Some (Some <$> [0; 1; 2; 3])] [(Heap 0 1, 3)] [[1; 2; 3]]) as Hv.
  { constructor; [|constructor]. split; [|reflexivity]. vm_compute. reflexivity. }
  split.
  - destruct (@query_prepare_spec exact_allocator sample_query
      [Some (Some <$> [0; 1; 2; 3])] [[1; 2; 3]] 8 Null 0 Hv)
      as (n & b & Hp & Hn & _ & Hq).
    + split_and!; [reflexivity..|]. constructor; [reflexivity|constructor].
    + lia.
    + vm_compute. reflexivity.
    + exists b. replace n with 37 in Hp by (rewrite Hn; reflexivity).
      split; [exact Hp|]. rewrite decide_True in Hq by reflexivity.
      specialize (Hq []). rewrite app_nil_r in Hq. exact Hq.
  - destruct (@query_prepare_spec exact_allocator paging_query
      [Some (Some <$> [0; 1; 2; 3])] [[1; 2; 3]] 8 Null 0 Hv)
      as (n & b & _ & _ & _ & Hq).
    + split_and!; [reflexivity..|]. constructor; [reflexivity|constructor].
    + lia.
    + vm_compute. reflexivity.
    + rewrite decide_False in Hq by discriminate. apply Hq; [|reflexivity].
      apply (bool_decide_unpack _). vm_compute. exact I.
Defined.
