(* ===== verification/Result.v ===== *)
(** * cql_body_result.hpp

    The result body and the iterator over its rows.  A result keeps pointers
    into the buffer it was decoded from: a [char*] and its size are one [span].
    The wire format of the theorems is the RESULT message of the protocol. *)

From S2P Require Import Prelude Memory StdMap Common Serialization Body.

Definition CQL_RESULT_KIND_VOID : Z := 1.
Definition CQL_RESULT_KIND_ROWS : Z := 2.
Definition CQL_RESULT_KIND_SET_KEYSPACE : Z := 3.
Definition CQL_RESULT_KIND_PREPARED : Z := 4.
Definition CQL_RESULT_KIND_SCHEMA_CHANGE : Z := 5.

Definition CQL_RESULT_FLAG_GLOBAL_TABLESPEC : Z := 1.
Definition CQL_RESULT_FLAG_HAS_MORE_PAGES : Z := 2.
Definition CQL_RESULT_FLAG_NO_METADATA : Z := 4.

(** [x & flag] as a condition. *)
Definition has_flag (x flag : Z) : bool := negb (Z.land x flag =? 0).

(** A [char*] member and the [size_t] member of its size. *)
Abbreviation span := (ptr * Z)%type.

(** [decode_string(buffer, &p, p_size)] on such a pair. *)
Definition decode_span (buffer : ptr) (s : span) : prog heap (span * ptr) :=
  '(p, size, buffer) ← decode_string buffer s.2;
  mret ((p, size), buffer).

Definition decode_long_span (buffer : ptr) (s : span) : prog heap (span * ptr) :=
  '(p, size, buffer) ← decode_long_string buffer s.2;
  mret ((p, size), buffer).

Record ColumnMetaData := {
  cm_type            : Z;
  cm_keyspace        : span;
  cm_table           : span;
  cm_name            : span;
  cm_class_name      : span;
  collection_primary_type    : Z;
  collection_primary_class   : span;
  collection_secondary_type  : Z;
  collection_secondary_class : span
}.

Definition ColumnMetaData_default : ColumnMetaData := {|
  cm_type := i16 CQL_COLUMN_TYPE_UNKNOWN;
  cm_keyspace := (Null, 0); cm_table := (Null, 0); cm_name := (Null, 0);
  cm_class_name := (Null, 0);
  collection_primary_type := i16 CQL_COLUMN_TYPE_UNKNOWN;
  collection_primary_class := (Null, 0);
  collection_secondary_type := i16 CQL_COLUMN_TYPE_UNKNOWN;
  collection_secondary_class := (Null, 0)
|}.


(** [column_metadata] is a vector, [column_index] an unordered_map. *)
Record BodyResult := {
  kind              : Z;
  more_pages        : bool;
  no_metadata       : bool;
  global_table_spec : bool;
  column_count      : Z;
  column_metadata   : list ColumnMetaData;
  column_index      : list (list Z * Z);
  page_state        : span;
  prepared_id       : span;
  change            : span;
  keyspace          : span;
  table             : span;
  row_count         : Z;
  rows              : ptr
}.

Definition set_kind (v : Z) (r : BodyResult) : BodyResult := {|
  kind := v; more_pages := more_pages r; no_metadata := no_metadata r;
  global_table_spec := global_table_spec r; column_count := column_count
  r; column_metadata := column_metadata r; column_index := column_index r;
  page_state := page_state r; prepared_id := prepared_id r; change :=
  change r; keyspace := keyspace r; table := table r; row_count :=
  row_count r; rows := rows r
|}.
Definition set_more_pages (v : bool) (r : BodyResult) : BodyResult := {|
  kind := kind r; more_pages := v; no_metadata := no_metadata r;
  global_table_spec := global_table_spec r; column_count := column_count
  r; column_metadata := column_metadata r; column_index := column_index r;
  page_state := page_state r; prepared_id := prepared_id r; change :=
  change r; keyspace := keyspace r; table := table r; row_count :=
  row_count r; rows := rows r
|}.
Definition set_no_metadata (v : bool) (r : BodyResult) : BodyResult := {|
  kind := kind r; more_pages := more_pages r; no_metadata := v;
  global_table_spec := global_table_spec r; column_count := column_count
  r; column_metadata := column_metadata r; column_index := column_index r;
  page_state := page_state r; prepared_id := prepared_id r; change :=
  change r; keyspace := keyspace r; table := table r; row_count :=
  row_count r; rows := rows r
|}.
Definition set_global_table_spec (v : bool) (r : BodyResult) : BodyResult := {|
  kind := kind r; more_pages := more_pages r; no_metadata := no_metadata
  r; global_table_spec := v; column_count := column_count r;
  column_metadata := column_metadata r; column_index := column_index r;
  page_state := page_state r; prepared_id := prepared_id r; change :=
  change r; keyspace := keyspace r; table := table r; row_count :=
  row_count r; rows := rows r
|}.
Definition set_column_count (v : Z) (r : BodyResult) : BodyResult := {|
  kind := kind r; more_pages := more_pages r; no_metadata := no_metadata
  r; global_table_spec := global_table_spec r; column_count := v;
  column_metadata := column_metadata r; column_index := column_index r;
  page_state := page_state r; prepared_id := prepared_id r; change :=
  change r; keyspace := keyspace r; table := table r; row_count :=
  row_count r; rows := rows r
|}.
Definition set_column_metadata (v : list ColumnMetaData) (r : BodyResult) : BodyResult := {|
  kind := kind r; more_pages := more_pages r; no_metadata := no_metadata
  r; global_table_spec := global_table_spec r; column_count :=
  column_count r; column_metadata := v; column_index := column_index r;
  page_state := page_state r; prepared_id := prepared_id r; change :=
  change r; keyspace := keyspace r; table := table r; row_count :=
  row_count r; rows := rows r
|}.
Definition set_column_index (v : list (list Z * Z)) (r : BodyResult) : BodyResult := {|
  kind := kind r; more_pages := more_pages r; no_metadata := no_metadata
  r; global_table_spec := global_table_spec r; column_count :=
  column_count r; column_metadata := column_metadata r; column_index := v;
  page_state := page_state r; prepared_id := prepared_id r; change :=
  change r; keyspace := keyspace r; table := table r; row_count :=
  row_count r; rows := rows r
|}.
Definition set_page_state (v : span) (r : BodyResult) : BodyResult := {|
  kind := kind r; more_pages := more_pages r; no_metadata := no_metadata
  r; global_table_spec := global_table_spec r; column_count :=
  column_count r; column_metadata := column_metadata r; column_index :=
  column_index r; page_state := v; prepared_id := prepared_id r; change :=
  change r; keyspace := keyspace r; table := table r; row_count :=
  row_count r; rows := rows r
|}.
Definition set_prepared_id (v : span) (r : BodyResult) : BodyResult := {|
  kind := kind r; more_pages := more_pages r; no_metadata := no_metadata
  r; global_table_spec := global_table_spec r; column_count :=
  column_count r; column_metadata := column_metadata r; column_index :=
  column_index r; page_state := page_state r; prepared_id := v; change :=
  change r; keyspace := keyspace r; table := table r; row_count :=
  row_count r; rows := rows r
|}.
Definition set_change (v : span) (r : BodyResult) : BodyResult := {|
  kind := kind r; more_pages := more_pages r; no_metadata := no_metadata
  r; global_table_spec := global_table_spec r; column_count :=
  column_count r; column_metadata := column_metadata r; column_index :=
  column_index r; page_state := page_state r; prepared_id := prepared_id
  r; change := v; keyspace := keyspace r; table := table r; row_count :=
  row_count r; rows := rows r
|}.
Definition set_keyspace (v : span) (r : BodyResult) : BodyResult := {|
  kind := kind r; more_pages := more_pages r; no_metadata := no_metadata
  r; global_table_spec := global_table_spec r; column_count :=
  column_count r; column_metadata := column_metadata r; column_index :=
  column_index r; page_state := page_state r; prepared_id := prepared_id
  r; change := change r; keyspace := v; table := table r; row_count :=
  row_count r; rows := rows r
|}.
Definition set_table (v : span) (r : BodyResult) : BodyResult := {|
  kind := kind r; more_pages := more_pages r; no_metadata := no_metadata
  r; global_table_spec := global_table_spec r; column_count :=
  column_count r; column_metadata := column_metadata r; column_index :=
  column_index r; page_state := page_state r; prepared_id := prepared_id
  r; change := change r; keyspace := keyspace r; table := v; row_count :=
  row_count r; rows := rows r
|}.
Definition set_row_count (v : Z) (r : BodyResult) : BodyResult := {|
  kind := kind r; more_pages := more_pages r; no_metadata := no_metadata
  r; global_table_spec := global_table_spec r; column_count :=
  column_count r; column_metadata := column_metadata r; column_index :=
  column_index r; page_state := page_state r; prepared_id := prepared_id
  r; change := change r; keyspace := keyspace r; table := table r;
  row_count := v; rows := rows r
|}.
Definition set_rows (v : ptr) (r : BodyResult) : BodyResult := {|
  kind := kind r; more_pages := more_pages r; no_metadata := no_metadata
  r; global_table_spec := global_table_spec r; column_count :=
  column_count r; column_metadata := column_metadata r; column_index :=
  column_index r; page_state := page_state r; prepared_id := prepared_id
  r; change := change r; keyspace := keyspace r; table := table r;
  row_count := row_count r; rows := v
|}.

Definition BodyResult_default : BodyResult := {|
  kind := 0; more_pages := false; no_metadata := false;
  global_table_spec := true; column_count := 0; column_metadata := [];
  column_index := []; page_state := (Null, 0); prepared_id := (Null, 0);
  change := (Null, 0); keyspace := (Null, 0); table := (Null, 0);
  row_count := 0; rows := Null
|}.

Definition BodyResult_opcode (_ : BodyResult) : Z := CQL_OPCODE_RESULT.

(** ** Decoding *)

(** [vector::resize(n)], where [n] was converted to size_t: a negative count is
    larger than [max_size] and throws. *)
Definition resize_columns (n : Z) (v : list ColumnMetaData)
    : prog heap (list ColumnMetaData) :=
  if decide (n < 0) then fail LengthError
  else mret (resize (Z.to_nat n) ColumnMetaData_default v).

(** The body of the loop of [parse_metadata]: the meta data of one column. *)
Definition parse_column (global_table_spec : bool) (buffer : ptr)
    : prog heap (ColumnMetaData * ptr) :=
  let meta := ColumnMetaData_default in
  '(keyspace, buffer) ← (if global_table_spec then mret (cm_keyspace meta, buffer)
                         else decode_span buffer (cm_keyspace meta));
  '(table, buffer) ← (if global_table_spec then mret (cm_table meta, buffer)
                      else decode_span buffer (cm_table meta));
  '(name, buffer) ← decode_span buffer (cm_name meta);
  '(type, class_name, class_name_size, buffer) ←
    decode_option buffer (cm_class_name meta).1 (cm_class_name meta).2;
  '(primary_type, primary_class, primary_class_size, buffer) ←
    (if decide (type = CQL_COLUMN_TYPE_SET \/ type = CQL_COLUMN_TYPE_LIST \/
                type = CQL_COLUMN_TYPE_MAP)
     then decode_option buffer (collection_primary_class meta).1
            (collection_primary_class meta).2
     else mret (collection_primary_type meta, (collection_primary_class meta).1,
                (collection_primary_class meta).2, buffer));
  '(secondary_type, secondary_class, secondary_class_size, buffer) ←
    (if decide (type = CQL_COLUMN_TYPE_MAP)
     then decode_option buffer (collection_secondary_class meta).1
            (collection_secondary_class meta).2
     else mret (collection_secondary_type meta, (collection_secondary_class meta).1,
                (collection_secondary_class meta).2, buffer));
  mret ({|
    cm_type := type; cm_keyspace := keyspace; cm_table := table; cm_name := name;
    cm_class_name := (class_name, class_name_size);
    collection_primary_type := primary_type;
    collection_primary_class := (primary_class, primary_class_size);
    collection_secondary_type := secondary_type;
    collection_secondary_class := (secondary_class, secondary_class_size)
  |}, buffer).

(** [n] iterations of the loop, the first for column [i]. *)
Fixpoint parse_columns (n : nat) (i : Z) (r : BodyResult) (buffer : ptr)
    : prog heap (BodyResult * ptr) :=
  match n with
  | O => mret (r, buffer)
  | S n =>
      '(meta, buffer) ← parse_column (global_table_spec r) buffer;
      let r := set_column_metadata (column_metadata r ++ [meta]) r in
      name ← read_bytes (cm_name meta).1 (cm_name meta).2;
      let r := set_column_index (map_insert name i (column_index r)) r in
      parse_columns n (i + 1) r buffer
  end.

Definition parse_metadata (r : BodyResult) (input : ptr)
    : prog heap (BodyResult * ptr) :=
  '(flags, buffer) ← decode_int input;
  '(column_count, buffer) ← decode_int buffer;
  let r := set_column_count column_count r in
  '(r, buffer) ←
    (if has_flag flags CQL_RESULT_FLAG_HAS_MORE_PAGES then
       '(page_state, buffer) ← decode_long_span buffer (page_state r);
       mret (set_page_state page_state (set_more_pages true r), buffer)
     else mret (set_more_pages false r, buffer));
  '(r, buffer) ←
    (if has_flag flags CQL_RESULT_FLAG_GLOBAL_TABLESPEC then
       '(keyspace, buffer) ← decode_span buffer (keyspace r);
       '(table, buffer) ← decode_span buffer (table r);
       mret (set_table table (set_keyspace keyspace (set_global_table_spec true r)),
             buffer)
     else mret (set_global_table_spec false r, buffer));
  if has_flag flags CQL_RESULT_FLAG_NO_METADATA then
    mret (set_no_metadata true r, buffer)
  else
    let r := set_no_metadata false r in
    resized ← resize_columns column_count (column_metadata r);
    parse_columns (Z.to_nat column_count) 0 (set_column_metadata resized r) buffer.

Definition parse_rows (r : BodyResult) (input : ptr) : prog heap (bool * BodyResult) :=
  '(r, buffer) ← parse_metadata r input;
  '(row_count, rows) ← decode_int buffer;
  mret (true, set_rows rows (set_row_count row_count r)).

Definition parse_set_keyspace (r : BodyResult) (input : ptr)
    : prog heap (bool * BodyResult) :=
  '(keyspace, _) ← decode_span input (keyspace r);
  mret (true, set_keyspace keyspace r).

Definition parse_prepared (r : BodyResult) (input : ptr)
    : prog heap (bool * BodyResult) :=
  '(prepared, buffer) ← decode_span input (prepared_id r);
  '(r, _) ← parse_metadata (set_prepared_id prepared r) buffer;
  mret (true, r).

Definition parse_schema_change (r : BodyResult) (input : ptr)
    : prog heap (bool * BodyResult) :=
  '(change, buffer) ← decode_span input (change r);
  '(keyspace, buffer) ← decode_span buffer (keyspace r);
  '(table, _) ← decode_span buffer (table r);
  mret (true, set_table table (set_keyspace keyspace (set_change change r))).

Definition BodyResult_consume (r : BodyResult) (input : ptr) (_ : Z)
    : prog heap (bool * BodyResult) :=
  '(kind, buffer) ← decode_int input;
  let r := set_kind kind r in
  if decide (kind = CQL_RESULT_KIND_VOID) then mret (true, r)
  else if decide (kind = CQL_RESULT_KIND_ROWS) then parse_rows r buffer
  else if decide (kind = CQL_RESULT_KIND_SET_KEYSPACE) then parse_set_keyspace r buffer
  else if decide (kind = CQL_RESULT_KIND_PREPARED) then parse_prepared r buffer
  else if decide (kind = CQL_RESULT_KIND_SCHEMA_CHANGE) then parse_schema_change r buffer
  else fail AssertFailed.

Definition BodyResult_prepare (_ : BodyResult) (_ : Z) (output : ptr) (size : Z)
    : prog heap (bool * ptr * Z) :=
  mret (false, output, size).

#[export] Instance body_result `{Allocator} : Body BodyResult := {|
  opcode := BodyResult_opcode;
  consume := BodyResult_consume;
  prepare := BodyResult_prepare
|}.

(** ** The iterator *)

(** [struct Iterable] of cql_iterable.hpp, the base of the iterators: a tag. *)
Inductive IterableType : Set :=
  | CQL_ITERABLE_TYPE_RESULT
  | CQL_ITERABLE_TYPE_UNKNOWN.

Record Iterable := { iterable_type : IterableType }.

(** [result] is the result the iterator points to; a [Column] is a [char*] and
    a [size_t]. *)
Record ResultIterator := {
  it_base       : Iterable;
  it_result     : BodyResult;
  row_position  : Z;
  position      : ptr;
  position_next : ptr;
  row           : list span
}.

(** The loop of [parse_row]: [n] columns are left, [output] holds the others. *)
Fixpoint parse_cells (n : nat) (buffer : ptr) (output : list span)
    : prog heap (list span * ptr) :=
  match n with
  | O => mret (output, buffer)
  | S n =>
      '(size, buffer) ← decode_int buffer;
      parse_cells n (padd buffer size) (output ++ [(buffer, u64 size)])
  end.

Definition parse_row (result : BodyResult) (row : ptr) : prog heap (list span * ptr) :=
  parse_cells (Z.to_nat (column_count result)) row [].

(** The constructor; the vector of [column_count] cells is emptied by
    [parse_row]. *)
Definition ResultIterator_init (result : BodyResult) : prog heap ResultIterator :=
  if decide (column_count result < 0) then fail LengthError else
  '(row, position_next) ← parse_row result (rows result);
  mret {| it_base := {| iterable_type := CQL_ITERABLE_TYPE_RESULT |};
          it_result := result; row_position := 0; position := rows result;
          position_next := position_next; row := row |}.

Definition next (it : ResultIterator) : prog heap (bool * ResultIterator) :=
  let row_position := i32 (row_position it + 1) in
  if decide (row_count (it_result it) <= row_position)
  then mret (false, {| it_base := it_base it; it_result := it_result it; row_position := row_position;
                       position := position it; position_next := position_next it;
                       row := row it |})
  else
    '(row, position_next) ← parse_row (it_result it) (position_next it);
    mret (true, {| it_base := it_base it; it_result := it_result it; row_position := row_position;
                   position := position it; position_next := position_next;
                   row := row |}).

(** ** The wire format of a result *)

(** A type with the class name of a custom type. *)
Abbreviation col_option := (Z * list Z)%type.

Definition wire_option (o : col_option) : list Z :=
  be 2 o.1 ++ (if decide (o.1 = CQL_COLUMN_TYPE_CUSTOM) then wire_string o.2 else []).

Record column := {
  c_keyspace  : list Z;
  c_table     : list Z;
  c_name      : list Z;
  c_type      : col_option;
  c_primary   : col_option;
  c_secondary : col_option
}.

Definition is_collection (t : Z) : Prop :=
  t = CQL_COLUMN_TYPE_SET \/ t = CQL_COLUMN_TYPE_LIST \/ t = CQL_COLUMN_TYPE_MAP.

Definition wire_column (global : bool) (c : column) : list Z :=
  (if global then [] else wire_string (c_keyspace c)) ++
  (if global then [] else wire_string (c_table c)) ++
  wire_string (c_name c) ++
  wire_option (c_type c) ++
  (if decide (is_collection (c_type c).1) then wire_option (c_primary c) else []) ++
  (if decide ((c_type c).1 = CQL_COLUMN_TYPE_MAP) then wire_option (c_secondary c) else []).

(** The metadata of a result: a paging state, a table shared by the columns,
    and the columns unless they are left out. *)
Record metadata := {
  md_paging  : option (list Z);
  md_global  : option (list Z * list Z);
  md_skip    : bool;
  md_count   : Z;
  md_columns : list column
}.

Definition md_flags (m : metadata) : Z :=
  (if md_global m then CQL_RESULT_FLAG_GLOBAL_TABLESPEC else 0) +
  (if md_paging m then CQL_RESULT_FLAG_HAS_MORE_PAGES else 0) +
  (if md_skip m then CQL_RESULT_FLAG_NO_METADATA else 0).

Definition is_global (m : metadata) : bool := if md_global m then true else false.

Definition wire_metadata (m : metadata) : list Z :=
  be 4 (md_flags m) ++ be 4 (md_count m) ++
  (if md_paging m is Some s then wire_long_string s else []) ++
  (if md_global m is Some (ks, tb) then wire_string ks ++ wire_string tb else []) ++
  (if md_skip m then [] else concat (wire_column (is_global m) <$> md_columns m)).

(** What fits the fields of the format. *)
Definition option_short (o : col_option) : Prop :=
  -32768 <= o.1 < 32768 /\ short_string o.2.
Definition column_short (c : column) : Prop :=
  short_string (c_keyspace c) /\ short_string (c_table c) /\ short_string (c_name c) /\
  option_short (c_type c) /\ option_short (c_primary c) /\ option_short (c_secondary c).
Definition metadata_wf (m : metadata) : Prop :=
  match md_paging m with Some s => zlen s < 4294967296 | None => True end /\
  match md_global m with Some (ks, tb) => short_string ks /\ short_string tb | None => True end /\
  (if md_skip m then -2147483648 <= md_count m < 2147483648
   else md_count m = zlen (md_columns m) /\ zlen (md_columns m) < 2147483648) /\
  Forall column_short (md_columns m).

(** ** What the decoded fields mean *)

(** The span denotes the string [s] in the heap. *)
Definition span_at (h : heap) (sp : span) (s : list Z) : Prop :=
  bytes_at h sp.1 s /\ sp.2 = zlen s.

Definition describes (h : heap) (global : bool) (m : ColumnMetaData) (c : column) : Prop :=
  span_at h (cm_name m) (c_name c) /\
  cm_type m = (c_type c).1 /\
  ((c_type c).1 = CQL_COLUMN_TYPE_CUSTOM -> span_at h (cm_class_name m) (c_type c).2) /\
  (global = false -> span_at h (cm_keyspace m) (c_keyspace c) /\
                     span_at h (cm_table m) (c_table c)) /\
  (is_collection (c_type c).1 -> collection_primary_type m = (c_primary c).1) /\
  ((c_type c).1 = CQL_COLUMN_TYPE_MAP ->
     collection_secondary_type m = (c_secondary c).1).

(** The index of the column names: the first column of a name. *)
Fixpoint name_index (i : Z) (cs : list column) (ix : list (list Z * Z))
    : list (list Z * Z) :=
  match cs with
  | [] => ix
  | c :: cs => name_index (i + 1) cs (map_insert (c_name c) i ix)
  end.

Section result_lemmas.
Implicit Types (h : heap) (p : ptr).

Lemma zlen_wire_string s : zlen (wire_string s) = 2 + zlen s.
Proof. unfold wire_string. rewrite length_app, length_be. lia. Qed.

Lemma zlen_wire_long_string s : zlen (wire_long_string s) = 4 + zlen s.
Proof. unfold wire_long_string. rewrite length_app, length_be. lia. Qed.

Lemma zlen_wire_option o :
  zlen (wire_option o) =
    2 + if decide (o.1 = CQL_COLUMN_TYPE_CUSTOM) then 2 + zlen o.2 else 0.
Proof.
  unfold wire_option. rewrite length_app, length_be, Nat2Z.inj_add.
  case_decide; [by rewrite zlen_wire_string|done].
Qed.

Lemma decode_span_run h p s sp :
  bytes_at h p (wire_string s) -> short_string s -> 0 <= sp.2 < 65536 ->
  exists sp', decode_span p sp h = Ok ((sp', padd p (zlen (wire_string s))), h) /\
    span_at h sp' s.
Proof.
  intros [Hn Hs]%bytes_at_string Hlen Hsp. eexists. split.
  - unfold decode_span. run_step decode_string_run. by rewrite zlen_wire_string.
  - done.
Qed.

Lemma decode_long_span_run h p s sp :
  bytes_at h p (wire_long_string s) -> zlen s < 4294967296 ->
  0 <= sp.2 < 4294967296 ->
  exists sp', decode_long_span p sp h =
      Ok ((sp', padd p (zlen (wire_long_string s))), h) /\ span_at h sp' s.
Proof.
  intros [Hn Hs]%bytes_at_long_string Hlen Hsp. exists (padd p 4, zlen s). split.
  - unfold decode_long_span. run_step decode_long_string_run.
    by rewrite zlen_wire_long_string.
  - done.
Qed.

Lemma decode_option_run h p o cl n :
  bytes_at h p (wire_option o) -> option_short o -> 0 <= n < 65536 ->
  exists cl', decode_option p cl n h =
      Ok ((o.1, cl'.1, cl'.2, padd p (zlen (wire_option o))), h) /\
    (o.1 = CQL_COLUMN_TYPE_CUSTOM -> span_at h cl' o.2).
Proof.
  destruct o as [t cls]. cbn [fst snd]. intros Hat [Hts Hcs] Hn.
  unfold wire_option in Hat. apply bytes_at_app in Hat as [Ht Hc].
  rewrite length_be in Hc.
  unfold decode_option. run_step decode_short_run. cbn [fst] in *.
  rewrite i16_small by done.
  rewrite (zlen_wire_option (t, cls)). cbn [fst snd].
  case_decide as Htype.
  - apply bytes_at_string in Hc as [Hl Hc].
    exists (padd (padd p 2) 2, zlen cls). split; [|done].
    unfold short_string in Hcs. run_step decode_string_run.
    by rewrite (padd_padd p 2 (2 + _)).
  - exists (cl, n). split; [done|]. done.
Qed.

(** An optional part of a column. *)
Lemma opt_span_run h p (b : bool) s sp :
  bytes_at h p (if b then [] else wire_string s) -> short_string s ->
  0 <= sp.2 < 65536 ->
  exists sp', (if b then mret (sp, p) else decode_span p sp) h =
      Ok ((sp', padd p (zlen (if b then [] else wire_string s))), h) /\
    (b = false -> span_at h sp' s).
Proof.
  intros Hat Hs Hsp. destruct b.
  - exists sp. cbn [length]. by rewrite padd_0.
  - destruct (decode_span_run h p s sp Hat Hs Hsp) as (sp' & Hd & Hat'). eauto.
Qed.

Lemma opt_option_run h p (P : Prop) `{!Decision P} t o (cl : span) :
  bytes_at h p (if decide P then wire_option o else []) -> option_short o ->
  0 <= cl.2 < 65536 ->
  exists t' (cl' : span),
    (if decide P then decode_option p cl.1 cl.2
     else mret (t, cl.1, cl.2, p)) h =
      Ok ((t', cl'.1, cl'.2, padd p (zlen (if decide P then wire_option o else []))), h) /\
    (P -> t' = o.1).
Proof.
  intros Hat Ho Hn. destruct (decide P).
  - destruct (decode_option_run h p o cl.1 cl.2 Hat Ho Hn) as (cl' & Hd & _).
    exists o.1, cl'. split; [exact Hd|done].
  - exists t, cl. cbn [length]. by rewrite padd_0.
Qed.

Lemma parse_column_run h p global c :
  bytes_at h p (wire_column global c) -> column_short c ->
  exists m, parse_column global p h =
      Ok ((m, padd p (zlen (wire_column global c))), h) /\
    describes h global m c.
Proof.
  intros Hat (Hks & Htb & Hnm & Hty & Hpr & Hse). unfold wire_column in Hat.
  repeat (apply bytes_at_app in Hat as [? Hat]).
  edestruct (opt_span_run h p global (c_keyspace c) (Null, 0))
    as (ks & Dks & Sks); [done..|].
  edestruct (opt_span_run h) with (s := c_table c) (sp := (Null, 0) : span)
    as (tb & Dtb & Stb); [done..|].
  edestruct (decode_span_run h) with (s := c_name c) (sp := (Null, 0) : span)
    as (nm & Dnm & Snm); [done..|].
  edestruct (decode_option_run h) with (o := c_type c) (cl := Null) (n := 0)
    as (ty & Dty & Sty); [done..|].
  edestruct (opt_option_run h) with (P := is_collection (c_type c).1)
    (o := c_primary c) (t := i16 CQL_COLUMN_TYPE_UNKNOWN) (cl := (Null, 0) : span)
    as (pt & pc & Dpr & Spr); [done..|].
  edestruct (opt_option_run h) with (P := (c_type c).1 = CQL_COLUMN_TYPE_MAP)
    (o := c_secondary c) (t := i16 CQL_COLUMN_TYPE_UNKNOWN) (cl := (Null, 0) : span)
    as (st & sc & Dse & Sse); [done..|].
  eexists. split.
  - unfold parse_column, ColumnMetaData_default.
    cbn [cm_keyspace cm_table cm_name cm_class_name collection_primary_type
      collection_primary_class collection_secondary_type
      collection_secondary_class fst snd].
    run_step Dks. run_step Dtb. run_step Dnm. run_step Dty.
    run_step Dpr. run_step Dse. unfold wire_column.
    rewrite !padd_padd, !length_app. rewrite ret_run. do 3 f_equal.
    f_equal. lia.
  - unfold describes. cbn. naive_solver.
Qed.

Lemma parse_columns_run h g cs i r p :
  bytes_at h p (concat (wire_column g <$> cs)) -> Forall column_short cs ->
  global_table_spec r = g ->
  exists metas,
    parse_columns (length cs) i r p h =
      Ok ((set_column_index (name_index i cs (column_index r))
             (set_column_metadata (column_metadata r ++ metas) r),
           padd p (zlen (concat (wire_column g <$> cs)))), h) /\
    Forall2 (describes h g) metas cs.
Proof.
  intros Hat Hcs. revert i r p Hat.
  induction Hcs as [|c cs Hc Hcs IH]; intros i r p Hat Hg.
  - exists []. split; [|constructor]. cbn. rewrite app_nil_r, padd_0.
    by destruct r.
  - cbn [fmap list_fmap concat] in *. apply bytes_at_app in Hat as [Hat1 Hat2].
    destruct (parse_column_run h p g c Hat1 Hc) as (m & Dm & Sm).
    set (r1 := set_column_index (map_insert (c_name c) i (column_index r))
      (set_column_metadata (column_metadata r ++ [m]) r)).
    destruct (IH (i + 1) r1 _ Hat2) as (metas & Dms & Sms); [done|].
    exists (m :: metas). split; [|by constructor].
    cbn [length parse_columns]. rewrite Hg. run_step Dm.
    destruct Sm as [[Hnm Hnl] _].
    erewrite bind_run by (apply (read_bytes_at _ _ _ _ Hnm); exact Hnl).
    etransitivity; [exact Dms|].
    rewrite padd_padd, length_app, Nat2Z.inj_add.
    subst r1. cbn. by rewrite <- app_assoc.
Qed.

(** The flags word says which parts follow. *)
Lemma md_flags_spec m :
  -2147483648 <= md_flags m < 2147483648 /\
  has_flag (md_flags m) CQL_RESULT_FLAG_HAS_MORE_PAGES =
    (if md_paging m then true else false) /\
  has_flag (md_flags m) CQL_RESULT_FLAG_GLOBAL_TABLESPEC = is_global m /\
  has_flag (md_flags m) CQL_RESULT_FLAG_NO_METADATA = md_skip m.
Proof.
  unfold md_flags, is_global.
  destruct (md_paging m), (md_global m), (md_skip m); split_and!; done.
Qed.
End result_lemmas.

(** The result of decoding the metadata [m] into the result [r]. *)
Record metadata_decoded (h : heap) (r : BodyResult) (m : metadata) (r' : BodyResult)
    : Prop := {
  dec_count   : column_count r' = md_count m;
  dec_more    : more_pages r' = if md_paging m then true else false;
  dec_paging  : match md_paging m with
                | Some s => span_at h (page_state r') s
                | None => page_state r' = page_state r end;
  dec_gflag   : global_table_spec r' = is_global m;
  dec_global  : match md_global m with
                | Some (ks, tb) => span_at h (keyspace r') ks /\ span_at h (table r') tb
                | None => keyspace r' = keyspace r /\ table r' = table r end;
  dec_skip    : no_metadata r' = md_skip m;
  dec_columns : if md_skip m
                then column_metadata r' = column_metadata r /\
                     column_index r' = column_index r
                else exists metas,
                  column_metadata r' =
                    resize (length (md_columns m)) ColumnMetaData_default
                      (column_metadata r) ++ metas /\
                  Forall2 (describes h (is_global m)) metas (md_columns m) /\
                  column_index r' = name_index 0 (md_columns m) (column_index r);
  dec_frame   : (kind r', prepared_id r', change r', row_count r', rows r') =
                (kind r, prepared_id r, change r, row_count r, rows r)
}.

(** The spans of the result hold sizes that the decoders overwrite whole. *)
Definition spans_small (r : BodyResult) : Prop :=
  0 <= (page_state r).2 < 65536 /\ 0 <= (prepared_id r).2 < 65536 /\
  0 <= (change r).2 < 65536 /\ 0 <= (keyspace r).2 < 65536 /\
  0 <= (table r).2 < 65536.

Section metadata_lemmas.
Implicit Types (h : heap) (p : ptr).

Lemma paging_run h p r (pg : option (list Z)) :
  bytes_at h p (if pg is Some s then wire_long_string s else []) ->
  (match pg with Some s => zlen s < 4294967296 | None => True end) ->
  spans_small r ->
  exists ps,
    (if (if pg then true else false : bool) then
       '(page_state, buffer) ← decode_long_span p (page_state r);
       mret (set_page_state page_state (set_more_pages true r), buffer)
     else mret (set_more_pages false r, p)) h =
    Ok ((set_page_state ps (set_more_pages (if pg then true else false) r),
         padd p (zlen (if pg is Some s then wire_long_string s else []))), h) /\
    match pg with Some s => span_at h ps s | None => ps = page_state r end.
Proof.
  intros Hat Hs (Hp & _). destruct pg as [s|].
  - destruct (decode_long_span_run h p s (page_state r) Hat Hs) as (sp & Hd & Hsp); [lia|].
    exists sp. split; [|done]. by run_step Hd.
  - exists (page_state r). split; [|done]. cbn [length]. rewrite padd_0. by destruct r.
Qed.

Lemma global_run h p r (gl : option (list Z * list Z)) :
  bytes_at h p (if gl is Some (ks, tb) then wire_string ks ++ wire_string tb else []) ->
  (match gl with Some (ks, tb) => short_string ks /\ short_string tb | None => True end) ->
  0 <= (keyspace r).2 < 65536 -> 0 <= (table r).2 < 65536 ->
  exists ks' tb',
    (if (if gl then true else false : bool) then
       '(keyspace, buffer) ← decode_span p (keyspace r);
       '(table, buffer) ← decode_span buffer (table r);
       mret (set_table table (set_keyspace keyspace (set_global_table_spec true r)),
             buffer)
     else mret (set_global_table_spec false r, p)) h =
    Ok ((set_table tb' (set_keyspace ks'
           (set_global_table_spec (if gl then true else false) r)),
         padd p (zlen (if gl is Some (ks, tb) then wire_string ks ++ wire_string tb
                       else []))), h) /\
    match gl with
    | Some (ks, tb) => span_at h ks' ks /\ span_at h tb' tb
    | None => ks' = keyspace r /\ tb' = table r
    end.
Proof.
  intros Hat Hs Hk Ht. destruct gl as [[ks tb]|].
  - apply bytes_at_app in Hat as [Hat1 Hat2]. destruct Hs as [Hs1 Hs2].
    destruct (decode_span_run h p ks _ Hat1 Hs1 Hk) as (sk & Dk & Sk).
    destruct (decode_span_run h _ tb _ Hat2 Hs2 Ht) as (st & Dt & St).
    exists sk, st. split; [|done]. run_step Dk. run_step Dt.
    by rewrite padd_padd, length_app, Nat2Z.inj_add.
  - exists (keyspace r), (table r). split; [|done]. cbn [length].
    rewrite padd_0. by destruct r.
Qed.

Lemma metadata_count_range m :
  metadata_wf m -> -2147483648 <= md_count m < 2147483648.
Proof. intros (_ & _ & Hc & _). destruct (md_skip m); lia. Qed.

(** [parse_metadata] decodes a well-formed metadata block. *)
(** The last part of [parse_metadata]: no columns, or all of them. *)
Lemma columns_part_run h q m r :
  bytes_at h q (if md_skip m then [] else concat (wire_column (is_global m) <$> md_columns m)) ->
  (if md_skip m then -2147483648 <= md_count m < 2147483648
   else md_count m = zlen (md_columns m) /\ zlen (md_columns m) < 2147483648) ->
  Forall column_short (md_columns m) -> global_table_spec r = is_global m ->
  exists metas,
    (if md_skip m then mret (set_no_metadata true r, q)
     else
       resized ← resize_columns (md_count m) (column_metadata (set_no_metadata false r));
       parse_columns (Z.to_nat (md_count m)) 0
         (set_column_metadata resized (set_no_metadata false r)) q) h =
      Ok ((if md_skip m then set_no_metadata true r
           else set_column_index (name_index 0 (md_columns m) (column_index r))
             (set_column_metadata (resize (length (md_columns m)) ColumnMetaData_default
                (column_metadata r) ++ metas) (set_no_metadata false r)),
           padd q (zlen (if md_skip m then []
                         else concat (wire_column (is_global m) <$> md_columns m)))), h) /\
    (md_skip m = false -> Forall2 (describes h (is_global m)) metas (md_columns m)).
Proof.
  intros Hat Hc Hcs Hg. destruct (md_skip m).
  - exists []. split; [|done]. by rewrite ret_run, padd_0.
  - destruct Hc as [-> Hc].
    destruct (parse_columns_run h (is_global m) (md_columns m) 0
      (set_column_metadata (resize (length (md_columns m)) ColumnMetaData_default
        (column_metadata r)) (set_no_metadata false r)) _ Hat Hcs) as (metas & D & S); [done|].
    exists metas. split; [|done]. erewrite bind_run.
    2:{ unfold resize_columns. rewrite decide_False by lia. rewrite Nat2Z.id. reflexivity. }
    rewrite Nat2Z.id. exact D.
Qed.

Lemma parse_metadata_run h p r m :
  bytes_at h p (wire_metadata m) -> metadata_wf m -> spans_small r ->
  exists r', parse_metadata r p h =
      Ok ((r', padd p (zlen (wire_metadata m))), h) /\ metadata_decoded h r m r'.
Proof.
  intros Hat Hwf Hsm. pose proof (metadata_count_range m Hwf) as Hcr.
  destruct Hwf as (Hpg & Hgl & Hc & Hcs).
  pose proof (md_flags_spec m) as (Hfr & Hf1 & Hf2 & Hf3).
  unfold wire_metadata in Hat.
  apply bytes_at_app in Hat as [A1 Hat]. apply bytes_at_app in Hat as [A2 Hat].
  apply bytes_at_app in Hat as [A3 Hat]. apply bytes_at_app in Hat as [A4 A5].
  rewrite !length_be in *.
  set (r0 := set_column_count (md_count m) r).
  destruct (paging_run h _ r0 _ A3 Hpg Hsm) as (ps & D3 & S3).
  set (r1 := set_page_state _ _) in D3.
  destruct (global_run h _ r1 _ A4 Hgl) as (ks & tb & D4 & S4); [apply Hsm..|].
  set (r2 := set_table _ _) in D4.
  destruct (columns_part_run h _ m r2 A5 Hc Hcs) as (metas & D5 & S5); [done|].
  eexists. split.
  - unfold parse_metadata. run_step decode_int_run.
    rewrite (i32_small (md_flags m)) by done.
    run_step decode_int_run. rewrite (i32_small (md_count m)) by done.
    rewrite Hf1, Hf2, Hf3. fold r0. run_step D3. run_step D4.
    etransitivity; [exact D5|]. unfold wire_metadata.
    rewrite !padd_padd, !length_app, !length_be. do 4 f_equal. lia.
  - constructor; destruct (md_skip m) eqn:Hskip; cbn; try done. eauto.
Qed.
End metadata_lemmas.

(** ** The bodies of a result *)

Inductive result_body : Type :=
  | RVoid
  | RRows (m : metadata) (row_count : Z)
  | RSetKeyspace (ks : list Z)
  | RPrepared (id : list Z) (m : metadata)
  | RSchemaChange (change ks tb : list Z).

Definition wire_result (b : result_body) : list Z :=
  match b with
  | RVoid => be 4 CQL_RESULT_KIND_VOID
  | RRows m n => be 4 CQL_RESULT_KIND_ROWS ++ wire_metadata m ++ be 4 n
  | RSetKeyspace ks => be 4 CQL_RESULT_KIND_SET_KEYSPACE ++ wire_string ks
  | RPrepared id m => be 4 CQL_RESULT_KIND_PREPARED ++ wire_string id ++ wire_metadata m
  | RSchemaChange c ks tb =>
      be 4 CQL_RESULT_KIND_SCHEMA_CHANGE ++ wire_string c ++ wire_string ks ++ wire_string tb
  end.

Definition result_wf (b : result_body) : Prop :=
  match b with
  | RVoid => True
  | RRows m n => metadata_wf m /\ -2147483648 <= n < 2147483648
  | RSetKeyspace ks => short_string ks
  | RPrepared id m => short_string id /\ metadata_wf m
  | RSchemaChange c ks tb => short_string c /\ short_string ks /\ short_string tb
  end.

(** What [consume] makes of [r] when it decodes [b] from [p]. *)
Definition result_decoded (h : heap) (p : ptr) (r : BodyResult) (b : result_body)
    (r' : BodyResult) : Prop :=
  match b with
  | RVoid => r' = set_kind CQL_RESULT_KIND_VOID r
  | RRows m n => exists r1,
      metadata_decoded h (set_kind CQL_RESULT_KIND_ROWS r) m r1 /\
      r' = set_rows (padd p (zlen (wire_result b))) (set_row_count n r1)
  | RSetKeyspace ks => exists sp,
      r' = set_keyspace sp (set_kind CQL_RESULT_KIND_SET_KEYSPACE r) /\ span_at h sp ks
  | RPrepared id m => exists sp,
      metadata_decoded h (set_prepared_id sp (set_kind CQL_RESULT_KIND_PREPARED r)) m r' /\
      span_at h sp id
  | RSchemaChange c ks tb => exists s1 s2 s3,
      r' = set_table s3 (set_keyspace s2 (set_change s1
             (set_kind CQL_RESULT_KIND_SCHEMA_CHANGE r))) /\
      span_at h s1 c /\ span_at h s2 ks /\ span_at h s3 tb
  end.

Section result_bodies.
Implicit Types (h : heap) (p : ptr).

Lemma consume_kind r h p k n :
  bytes_at h p (be 4 k) -> -2147483648 <= k < 2147483648 ->
  BodyResult_consume r p n h =
    (let r := set_kind k r in let buffer := padd p 4 in
     if decide (k = CQL_RESULT_KIND_VOID) then mret (true, r)
     else if decide (k = CQL_RESULT_KIND_ROWS) then parse_rows r buffer
     else if decide (k = CQL_RESULT_KIND_SET_KEYSPACE) then parse_set_keyspace r buffer
     else if decide (k = CQL_RESULT_KIND_PREPARED) then parse_prepared r buffer
     else if decide (k = CQL_RESULT_KIND_SCHEMA_CHANGE)
     then parse_schema_change r buffer
     else fail AssertFailed) h.
Proof.
  intros Hat Hk. unfold BodyResult_consume. run_step decode_int_run.
  by rewrite i32_small by done.
Qed.

Lemma parse_rows_run h p r m n :
  bytes_at h p (wire_metadata m ++ be 4 n) -> metadata_wf m ->
  -2147483648 <= n < 2147483648 -> spans_small r ->
  exists r1, parse_rows r p h =
      Ok ((true, set_rows (padd p (zlen (wire_metadata m) + 4)) (set_row_count n r1)), h) /\
    metadata_decoded h r m r1.
Proof.
  intros [A1 A2]%bytes_at_app Hm Hn Hr.
  destruct (parse_metadata_run h p r m A1 Hm Hr) as (r1 & D1 & S1).
  exists r1. split; [|done]. unfold parse_rows. run_step D1.
  run_step decode_int_run. by rewrite (i32_small n), padd_padd by done.
Qed.

Lemma parse_set_keyspace_run h p r ks :
  bytes_at h p (wire_string ks) -> short_string ks -> spans_small r ->
  exists sp, parse_set_keyspace r p h = Ok ((true, set_keyspace sp r), h) /\
    span_at h sp ks.
Proof.
  intros Hat Hs Hr. destruct (decode_span_run h p ks (keyspace r) Hat Hs) as (sp & D & S);
    [apply Hr|].
  exists sp. split; [|done]. unfold parse_set_keyspace. by run_step D.
Qed.

Lemma parse_schema_change_run h p r c ks tb :
  bytes_at h p (wire_string c ++ wire_string ks ++ wire_string tb) ->
  short_string c -> short_string ks -> short_string tb -> spans_small r ->
  exists s1 s2 s3, parse_schema_change r p h =
      Ok ((true, set_table s3 (set_keyspace s2 (set_change s1 r))), h) /\
    span_at h s1 c /\ span_at h s2 ks /\ span_at h s3 tb.
Proof.
  intros Hat H1 H2 H3 (_ & _ & R1 & R2 & R3).
  apply bytes_at_app in Hat as [A1 Hat]. apply bytes_at_app in Hat as [A2 A3].
  destruct (decode_span_run h p c _ A1 H1 R1) as (s1 & D1 & S1).
  destruct (decode_span_run h _ ks _ A2 H2 R2) as (s2 & D2 & S2).
  destruct (decode_span_run h _ tb _ A3 H3 R3) as (s3 & D3 & S3).
  exists s1, s2, s3. split; [|done]. unfold parse_schema_change.
  run_step D1. run_step D2. by run_step D3.
Qed.

Lemma parse_prepared_run h p r id m :
  bytes_at h p (wire_string id ++ wire_metadata m) -> short_string id ->
  metadata_wf m -> spans_small r ->
  exists sp r', parse_prepared r p h = Ok ((true, r'), h) /\
    metadata_decoded h (set_prepared_id sp r) m r' /\ span_at h sp id.
Proof.
  intros [A1 A2]%bytes_at_app Hi Hm Hr. unfold short_string in Hi.
  destruct (decode_span_run h p id (prepared_id r) A1 Hi) as (sp & D1 & S1); [apply Hr|].
  destruct (parse_metadata_run h _ (set_prepared_id sp r) m A2 Hm) as (r1 & D2 & S2).
  { destruct S1 as [_ Hsz]. unfold spans_small in *. cbn. lia. }
  exists sp, r1. split_and!; [|done..]. unfold parse_prepared.
  run_step D1. by run_step D2.
Qed.

Lemma name_index_app i cs1 cs2 ix :
  name_index i (cs1 ++ cs2) ix = name_index (i + zlen cs1) cs2 (name_index i cs1 ix).
Proof.
  revert i ix. induction cs1 as [|c cs1 IH]; intros i ix; cbn [name_index app].
  - f_equal. cbn [length]. lia.
  - rewrite IH. f_equal. cbn [length]. lia.
Qed.

Lemma name_index_sorted i cs ix :
  map_sorted ix -> map_sorted (name_index i cs ix).
Proof. revert i ix. induction cs; intros; cbn; auto using insert_sorted. Qed.

(** A name that is in the index stays with its column. *)
Lemma name_index_keep i cs ix nm j :
  map_sorted ix -> find nm ix = Some j -> find nm (name_index i cs ix) = Some j.
Proof.
  revert i ix. induction cs as [|c cs IH]; intros i ix Hs Hf; cbn; [done|].
  apply IH; [by apply insert_sorted|].
  destruct (decide (c_name c = nm)) as [<-|Hne].
  - by rewrite find_insert_eq, Hf.
  - by rewrite find_insert_ne.
Qed.

Lemma name_index_other i cs ix nm :
  Forall (fun c => c_name c <> nm) cs ->
  find nm (name_index i cs ix) = find nm ix.
Proof.
  intros Hcs. revert i ix. induction Hcs as [|c cs Hc Hcs IH]; intros; cbn; [done|].
  by rewrite IH, find_insert_ne.
Qed.

(** The index of the name of a column is that of the first column so named. *)
Lemma name_index_first i cs1 c cs2 ix :
  map_sorted ix -> find (c_name c) ix = None ->
  Forall (fun c' => c_name c' <> c_name c) cs1 ->
  find (c_name c) (name_index i (cs1 ++ c :: cs2) ix) = Some (i + zlen cs1).
Proof.
  intros Hs Hf H1. rewrite name_index_app. cbn [name_index].
  apply name_index_keep; [by apply insert_sorted, name_index_sorted|].
  rewrite find_insert_eq by by apply name_index_sorted.
  by rewrite name_index_other, Hf.
Qed.
End result_bodies.

(** ** Rows *)

(** A cell that is not null, and a row of them. *)
Definition wire_row (cells : list (list Z)) : list Z := concat (wire_long_string <$> cells).
Definition wire_rows (rs : list (list (list Z))) : list Z := concat (wire_row <$> rs).

Definition row_wf (n : Z) (cells : list (list Z)) : Prop :=
  zlen cells = n /\ Forall (fun v => zlen v < 2147483648) cells.

(** A client's loop over the result: the row that the iterator stands on, then
    [next] while it returns true, at most [fuel] times. *)
Fixpoint collect (fuel : nat) (it : ResultIterator) : prog heap (list (list span)) :=
  match fuel with
  | O => fail OutOfFuel
  | S fuel =>
      '(more, it') ← next it;
      if (more : bool) then rest ← collect fuel it'; mret (row it :: rest)
      else mret [row it]
  end.

Section row_lemmas.
Implicit Types (h : heap) (p : ptr).

Lemma parse_cells_run h p cells out :
  bytes_at h p (wire_row cells) -> Forall (fun v => zlen v < 2147483648) cells ->
  exists spans, parse_cells (length cells) p out h =
      Ok ((out ++ spans, padd p (zlen (wire_row cells))), h) /\
    Forall2 (span_at h) spans cells.
Proof.
  intros Hat Hc. revert p out Hat.
  induction Hc as [|v cells Hv Hc IH]; intros p out Hat.
  - exists []. split; [|constructor]. cbn. by rewrite app_nil_r, padd_0.
  - unfold wire_row in *. cbn [fmap list_fmap concat] in *.
    apply bytes_at_app in Hat as [Hat1 Hat2].
    rewrite zlen_wire_long_string in Hat2.
    apply bytes_at_long_string in Hat1 as [Hn Hs].
    destruct (IH (padd (padd p 4) (zlen v)) (out ++ [(padd p 4, zlen v)]))
      as (spans & Dc & Sc).
    { rewrite padd_padd. exact Hat2. }
    exists ((padd p 4, zlen v) :: spans). split; [|by repeat constructor].
    cbn [length parse_cells]. run_step decode_int_run.
    rewrite i32_small by lia. rewrite u64_small by lia.
    etransitivity; [exact Dc|]. rewrite <- app_assoc. cbn [app].
    rewrite !padd_padd, length_app, Nat2Z.inj_add, zlen_wire_long_string.
    do 4 f_equal. lia.
Qed.

Lemma parse_row_run h p r cells :
  bytes_at h p (wire_row cells) -> row_wf (column_count r) cells ->
  exists spans, parse_row r p h = Ok ((spans, padd p (zlen (wire_row cells))), h) /\
    Forall2 (span_at h) spans cells.
Proof.
  intros Hat [Hn Hc]. destruct (parse_cells_run h p cells [] Hat Hc) as (sp & D & S).
  exists sp. split; [|done]. unfold parse_row. by rewrite <- Hn, Nat2Z.id.
Qed.

(** [next] at the last row, and before it. *)
Lemma next_last h it :
  0 <= row_position it < 2147483647 -> row_count (it_result it) <= row_position it + 1 ->
  exists it', next it h = Ok ((false, it'), h).
Proof.
  intros H0 Hn. unfold next. rewrite i32_small by lia.
  rewrite decide_True by done. eauto.
Qed.

Lemma next_more h it cells :
  bytes_at h (position_next it) (wire_row cells) ->
  row_wf (column_count (it_result it)) cells ->
  0 <= row_position it < 2147483647 -> row_position it + 1 < row_count (it_result it) ->
  exists spans, Forall2 (span_at h) spans cells /\
    next it h = Ok ((true,
      {| it_base := it_base it; it_result := it_result it; row_position := row_position it + 1;
         position := position it;
         position_next := padd (position_next it) (zlen (wire_row cells));
         row := spans |}), h).
Proof.
  intros Hat Hc H0 Hn. destruct (parse_row_run h _ _ cells Hat Hc) as (spans & D & S).
  exists spans. split; [done|]. unfold next. rewrite i32_small by lia.
  rewrite decide_False by lia. by run_step D.
Qed.

Lemma collect_S fuel it :
  collect (S fuel) it =
    ('(more, it') ← next it;
     if (more : bool) then rest ← collect fuel it'; mret (row it :: rest)
     else mret [row it]).
Proof. done. Qed.

(** From an iterator on a row with [rs] after it, the loop visits all. *)
Lemma collect_run h it rs :
  bytes_at h (position_next it) (wire_rows rs) ->
  Forall (row_wf (column_count (it_result it))) rs ->
  row_count (it_result it) = row_position it + 1 + zlen rs ->
  0 <= row_position it -> row_count (it_result it) < 2147483648 ->
  exists out, collect (S (length rs)) it h = Ok (row it :: out, h) /\
    Forall2 (Forall2 (span_at h)) out rs.
Proof.
  intros Hat Hrs. revert it Hat Hrs.
  induction rs as [|cells rs IH]; intros it Hat Hrs Hn H0 Hb;
    rewrite collect_S; cbn [length] in *.
  - destruct (next_last h it) as (it' & D); [lia..|].
    exists []. split; [by run_step D|constructor].
  - apply Forall_cons in Hrs as [Hc Hrs]. unfold wire_rows in Hat.
    cbn [fmap list_fmap concat] in Hat. apply bytes_at_app in Hat as [A1 A2].
    destruct (next_more h it cells A1 Hc) as (spans & S & D); [lia..|].
    destruct (IH {| it_base := it_base it; it_result := it_result it; row_position := row_position it + 1;
      position := position it;
      position_next := padd (position_next it) (zlen (wire_row cells));
      row := spans |} A2 Hrs) as (out & Do & So); [cbn in *; lia..|].
    exists (spans :: out). split; [|by constructor].
    run_step D. by erewrite bind_run by exact Do.
Qed.

Lemma decode_int_past h p : tail_at h p [] -> bad_read (decode_int p h).
Proof.
  intros Ht. unfold decode_int. apply bind_bad. by eapply tail_read_short.
Qed.
End row_lemmas.

(** ** Theorems *)

(** The ROWS case, which the next theorems share. *)
Lemma consume_rows_run `{Allocator} h p r m n size :
  bytes_at h p (wire_result (RRows m n)) -> result_wf (RRows m n) -> spans_small r ->
  exists r', consume r p size h = Ok ((true, r'), h) /\ result_decoded h p r (RRows m n) r'.
Proof.
  cbn [wire_result result_wf consume body_result]. intros Hat [Hm Hn] Hr.
  pose proof Hat as Hall. apply bytes_at_app in Hat as [A1 A2].
  destruct (parse_rows_run h _ (set_kind CQL_RESULT_KIND_ROWS r) m n A2 Hm Hn)
    as (r1 & D & S); [done|].
  eexists. rewrite (consume_kind _ _ _ CQL_RESULT_KIND_ROWS) by done.
  split; [exact D|]. exists r1. split; [done|].
  cbn [wire_result]. rewrite padd_padd, !length_app, !length_be. f_equal.
  f_equal. lia.
Qed.

Lemma result_consume_run `{Allocator} h p r b size :
  bytes_at h p (wire_result b) -> result_wf b -> spans_small r ->
  exists r', consume r p size h = Ok ((true, r'), h) /\ result_decoded h p r b r'.
Proof.
  intros Hat Hb Hr. cbn [consume body_result].
  destruct b as [|m n|ks|id m|c ks tb]; cbn [wire_result result_wf] in *.
  - eexists. rewrite (consume_kind _ _ _ CQL_RESULT_KIND_VOID) by done.
    cbv zeta. rewrite decide_True by done. by split.
  - by apply (consume_rows_run h p r m n size Hat Hb).
  - apply bytes_at_app in Hat as [A1 A2].
    destruct (parse_set_keyspace_run h _ (set_kind CQL_RESULT_KIND_SET_KEYSPACE r) ks A2 Hb)
      as (sp & D & S); [done|].
    eexists. rewrite (consume_kind _ _ _ CQL_RESULT_KIND_SET_KEYSPACE) by done.
    split; [exact D|by exists sp].
  - apply bytes_at_app in Hat as [A1 A2]. destruct Hb as [Hi Hm].
    destruct (parse_prepared_run h _ (set_kind CQL_RESULT_KIND_PREPARED r) id m A2 Hi Hm)
      as (sp & r' & D & S); [done|].
    exists r'. rewrite (consume_kind _ _ _ CQL_RESULT_KIND_PREPARED) by done.
    split; [exact D|]. exists sp. exact S.
  - apply bytes_at_app in Hat as [A1 A2]. destruct Hb as (H1 & H2 & H3).
    destruct (parse_schema_change_run h _ (set_kind CQL_RESULT_KIND_SCHEMA_CHANGE r)
      c ks tb A2 H1 H2 H3) as (s1 & s2 & s3 & D & S); [done|].
    eexists. rewrite (consume_kind _ _ _ CQL_RESULT_KIND_SCHEMA_CHANGE) by done.
    split; [exact D|]. by exists s1, s2, s3.
Qed.

(** C25: [BodyResult::consume] decodes every kind of result: the fields of a
    well-formed RESULT message are found where the protocol puts them, every
    other field of the object is kept, and the buffer is only read. *)
Theorem result_consume_spec `{Allocator} h p r b size :
  bytes_at h p (wire_result b) -> result_wf b -> spans_small r ->
  exists r', consume r p size h = Ok ((true, r'), h) /\ result_decoded h p r b r'.
Proof. apply result_consume_run. Qed.

(** The meta data of a ROWS result on a fresh object: [column_metadata] gets
    twice as many entries as there are columns, empty ones first; entry
    [column_count + i] describes column [i], but the index of the column names
    says [i] for it, which is an empty entry. *)
Theorem rows_metadata_shifted `{Allocator} h p m n size cs1 c cs2 :
  bytes_at h p (wire_result (RRows m n)) -> result_wf (RRows m n) ->
  md_skip m = false -> md_columns m = cs1 ++ c :: cs2 ->
  Forall (fun c' => c_name c' <> c_name c) cs1 ->
  exists r, consume BodyResult_default p size h = Ok ((true, r), h) /\
    length (column_metadata r) = (2 * length (md_columns m))%nat /\
    find (c_name c) (column_index r) = Some (zlen cs1) /\
    column_metadata r !! length cs1 = Some ColumnMetaData_default /\
    exists cm, column_metadata r !! (length (md_columns m) + length cs1)%nat = Some cm /\
      describes h (is_global m) cm c.
Proof.
  intros Hat Hwf Hsk Hcols Hfirst.
  destruct (consume_rows_run h p BodyResult_default m n size Hat Hwf)
    as (r & D & r1 & S & ->); [done|].
  pose proof (dec_columns _ _ _ _ S) as Hdc. rewrite Hsk in Hdc.
  destruct Hdc as (metas & Hmetas & Hdesc & Hix).
  pose proof (Forall2_length _ _ _ Hdesc) as Hlen.
  eexists. split; [exact D|].
  change (column_metadata (set_rows _ (set_row_count n r1))) with (column_metadata r1).
  change (column_index (set_rows _ (set_row_count n r1))) with (column_index r1).
  rewrite Hmetas, Hix, length_app, length_resize. split_and!.
  - lia.
  - rewrite Hcols. apply name_index_first; [constructor|done|done].
  - rewrite lookup_app_l by (rewrite length_resize, Hcols, length_app; cbn; lia).
    rewrite Hcols. cbn [column_metadata set_kind BodyResult_default].
    rewrite resize_nil. apply lookup_replicate.
    split; [done|]. rewrite length_app. cbn. lia.
  - rewrite lookup_app_r by (rewrite length_resize; lia).
    rewrite length_resize, Nat.add_comm, Nat.add_sub.
    destruct (Forall2_lookup_r _ _ _ (length cs1) c Hdesc) as (cm & Hcm & Hd); [|eauto].
    by rewrite Hcols, lookup_app_r, Nat.sub_diag by lia.
Qed.

(** The kinds of result the protocol does not have abort the process. *)
Theorem result_unknown_kind h p r k size :
  bytes_at h p (be 4 k) -> -2147483648 <= k < 2147483648 -> ~ 1 <= k <= 5 ->
  BodyResult_consume r p size h = Fault AssertFailed.
Proof.
  intros Hat Hk Hn. rewrite (consume_kind _ _ _ k) by done.
  unfold CQL_RESULT_KIND_VOID, CQL_RESULT_KIND_ROWS, CQL_RESULT_KIND_SET_KEYSPACE,
    CQL_RESULT_KIND_PREPARED, CQL_RESULT_KIND_SCHEMA_CHANGE.
  cbv zeta. by rewrite !decide_False by lia.
Qed.

(** C26: over a result whose rows have no null cell the iterator visits every
    row, in order, each cell denoting the value that was sent, and then stops:
    [row_count] steps are enough. *)
Theorem iterator_visits_rows h r rs :
  bytes_at h (rows r) (wire_rows rs) -> Forall (row_wf (column_count r)) rs ->
  row_count r = zlen rs -> 0 < row_count r < 2147483648 ->
  exists out,
    (it ← ResultIterator_init r; collect (Z.to_nat (row_count r)) it) h = Ok (out, h) /\
    Forall2 (Forall2 (span_at h)) out rs.
Proof.
  intros Hat Hrs Hn Hb. destruct rs as [|cells rs]; [cbn in *; lia|].
  apply Forall_cons in Hrs as [Hc Hrs]. unfold wire_rows in Hat.
  cbn [fmap list_fmap concat] in Hat. apply bytes_at_app in Hat as [A1 A2].
  destruct (parse_row_run h _ r cells A1 Hc) as (spans & D & S).
  destruct (collect_run h {| it_base := {| iterable_type := CQL_ITERABLE_TYPE_RESULT |}; it_result := r; row_position := 0; position := rows r;
    position_next := padd (rows r) (zlen (wire_row cells)); row := spans |} rs)
    as (out & Do & So); [done..|cbn in *; lia|done|cbn; lia|].
  exists (spans :: out). split; [|by constructor].
  unfold ResultIterator_init. destruct Hc as [Hcc _].
  rewrite decide_False by lia. rewrite bind_assoc. run_step D.
  rewrite bind_ret. rewrite Hn, Nat2Z.id. exact Do.
Qed.

(** C40: a null cell (a size of -1) is not skipped: the next cell is decoded one
    byte early, from the last byte of the -1 and the first three of its own
    size, so a size below 2^24 turns into a negative one. *)
Theorem null_cell_desync h p r v :
  column_count r = 2 -> zlen v < 16777216 ->
  bytes_at h p (be 4 (-1) ++ wire_long_string v) ->
  parse_row r p h =
    Ok (([(padd p 4, 18446744073709551615);
          (padd p 7, 18446744073692774400 + zlen v / 256)],
         padd p (zlen v / 256 - 16777209)), h).
Proof.
  intros Hcc Hv Hat. unfold parse_row.
  assert (Z.to_nat (column_count r) = 2%nat) as -> by lia.
  assert (be 4 (-1) ++ wire_long_string v =
    [255; 255; 255] ++ be 4 (zlen v / 256 - 16777216) ++ [zlen v mod 256] ++ v) as E.
  { unfold wire_long_string, be.
    assert (0 <= zlen v) as Hp by lia. revert Hv Hp.
    generalize (zlen v). intros n Hv Hp. cbn [le_bytes rev app].
    repeat (apply (f_equal2 cons); [int_solve|]). done. }
  pose proof Hat as [A1 _]%bytes_at_app.
  rewrite E in Hat. apply bytes_at_app in Hat as [_ Hat].
  apply bytes_at_app in Hat as [A2 _]. cbn [length] in A2.
  cbn [parse_cells].
  run_step decode_int_run. rewrite (i32_small (-1)) by lia.
  rewrite padd_padd. run_step decode_int_run.
  rewrite i32_small by int_solve.
  rewrite ret_run, !padd_padd. cbn [app].
  assert (u64 (zlen v / 256 - 16777216) = 18446744073692774400 + zlen v / 256) as -> by int_solve.
  assert (4 + -1 + 4 + (zlen v / 256 - 16777216) = zlen v / 256 - 16777209) as -> by lia.
  done.
Qed.

(** The constructor of the iterator decodes a row even when there is none:
    at the end of the received bytes it reads past them. *)
Theorem iterator_empty_overread h r :
  tail_at h (rows r) [] -> 0 < column_count r -> row_count r = 0 ->
  bad_read (ResultIterator_init r h).
Proof.
  intros Ht Hc Hr. unfold ResultIterator_init. rewrite decide_False by lia.
  apply bind_bad. unfold parse_row.
  destruct (Z.to_nat (column_count r)) as [|k] eqn:E; [lia|]. cbn [parse_cells].
  by apply bind_bad, decode_int_past.
Qed.

(** ** Witnesses *)

(** Two columns of one table, the second a list. *)
Definition sample_column (name : string) (t : Z) : column := {|
  c_keyspace := []; c_table := []; c_name := bytes_of_string name; c_type := (t, []);
  c_primary := (CQL_COLUMN_TYPE_INT, []); c_secondary := (0, [])
|}.

Definition sample_metadata : metadata := {|
  md_paging := None;
  md_global := Some (bytes_of_string "ks", bytes_of_string "t");
  md_skip := false;
  md_count := 2;
  md_columns := [sample_column "id" CQL_COLUMN_TYPE_INT;
                 sample_column "tags" CQL_COLUMN_TYPE_LIST]
|}.

Definition sample_heap : heap :=
  [Some (Some <$> wire_result (RRows sample_metadata 0))].

Lemma sample_at : bytes_at sample_heap (Heap 0 0) (wire_result (RRows sample_metadata 0)).
Proof. by apply bytes_at_block. Qed.

Lemma sample_wf : result_wf (RRows sample_metadata 0).
Proof.
  split; [|lia]. split_and!; try (vm_compute; done).
  repeat constructor; vm_compute; done.
Qed.

Lemma spans_small_default : spans_small BodyResult_default.
Proof. repeat split; vm_compute; done. Qed.

Theorem result_consume_spec_witness :
  exists r', consume (Body := @body_result exact_allocator) BodyResult_default
      (Heap 0 0) 0 sample_heap = Ok ((true, r'), sample_heap) /\
    result_decoded sample_heap (Heap 0 0) BodyResult_default
      (RRows sample_metadata 0) r'.
Proof.
  apply (@result_consume_spec exact_allocator sample_heap (Heap 0 0) BodyResult_default
    (RRows sample_metadata 0) 0 sample_at sample_wf spans_small_default).
Defined.

Theorem rows_metadata_shifted_witness :
  exists r, consume (Body := @body_result exact_allocator) BodyResult_default
      (Heap 0 0) 0 sample_heap = Ok ((true, r), sample_heap) /\
    length (column_metadata r) = 4%nat /\
    find (bytes_of_string "tags") (column_index r) = Some 1 /\
    column_metadata r !! 1%nat = Some ColumnMetaData_default.
Proof.
  destruct (@rows_metadata_shifted exact_allocator sample_heap (Heap 0 0) sample_metadata
    0 0 [sample_column "id" CQL_COLUMN_TYPE_INT] (sample_column "tags" CQL_COLUMN_TYPE_LIST) []
    sample_at sample_wf eq_refl eq_refl) as (r & D & L & F & M & _).
  - repeat constructor; vm_compute; discriminate.
  - exists r. split; [exact D|]. split; [exact L|]. split; [exact F|exact M].
Defined.

Theorem result_unknown_kind_witness :
  BodyResult_consume BodyResult_default (Heap 0 0) 4
    [Some (Some <$> be 4 6)] = Fault AssertFailed.
Proof.
  apply (result_unknown_kind [Some (Some <$> be 4 6)] (Heap 0 0)
    BodyResult_default 6 4); [by apply bytes_at_block|lia|lia].
Defined.

(** A result of three rows of two cells, at the start of a block. *)
Definition sample_rows : list (list (list Z)) :=
  [[be 4 1; bytes_of_string "x"]; [be 4 2; []]; [be 4 3; bytes_of_string "yz"]].

Definition rows_result (n ncols : Z) : BodyResult :=
  set_rows (Heap 0 0) (set_row_count n (set_column_count ncols BodyResult_default)).

Theorem iterator_visits_rows_witness :
  exists out,
    (it ← ResultIterator_init (rows_result 3 2); collect 3 it)
      [Some (Some <$> wire_rows sample_rows)] =
      Ok (out, [Some (Some <$> wire_rows sample_rows)]) /\
    snd <$> concat out = [4; 1; 4; 0; 4; 2].
Proof.
  destruct (iterator_visits_rows [Some (Some <$> wire_rows sample_rows)]
    (rows_result 3 2) sample_rows) as (out & D & _).
  - by apply bytes_at_block.
  - repeat constructor; vm_compute; done.
  - reflexivity.
  - split; reflexivity.
  - exists out. split; [exact D|]. vm_compute in D. injection D as <-. reflexivity.
Defined.

Theorem null_cell_desync_witness :
  parse_row (rows_result 1 2) (Heap 0 0)
    [Some (Some <$> (be 4 (-1) ++ wire_long_string (be 4 7)))] =
  Ok (([(Heap 0 4, 18446744073709551615); (Heap 0 7, 18446744073692774400)],
       Heap 0 (-16777209)),
      [Some (Some <$> (be 4 (-1) ++ wire_long_string (be 4 7)))]).
Proof.
  apply (null_cell_desync [Some (Some <$> (be 4 (-1) ++ wire_long_string (be 4 7)))]
    (Heap 0 0) (rows_result 1 2) (be 4 7)); [reflexivity|reflexivity|].
  by apply bytes_at_block.
Defined.

Theorem iterator_empty_overread_witness :
  bad_read (ResultIterator_init (rows_result 0 2) [Some []]).
Proof.
  apply (iterator_empty_overread [Some []] (rows_result 0 2)); [|reflexivity..].
  by apply (tail_at_block [Some []] 0 []).
Defined.
