(* ===== verification/Message.v ===== *)
(** * cql_message.hpp

    A message: the frame header, the body chosen by its opcode, [prepare],
    which makes the bytes of a frame, and [consume], which is fed the bytes of
    a connection in chunks.  The theorems say what a frame looks like, that
    [consume] of a frame recovers the message when the body arrives in the chunk
    that completes the header, and what happens when it does not. *)

From S2P Require Import Prelude Memory StdMap Common Serialization Body Query Result.

Definition CQL_HEADER_SIZE : Z := 8.

(** ** Bodies

    A [Body*]: the object it points to. *)
Inductive body : Type :=
  | BResult (b : BodyResult)
  | BPrepare (b : BodyPrepare)
  | BError (b : BodyError)
  | BOptions (b : BodyOptions)
  | BStartup (b : BodyStartup)
  | BSupported (b : BodySupported)
  | BQuery (b : BodyQuery)
  | BReady (b : BodyReady).

(** The virtual calls. *)
Definition map_snd {A B C} (f : B -> C) (m : prog heap (A * B)) : prog heap (A * C) :=
  '(a, b) ← m; mret (a, f b).

#[export] Instance body_any `{Allocator} : Body body := {|
  opcode := fun b => match b with
    | BResult b => opcode b | BPrepare b => opcode b | BError b => opcode b
    | BOptions b => opcode b | BStartup b => opcode b | BSupported b => opcode b
    | BQuery b => opcode b | BReady b => opcode b end;
  consume := fun b buffer size => match b with
    | BResult b => map_snd BResult (consume b buffer size)
    | BPrepare b => map_snd BPrepare (consume b buffer size)
    | BError b => map_snd BError (consume b buffer size)
    | BOptions b => map_snd BOptions (consume b buffer size)
    | BStartup b => map_snd BStartup (consume b buffer size)
    | BSupported b => map_snd BSupported (consume b buffer size)
    | BQuery b => map_snd BQuery (consume b buffer size)
    | BReady b => map_snd BReady (consume b buffer size) end;
  prepare := fun b reserved output size => match b with
    | BResult b => prepare b reserved output size
    | BPrepare b => prepare b reserved output size
    | BError b => prepare b reserved output size
    | BOptions b => prepare b reserved output size
    | BStartup b => prepare b reserved output size
    | BSupported b => prepare b reserved output size
    | BQuery b => prepare b reserved output size
    | BReady b => prepare b reserved output size end
|}.

(** [delete] of a body releases what it owns. *)
Definition delete_body (b : option body) : prog heap unit :=
  match b with
  | Some (BError e) => delete_chars (err_guard e)
  | _ => mret tt
  end.

(** The opcodes without a body type are assertion failures. *)
Definition allocate_body (opcode : Z) : prog heap body :=
  if decide (opcode = CQL_OPCODE_RESULT) then mret (BResult BodyResult_default)
  else if decide (opcode = CQL_OPCODE_PREPARE) then mret (BPrepare BodyPrepare_default)
  else if decide (opcode = CQL_OPCODE_ERROR) then mret (BError BodyError_default)
  else if decide (opcode = CQL_OPCODE_OPTIONS) then mret (BOptions mkBodyOptions)
  else if decide (opcode = CQL_OPCODE_STARTUP) then mret (BStartup BodyStartup_default)
  else if decide (opcode = CQL_OPCODE_SUPPORTED) then mret (BSupported BodySupported_default)
  else if decide (opcode = CQL_OPCODE_QUERY) then mret (BQuery BodyQuery_default)
  else if decide (opcode = CQL_OPCODE_READY) then mret (BReady mkBodyReady)
  else fail AssertFailed.

(** ** The message

    [header_buffer_pos] is an offset into the header buffer; the constructors
    leave [body_buffer_pos] and [body_error] indeterminate ([None]). *)
Record Message := {
  m_version           : Z;
  m_flags             : Z;
  m_stream            : Z;
  m_opcode            : Z;
  m_length            : Z;
  m_received          : Z;
  m_header_received   : bool;
  m_header_buffer     : block;
  m_header_buffer_pos : Z;
  m_body              : option body;
  m_body_buffer       : ptr;
  m_body_buffer_pos   : option ptr;
  m_body_ready        : bool;
  m_body_error        : option bool
}.

Definition Message_default : Message := {|
  m_version := 0x02; m_flags := 0; m_stream := 0; m_opcode := 0; m_length := 0;
  m_received := 0; m_header_received := false;
  m_header_buffer := replicate 8 None; m_header_buffer_pos := 0;
  m_body := None; m_body_buffer := Null; m_body_buffer_pos := None;
  m_body_ready := false; m_body_error := None
|}.

Definition Message_init (opcode : Z) : prog heap Message :=
  b ← allocate_body (u8 opcode);
  mret {|
    m_version := 0x02; m_flags := 0; m_stream := 0; m_opcode := u8 opcode;
    m_length := 0; m_received := 0; m_header_received := false;
    m_header_buffer := replicate 8 None; m_header_buffer_pos := 0;
    m_body := Some b; m_body_buffer := Null; m_body_buffer_pos := None;
    m_body_ready := false; m_body_error := None
  |}.

(** Assignments to the fields. *)
Definition set_m_length (v : Z) (m : Message) : Message := {|
  m_version := m_version m; m_flags := m_flags m; m_stream := m_stream m;
  m_opcode := m_opcode m; m_length := v; m_received := m_received m;
  m_header_received := m_header_received m; m_header_buffer := m_header_buffer m;
  m_header_buffer_pos := m_header_buffer_pos m; m_body := m_body m;
  m_body_buffer := m_body_buffer m; m_body_buffer_pos := m_body_buffer_pos m;
  m_body_ready := m_body_ready m; m_body_error := m_body_error m
|}.
Definition set_m_received (v : Z) (m : Message) : Message := {|
  m_version := m_version m; m_flags := m_flags m; m_stream := m_stream m;
  m_opcode := m_opcode m; m_length := m_length m; m_received := v;
  m_header_received := m_header_received m; m_header_buffer := m_header_buffer m;
  m_header_buffer_pos := m_header_buffer_pos m; m_body := m_body m;
  m_body_buffer := m_body_buffer m; m_body_buffer_pos := m_body_buffer_pos m;
  m_body_ready := m_body_ready m; m_body_error := m_body_error m
|}.
Definition set_m_header (buf : block) (pos : Z) (m : Message) : Message := {|
  m_version := m_version m; m_flags := m_flags m; m_stream := m_stream m;
  m_opcode := m_opcode m; m_length := m_length m; m_received := m_received m;
  m_header_received := m_header_received m; m_header_buffer := buf;
  m_header_buffer_pos := pos; m_body := m_body m;
  m_body_buffer := m_body_buffer m; m_body_buffer_pos := m_body_buffer_pos m;
  m_body_ready := m_body_ready m; m_body_error := m_body_error m
|}.
Definition set_m_body_pos (v : ptr) (m : Message) : Message := {|
  m_version := m_version m; m_flags := m_flags m; m_stream := m_stream m;
  m_opcode := m_opcode m; m_length := m_length m; m_received := m_received m;
  m_header_received := m_header_received m; m_header_buffer := m_header_buffer m;
  m_header_buffer_pos := m_header_buffer_pos m; m_body := m_body m;
  m_body_buffer := m_body_buffer m; m_body_buffer_pos := Some v;
  m_body_ready := m_body_ready m; m_body_error := m_body_error m
|}.
Definition set_m_ready (b : body) (error : option bool) (m : Message) : Message := {|
  m_version := m_version m; m_flags := m_flags m; m_stream := m_stream m;
  m_opcode := m_opcode m; m_length := m_length m; m_received := m_received m;
  m_header_received := m_header_received m; m_header_buffer := m_header_buffer m;
  m_header_buffer_pos := m_header_buffer_pos m; m_body := Some b;
  m_body_buffer := m_body_buffer m; m_body_buffer_pos := m_body_buffer_pos m;
  m_body_ready := true; m_body_error := error
|}.

Section message.
Context `{Allocator}.

(** ** prepare *)

Definition Message_prepare (m : Message) (output : ptr) (size : Z)
    : prog heap (bool * Message * ptr * Z) :=
  let size := 0 in
  match m_body m with
  | None => mret (false, m, output, size)
  | Some body =>
      '(_, output, size) ← prepare body CQL_HEADER_SIZE output size;
      '(m, output, size) ←
        (if decide (size = 0) then
           output ← new_chars CQL_HEADER_SIZE;
           mret (m, output, CQL_HEADER_SIZE)
         else mret (set_m_length (i32 (size - CQL_HEADER_SIZE)) m, output, size));
      write_bytes output [u8 (m_version m)] ;;
      write_bytes (padd output 1) [u8 (m_flags m)] ;;
      write_bytes (padd output 2) [u8 (m_stream m)] ;;
      write_bytes (padd output 3) [u8 (m_opcode m)] ;;
      encode_int (padd output 4) (m_length m) ;;
      mret (true, m, output, size)
  end.

(** ** consume *)

(** [memcpy(header_buffer_pos, input, n)]. *)
Definition copy_header (m : Message) (input : ptr) (n : Z) : prog heap Message :=
  cs ← read_cells input n;
  let pos := m_header_buffer_pos m in
  if decide (pos + zlen cs <= zlen (m_header_buffer m))
  then mret (set_m_header (splice (m_header_buffer m) pos cs) pos m)
  else fail OutOfBounds.

(** The fields of the full header; the buffer and the body for what follows. *)
Definition parse_header (m : Message) : prog heap Message :=
  match initialised (m_header_buffer m) with
  | Some (b0 :: b1 :: b2 :: b3 :: bs) =>
      let length := i32 (ntohl (le_value (take 4 bs))) in
      body_buffer ← new_chars length;
      delete_chars (m_body_buffer m) ;;
      body ← allocate_body (u8 b3);
      delete_body (m_body m) ;;
      mret {|
        m_version := u8 b0; m_flags := i8 b1; m_stream := i8 b2; m_opcode := u8 b3;
        m_length := length; m_received := m_received m; m_header_received := true;
        m_header_buffer := m_header_buffer m;
        m_header_buffer_pos := CQL_HEADER_SIZE;
        m_body := Some body; m_body_buffer := body_buffer;
        m_body_buffer_pos := Some body_buffer; m_body_ready := m_body_ready m;
        m_body_error := m_body_error m
      |}
  | _ => fail Uninitialised
  end.

(** The second half of [consume]; [consumed] is [input_pos - input]. *)
Definition consume_body (m : Message) (input : ptr) (consumed size : Z)
    : prog heap (Z * Message) :=
  match m_body_buffer_pos m, m_body m with
  | Some body_buffer_pos, Some body =>
      if decide (m_length m <= i32 (m_received m - CQL_HEADER_SIZE)) then
        let overage := u64 (i32 (m_received m - m_length m - CQL_HEADER_SIZE)) in
        let needed := u64 (size - consumed - overage) in
        memcpy body_buffer_pos (padd input consumed) needed ;;
        let m := set_m_body_pos (padd body_buffer_pos needed) m in
        '(ok, body) ← consume body (m_body_buffer m) (u64 (m_length m));
        let error := if (ok : bool) then m_body_error m else Some true in
        mret (i32 (consumed + needed), set_m_ready body error m)
      else
        memcpy body_buffer_pos (padd input consumed) (u64 (size - consumed)) ;;
        mret (i32 size, set_m_body_pos (padd body_buffer_pos size) m)
  | _, _ => fail Uninitialised
  end.

Definition Message_consume (m : Message) (input : ptr) (size : Z)
    : prog heap (Z * Message) :=
  let m := set_m_received (i32 (m_received m + size)) m in
  if m_header_received m then consume_body m input 0 size
  else if decide (CQL_HEADER_SIZE <= m_received m) then
    let overage := u64 (m_received m - CQL_HEADER_SIZE) in
    let needed := u64 (size - overage) in
    m ← copy_header m input needed;
    m ← parse_header m;
    consume_body m input needed size
  else
    m ← copy_header m input size;
    mret (i32 size,
          set_m_header (m_header_buffer m) (m_header_buffer_pos m + size) m).
End message.

(** ** The frame *)

Definition wire_header (version flags stream opcode length : Z) : list Z :=
  [u8 version; u8 flags; u8 stream; u8 opcode] ++ be 4 length.

Definition header_of (m : Message) : list Z :=
  wire_header (m_version m) (m_flags m) (m_stream m) (m_opcode m) (m_length m).

(** The bodies a client sends keep the contract of [prepare]. *)
Definition body_wire `{Allocator} (b : body) : heap -> block -> Prop :=
  match b with
  | BPrepare b => wire b | BError b => wire b
  | BStartup b => wire b | BQuery b => wire b
  | _ => fun _ _ => False
  end.
Definition body_excess `{Allocator} (b : body) : Z :=
  match b with
  | BPrepare b => excess b | BError b => excess b
  | BStartup b => excess b | BQuery b => excess b
  | _ => 0
  end.

Section frame_lemmas.
Context `{Allocator}.

Lemma body_excess_nonneg b : 0 <= body_excess b.
Proof. destruct b; cbn [body_excess]; apply excess_nonneg || lia. Qed.

Lemma body_prepare_wire b h cs reserved output size :
  body_wire b h cs -> 0 <= reserved ->
  reserved + zlen cs + body_excess b < 9223372036854775808 ->
  prepare b reserved output size h =
    Ok ((true, Heap (length h) 0, reserved + zlen cs + body_excess b),
        h ++ [Some (prepared (reserved + zlen cs + body_excess b) reserved cs)]).
Proof.
  destruct b; cbn [body_wire body_excess prepare body_any]; try done; apply prepare_wire.
Qed.

#[export] Instance body_laws : BodyLaws body := {|
  wire := body_wire; excess := body_excess;
  excess_nonneg := body_excess_nonneg; prepare_wire := body_prepare_wire
|}.

Lemma length_wire_header v f s o n : length (wire_header v f s o n) = 8%nat.
Proof. reflexivity. Qed.

(** The byte stores and the [encode_int] of [prepare] write the header. *)
Lemma header_writes {A} p v f s o n (k : prog heap A) h :
  (write_bytes p [u8 v] ;; write_bytes (padd p 1) [u8 f] ;;
   write_bytes (padd p 2) [u8 s] ;; write_bytes (padd p 3) [u8 o] ;;
   encode_int (padd p 4) n ;; k) h =
  (write_bytes p (wire_header v f s o n) ;; k) h.
Proof.
  assert (forall xs ys (k : prog heap A) h, ys <> [] ->
    (write_bytes p xs ;; write_bytes (padd p (zlen xs)) ys ;; k) h =
    (write_bytes p (xs ++ ys) ;; k) h) as Happ.
  { intros xs ys k' h' Hys. unfold write_bytes. rewrite fmap_app, <- write_cells_app.
    - by rewrite length_fmap.
    - by destruct ys. }
  rewrite (Happ [u8 v] [u8 f]), (Happ [u8 v; u8 f] [u8 s]),
    (Happ [u8 v; u8 f; u8 s] [u8 o]) by done.
  unfold encode_int. cbv zeta. rewrite int_store.
  unfold wire_header. rewrite <- (Happ _ (be 4 n)) by done.
  apply bind_ext. intros [] h'. by rewrite bind_assoc.
Qed.
End frame_lemmas.

(** ** Feeding a message *)

(** A message that has received the bytes [hb] of its header. *)
Definition partial (hb : list Z) : Message := {|
  m_version := 0x02; m_flags := 0; m_stream := 0; m_opcode := 0; m_length := 0;
  m_received := zlen hb; m_header_received := false;
  m_header_buffer := (Some <$> hb) ++ replicate (8 - length hb) None;
  m_header_buffer_pos := zlen hb;
  m_body := None; m_body_buffer := Null; m_body_buffer_pos := None;
  m_body_ready := false; m_body_error := None
|}.

(** A message whose header is complete: the body goes to block [l]. *)
Definition headed (v f s o len received : Z) (b : body) (l : nat) (pos : Z) : Message := {|
  m_version := u8 v; m_flags := i8 f; m_stream := i8 s; m_opcode := u8 o;
  m_length := len; m_received := received; m_header_received := true;
  m_header_buffer := Some <$> wire_header v f s o len;
  m_header_buffer_pos := CQL_HEADER_SIZE;
  m_body := Some b; m_body_buffer := Heap l 0;
  m_body_buffer_pos := Some (Heap l pos); m_body_ready := false; m_body_error := None
|}.

(** The message after its body was decoded. *)
Definition completed (v f s o len received : Z) (ok : bool) (b : body) (l : nat)
    (pos : Z) : Message :=
  set_m_ready b (if ok then None else Some true) (headed v f s o len received b l pos).

(** [consume] of one chunk after the other: what the calls return, and the
    message they leave. *)
Fixpoint feed `{Allocator} (m : Message) (chunks : list (ptr * Z))
    : prog heap (list Z * Message) :=
  match chunks with
  | [] => mret ([], m)
  | (input, size) :: chunks =>
      '(n, m) ← Message_consume m input size;
      '(ns, m) ← feed m chunks;
      mret (n :: ns, m)
  end.

Section consume_lemmas.
Context `{Allocator}.
Implicit Types (h : heap) (p : ptr).

Lemma partial_nil : partial [] = Message_default.
Proof. reflexivity. Qed.

Lemma u64_sub a b : 0 <= b <= a -> a < 18446744073709551616 -> u64 (a - b) = a - b.
Proof. intros. by rewrite u64_small by lia. Qed.

(** The bytes of the header land behind the ones that are there. *)
Lemma copy_header_run h p hb bs r n :
  bytes_at h p bs -> n = zlen bs -> zlen hb + zlen bs <= 8 ->
  copy_header (set_m_received r (partial hb)) p n h =
    Ok (set_m_header ((Some <$> (hb ++ bs)) ++ replicate (8 - length (hb ++ bs)) None)
          (zlen hb) (set_m_received r (partial hb)), h).
Proof.
  intros Hat -> Hl. unfold copy_header.
  erewrite bind_run.
  2:{ apply (read_cells_at _ _ _ _ Hat). by rewrite length_fmap. }
  cbn [m_header_buffer_pos m_header_buffer set_m_received partial].
  rewrite decide_True.
  2:{ rewrite !length_app, !length_fmap, length_replicate. lia. }
  rewrite ret_run. do 4 f_equal. unfold splice.
  rewrite take_app_le by (rewrite length_fmap; lia).
  rewrite take_ge by (rewrite length_fmap; lia).
  rewrite drop_app_ge by (rewrite !length_fmap; lia).
  rewrite !length_fmap, drop_replicate, fmap_app, <- app_assoc, length_app.
  do 3 f_equal. lia.
Qed.

(** A chunk that does not complete the header is kept. *)
Lemma consume_partial h p hb bs :
  bytes_at h p bs -> zlen hb + zlen bs < 8 ->
  Message_consume (partial hb) p (zlen bs) h =
    Ok ((zlen bs, partial (hb ++ bs)), h).
Proof.
  intros Hat Hl. unfold Message_consume. cbn [m_received m_header_received partial
    set_m_received]. rewrite i32_small by lia.
  rewrite decide_False by (unfold CQL_HEADER_SIZE; lia).
  erewrite bind_run by (apply copy_header_run; [exact Hat|done|lia]).
  rewrite i32_small by lia. unfold partial, set_m_header, set_m_received. cbn.
  rewrite ret_run, length_app. do 4 f_equal; lia.
Qed.

Lemma parse_header_run h v f s o len r hpos hb b :
  allocate_body (u8 o) = mret b -> 0 <= len < 2147483648 ->
  parse_header (set_m_header (Some <$> wire_header v f s o len) hpos
      (set_m_received r (partial hb))) h =
    Ok (headed v f s o len r b (length h) 0,
        h ++ [Some (replicate (Z.to_nat (usable len)) None)]).
Proof.
  intros Ho Hlen. unfold parse_header. cbn [m_header_buffer set_m_header].
  rewrite initialised_Some. cbn [wire_header app].
  change (take 4 (be 4 len)) with (be 4 len). cbv zeta. rewrite int_load, i32_small by lia.
  erewrite bind_run by (apply new_chars_run; lia).
  cbn [m_body_buffer set_m_header set_m_received partial delete_chars].
  erewrite bind_run by reflexivity.
  replace (u8 (u8 o)) with (u8 o) by int_solve. rewrite Ho, bind_ret.
  cbn [m_body set_m_header set_m_received partial delete_body].
  rewrite bind_ret, ret_run. unfold headed. do 3 f_equal; int_solve.
Qed.

(** The chunk that completes the header. *)
Lemma consume_header h p hb hb2 more v f s o len b :
  hb ++ hb2 = wire_header v f s o len -> hb2 <> [] -> bytes_at h p hb2 ->
  allocate_body (u8 o) = mret b -> 0 <= len < 2147483648 ->
  0 <= more -> 8 + more < 2147483648 ->
  Message_consume (partial hb) p (zlen hb2 + more) h =
    consume_body (headed v f s o len (8 + more) b (length h) 0) p (zlen hb2)
      (zlen hb2 + more) (h ++ [Some (replicate (Z.to_nat (usable len)) None)]).
Proof.
  intros Hhb Hne Hat Ho Hlen Hm Hb.
  assert (zlen hb + zlen hb2 = 8) as H8.
  { rewrite <- Nat2Z.inj_add, <- length_app, Hhb. reflexivity. }
  unfold Message_consume.
  cbn [m_received m_header_received partial set_m_received].
  replace (i32 (zlen hb + (zlen hb2 + more))) with (8 + more) by int_solve.
  unfold CQL_HEADER_SIZE. rewrite decide_True by lia.
  replace (u64 (zlen hb2 + more - u64 (8 + more - 8))) with (zlen hb2) by int_solve.
  erewrite bind_run by (apply copy_header_run; [exact Hat|done|lia]).
  rewrite Hhb, length_wire_header, Nat.sub_diag, app_nil_r.
  by erewrite bind_run by (apply parse_header_run; done).
Qed.

Lemma lookup_last h (x : option block) : (h ++ [x]) !! length h = Some x.
Proof. by rewrite lookup_app_r, Nat.sub_diag. Qed.

Lemma insert_fresh h (x y : option block) : <[length h := y]> (h ++ [x]) = h ++ [y].
Proof. by rewrite insert_app_r_alt, Nat.sub_diag. Qed.

(** The rest of a body, at offset [pos] of its buffer: it is decoded if the
    buffer has the room. *)
Lemma consume_body_last h p v f s o len r b x pos consumed size payload :
  cells_at h (padd p consumed) payload -> payload <> [] \/ pos + zlen payload <= zlen x ->
  0 <= pos -> 0 <= consumed -> 0 <= len < 2147483648 -> 8 + len <= r < 2147483648 ->
  consumed + zlen payload = size - (r - 8 - len) -> size < 2147483648 ->
  consume_body (headed v f s o len r b (length h) pos) p consumed size (h ++ [Some x]) =
    if decide (pos + zlen payload <= zlen x) then
      match consume b (Heap (length h) 0) len (h ++ [Some (splice x pos payload)]) with
      | Ok ((ok, b'), h') =>
          Ok ((consumed + zlen payload,
               completed v f s o len r ok b' (length h) (pos + zlen payload)), h')
      | Fault e => Fault e
      end
    else Fault OutOfBounds.
Proof.
  intros Hat Hne Hpos Hcon Hlen Hr Hsz Hs32. unfold consume_body, headed.
  cbn [m_body_buffer_pos m_body m_length m_received m_body_buffer set_m_body_pos].
  unfold CQL_HEADER_SIZE. rewrite decide_True by int_solve.
  replace (u64 (size - consumed - u64 (i32 (r - len - 8)))) with (zlen payload) by int_solve.
  unfold memcpy. rewrite bind_assoc.
  erewrite bind_run.
  2:{ apply (read_cells_at _ _ _ _ (cells_at_alloc _ _ _ (Some x) Hat)). done. }
  case_decide as Hfit.
  - erewrite bind_run by (apply write_cells_run; [apply lookup_last|done|done]).
    rewrite insert_fresh, u64_small by lia. unfold mbind, prog_bind.
    destruct (consume b _ len _) as [[[ok b'] h']|e]; [|done].
    rewrite ret_run, i32_small by lia.
    unfold completed, headed, set_m_ready. cbn. by destruct ok.
  - apply bind_fault. eapply write_cells_oob; [apply lookup_last| |lia].
    destruct Hne as [|]; [done|lia].
Qed.

(** A part of a body that is not the last: it is stored, and the position moves
    by the whole size of the chunk. *)
Lemma consume_body_part h p v f s o len r b x pos consumed payload :
  cells_at h (padd p consumed) payload -> pos + zlen payload <= zlen x ->
  0 <= pos -> 0 <= consumed -> 8 <= r < 8 + len -> len < 2147483648 ->
  consumed + zlen payload < 2147483648 -> r < 2147483648 ->
  consume_body (headed v f s o len r b (length h) pos) p consumed
      (consumed + zlen payload) (h ++ [Some x]) =
    Ok ((consumed + zlen payload,
         headed v f s o len r b (length h) (pos + (consumed + zlen payload))),
        h ++ [Some (splice x pos payload)]).
Proof.
  intros Hat Hfit Hpos Hcon Hr Hlen Hb Hr2. unfold consume_body, headed.
  cbn [m_body_buffer_pos m_body m_length m_received m_body_buffer set_m_body_pos].
  unfold CQL_HEADER_SIZE. rewrite decide_False by int_solve.
  replace (u64 (consumed + zlen payload - consumed)) with (zlen payload) by int_solve.
  unfold memcpy. rewrite bind_assoc.
  erewrite bind_run.
  2:{ apply (read_cells_at _ _ _ _ (cells_at_alloc _ _ _ (Some x) Hat)). done. }
  erewrite bind_run by (apply write_cells_run; [apply lookup_last|done|done]).
  by rewrite insert_fresh, ret_run, i32_small by lia.
Qed.
End consume_lemmas.

(** The chunk holds the bytes [bs]. *)
Definition chunk_at (h : heap) (c : ptr * Z) (bs : list Z) : Prop :=
  bytes_at h c.1 bs /\ c.2 = zlen bs.

(** The header fields fit their types. *)
Definition header_wf (m : Message) : Prop :=
  0 <= m_version m < 256 /\ -128 <= m_flags m < 128 /\ -128 <= m_stream m < 128 /\
  0 <= m_opcode m < 256.

Section message_lemmas.
Context `{Allocator}.
Implicit Types (h : heap) (p : ptr).

Lemma feed_one m p size h :
  feed m [(p, size)] h =
    match Message_consume m p size h with
    | Ok ((n, m'), h') => Ok (([n], m'), h')
    | Fault e => Fault e
    end.
Proof. cbn [feed]. unfold mbind, prog_bind. by destruct (Message_consume _ _ _ _) as [[[]]|]. Qed.

Lemma feed_partial h chunks bss hb more :
  Forall2 (chunk_at h) chunks bss -> zlen hb + zlen (concat bss) < 8 ->
  feed (partial hb) (chunks ++ more) h =
    match feed (partial (hb ++ concat bss)) more h with
    | Ok ((ns, m), h') => Ok ((chunks.*2 ++ ns, m), h')
    | Fault e => Fault e
    end.
Proof.
  intros Hc. revert hb. induction Hc as [|[p n] bs chunks bss [Hat Hn] Hc IH]; intros hb Hl.
  - cbn [concat app fmap list_fmap]. rewrite app_nil_r.
    by destruct (feed _ _ _) as [[[]]|].
  - cbn [fst snd concat] in *. subst n. rewrite length_app in Hl.
    cbn [app feed]. erewrite bind_run by (apply consume_partial; [exact Hat|lia]).
    cbv beta iota. unfold mbind, prog_bind.
    rewrite IH by (rewrite length_app; lia). rewrite <- app_assoc.
    by destruct (feed _ more h) as [[[]]|].
Qed.

Lemma header_split hb hb2 v f s o len :
  hb ++ hb2 = wire_header v f s o len -> zlen hb + zlen hb2 = 8.
Proof.
  intros Hhb. rewrite <- Nat2Z.inj_add, <- length_app, Hhb. reflexivity.
Qed.

(** The rest of a header, the whole body and what follows, in one chunk. *)
Lemma consume_whole h p hb hb2 payload rest v f s o b :
  hb ++ hb2 = wire_header v f s o (zlen payload) -> zlen hb < 8 ->
  cells_at h p ((Some <$> hb2) ++ payload ++ rest) ->
  allocate_body (u8 o) = mret b ->
  8 + zlen payload + zlen rest < 2147483648 ->
  Message_consume (partial hb) p (zlen hb2 + (zlen payload + zlen rest)) h =
  match consume b (Heap (length h) 0) (zlen payload)
      (h ++ [Some (payload ++
         replicate (Z.to_nat (usable (zlen payload) - zlen payload)) None)]) with
  | Ok ((ok, b'), h') =>
      Ok ((zlen hb2 + zlen payload,
           completed v f s o (zlen payload) (8 + (zlen payload + zlen rest)) ok b'
             (length h) (zlen payload)), h')
  | Fault e => Fault e
  end.
Proof.
  intros Hhb Hl Hat Ho Hb. pose proof (usable_ge (zlen payload)) as Hu.
  apply cells_at_app in Hat as [A1 A2]. rewrite length_fmap in A2.
  apply cells_at_app in A2 as [A2 A3].
  pose proof (header_split _ _ _ _ _ _ _ Hhb) as H8.
  assert (hb2 <> []) as Hne.
  { intros ->. cbn in H8. lia. }
  rewrite (consume_header _ _ _ _ _ _ _ _ _ _ _ Hhb Hne A1 Ho) by lia.
  rewrite (consume_body_last _ _ _ _ _ _ _ _ _ _ _ _ _ payload A2);
    [|rewrite ?length_replicate; lia..].
  rewrite decide_True by (rewrite length_replicate; lia).
  unfold splice. cbn [take app]. rewrite drop_replicate.
  replace (Z.to_nat (usable (zlen payload)) - (Z.to_nat 0 + length payload))%nat
    with (Z.to_nat (usable (zlen payload) - zlen payload)) by lia.
  by rewrite Z.add_0_l.
Qed.

Lemma prepare_header m b h cs output size :
  m_body m = Some b -> wire b h cs ->
  8 + zlen cs + excess b < 2147483648 ->
  let n := 8 + zlen cs + excess b in
  let m' := set_m_length (n - 8) m in
  Message_prepare m output size h =
    Ok ((true, m', Heap (length h) 0, n),
        h ++ [Some ((Some <$> header_of m') ++ cs ++
                    replicate (Z.to_nat (usable n - 8 - zlen cs)) None)]).
Proof.
  intros Hm Hw Hn n m'. pose proof (excess_nonneg b) as Hex. pose proof (usable_ge n).
  unfold Message_prepare. rewrite Hm. unfold CQL_HEADER_SIZE.
  erewrite bind_run by (apply prepare_wire; [exact Hw|lia|lia]). cbv beta iota.
  rewrite decide_False by lia. rewrite bind_ret.
  fold n. rewrite i32_small by lia. fold m'.
  rewrite header_writes. fold (header_of m').
  assert (length (header_of m') = 8%nat) as Hh by done.
  erewrite bind_run.
  2:{ apply write_cells_run; [apply lookup_last|lia|].
      unfold prepared. rewrite !length_app, length_fmap, Hh, length_replicate. lia. }
  by rewrite insert_fresh, ret_run.
Qed.
End message_lemmas.

(** ** Theorems *)

(** [Message::prepare] of a body that keeps the contract of [Body] makes one
    frame: the eight header bytes with the length of the body, the encoded
    body, and the bytes the body over-allocates; [length] is set to the rest of
    the allocation after the header. *)
Theorem message_prepare_spec `{Allocator} m b h cs output size :
  m_body m = Some b -> wire b h cs ->
  8 + zlen cs + excess b < 2147483648 ->
  let n := 8 + zlen cs + excess b in
  let m' := set_m_length (zlen cs + excess b) m in
  exists blk,
    Message_prepare m output size h = Ok ((true, m', Heap (length h) 0, n), h ++ [Some blk]) /\
    take (Z.to_nat n) blk =
      (Some <$> wire_header (m_version m) (m_flags m) (m_stream m) (m_opcode m)
                  (zlen cs + excess b)) ++
      cs ++ replicate (Z.to_nat (excess b)) None.
Proof.
  intros Hm Hw Hn n m'. subst n m'. pose proof (excess_nonneg b) as Hex.
  pose proof (usable_ge (8 + zlen cs + excess b)). eexists. split.
  { rewrite (prepare_header m b h cs output size Hm Hw Hn).
    replace (8 + zlen cs + excess b - 8) with (zlen cs + excess b) by lia.
    reflexivity. }
  rewrite take_app_ge by
    (rewrite length_fmap; change (length (header_of _)) with 8%nat; lia).
  f_equal. rewrite length_fmap. change (length (header_of _)) with 8%nat.
  rewrite take_app_ge by lia. f_equal. rewrite take_replicate. f_equal. lia.
Qed.

Lemma prepare_empty_run `{Allocator} m h output size :
  m_body m = Some (BOptions mkBodyOptions) \/ m_body m = Some (BReady mkBodyReady) ->
  Message_prepare m output size h =
    if decide (8 <= usable 0) then
      Ok ((true, set_m_length 0 m, Heap (length h) 0, 8),
          h ++ [Some ((Some <$> header_of (set_m_length 0 m)) ++
                      replicate (Z.to_nat (usable 0 - 8)) None)])
    else Fault OutOfBounds.
Proof.
  intros Hm. pose proof (usable_ge 0) as Hu. unfold Message_prepare.
  assert (match m_body m with
    | Some b => prepare b CQL_HEADER_SIZE output 0 h = Ok ((true, Heap (length h) 0, 8),
        h ++ [Some (replicate (Z.to_nat (usable 0)) None)])
    | None => False end) as Hp.
  { destruct Hm as [-> | ->]; cbn [prepare body_any body_options body_ready];
      unfold BodyOptions_prepare, BodyReady_prepare;
      by erewrite bind_run by (apply new_chars_run; lia). }
  destruct (m_body m) as [b|]; [|done]. erewrite bind_run by exact Hp. cbv beta iota.
  rewrite decide_False by done. rewrite bind_ret. change (i32 (8 - CQL_HEADER_SIZE)) with 0.
  rewrite header_writes. fold (header_of (set_m_length 0 m)).
  set (hd := header_of _). assert (length hd = 8%nat) as Hh by done.
  case_decide as Hd.
  - erewrite bind_run.
    2:{ apply write_cells_run; [apply lookup_last|lia|].
        rewrite length_fmap, Hh, length_replicate. lia. }
    rewrite insert_fresh, ret_run. unfold splice. rewrite length_fmap, Hh, drop_replicate.
    change (take (Z.to_nat 0) _) with (@nil cell). cbn [app].
    replace (Z.to_nat (usable 0) - (Z.to_nat 0 + 8))%nat
      with (Z.to_nat (usable 0 - 8)) by lia. done.
  - apply bind_fault. eapply write_cells_oob; [apply lookup_last|done|].
    rewrite length_fmap, Hh, length_replicate. lia.
Qed.

(** [prepare] of an OPTIONS or READY message asks for a buffer of no bytes
    and writes the header into it: a heap overflow unless the allocator makes
    eight bytes of every allocation usable. *)
Theorem message_prepare_empty_body `{Allocator} m h output size :
  m_body m = Some (BOptions mkBodyOptions) \/ m_body m = Some (BReady mkBodyReady) ->
  Message_prepare m output size h =
    if decide (8 <= usable 0) then
      Ok ((true, set_m_length 0 m, Heap (length h) 0, 8),
          h ++ [Some ((Some <$> header_of (set_m_length 0 m)) ++
                      replicate (Z.to_nat (usable 0 - 8)) None)])
    else Fault OutOfBounds.
Proof. apply prepare_empty_run. Qed.

(** C7: [consume] recovers a frame whose header arrives in any number of chunks,
    as long as the chunk that completes the header holds the whole body: every
    call returns how much it took, the last one leaves what follows the frame
    alone, and the body is decoded from a fresh buffer with the payload. *)
Theorem message_consume_spec `{Allocator} h chunks bss p hb2 payload rest v f s o b :
  Forall2 (chunk_at h) chunks bss -> zlen (concat bss) < 8 ->
  concat bss ++ hb2 = wire_header v f s o (zlen payload) ->
  cells_at h p ((Some <$> hb2) ++ payload ++ rest) ->
  allocate_body (u8 o) = mret b ->
  8 + zlen payload + zlen rest < 2147483648 ->
  feed Message_default
    (chunks ++ [(p, zlen hb2 + (zlen payload + zlen rest))]) h =
  match consume b (Heap (length h) 0) (zlen payload)
      (h ++ [Some (payload ++
         replicate (Z.to_nat (usable (zlen payload) - zlen payload)) None)]) with
  | Ok ((ok, b'), h') =>
      Ok ((chunks.*2 ++ [zlen hb2 + zlen payload],
           completed v f s o (zlen payload) (8 + (zlen payload + zlen rest)) ok b'
             (length h) (zlen payload)), h')
  | Fault e => Fault e
  end.
Proof.
  intros Hc Hl Hhb Hat Ho Hb.
  rewrite <- partial_nil, (feed_partial h chunks bss []) by done. cbn [app].
  rewrite feed_one, (consume_whole _ _ _ _ payload rest _ _ _ _ _ Hhb) by done.
  by destruct (consume b _ _ _) as [[[ok b'] h']|e].
Qed.

(** C21: when the body does not arrive whole with the end of the header, the
    position in the body buffer is moved by the header bytes of that chunk too:
    the rest of the body is written that many bytes too far, past the end of
    the buffer unless the allocator left the room, and then the body is decoded
    with a hole of indeterminate bytes in it. *)
Theorem message_split_body `{Allocator} h p q hb hb2 p1 p2 v f s o b :
  hb ++ hb2 = wire_header v f s o (zlen (p1 ++ p2)) -> hb2 <> [] -> p2 <> [] ->
  cells_at h p ((Some <$> hb2) ++ p1) -> cells_at h q p2 ->
  allocate_body (u8 o) = mret b -> 8 + zlen (p1 ++ p2) < 2147483648 ->
  let len := zlen (p1 ++ p2) in
  feed (partial hb) [(p, zlen hb2 + zlen p1); (q, zlen p2)] h =
  if decide (zlen hb2 + len <= usable len) then
    match consume b (Heap (length h) 0) len
        (h ++ [Some (p1 ++ replicate (length hb2) None ++ p2 ++
           replicate (Z.to_nat (usable len - len - zlen hb2)) None)]) with
    | Ok ((ok, b'), h') =>
        Ok (([zlen hb2 + zlen p1; zlen p2],
             completed v f s o len (8 + len) ok b' (length h) (zlen hb2 + len)), h')
    | Fault e => Fault e
    end
  else Fault OutOfBounds.
Proof.
  intros Hhb Hne Hp2 Hat Hq Ho Hb len.
  assert (len = zlen p1 + zlen p2) as Hlen by (subst len; rewrite length_app; lia).
  fold len in Hhb, Hb. clearbody len.
  assert (0 < zlen p2) by (destruct p2; [done|cbn; lia]).
  pose proof (header_split _ _ _ _ _ _ _ Hhb) as H8.
  pose proof (usable_ge len) as Hu.
  apply cells_at_app in Hat as [A1 A2]. rewrite length_fmap in A2.
  cbn [feed]. erewrite bind_run.
  2:{ rewrite (consume_header _ _ _ _ _ _ _ _ _ _ _ Hhb Hne A1 Ho) by lia.
      apply consume_body_part; [exact A2|rewrite ?length_replicate; lia..]. }
  cbv beta iota. rewrite Z.add_0_l.
  unfold Message_consume. cbn [m_received m_header_received headed set_m_received].
  rewrite i32_small by lia.
  change (set_m_received ?r (headed v f s o ?n _ b ?l ?pos))
    with (headed v f s o n r b l pos).
  set (x := splice _ 0 p1).
  assert (x = p1 ++ replicate (Z.to_nat (usable len) - length p1) None) as Hx.
  { subst x. unfold splice. cbn [take app]. by rewrite drop_replicate. }
  pose proof (consume_body_last h q v f s o len (8 + zlen p1 + zlen p2) b x
    (zlen hb2 + zlen p1) 0 (zlen p2) p2) as Hlast.
  rewrite padd_0 in Hlast. specialize (Hlast Hq (or_introl Hp2)).
  assert (zlen x = usable len) as Hxl.
  { rewrite Hx, length_app, length_replicate. lia. }
  rewrite Hxl in Hlast.
  replace (8 + zlen p1 + zlen p2) with (8 + len) in * by lia.
  unfold mbind, prog_bind. rewrite Hlast by lia.
  replace (zlen hb2 + zlen p1 + zlen p2) with (zlen hb2 + len) by lia.
  destruct (decide (zlen hb2 + len <= usable len)) as [Hfit|Hfit]; [|done].
  assert (splice x (zlen hb2 + zlen p1) p2 = p1 ++ replicate (length hb2) None ++ p2 ++
    replicate (Z.to_nat (usable len - len - zlen hb2)) None) as ->.
  { rewrite Hx. unfold splice.
    rewrite take_app_ge, drop_app_ge, take_replicate, drop_replicate by lia.
    rewrite <- app_assoc. f_equal. f_equal; [f_equal; lia|]. do 2 f_equal. lia. }
  match goal with |- context [consume b ?p ?n ?hp] =>
    destruct (consume b p n hp) as [[[ok b'] h']|e] end; reflexivity.
Qed.

(** A frame that is fed in one piece: the message has its header, and the body is
    decoded from the payload, in a block of its own. *)
Lemma feed_frame `{Allocator} h l v f s o len payload b0 :
  cells_at h (Heap l 0) ((Some <$> wire_header v f s o len) ++ payload) ->
  zlen payload = len -> 8 + len < 2147483648 -> allocate_body (u8 o) = mret b0 ->
  feed Message_default [(Heap l 0, 8 + len)] h =
    match consume b0 (Heap (length h) 0) len
        (h ++ [Some (payload ++ replicate (Z.to_nat (usable len - len)) None)]) with
    | Ok ((ok, b'), h2) =>
        Ok (([8 + len], completed v f s o len (8 + len) ok b' (length h) len), h2)
    | Fault e => Fault e
    end.
Proof.
  intros Hat Hpl Hn Hb0. pose proof (usable_ge len).
  apply cells_at_app in Hat as [A1 A2]. rewrite length_fmap in A2.
  set (hd := wire_header v f s o len) in *. change (zlen hd) with 8 in A2.
  rewrite <- partial_nil, feed_one.
  rewrite (consume_header h _ [] hd len _ _ _ _ _ b0 eq_refl); [|done|exact A1|exact Hb0|lia..].
  change (zlen hd) with 8 in *.
  rewrite (consume_body_last _ _ _ _ _ _ _ _ _ _ _ _ _ payload A2);
    [|rewrite ?length_replicate; lia..].
  rewrite Hpl, Z.add_0_l. rewrite decide_True by (rewrite length_replicate; lia).
  unfold splice. rewrite drop_replicate. change (take (Z.to_nat 0) _) with (@nil cell).
  cbn [app]. replace (Z.to_nat (usable len) - (Z.to_nat 0 + length payload))%nat
    with (Z.to_nat (usable len - len)) by lia.
  by destruct (consume b0 _ _ _) as [[[ok b'] h2]|e].
Qed.

(** C20: what one end prepares, the other consumes: a frame made from a body that
    keeps the contract of [Body], received in one piece, gives a message with
    the same version, flags, stream, opcode and length, whose body was decoded
    from exactly the encoded cells. *)
Theorem message_roundtrip `{Allocator} m b b0 h cs output size h' l :
  m_body m = Some b -> wire b h cs -> header_wf m ->
  8 + zlen cs + excess b < 2147483648 -> allocate_body (m_opcode m) = mret b0 ->
  let len := zlen cs + excess b in
  let payload := cs ++ replicate (Z.to_nat (excess b)) None in
  exists m' blk,
    Message_prepare m output size h =
      Ok ((true, m', Heap (length h) 0, 8 + len), h ++ [Some blk]) /\
    m_length m' = len /\
    (h' !! l = Some (Some blk) ->
     feed Message_default [(Heap l 0, 8 + len)] h' =
     match consume b0 (Heap (length h') 0) len
         (h' ++ [Some (payload ++ replicate (Z.to_nat (usable len - len)) None)]) with
     | Ok ((ok, b'), h2) =>
         Ok (([8 + len],
              completed (m_version m) (m_flags m) (m_stream m) (m_opcode m) len (8 + len)
                ok b' (length h') len), h2)
     | Fault e => Fault e
     end).
Proof.
  intros Hm Hw (Hv & Hf & Hs & Ho) Hn Hb0 len payload.
  pose proof (excess_nonneg b) as Hex. pose proof (usable_ge (8 + zlen cs + excess b)).
  assert (len = zlen cs + excess b) as Hlen by done. clearbody len.
  pose proof (usable_ge len).
  assert (zlen payload = len) as Hpl.
  { subst payload. rewrite length_app, length_replicate. lia. }
  pose proof (prepare_header m b h cs output size Hm Hw Hn) as Hp.
  replace (8 + zlen cs + excess b) with (8 + len) in * by lia.
  eexists _, _. split; [exact Hp|]. cbn [set_m_length m_length]. split; [lia|].
  intros Hl. replace (8 + len - 8) with len by lia.
  apply feed_frame; [|done|lia|by replace (u8 (m_opcode m)) with (m_opcode m) by int_solve].
  eapply cells_at_heap; [exact Hl|]. apply slice_Some.
  exists [], (replicate (Z.to_nat (usable (8 + len) - 8 - len)) None).
  split_and!; [|done|done]. cbn [app]. subst payload.
  unfold header_of. cbn [m_version m_flags m_stream m_opcode m_length set_m_length].
  replace (8 + len - 8) with len by lia.
  rewrite <- !app_assoc. do 2 f_equal. rewrite <- replicate_add. f_equal. lia.
Qed.

(** A header with a negative length, or one with an opcode the client has no
    body for, is not an error of the protocol but ends the process: the
    allocation throws, [allocate_body] asserts. *)
Theorem consume_bad_header `{Allocator} h p hb hb2 v f s o len more :
  hb ++ hb2 = wire_header v f s o len -> hb2 <> [] -> bytes_at h p hb2 ->
  0 <= more -> 8 + more < 2147483648 ->
  (-2147483648 <= len < 0 ->
     Message_consume (partial hb) p (zlen hb2 + more) h = Fault BadArrayLength) /\
  (0 <= len < 2147483648 -> u8 o ∉ [0; 1; 2; 5; 6; 7; 8; 9] ->
     Message_consume (partial hb) p (zlen hb2 + more) h = Fault AssertFailed).
Proof.
  intros Hhb Hne Hat Hm Hb. pose proof (header_split _ _ _ _ _ _ _ Hhb) as H8.
  assert (forall e, parse_header (set_m_header (Some <$> wire_header v f s o len) (zlen hb)
      (set_m_received (8 + more) (partial hb))) h = Fault e ->
    Message_consume (partial hb) p (zlen hb2 + more) h = Fault e) as Hrun.
  { intros e He. unfold Message_consume.
    cbn [m_received m_header_received partial set_m_received].
    replace (i32 (zlen hb + (zlen hb2 + more))) with (8 + more) by int_solve.
    unfold CQL_HEADER_SIZE. rewrite decide_True by lia.
    replace (u64 (zlen hb2 + more - u64 (8 + more - 8))) with (zlen hb2) by int_solve.
    erewrite bind_run by (apply copy_header_run; [exact Hat|done|lia]).
    rewrite Hhb, length_wire_header, Nat.sub_diag, app_nil_r.
    by apply bind_fault. }
  split.
  - intros Hlen. apply Hrun. unfold parse_header. cbn [m_header_buffer set_m_header].
    rewrite initialised_Some. cbn [wire_header app].
    change (take 4 (be 4 len)) with (be 4 len). cbv zeta. rewrite int_load, i32_small by lia.
    apply bind_fault. unfold new_chars. by rewrite decide_False by int_solve.
  - intros Hlen Ho. apply Hrun. unfold parse_header. cbn [m_header_buffer set_m_header].
    rewrite initialised_Some. cbn [wire_header app].
    change (take 4 (be 4 len)) with (be 4 len). cbv zeta. rewrite int_load, i32_small by lia.
    erewrite bind_run by (apply new_chars_run; lia).
    erewrite bind_run by reflexivity. apply bind_fault.
    replace (u8 (u8 o)) with (u8 o) by int_solve.
    unfold allocate_body. rewrite !decide_False; [done|..]; intros E;
      apply Ho; rewrite E; set_solver.
Qed.

(** ** Witnesses *)

Definition startup_message : Message := {|
  m_version := 0x02; m_flags := 0; m_stream := 0; m_opcode := CQL_OPCODE_STARTUP;
  m_length := 0; m_received := 0; m_header_received := false;
  m_header_buffer := replicate 8 None; m_header_buffer_pos := 0;
  m_body := Some (BStartup BodyStartup_default); m_body_buffer := Null;
  m_body_buffer_pos := None; m_body_ready := false; m_body_error := None
|}.

Definition startup_cells : block :=
  Some <$> wire_string_map (startup_options BodyStartup_default).

Theorem message_prepare_spec_witness :
  exists blk,
    @Message_prepare exact_allocator startup_message Null 0 [] =
      Ok ((true, set_m_length 22 startup_message, Heap 0 0, 30), [Some blk]) /\
    take 30 blk = (Some <$> wire_header 2 0 0 1 22) ++ startup_cells ++ [].
Proof.
  exact (@message_prepare_spec exact_allocator startup_message
    (BStartup BodyStartup_default) [] startup_cells Null 0 eq_refl eq_refl eq_refl).
Defined.

Theorem message_prepare_empty_body_witness :
  (b ← Message_init CQL_OPCODE_OPTIONS; @Message_prepare exact_allocator b Null 0) [] =
    Fault OutOfBounds.
Proof.
  exact (@message_prepare_empty_body exact_allocator
    {| m_version := 0x02; m_flags := 0; m_stream := 0; m_opcode := 5;
       m_length := 0; m_received := 0; m_header_received := false;
       m_header_buffer := replicate 8 None; m_header_buffer_pos := 0;
       m_body := Some (BOptions mkBodyOptions); m_body_buffer := Null;
       m_body_buffer_pos := None; m_body_ready := false; m_body_error := None |}
    [] Null 0 (or_introl eq_refl)).
Defined.

(** An error frame in two chunks: five header bytes; the rest of the header, the
    body, and two bytes of the next frame. *)
Definition error_payload : list Z := be 4 (-1) ++ wire_string (bytes_of_string "foobar").
Definition error_header : list Z := wire_header 0x81 1 127 0 12.
Definition error_heap : heap :=
  [Some (Some <$> take 5 error_header);
   Some ((Some <$> drop 5 error_header) ++ (Some <$> error_payload) ++ [Some 7; None])].

Definition error_rest : block := [Some 7; None].

Theorem message_consume_spec_witness :
  exists h m,
    @feed exact_allocator Message_default
      ([(Heap 0 0, 5)] ++
       [(Heap 1 0, zlen (drop 5 error_header) +
           (zlen ((Some <$> error_payload) : block) + zlen error_rest))])
      error_heap = Ok (([5; 15], m), h) /\
    m_version m = 0x81 /\ m_flags m = 1 /\ m_stream m = 127 /\ m_opcode m = 0 /\
    m_length m = 12 /\ m_body_ready m = true /\
    m_body m = Some (BError {| err_guard := Null; err_code := -1;
                               err_message := Heap 2 6; err_message_size := 6 |}).
Proof.
  assert (Forall2 (chunk_at error_heap) [(Heap 0 0, 5)] [take 5 error_header]) as Hc
    by (constructor; [split; vm_compute; reflexivity|constructor]).
  assert (cells_at error_heap (Heap 1 0)
    ((Some <$> drop 5 error_header) ++ (Some <$> error_payload) ++ error_rest)) as Hp
    by (vm_compute; reflexivity).
  assert (concat [take 5 error_header] ++ drop 5 error_header =
    wire_header 0x81 1 127 0 (zlen ((Some <$> error_payload) : block))) as Hh
    by (vm_compute; reflexivity).
  rewrite (@message_consume_spec exact_allocator error_heap _ _ (Heap 1 0)
    (drop 5 error_header) (Some <$> error_payload) error_rest 0x81 1 127 0
    (BError BodyError_default) Hc eq_refl Hh Hp eq_refl eq_refl).
  eexists _, _. split; [vm_compute; reflexivity|]. vm_compute. split_and!; reflexivity.
Defined.

Definition error_part1 : block := Some <$> take 4 error_payload.
Definition error_part2 : block := Some <$> drop 4 error_payload.
Definition split_heap : heap :=
  [Some ((Some <$> error_header) ++ error_part1); Some error_part2].

Theorem message_split_body_witness :
  @feed exact_allocator (partial [])
    [(Heap 0 0, zlen error_header + zlen error_part1); (Heap 1 0, zlen error_part2)]
    split_heap = Fault OutOfBounds.
Proof.
  assert (cells_at split_heap (Heap 0 0) ((Some <$> error_header) ++ error_part1)) as H1
    by (vm_compute; reflexivity).
  assert (cells_at split_heap (Heap 1 0) error_part2) as H2 by (vm_compute; reflexivity).
  assert ([] ++ error_header = wire_header 0x81 1 127 0 (zlen (error_part1 ++ error_part2)))
    as Hh by (vm_compute; reflexivity).
  rewrite (@message_split_body exact_allocator split_heap (Heap 0 0) (Heap 1 0) []
    error_header error_part1 error_part2 0x81 1 127 0 (BError BodyError_default)
    Hh ltac:(done) ltac:(done) H1 H2 eq_refl eq_refl).
  vm_compute. reflexivity.
Defined.

Theorem message_roundtrip_witness :
  exists m' blk m2 h2,
    @Message_prepare exact_allocator startup_message Null 0 [] =
      Ok ((true, m', Heap 0 0, 30), [Some blk]) /\
    @feed exact_allocator Message_default [(Heap 0 0, 30)] [Some blk] =
      Ok (([30], m2), h2) /\
    m_body m2 = Some (BStartup BodyStartup_default).
Proof.
  destruct (@message_roundtrip exact_allocator startup_message
    (BStartup BodyStartup_default) (BStartup BodyStartup_default) [] startup_cells Null 0
    [Some ((Some <$> wire_header 2 0 0 1 22) ++ startup_cells)] 0
    eq_refl eq_refl) as (m' & blk & P & _ & F).
  - vm_compute. split_and!; intros; discriminate || reflexivity.
  - reflexivity.
  - reflexivity.
  - exists m', blk. eexists _, _.
    assert (blk = (Some <$> wire_header 2 0 0 1 22) ++ startup_cells) as ->.
    { vm_compute in P. injection P as <- <-. reflexivity. }
    split; [exact P|]. split.
    + etransitivity; [exact (F eq_refl)|]. vm_compute. reflexivity.
    + reflexivity.
Defined.

Theorem consume_bad_header_witness :
  @Message_consume exact_allocator (partial []) (Heap 0 0) 8
    [Some (Some <$> wire_header 0x82 0 0 8 (-1))] = Fault BadArrayLength /\
  @Message_consume exact_allocator (partial []) (Heap 0 0) 8
    [Some (Some <$> wire_header 0x82 0 0 12 0)] = Fault AssertFailed.
Proof.
  split.
  - apply (@consume_bad_header exact_allocator
      [Some (Some <$> wire_header 0x82 0 0 8 (-1))] (Heap 0 0) []
      (wire_header 0x82 0 0 8 (-1)) 0x82 0 0 8 (-1) 0); try done.
  - apply (@consume_bad_header exact_allocator
      [Some (Some <$> wire_header 0x82 0 0 12 0)] (Heap 0 0) []
      (wire_header 0x82 0 0 12 0) 0x82 0 0 12 0 0); try done.
    vm_compute. intros Hin. repeat (apply elem_of_cons in Hin as [Hin|Hin]; [done|]).
    by apply elem_of_nil in Hin.
Defined.
