(* ===== verification/StreamStorage.v ===== *)
(** * cql_stream_storage.hpp

    The table of the streams of a connection: a stack of the free ids, a flag
    and a value per id.  The arrays have [Max] elements, so their last index is
    [Max - 1], but the ids are 1 to [Max]: the theorems say what holds as long
    as the id [Max], which is at the bottom of the stack, is not taken. *)

From S2P Require Import Prelude Memory StdMap Common.

(** ** Arrays

    An access to a C++ array, checked. *)
Definition array_get {S A} (a : list A) (i : Z) : prog S A :=
  if decide (i < 0) then fail OutOfBounds
  else match a !! Z.to_nat i with Some x => mret x | None => fail OutOfBounds end.

Definition array_set {S A} (a : list A) (i : Z) (x : A) : prog S (list A) :=
  if decide (0 <= i < zlen a) then mret (<[Z.to_nat i := x]> a) else fail OutOfBounds.

Lemma array_get_run {S A} (a : list A) i x (s : S) :
  0 <= i -> a !! Z.to_nat i = Some x -> array_get a i s = Ok (x, s).
Proof. intros Hi Hx. unfold array_get. rewrite decide_False by lia. by rewrite Hx. Qed.

Lemma array_set_run {S A} (a : list A) i x (s : S) :
  0 <= i < zlen a -> array_set a i x s = Ok (<[Z.to_nat i := x]> a, s).
Proof. intros Hi. unfold array_set. by rewrite decide_True. Qed.

Lemma array_oob {S A} (a : list A) i x (s : S) :
  ~ 0 <= i < zlen a ->
  array_get a i s = Fault OutOfBounds /\ array_set a i x s = Fault OutOfBounds.
Proof.
  intros Hi. unfold array_get, array_set. rewrite (decide_False (P := 0 <= i < zlen a)) by done.
  split; [|done]. case_decide; [done|]. rewrite lookup_ge_None_2; [done|lia].
Qed.

(** ** The storage *)

(** [storage_] holds indeterminate values ([None]) at first. *)
Record StreamStorage (T : Type) := {
  available_streams_index_ : Z;
  available_streams_       : list Z;
  allocated_streams_       : list bool;
  storage_                 : list (option T)
}.
Arguments Build_StreamStorage {T} _ _ _ _.
Arguments available_streams_index_ {T} _.
Arguments available_streams_ {T} _.
Arguments allocated_streams_ {T} _.
Arguments storage_ {T} _.

Definition error_no_streams : Error := {|
  e_source := CQL_ERROR_SOURCE_LIBRARY; e_code := CQL_ERROR_LIB_NO_STREAMS;
  e_message := bytes_of_string "no available streams";
  e_file := "cql_stream_storage.hpp"; e_line := 45
|}.
Definition error_released : Error := {|
  e_source := CQL_ERROR_SOURCE_LIBRARY; e_code := CQL_ERROR_LIB_NO_STREAMS;
  e_message := bytes_of_string "this stream has already been released";
  e_file := "cql_stream_storage.hpp"; e_line := 71
|}.

Section storage.
Context {T : Type}.
(** The template parameter [Max], and the conversion to [IdType]. *)
Variable Max : nat.
Variable to_id : Z -> Z.

Abbreviation storage := (StreamStorage T).

Definition StreamStorage_init : storage := {|
  available_streams_index_ := 0;
  available_streams_ := (fun i => to_id (Z.of_nat i)) <$> seq 1 Max;
  allocated_streams_ := replicate Max false;
  storage_ := replicate Max None
|}.

(** [set_stream] returns the error and the new value of [output]. *)
Definition set_stream (input : T) (output : Z) : prog storage (option Error * Z) :=
  s ← get;
  if decide (Z.of_nat Max <= available_streams_index_ s)
  then mret (Some error_no_streams, output)
  else
    let index := available_streams_index_ s in
    output ← array_get (available_streams_ s) index;
    new_storage ← array_set (storage_ s) output (Some input);
    new_allocated ← array_set (allocated_streams_ s) output true;
    put {| available_streams_index_ := u64 (index + 1);
           available_streams_ := available_streams_ s;
           allocated_streams_ := new_allocated;
           storage_ := new_storage |} ;;
    mret (None, output).

(** [get_stream] returns the error and the value of [output]. *)
Definition get_stream (input : Z) (releaseStream : bool)
    : prog storage (option Error * option T) :=
  s ← get;
  output ← array_get (storage_ s) input;
  if releaseStream then
    allocated ← array_get (allocated_streams_ s) input;
    if (allocated : bool) then
      let index := u64 (available_streams_index_ s - 1) in
      available ← array_set (available_streams_ s) index input;
      new_allocated ← array_set (allocated_streams_ s) input false;
      put {| available_streams_index_ := index;
             available_streams_ := available;
             allocated_streams_ := new_allocated;
             storage_ := storage_ s |} ;;
      mret (None, output)
    else mret (Some error_released, output)
  else mret (None, output).

Definition available_streams (s : storage) : Z :=
  u64 (Z.of_nat Max - available_streams_index_ s).

(** ** The invariant *)

(** The ids that are not allocated. *)
Definition free_id (s : storage) (i : Z) : Prop :=
  allocated_streams_ s !! Z.to_nat i <> Some true.

#[export] Instance free_id_dec s i : Decision (free_id s i) := _.

Definition all_ids : list Z := Z.of_nat <$> seq 1 Max.

(** The part of the stack above the index holds each free id once, the id
    [Max] at the bottom; an allocated id has a value. *)
Record storage_inv (s : storage) : Prop := {
  inv_index  : 0 <= available_streams_index_ s < Z.of_nat Max;
  inv_stack  : length (available_streams_ s) = Max;
  inv_flags  : length (allocated_streams_ s) = Max;
  inv_values : length (storage_ s) = Max;
  inv_bottom : available_streams_ s !! (Max - 1)%nat = Some (Z.of_nat Max);
  inv_free   : drop (Z.to_nat (available_streams_index_ s)) (available_streams_ s)
                 ≡ₚ filter (free_id s) all_ids;
  inv_zero   : allocated_streams_ s !! 0%nat <> Some true;
  inv_set    : forall i, allocated_streams_ s !! i = Some true ->
                 exists x, storage_ s !! i = Some (Some x)
}.

(** The state [set_stream] leaves when it hands out [id]. *)
Definition stream_taken (s : storage) (id : Z) (input : T) : storage := {|
  available_streams_index_ := available_streams_index_ s + 1;
  available_streams_ := available_streams_ s;
  allocated_streams_ := <[Z.to_nat id := true]> (allocated_streams_ s);
  storage_ := <[Z.to_nat id := Some input]> (storage_ s)
|}.

(** The state [get_stream] leaves when it releases [id]. *)
Definition stream_released (s : storage) (id : Z) : storage := {|
  available_streams_index_ := available_streams_index_ s - 1;
  available_streams_ :=
    <[Z.to_nat (available_streams_index_ s - 1) := id]> (available_streams_ s);
  allocated_streams_ := <[Z.to_nat id := false]> (allocated_streams_ s);
  storage_ := storage_ s
|}.
End storage.

Section storage_lemmas.
Context {T : Type} (Max : nat).
Context (Hmax : (1 <= Max)%nat) (Hmax64 : Z.of_nat Max < 18446744073709551616).
Implicit Types (s : StreamStorage T).

Lemma all_ids_NoDup : NoDup (all_ids Max).
Proof. apply NoDup_fmap_2; [intros x y; lia|apply NoDup_seq]. Qed.

Lemma elem_of_all_ids i : i ∈ all_ids Max <-> 1 <= i <= Z.of_nat Max.
Proof.
  unfold all_ids. rewrite list_elem_of_fmap. split.
  - intros (n & -> & Hn%elem_of_seq). lia.
  - intros Hi. exists (Z.to_nat i). rewrite elem_of_seq. lia.
Qed.

(** Filtering nothing out, and one more element. *)
Lemma filter_id (P : Z -> Prop) `{!forall x, Decision (P x)} (l : list Z) :
  (forall x, x ∈ l -> P x) -> filter P l = l.
Proof.
  induction l as [|x l IH]; intros Hl; [done|].
  rewrite filter_cons_True by (apply Hl; constructor).
  f_equal. apply IH. intros y Hy. apply Hl. by constructor.
Qed.

Lemma filter_remove (P Q : Z -> Prop) `{!forall x, Decision (P x)}
    `{!forall x, Decision (Q x)} (l : list Z) (x : Z) :
  NoDup l -> x ∈ l -> P x -> (forall y, Q y <-> P y /\ y <> x) ->
  filter P l ≡ₚ x :: filter Q l.
Proof.
  intros Hl Hx HP HQ. apply NoDup_Permutation.
  - by apply NoDup_filter.
  - constructor; [|by apply NoDup_filter].
    rewrite list_elem_of_filter, HQ. tauto.
  - intros y. rewrite elem_of_cons, !list_elem_of_filter, HQ.
    destruct (decide (y = x)) as [->|]; tauto.
Qed.

Lemma storage_inv_init to_id :
  (forall i, 1 <= i <= Z.of_nat Max -> to_id i = i) ->
  storage_inv Max (@StreamStorage_init T Max to_id).
Proof.
  intros Hid.
  assert (((fun i => to_id (Z.of_nat i)) <$> seq 1 Max) = all_ids Max) as Ha.
  { unfold all_ids. apply list_fmap_ext. intros i x Hx.
    apply Hid. apply lookup_seq in Hx. lia. }
  constructor; cbn; rewrite ?Ha, ?length_replicate; try done.
  - lia.
  - unfold all_ids. by rewrite length_fmap, length_seq.
  - unfold all_ids. rewrite list_lookup_fmap, lookup_seq_lt by lia. cbn. f_equal. lia.
  - rewrite filter_id; [done|]. intros i Hi. unfold free_id. cbn.
    by intros [[=] _]%lookup_replicate.
  - by intros [[=] _]%lookup_replicate.
  - by intros i [[=] _]%lookup_replicate.
Qed.

(** The top of the stack is a free id; it is [Max] only for the last one. *)
Lemma stack_top s :
  storage_inv Max s ->
  exists id, available_streams_ s !! Z.to_nat (available_streams_index_ s) = Some id /\
    free_id s id /\ 1 <= id <= Z.of_nat Max /\
    (id = Z.of_nat Max <-> available_streams_index_ s = Z.of_nat Max - 1).
Proof.
  intros [Hi Hst Hfl Hva Hbo Hfr Hze Hse].
  destruct (lookup_lt_is_Some_2 (available_streams_ s)
    (Z.to_nat (available_streams_index_ s))) as [id Hid']; [lia|].
  exists id. split; [done|].
  assert (id ∈ filter (free_id s) (all_ids Max)) as Hin.
  { rewrite <- Hfr, (drop_S _ _ _ Hid'). by constructor. }
  apply list_elem_of_filter in Hin as [Hf Hin]. apply elem_of_all_ids in Hin.
  split_and!; [done|lia..|]. split.
  - intros ->.
    assert (NoDup (drop (Z.to_nat (available_streams_index_ s)) (available_streams_ s))) as Hnd.
    { rewrite Hfr. apply NoDup_filter, all_ids_NoDup. }
    assert (0%nat = (Max - 1 - Z.to_nat (available_streams_index_ s))%nat) as E; [|lia].
    apply (NoDup_lookup _ _ _ (Z.of_nat Max) Hnd); rewrite lookup_drop.
    + rewrite Nat.add_0_r. exact Hid'.
    + rewrite <- Hbo. f_equal. lia.
  - intros E. rewrite E in Hid'.
    replace (Z.to_nat (Z.of_nat Max - 1)) with (Max - 1)%nat in Hid' by lia. congruence.
Qed.

Lemma stream_taken_inv s id input :
  storage_inv Max s -> available_streams_index_ s < Z.of_nat Max - 1 ->
  available_streams_ s !! Z.to_nat (available_streams_index_ s) = Some id ->
  free_id s id -> 1 <= id < Z.of_nat Max ->
  storage_inv Max (stream_taken s id input).
Proof.
  intros [Hi Hst Hfl Hva Hbo Hfr Hze Hse] Hlt Htop Hfree Hid'.
  constructor; cbn; rewrite ?length_insert; try done.
  - lia.
  - apply (Permutation_cons_inv (a := id)).
    replace (Z.to_nat (available_streams_index_ s + 1))
      with (S (Z.to_nat (available_streams_index_ s))) by lia.
    rewrite <- (drop_S _ _ _ Htop), Hfr.
    apply filter_remove; [apply all_ids_NoDup|by apply elem_of_all_ids; lia|done|].
    intros y. unfold free_id. cbn.
    destruct (decide (y = id)) as [->|Hne].
    + rewrite list_lookup_insert_eq by lia. naive_solver.
    + rewrite list_lookup_insert_ne by lia. tauto.
  - rewrite list_lookup_insert_ne by lia. done.
  - intros i. destruct (decide (i = Z.to_nat id)) as [->|Hne].
    + intros _. exists input. apply list_lookup_insert_eq. lia.
    + rewrite !list_lookup_insert_ne by done. apply Hse.
Qed.

(** The number of allocated ids is the index. *)
Lemma filter_length_lt (P : Z -> Prop) `{!forall x, Decision (P x)} (l : list Z) (x : Z) :
  x ∈ l -> ~ P x -> (length (filter P l) < length l)%nat.
Proof.
  intros Hx HP. induction l as [|y l IH]; [by apply elem_of_nil in Hx|].
  apply elem_of_cons in Hx as [->|Hx].
  - rewrite filter_cons_False by done. cbn. pose proof (length_filter P l). lia.
  - rewrite filter_cons. case_decide; cbn; specialize (IH Hx); lia.
Qed.

Lemma allocated_index s id :
  storage_inv Max s -> allocated_streams_ s !! Z.to_nat id = Some true ->
  1 <= id -> 1 <= id < Z.of_nat Max /\ 0 < available_streams_index_ s.
Proof.
  intros [Hi Hst Hfl Hva Hbo Hfr Hze Hse] Ha H1.
  assert (1 <= id < Z.of_nat Max) as Hb by (apply lookup_lt_Some in Ha; lia).
  split; [done|].
  apply Permutation_length in Hfr. rewrite length_drop in Hfr.
  assert (length (filter (free_id s) (all_ids Max)) < length (all_ids Max))%nat as Hl.
  { apply (filter_length_lt _ _ id); [apply elem_of_all_ids; lia|]. unfold free_id. tauto. }
  unfold all_ids at 2 in Hl. rewrite length_fmap, length_seq in Hl. lia.
Qed.

Lemma stream_released_inv s id :
  storage_inv Max s -> allocated_streams_ s !! Z.to_nat id = Some true -> 1 <= id ->
  storage_inv Max (stream_released s id).
Proof.
  intros Hinv Ha H1. destruct (allocated_index s id Hinv Ha H1) as [Hb Hpos].
  destruct Hinv as [Hi Hst Hfl Hva Hbo Hfr Hze Hse].
  constructor; cbn; rewrite ?length_insert; try done.
  - lia.
  - rewrite list_lookup_insert_ne by lia. done.
  - assert (<[Z.to_nat (available_streams_index_ s - 1):=id]> (available_streams_ s)
      !! Z.to_nat (available_streams_index_ s - 1) = Some id) as Htop
      by (apply list_lookup_insert_eq; lia).
    rewrite (drop_S _ _ _ Htop), drop_insert_lt by lia.
    replace (S (Z.to_nat (available_streams_index_ s - 1)))
      with (Z.to_nat (available_streams_index_ s)) by lia.
    rewrite Hfr. symmetry.
    apply filter_remove; [apply all_ids_NoDup|by apply elem_of_all_ids; lia| |].
    + unfold free_id. cbn. rewrite list_lookup_insert_eq by lia. done.
    + intros y. unfold free_id. cbn. destruct (decide (y = id)) as [->|Hne].
      * rewrite list_lookup_insert_eq by lia. tauto.
      * destruct (decide (y < 0)).
        { replace (Z.to_nat y) with O by lia.
          rewrite list_lookup_insert_ne by lia. tauto. }
        rewrite list_lookup_insert_ne by lia. tauto.
  - rewrite list_lookup_insert_ne by lia. done.
  - intros i. destruct (decide (i = Z.to_nat id)) as [->|Hne].
    + rewrite list_lookup_insert_eq by lia. done.
    + rewrite list_lookup_insert_ne by done. apply Hse.
Qed.

(** [set_stream] and [get_stream] on a state that keeps the invariant. *)
Lemma set_stream_run s input output id :
  storage_inv Max s ->
  available_streams_ s !! Z.to_nat (available_streams_index_ s) = Some id ->
  1 <= id < Z.of_nat Max ->
  set_stream Max input output s = Ok ((None, id), stream_taken s id input).
Proof.
  intros [Hi Hst Hfl Hva Hbo Hfr Hze Hse] Htop Hb. unfold set_stream.
  erewrite bind_run by reflexivity. rewrite decide_False by lia.
  erewrite bind_run by (apply array_get_run; [lia|exact Htop]).
  erewrite bind_run by (apply array_set_run; lia).
  erewrite bind_run by (apply array_set_run; lia).
  rewrite u64_small by lia. reflexivity.
Qed.

Lemma get_stream_run s id release :
  storage_inv Max s -> 0 <= id < Z.of_nat Max ->
  get_stream id release s =
    let value := default None (storage_ s !! Z.to_nat id) in
    if release then
      if decide (allocated_streams_ s !! Z.to_nat id = Some true)
      then Ok ((None, value), stream_released s id)
      else Ok ((Some error_released, value), s)
    else Ok ((None, value), s).
Proof.
  intros Hinv Hb. pose proof Hinv as [Hi Hst Hfl Hva Hbo Hfr Hze Hse]. unfold get_stream.
  erewrite bind_run by reflexivity.
  destruct (lookup_lt_is_Some_2 (storage_ s) (Z.to_nat id)) as [v Hv]; [lia|].
  erewrite bind_run by (apply array_get_run; [lia|exact Hv]). rewrite Hv. cbn [default].
  destruct release; [|done].
  destruct (lookup_lt_is_Some_2 (allocated_streams_ s) (Z.to_nat id)) as [b Hb']; [lia|].
  erewrite bind_run by (apply array_get_run; [lia|exact Hb']). rewrite Hb'.
  destruct b; [|done]. rewrite decide_True by done.
  assert (1 <= id) as H1 by (destruct (decide (id = 0)) as [->|]; [done|lia]).
  destruct (allocated_index s id Hinv Hb' H1) as [_ Hpos].
  rewrite u64_small by lia.
  erewrite bind_run by (apply array_set_run; lia).
  by erewrite bind_run by (apply array_set_run; lia).
Qed.

Lemma get_stream_oob s id release :
  storage_inv Max s -> ~ 0 <= id < Z.of_nat Max ->
  get_stream id release s = Fault OutOfBounds.
Proof.
  intros [Hi Hst Hfl Hva Hbo Hfr Hze Hse] Hb. unfold get_stream.
  erewrite bind_run by reflexivity. apply bind_fault.
  apply (array_oob _ _ None). lia.
Qed.

Lemma set_stream_last s input output :
  storage_inv Max s -> available_streams_index_ s = Z.of_nat Max - 1 ->
  set_stream Max input output s = Fault OutOfBounds.
Proof.
  intros Hinv Hlast. destruct (stack_top s Hinv) as (id & Htop & _ & _ & [_ E]).
  specialize (E Hlast) as ->. destruct Hinv as [Hi Hst Hfl Hva Hbo Hfr Hze Hse].
  unfold set_stream. erewrite bind_run by reflexivity. rewrite decide_False by lia.
  erewrite bind_run by (apply array_get_run; [lia|exact Htop]).
  apply bind_fault. apply array_oob. lia.
Qed.
End storage_lemmas.

(** ** Sequences of operations *)

Inductive stream_op (T : Type) : Type :=
  | OSet (input : T)
  | OGet (input : Z) (releaseStream : bool).
Arguments OSet {T} _.
Arguments OGet {T} _ _.

Inductive stream_result (T : Type) : Type :=
  | RSet (err : option Error) (output : Z)
  | RGet (err : option Error) (output : option T).
Arguments RSet {T} _ _.
Arguments RGet {T} _ _.

Section operations.
Context {T : Type} (Max : nat).

(** [output] is 0 before a call of [set_stream]. *)
Definition run_op (op : stream_op T) : prog (StreamStorage T) (stream_result T) :=
  match op with
  | OSet x => '(e, id) ← set_stream Max x 0; mret (RSet e id)
  | OGet i r => '(e, v) ← get_stream i r; mret (RGet e v)
  end.

Fixpoint run_ops (ops : list (stream_op T))
    : prog (StreamStorage T) (list (stream_result T)) :=
  match ops with
  | [] => mret []
  | op :: ops => r ← run_op op; rs ← run_ops ops; mret (r :: rs)
  end.

(** The operations that stay inside the arrays. *)
Definition op_in_bounds (s : StreamStorage T) (op : stream_op T) : Prop :=
  match op with
  | OSet _ => available_streams_index_ s < Z.of_nat Max - 1
  | OGet i _ => 0 <= i < Z.of_nat Max
  end.
End operations.

Section operation_lemmas.
Context {T : Type} (Max : nat).
Context (Hmax : (1 <= Max)%nat) (Hmax64 : Z.of_nat Max < 18446744073709551616).
Implicit Types (s : StreamStorage T).

(** One operation: out of bounds, or it keeps the invariant. *)
Lemma run_op_cases s op :
  storage_inv Max s ->
  (~ op_in_bounds Max s op /\ run_op Max op s = Fault OutOfBounds) \/
  (op_in_bounds Max s op /\ exists r s', run_op Max op s = Ok (r, s') /\ storage_inv Max s').
Proof.
  intros Hinv. pose proof (inv_index _ _ Hinv) as Hi. destruct op as [x|i rel]; cbn.
  - destruct (decide (available_streams_index_ s = Z.of_nat Max - 1)) as [E|E].
    + left. split; [lia|]. apply bind_fault. by apply set_stream_last.
    + right. split; [lia|].
      destruct (stack_top Max Hmax s Hinv) as (id & Htop & Hf & Hb & Hl).
      assert (1 <= id < Z.of_nat Max) as Hb' by lia.
      do 2 eexists. split.
      * erewrite bind_run by by apply set_stream_run. reflexivity.
      * apply stream_taken_inv; done || lia.
  - destruct (decide (0 <= i < Z.of_nat Max)) as [Hb|Hb].
    + right. split; [done|].
      pose proof (get_stream_run Max Hmax Hmax64 s i rel Hinv Hb) as Hrun. cbv zeta in Hrun.
      unfold mbind, prog_bind. rewrite Hrun. destruct rel; [case_decide as Ha|].
      * do 2 eexists. split; [reflexivity|]. apply stream_released_inv; [done..|].
        destruct (decide (i = 0)) as [->|]; [|lia]. by destruct (inv_zero _ _ Hinv).
      * do 2 eexists. by split.
      * do 2 eexists. by split.
    + left. split; [done|]. apply bind_fault. by apply get_stream_oob with (Max := Max).
Qed.

Lemma run_ops_inv s ops rs s' :
  storage_inv Max s -> run_ops Max ops s = Ok (rs, s') -> storage_inv Max s'.
Proof.
  intros Hinv. revert s rs Hinv. induction ops as [|op ops IH]; intros s rs Hinv Hrun; cbn in Hrun.
  { by inv_prog. }
  apply bind_inv in Hrun as (r & s1 & H1 & Hrun).
  apply bind_inv in Hrun as (rs2 & s2 & H2 & Hrun). inv_prog.
  destruct (run_op_cases s op Hinv) as [[_ Hf]|(_ & r' & s'' & Hok & Hinv')]; [congruence|].
  rewrite H1 in Hok. simplify_eq. by eapply IH.
Qed.

(** A stream with a value that is not released keeps it. *)
Lemma run_op_keeps s op r s' id x :
  storage_inv Max s -> 1 <= id < Z.of_nat Max ->
  allocated_streams_ s !! Z.to_nat id = Some true ->
  storage_ s !! Z.to_nat id = Some (Some x) ->
  op <> OGet id true -> run_op Max op s = Ok (r, s') ->
  allocated_streams_ s' !! Z.to_nat id = Some true /\
  storage_ s' !! Z.to_nat id = Some (Some x).
Proof.
  intros Hinv Hid Ha Hx Hop Hrun. destruct op as [y|i rel]; cbn in Hrun.
  - destruct (stack_top Max Hmax s Hinv) as (j & Htop & Hf & Hb & Hl).
    destruct (decide (available_streams_index_ s = Z.of_nat Max - 1)) as [E|E].
    { unfold mbind, prog_bind in Hrun. by rewrite set_stream_last in Hrun. }
    assert (1 <= j < Z.of_nat Max) as Hb' by lia.
    erewrite bind_run in Hrun by by apply set_stream_run.
    unfold mret, prog_ret in Hrun. simplify_eq. cbn.
    assert (j <> id) by (intros ->; by apply Hf).
    by rewrite !list_lookup_insert_ne by lia.
  - destruct (decide (0 <= i < Z.of_nat Max)) as [Hb|Hb].
    + pose proof (get_stream_run Max Hmax Hmax64 s i rel Hinv Hb) as Hg. cbv zeta in Hg.
      unfold mbind, prog_bind in Hrun. rewrite Hg in Hrun.
      destruct rel; [case_decide as Hal|]; unfold mret, prog_ret in Hrun; simplify_eq; [|done..].
      assert (i <> id) by congruence. cbn. by rewrite list_lookup_insert_ne by lia.
    + unfold mbind, prog_bind in Hrun. by rewrite (get_stream_oob Max) in Hrun.
Qed.

Lemma run_ops_keeps s ops rs s' id x :
  storage_inv Max s -> 1 <= id < Z.of_nat Max ->
  allocated_streams_ s !! Z.to_nat id = Some true ->
  storage_ s !! Z.to_nat id = Some (Some x) ->
  OGet id true ∉ ops -> run_ops Max ops s = Ok (rs, s') ->
  allocated_streams_ s' !! Z.to_nat id = Some true /\
  storage_ s' !! Z.to_nat id = Some (Some x).
Proof.
  intros Hinv Hid. revert s rs Hinv. induction ops as [|op ops IH];
    intros s rs Hinv Ha Hx Hops Hrun; cbn in Hrun.
  { by inv_prog. }
  apply not_elem_of_cons in Hops as [Hop Hops].
  apply bind_inv in Hrun as (r & s1 & H1 & Hrun).
  apply bind_inv in Hrun as (rs2 & s2 & H2 & Hrun). inv_prog.
  destruct (run_op_keeps s op r s1 id x) as [Ha1 Hx1]; [done..|congruence|done|].
  eapply IH; [|done..].
  destruct (run_op_cases s op Hinv) as [[_ Hf]|(_ & r' & s'' & Hok & Hinv')]; congruence.
Qed.

(** Allocations only, from the fresh stack. *)
Lemma run_sets s xs :
  storage_inv Max s -> available_streams_ s = all_ids Max ->
  available_streams_index_ s + zlen xs <= Z.of_nat Max - 1 ->
  exists s', run_ops Max (OSet <$> xs) s =
      Ok ((fun i => RSet None (available_streams_index_ s + Z.of_nat i)) <$> seq 1 (length xs), s') /\
    storage_inv Max s' /\
    available_streams_index_ s' = available_streams_index_ s + zlen xs.
Proof.
  revert s. induction xs as [|x xs IH]; intros s Hinv Hav Hn; cbn [fmap list_fmap run_ops].
  { exists s. cbn. split_and!; [done|done|lia]. }
  pose proof (inv_index _ _ Hinv) as Hi. cbn [length] in Hn.
  assert (available_streams_ s !! Z.to_nat (available_streams_index_ s) =
    Some (available_streams_index_ s + 1)) as Htop.
  { rewrite Hav. unfold all_ids. rewrite list_lookup_fmap, lookup_seq_lt by lia.
    cbn [fmap option_fmap option_map]. f_equal. lia. }
  destruct (stack_top Max Hmax s Hinv) as (id & Htop' & Hf & _).
  rewrite Htop in Htop'. injection Htop' as <-.
  assert (storage_inv Max (stream_taken s (available_streams_index_ s + 1) x)) as Hinv'
    by (apply stream_taken_inv; done || lia).
  destruct (IH _ Hinv') as (s' & Hrun & Hinv2 & Hix); [done|cbn in *; lia|].
  exists s'. split_and!; [|done|cbn in *; lia].
  cbn [run_op]. rewrite bind_assoc.
  erewrite bind_run by (apply set_stream_run; done || lia).
  cbv beta iota. rewrite bind_ret.
  erewrite bind_run by exact Hrun. cbn [available_streams_index_ stream_taken].
  unfold mret, prog_ret. cbn [length seq]. rewrite fmap_cons.
  rewrite <- (fmap_S_seq 1), <- list_fmap_compose. do 3 f_equal.
  apply list_fmap_ext. intros i y _. unfold compose. f_equal. lia.
Qed.
End operation_lemmas.

(** ** Theorems *)

(** C10: the streams of a fresh table keep the invariant under any sequence of
    calls: an operation either indexes past an array, exactly when the id [Max]
    is the only one left or the id of a lookup is not an index, or it leaves the
    free ids on the stack, each once. *)
Theorem stream_storage_invariant {T} Max to_id (ops : list (stream_op T)) rs s op :
  (1 <= Max)%nat -> Z.of_nat Max < 18446744073709551616 ->
  (forall i, 1 <= i <= Z.of_nat Max -> to_id i = i) ->
  run_ops Max ops (StreamStorage_init Max to_id) = Ok (rs, s) ->
  storage_inv Max s /\
  (run_op Max op s = Fault OutOfBounds <-> ~ op_in_bounds Max s op) /\
  (op_in_bounds Max s op -> exists r s', run_op Max op s = Ok (r, s') /\ storage_inv Max s').
Proof.
  intros H1 H2 Hid Hrun.
  assert (storage_inv Max s) as Hinv.
  { eapply run_ops_inv; [done..| |exact Hrun]. by apply storage_inv_init. }
  split; [done|].
  destruct (run_op_cases Max H1 H2 s op Hinv) as [[Hn Hf]|(Hb & r & s' & Hok & Hi)].
  - by split.
  - split; [|eauto]. rewrite Hok. split; [done|]. by intros [].
Qed.

(** [set_stream] hands out an id that was free, in the range 1 to [Max - 1],
    stores the value under it, and takes one stream from the available ones. *)
Theorem set_stream_spec {T} Max (s : StreamStorage T) input output :
  (1 <= Max)%nat -> Z.of_nat Max < 18446744073709551616 ->
  storage_inv Max s -> available_streams_index_ s < Z.of_nat Max - 1 ->
  exists id s', set_stream Max input output s = Ok ((None, id), s') /\
    1 <= id < Z.of_nat Max /\ free_id s id /\ ~ free_id s' id /\
    get_stream id false s' = Ok ((None, Some input), s') /\
    available_streams Max s' = available_streams Max s - 1.
Proof.
  intros H1 H2 Hinv Hlt. pose proof (inv_index _ _ Hinv) as Hi.
  destruct (stack_top Max H1 s Hinv) as (id & Htop & Hf & Hb & Hl).
  assert (1 <= id < Z.of_nat Max) as Hb' by lia.
  assert (storage_inv Max (stream_taken s id input)) as Hinv' by by apply stream_taken_inv.
  exists id, (stream_taken s id input). split_and!; [by apply set_stream_run|lia..|done| | |].
  - unfold free_id. cbn. rewrite list_lookup_insert_eq; [by intros Hn; apply Hn|].
    pose proof (inv_flags _ _ Hinv). lia.
  - rewrite (get_stream_run Max) by (done || lia). cbn.
    rewrite list_lookup_insert_eq; [done|]. pose proof (inv_values _ _ Hinv). lia.
  - unfold available_streams. cbn. int_solve.
Qed.

(** [get_stream] on every branch: the value of the id; a release of an
    allocated id makes it free again and available, of any other an error that
    changes nothing; without a release nothing changes; an id that is no index
    is out of bounds. *)
Theorem get_stream_spec {T} Max (s : StreamStorage T) id (release : bool) :
  (1 <= Max)%nat -> Z.of_nat Max < 18446744073709551616 -> storage_inv Max s ->
  let value := default None (storage_ s !! Z.to_nat id) in
  if decide (0 <= id < Z.of_nat Max) then
    if release then
      if decide (free_id s id)
      then get_stream id true s = Ok ((Some error_released, value), s)
      else exists s' : StreamStorage T, get_stream id true s = Ok ((None, value), s') /\
        (exists x : T, value = Some x) /\ free_id s' id /\
        available_streams Max s' = available_streams Max s + 1 /\ storage_inv Max s'
    else get_stream id false s = Ok ((None, value), s)
  else get_stream id release s = Fault OutOfBounds.
Proof.
  intros H1 H2 Hinv value. case_decide as Hb; [|by apply (get_stream_oob Max)].
  pose proof (get_stream_run Max H1 H2 s id release Hinv Hb) as Hrun. cbv zeta in Hrun.
  destruct release; [|done]. destruct (decide (free_id s id)) as [Hf|Hf].
  - by rewrite decide_False in Hrun.
  - unfold free_id in Hf. apply dec_stable in Hf. rewrite decide_True in Hrun by done.
    assert (1 <= id) as Hid.
    { destruct (decide (id = 0)) as [->|]; [by destruct (inv_zero _ _ Hinv)|lia]. }
    destruct (allocated_index Max H1 s id Hinv Hf Hid) as [_ Hpos].
    pose proof (inv_index _ _ Hinv). pose proof (inv_flags _ _ Hinv).
    eexists. split_and!; [exact Hrun| | | |by apply stream_released_inv].
    + destruct (inv_set _ _ Hinv _ Hf) as [x Hx]. exists x. subst value. by rewrite Hx.
    + unfold free_id. cbn. by rewrite list_lookup_insert_eq by lia.
    + unfold available_streams. cbn. int_solve.
Qed.

(** C22: a stream keeps its value: whatever is allocated, looked up and released
    after [set_stream] gave out [id], as long as nobody releases [id], the
    lookup that releases it finds the value that was stored. *)
Theorem stream_roundtrip {T} Max (s s1 s2 : StreamStorage T) input output id ops rs :
  (1 <= Max)%nat -> Z.of_nat Max < 18446744073709551616 -> storage_inv Max s ->
  set_stream Max input output s = Ok ((None, id), s1) ->
  OGet id true ∉ ops -> run_ops Max ops s1 = Ok (rs, s2) ->
  exists s3, get_stream id true s2 = Ok ((None, Some input), s3) /\ free_id s3 id.
Proof.
  intros H1 H2 Hinv Hset Hops Hrun.
  destruct (stack_top Max H1 s Hinv) as (j & Htop & Hf & Hb & Hl).
  pose proof (inv_index _ _ Hinv) as Hi.
  destruct (decide (available_streams_index_ s = Z.of_nat Max - 1)) as [E|E].
  { by rewrite (set_stream_last Max) in Hset. }
  assert (1 <= j < Z.of_nat Max) as Hb' by lia.
  rewrite (set_stream_run Max H1 H2 s input output j Hinv Htop Hb') in Hset. simplify_eq.
  assert (storage_inv Max (stream_taken s id input)) as Hinv1
    by (apply stream_taken_inv; done || lia).
  pose proof (inv_flags _ _ Hinv). pose proof (inv_values _ _ Hinv).
  destruct (run_ops_keeps Max H1 H2 _ ops rs s2 id input Hinv1 Hb') as [Ha Hx];
    [cbn; apply list_lookup_insert_eq; lia..|done|done|].
  pose proof (run_ops_inv Max H1 H2 _ _ _ _ Hinv1 Hrun) as Hinv2.
  exists (stream_released s2 id). split.
  - rewrite (get_stream_run Max) by (done || lia). cbv zeta.
    by rewrite Hx, decide_True.
  - unfold free_id. cbn. pose proof (inv_flags _ _ Hinv2).
    by rewrite list_lookup_insert_eq by lia.
Qed.

(** C23: a fresh table gives out the ids 1 to [Max - 1], one per call; the next
    call takes the id [Max] and writes past the arrays, so the branch for "no
    available streams" is not reached. *)
Theorem streams_exhausted {T} Max to_id (xs : list T) x output :
  (1 <= Max)%nat -> Z.of_nat Max < 18446744073709551616 ->
  (forall i, 1 <= i <= Z.of_nat Max -> to_id i = i) ->
  zlen xs = Z.of_nat Max - 1 ->
  exists s,
    run_ops Max (OSet <$> xs) (StreamStorage_init Max to_id) =
      Ok ((fun i => RSet None (Z.of_nat i)) <$> seq 1 (length xs), s) /\
    available_streams Max s = 1 /\
    set_stream Max x output s = Fault OutOfBounds.
Proof.
  intros H1 H2 Hid Hn.
  destruct (run_sets Max H1 H2 (StreamStorage_init Max to_id) xs) as (s & Hrun & Hinv & Hix).
  - by apply storage_inv_init.
  - unfold all_ids. cbn. apply list_fmap_ext. intros i k Hk. apply Hid.
    apply lookup_seq in Hk. lia.
  - cbn. lia.
  - cbn [available_streams_index_ StreamStorage_init] in *. exists s. split_and!.
    + exact Hrun.
    + unfold available_streams. rewrite Hix. int_solve.
    + apply set_stream_last; [done..|lia].
Qed.

(** ** Witnesses: the table of a connection, with [int8_t] ids and [Max] 127. *)

Lemma int8_ids i : 1 <= i <= Z.of_nat 127 -> i8 i = i.
Proof. intros. apply i8_small. lia. Qed.

Definition sample_ops : list (stream_op Z) := [OSet 10; OSet 20; OGet 1 true; OSet 30].

Definition sample_state : StreamStorage Z :=
  match run_ops 127 sample_ops (StreamStorage_init 127 i8) with
  | Ok (_, s) => s
  | Fault _ => StreamStorage_init 127 i8
  end.

Lemma sample_state_inv : storage_inv 127 sample_state.
Proof.
  eapply (run_ops_inv 127 ltac:(lia) ltac:(lia) (StreamStorage_init 127 i8) sample_ops);
    [apply storage_inv_init; [lia|apply int8_ids]|]. vm_compute. reflexivity.
Qed.

Theorem stream_storage_invariant_witness :
  storage_inv 127 sample_state /\
  (run_op 127 (OGet 127 true) sample_state = Fault OutOfBounds <->
   ~ op_in_bounds 127 sample_state (OGet 127 true)) /\
  (op_in_bounds 127 sample_state (OGet 127 true) -> exists r s',
     run_op 127 (OGet 127 true) sample_state = Ok (r, s') /\ storage_inv 127 s').
Proof.
  apply (stream_storage_invariant 127 i8 sample_ops
    [RSet None 1; RSet None 2; RGet None (Some 10); RSet None 1]);
    [lia|lia|apply int8_ids|]. vm_compute. reflexivity.
Defined.

Theorem set_stream_spec_witness :
  exists id s', set_stream 127 40 0 sample_state = Ok ((None, id), s') /\
    1 <= id < 127 /\ free_id sample_state id /\ ~ free_id s' id /\
    get_stream id false s' = Ok ((None, Some 40), s') /\
    available_streams 127 s' = available_streams 127 sample_state - 1.
Proof.
  apply (set_stream_spec 127 sample_state 40 0); [lia|lia|apply sample_state_inv|].
  vm_compute. reflexivity.
Defined.

Theorem get_stream_spec_witness :
  get_stream 3 true sample_state = Ok ((Some error_released, None), sample_state) /\
  exists s', get_stream 2 true sample_state = Ok ((None, Some 20), s').
Proof.
  split.
  - pose proof (get_stream_spec 127 sample_state 3 true ltac:(lia) ltac:(lia)
      sample_state_inv) as Hg.
    cbv zeta in Hg. rewrite decide_True in Hg by lia.
    rewrite decide_True in Hg by (vm_compute; discriminate).
    rewrite Hg. vm_compute. reflexivity.
  - pose proof (get_stream_spec 127 sample_state 2 true ltac:(lia) ltac:(lia)
      sample_state_inv) as Hg.
    cbv zeta in Hg. rewrite decide_True in Hg by lia.
    rewrite decide_False in Hg
      by (intros Hf; apply Hf; vm_compute; reflexivity).
    destruct Hg as (s' & Hg & _). exists s'. rewrite Hg. vm_compute. reflexivity.
Defined.

Definition later_ops : list (stream_op Z) := [OSet 50; OGet 2 true; OSet 60].
Definition taken_state : StreamStorage Z := stream_taken sample_state 3 40.
Definition later_state : StreamStorage Z :=
  match run_ops 127 later_ops taken_state with Ok (_, s) => s | Fault _ => taken_state end.

Theorem stream_roundtrip_witness :
  exists s4, get_stream 3 true later_state = Ok ((None, Some 40), s4) /\ free_id s4 3.
Proof.
  assert (set_stream 127 40 0 sample_state = Ok ((None, 3), taken_state)) as Hset
    by (vm_compute; reflexivity).
  assert (run_ops 127 later_ops taken_state =
    Ok ([RSet None 4; RGet None (Some 20); RSet None 2], later_state)) as Hrun
    by (vm_compute; reflexivity).
  apply (stream_roundtrip 127 sample_state taken_state later_state 40 0 3 later_ops
    [RSet None 4; RGet None (Some 20); RSet None 2] ltac:(lia) ltac:(lia)
    sample_state_inv Hset); [|exact Hrun].
  intros Hin. repeat (apply elem_of_cons in Hin as [Hin|Hin]; [done|]).
  by apply elem_of_nil in Hin.
Defined.

Theorem streams_exhausted_witness :
  exists s,
    run_ops 127 (OSet <$> seq 1 126) (StreamStorage_init 127 i8) =
      Ok ((fun i => RSet None (Z.of_nat i)) <$> seq 1 126, s) /\
    available_streams 127 s = 1 /\ set_stream 127 127%nat 0 s = Fault OutOfBounds.
Proof.
  apply (streams_exhausted 127 i8 (seq 1 126) 127%nat 0);
    [lia|lia|apply int8_ids|reflexivity].
Defined.
