(* ===== verification/MpmcQueue.v ===== *)
(** * cql_mpmc_queue.hpp

    The bounded queue for many producers and many consumers.  [enqueue] and
    [dequeue] are given twice: as functions, for a single thread, and as the
    steps of a thread among others, one atomic access of the shared state per
    step.  The interleaved queue is shown to refine a bounded first-in-first-out
    queue.  The atomic operations are taken to be sequentially consistent here;
    [MpmcWeak] has the memory orders of the code. *)

From S2P Require Import Prelude Memory StdMap Common.

Record Node (T : Type) := { data : option T; seq_ : Z }.
Arguments Build_Node {T} _ _.
Arguments data {T} _.
Arguments seq_ {T} _.

Record MpmcQueue (T : Type) := {
  size_     : Z;
  mask_     : Z;
  buffer_   : list (Node T);
  head_seq_ : Z;
  tail_seq_ : Z
}.
Arguments Build_MpmcQueue {T} _ _ _ _ _.
Arguments size_ {T} _.
Arguments mask_ {T} _.
Arguments buffer_ {T} _.
Arguments head_seq_ {T} _.
Arguments tail_seq_ {T} _.

Section queue.
Context {T : Type}.
Implicit Types (q : MpmcQueue T).

(** The assertion of the constructor. *)
Definition size_ok (size : Z) : bool :=
  negb (size =? 0) && (Z.land size (u64 (Z.lnot size + 1)) =? size).

(** The constructor, for a [size_t]. *)
Definition MpmcQueue_init (size : Z) : outcome (MpmcQueue T) :=
  if size_ok size then
    Ok {| size_ := size; mask_ := u64 (size - 1);
          buffer_ := (fun i => {| data := None; seq_ := Z.of_nat i |}) <$> seq 0 (Z.to_nat size);
          head_seq_ := 0; tail_seq_ := 0 |}
  else Fault AssertFailed.

(** [&buffer_[s & mask_]], and stores to the node. *)
Definition index_of q (s : Z) : Z := Z.land s (mask_ q).

Definition node_at q (s : Z) : option (Node T) := buffer_ q !! Z.to_nat (index_of q s).

Definition set_node (s : Z) (n : Node T) q : MpmcQueue T := {|
  size_ := size_ q; mask_ := mask_ q;
  buffer_ := <[Z.to_nat (index_of q s) := n]> (buffer_ q);
  head_seq_ := head_seq_ q; tail_seq_ := tail_seq_ q
|}.

Definition set_data (s : Z) (x : option T) q : MpmcQueue T :=
  match node_at q s with
  | Some n => set_node s {| data := x; seq_ := seq_ n |} q
  | None => q
  end.

Definition set_seq (s v : Z) q : MpmcQueue T :=
  match node_at q s with
  | Some n => set_node s {| data := data n; seq_ := v |} q
  | None => q
  end.

Definition set_head (v : Z) q : MpmcQueue T := {|
  size_ := size_ q; mask_ := mask_ q; buffer_ := buffer_ q;
  head_seq_ := v; tail_seq_ := tail_seq_ q
|}.

Definition set_tail (v : Z) q : MpmcQueue T := {|
  size_ := size_ q; mask_ := mask_ q; buffer_ := buffer_ q;
  head_seq_ := head_seq_ q; tail_seq_ := v
|}.

(** [(intptr_t) a - (intptr_t) b]. *)
Definition dif (a b : Z) : Z := i64 (i64 a - i64 b).

(** ** One thread

    The loop of [enqueue] from [head_seq], and of [dequeue] from [tail_seq];
    alone, a compare-exchange succeeds. *)
Fixpoint enqueue_loop (fuel : nat) (x : T) (head_seq : Z) : prog (MpmcQueue T) bool :=
  match fuel with
  | O => fail OutOfFuel
  | S fuel =>
      q ← get;
      match node_at q head_seq with
      | None => fail OutOfBounds
      | Some node =>
          let d := dif (seq_ node) head_seq in
          if decide (d = 0) then
            if decide (head_seq_ q = head_seq) then
              put (set_seq head_seq (u64 (head_seq + 1))
                     (set_data head_seq (Some x) (set_head (u64 (head_seq + 1)) q))) ;;
              mret true
            else enqueue_loop fuel x (head_seq_ q)
          else if decide (d < 0) then mret false
          else enqueue_loop fuel x (head_seq_ q)
      end
  end.

Definition enqueue (fuel : nat) (x : T) : prog (MpmcQueue T) bool :=
  q ← get; enqueue_loop fuel x (head_seq_ q).

Fixpoint dequeue_loop (fuel : nat) (tail_seq : Z) : prog (MpmcQueue T) (option (option T)) :=
  match fuel with
  | O => fail OutOfFuel
  | S fuel =>
      q ← get;
      match node_at q tail_seq with
      | None => fail OutOfBounds
      | Some node =>
          let d := dif (seq_ node) (u64 (tail_seq + 1)) in
          if decide (d = 0) then
            if decide (tail_seq_ q = tail_seq) then
              put (set_seq tail_seq (u64 (tail_seq + mask_ q + 1))
                     (set_tail (u64 (tail_seq + 1)) q)) ;;
              mret (Some (data node))
            else dequeue_loop fuel (tail_seq_ q)
          else if decide (d < 0) then mret None
          else dequeue_loop fuel (tail_seq_ q)
      end
  end.

(** [None] for false, the value of [data] for true. *)
Definition dequeue (fuel : nat) : prog (MpmcQueue T) (option (option T)) :=
  q ← get; dequeue_loop fuel (tail_seq_ q).

(** ** Threads

    Where a thread is in a call of [enqueue x] or [dequeue], with its local
    [head_seq] or [tail_seq]; [Idle] between calls. *)
Inductive pc : Type :=
  | Idle
  | ELoad (x : T)                       (* before the load of head_seq_ *)
  | ESeq (x : T) (head_seq : Z)         (* before the load of the node's seq *)
  | ECas (x : T) (head_seq : Z)         (* before the compare-exchange *)
  | EData (x : T) (head_seq : Z)        (* the slot is claimed *)
  | EPublish (x : T) (head_seq : Z)     (* the data is stored *)
  | DLoad
  | DSeq (tail_seq : Z)
  | DCas (tail_seq : Z)
  | DData (tail_seq : Z)
  | DRelease (x : option T) (tail_seq : Z).

(** What a step shows: a call, the moment a push or a pop takes effect, and the
    return of a call. *)
Inductive label : Type :=
  | LTau
  | LPush (i : nat) (x : T)
  | LPop (i : nat)
  | LPushed (i : nat)
  | LPopped (i : nat) (x : option T)
  | LFull (i : nat)
  | LEmpty (i : nat).

(** One step of a thread [i], alone with the queue. *)
Inductive thread_step (i : nat) : MpmcQueue T -> pc -> label -> MpmcQueue T -> pc -> Prop :=
  | step_call_enqueue q x : thread_step i q Idle LTau q (ELoad x)
  | step_enqueue_load q x : thread_step i q (ELoad x) LTau q (ESeq x (head_seq_ q))
  | step_enqueue_free q x h n :
      node_at q h = Some n -> dif (seq_ n) h = 0 ->
      thread_step i q (ESeq x h) LTau q (ECas x h)
  | step_enqueue_full q x h n :
      node_at q h = Some n -> dif (seq_ n) h < 0 ->
      thread_step i q (ESeq x h) (LFull i) q Idle
  | step_enqueue_reload q x h n :
      node_at q h = Some n -> 0 < dif (seq_ n) h ->
      thread_step i q (ESeq x h) LTau q (ELoad x)
  | step_enqueue_claim q x h :
      head_seq_ q = h ->
      thread_step i q (ECas x h) (LPush i x) (set_head (u64 (h + 1)) q) (EData x h)
  | step_enqueue_retry q x h :   (* lost the race, or a spurious failure *)
      thread_step i q (ECas x h) LTau q (ESeq x (head_seq_ q))
  | step_enqueue_data q x h :
      thread_step i q (EData x h) LTau (set_data h (Some x) q) (EPublish x h)
  | step_enqueue_publish q x h :
      thread_step i q (EPublish x h) (LPushed i) (set_seq h (u64 (h + 1)) q) Idle
  | step_call_dequeue q : thread_step i q Idle LTau q DLoad
  | step_dequeue_load q : thread_step i q DLoad LTau q (DSeq (tail_seq_ q))
  | step_dequeue_ready q t n :
      node_at q t = Some n -> dif (seq_ n) (u64 (t + 1)) = 0 ->
      thread_step i q (DSeq t) LTau q (DCas t)
  | step_dequeue_empty q t n :
      node_at q t = Some n -> dif (seq_ n) (u64 (t + 1)) < 0 ->
      thread_step i q (DSeq t) (LEmpty i) q Idle
  | step_dequeue_reload q t n :
      node_at q t = Some n -> 0 < dif (seq_ n) (u64 (t + 1)) ->
      thread_step i q (DSeq t) LTau q DLoad
  | step_dequeue_claim q t :
      tail_seq_ q = t ->
      thread_step i q (DCas t) (LPop i) (set_tail (u64 (t + 1)) q) (DData t)
  | step_dequeue_retry q t :
      thread_step i q (DCas t) LTau q (DSeq (tail_seq_ q))
  | step_dequeue_data q t n :
      node_at q t = Some n ->
      thread_step i q (DData t) LTau q (DRelease (data n) t)
  | step_dequeue_release q x t :
      thread_step i q (DRelease x t) (LPopped i x)
        (set_seq t (u64 (t + mask_ q + 1)) q) Idle.

(** A queue and the threads that use it. *)
Definition config : Type := MpmcQueue T * list pc.

Inductive step : config -> label -> config -> Prop :=
  | step_thread i q q' ts p p' l :
      ts !! i = Some p -> thread_step i q p l q' p' ->
      step (q, ts) l (q', <[i := p']> ts).

(** Runs, with their labels in order. *)
Inductive run : config -> list label -> config -> Prop :=
  | run_nil c : run c [] c
  | run_snoc c ls c1 l c2 : run c ls c1 -> step c1 l c2 -> run c (ls ++ [l]) c2.
End queue.
Arguments pc : clear implicits.
Arguments label : clear implicits.
Arguments config : clear implicits.

(** ** The specification

    A bounded first-in-first-out queue with a pending call per thread.  A push
    or a pop takes effect at once and returns later; the queue may be reported
    full while a pop is pending, and empty while a push is. *)
Inductive pending (T : Type) : Type :=
  | PNone
  | PPush
  | PPop (x : T).
Arguments PNone {T}.
Arguments PPush {T}.
Arguments PPop {T} x.

Definition spec (T : Type) : Type := list T * list (pending T).

Section specification.
Context {T : Type}.

Inductive spec_step (N : Z) : spec T -> label T -> spec T -> Prop :=
  | spec_tau s : spec_step N s LTau s
  | spec_push xs ps i x :
      zlen xs < N -> ps !! i = Some PNone ->
      spec_step N (xs, ps) (LPush i x) (xs ++ [x], <[i := PPush]> ps)
  | spec_pop x xs ps i :
      ps !! i = Some PNone ->
      spec_step N (x :: xs, ps) (LPop i) (xs, <[i := PPop x]> ps)
  | spec_pushed xs ps i :
      ps !! i = Some PPush ->
      spec_step N (xs, ps) (LPushed i) (xs, <[i := PNone]> ps)
  | spec_popped xs ps i x :
      ps !! i = Some (PPop x) ->
      spec_step N (xs, ps) (LPopped i (Some x)) (xs, <[i := PNone]> ps)
  | spec_full xs ps i :
      zlen xs = N \/ (exists j x, ps !! j = Some (PPop x)) ->
      spec_step N (xs, ps) (LFull i) (xs, ps)
  | spec_empty xs ps i :
      xs = [] \/ (exists j, ps !! j = Some PPush) ->
      spec_step N (xs, ps) (LEmpty i) (xs, ps).

Inductive spec_run (N : Z) : spec T -> list (label T) -> spec T -> Prop :=
  | spec_run_nil s : spec_run N s [] s
  | spec_run_snoc s ls s1 l s2 :
      spec_run N s ls s1 -> spec_step N s1 l s2 -> spec_run N s (ls ++ [l]) s2.

(** The values pushed by a run, in the order of the pushes. *)
Definition pushed_by (l : label T) : list T :=
  match l with LPush _ x => [x] | _ => [] end.
Definition pushes (ls : list (label T)) : list T := concat (pushed_by <$> ls).
End specification.

(** ** The invariant

    [log] holds the values pushed so far: the value of ticket [t] is [log !! t].
    The tickets of the last [size_] pushes each own a slot. *)
Section invariant.
Context {T : Type}.
Implicit Types (q : MpmcQueue T) (log : list T) (ts : list (pc T)).

(** The slot a thread has claimed: for writing ([true]) or for reading. *)
Definition owned (p : pc T) : option (bool * Z) :=
  match p with
  | EData _ t | EPublish _ t => Some (true, t)
  | DData t | DRelease _ t => Some (false, t)
  | _ => None
  end.

Definition owner ts (o : bool * Z) : Prop :=
  exists i p, ts !! i = Some p /\ owned p = Some o.

Definition seq_at q (t v : Z) : Prop := exists n, node_at q t = Some n /\ seq_ n = v.

Record queue_shape q : Prop := {
  shape_size : exists k, 1 <= k <= 61 /\ size_ q = 2 ^ k;
  shape_mask : mask_ q = size_ q - 1;
  shape_len  : zlen (buffer_ q) = size_ q
}.

(** The slot of ticket [t]: claimed by a writer; holding the value, perhaps
    claimed by a reader; or free for the ticket [t + size_]. *)
Definition slot_ok log q ts (t : Z) : Prop :=
  exists n, node_at q t = Some n /\
    ((seq_ n = t /\ tail_seq_ q <= t /\ owner ts (true, t)) \/
     (seq_ n = t + 1 /\ 0 <= t /\ data n = log !! Z.to_nat t /\
      (t < tail_seq_ q -> owner ts (false, t))) \/
     (seq_ n = t + size_ q /\ t < tail_seq_ q)).

Definition in_window q (t : Z) : Prop := head_seq_ q - size_ q <= t < head_seq_ q.

Definition thread_ok log q (p : pc T) : Prop :=
  match p with
  | ESeq _ h => 0 <= h <= head_seq_ q
  | ECas _ h => 0 <= h <= head_seq_ q /\ (h = head_seq_ q -> seq_at q h h)
  | EData x t =>
      tail_seq_ q <= t /\ in_window q t /\ log !! Z.to_nat t = Some x /\ seq_at q t t
  | EPublish x t =>
      tail_seq_ q <= t /\ in_window q t /\ log !! Z.to_nat t = Some x /\
      exists n, node_at q t = Some n /\ seq_ n = t /\ data n = Some x
  | DSeq t => 0 <= t <= tail_seq_ q
  | DCas t => 0 <= t <= tail_seq_ q /\ (t = tail_seq_ q -> seq_at q t (t + 1))
  | DData t => 0 <= t < tail_seq_ q /\ in_window q t /\ seq_at q t (t + 1)
  | DRelease x t =>
      0 <= t < tail_seq_ q /\ in_window q t /\ seq_at q t (t + 1) /\
      x = log !! Z.to_nat t
  | _ => True
  end.

Record queue_inv log (c : config T) : Prop := {
  qi_shape   : queue_shape c.1;
  qi_head    : head_seq_ c.1 = zlen log;
  qi_tail    : 0 <= tail_seq_ c.1 <= head_seq_ c.1;
  qi_room    : head_seq_ c.1 <= tail_seq_ c.1 + size_ c.1;
  qi_slots   : forall t, in_window c.1 t -> slot_ok log c.1 c.2 t;
  qi_threads : forall i p, c.2 !! i = Some p -> thread_ok log c.1 p;
  qi_unique  : forall i j p p' o, c.2 !! i = Some p -> c.2 !! j = Some p' ->
                 owned p = Some o -> owned p' = Some o -> i = j
}.

(** What a thread has pending, and the abstract state. *)
Definition pending_of log (p : pc T) : pending T :=
  match owned p with
  | Some (true, _) => PPush
  | Some (false, t) => match log !! Z.to_nat t with Some x => PPop x | None => PNone end
  | None => PNone
  end.

Definition abstraction log (c : config T) : spec T :=
  (drop (Z.to_nat (tail_seq_ c.1)) log, pending_of log <$> c.2).
End invariant.

Section queue_lemmas.
Context {T : Type}.
Implicit Types (q : MpmcQueue T) (log : list T) (ts : list (pc T)).

(** *** Slots *)

Lemma shape_pos q : queue_shape q -> 2 <= size_ q <= 2305843009213693952.
Proof.
  intros [(k & Hk & ->) _ _].
  pose proof (Z.pow_le_mono_r 2 1 k). pose proof (Z.pow_le_mono_r 2 k 61).
  change (2 ^ 1) with 2 in *. change (2 ^ 61) with 2305843009213693952 in *. lia.
Qed.

Lemma index_mod q t : queue_shape q -> index_of q t = t mod size_ q.
Proof.
  intros [(k & Hk & Hs) Hm _]. unfold index_of. rewrite Hm, Hs.
  replace (2 ^ k - 1) with (Z.ones k) by (rewrite Z.ones_equiv; lia).
  apply Z.land_ones. lia.
Qed.

Lemma mod_close a b n : 0 < n -> a mod n = b mod n -> -n < a - b < n -> a = b.
Proof.
  intros Hn Hm Hd. pose proof (Z.div_mod a n). pose proof (Z.div_mod b n).
  assert (a - b = n * (a / n - b / n)) by lia.
  assert (a / n - b / n = 0) by nia. lia.
Qed.

Lemma window_eq q t t' :
  queue_shape q -> in_window q t -> in_window q t' ->
  index_of q t = index_of q t' -> t = t'.
Proof.
  intros Hq Ht Ht'. pose proof (shape_pos q Hq). rewrite !index_mod by done.
  unfold in_window in *. intros. apply (mod_close _ _ (size_ q)); lia.
Qed.

(** Every slot has a ticket in the window. *)
Lemma window_rep q h :
  queue_shape q ->
  exists t m, in_window q t /\ h = t + m * size_ q /\ index_of q h = index_of q t.
Proof.
  intros Hq. pose proof (shape_pos q Hq) as Hp. unfold in_window.
  set (b := head_seq_ q - size_ q).
  pose proof (Z.div_mod (h - b) (size_ q)) as Hd.
  pose proof (Z.mod_pos_bound (h - b) (size_ q)) as Hm.
  exists (b + (h - b) mod size_ q), ((h - b) / size_ q).
  split_and!; [lia..|]. rewrite !index_mod by done.
  replace h with (b + (h - b) mod size_ q + (h - b) / size_ q * size_ q) at 1 by lia.
  by rewrite Z_mod_plus_full.
Qed.

Lemma node_ext q q' t t' :
  index_of q t = index_of q' t' -> buffer_ q = buffer_ q' -> node_at q t = node_at q' t'.
Proof. unfold node_at. by intros -> ->. Qed.

Lemma node_exists q t : queue_shape q -> exists n, node_at q t = Some n.
Proof.
  intros Hq. pose proof (shape_pos q Hq). apply lookup_lt_is_Some_2.
  rewrite index_mod by done. pose proof (shape_len q Hq).
  pose proof (Z.mod_pos_bound t (size_ q)). lia.
Qed.

Lemma node_set_eq q t t' n :
  queue_shape q -> index_of q t' = index_of q t -> node_at (set_node t n q) t' = Some n.
Proof.
  intros Hq Hi. unfold node_at, set_node. cbn [buffer_].
  change (index_of _ t') with (index_of q t'). rewrite Hi.
  apply list_lookup_insert_eq. destruct (node_exists q t Hq) as [m Hm].
  by eapply lookup_lt_Some.
Qed.

Lemma node_set_ne q t t' n :
  queue_shape q -> index_of q t' <> index_of q t ->
  node_at (set_node t n q) t' = node_at q t'.
Proof.
  intros Hq Hi. unfold node_at, set_node. cbn [buffer_].
  change (index_of _ t') with (index_of q t').
  apply list_lookup_insert_ne. pose proof (shape_pos q Hq).
  rewrite !index_mod in * by done.
  pose proof (Z.mod_pos_bound t (size_ q)). pose proof (Z.mod_pos_bound t' (size_ q)). lia.
Qed.

Lemma shape_set_node q t n : queue_shape q -> queue_shape (set_node t n q).
Proof. intros [? ? ?]. constructor; cbn; [done|done|by rewrite length_insert]. Qed.

(** [dif] is the difference of counters below 2^62. *)
Lemma dif_small a b :
  0 <= a < 4611686018427387904 -> 0 <= b < 4611686018427387904 -> dif a b = a - b.
Proof. unfold dif. int_solve. Qed.

(** The sequence number of a slot, by its ticket. *)
Lemma slot_seq log q ts t n :
  queue_shape q -> slot_ok log q ts t -> node_at q t = Some n ->
  seq_ n = t \/ seq_ n = t + 1 \/ seq_ n = t + size_ q.
Proof. intros Hq (n' & Hn' & Hc) Hn. rewrite Hn in Hn'. simplify_eq. tauto. Qed.

(** *** Owners *)

Lemma owner_insert ts i p p' o :
  ts !! i = Some p -> owner (<[i := p']> ts) o ->
  owned p' = Some o \/ owner ts o.
Proof.
  intros Hi (j & pj & Hj & Ho). destruct (decide (j = i)) as [->|Hne].
  - rewrite list_lookup_insert_eq in Hj by by eapply lookup_lt_Some.
    simplify_eq. by left.
  - rewrite list_lookup_insert_ne in Hj by done. right. by exists j, pj.
Qed.

Lemma owner_keep ts i p p' o :
  ts !! i = Some p -> owner ts o -> owned p <> Some o \/ owned p' = Some o ->
  owner (<[i := p']> ts) o.
Proof.
  intros Hi (j & pj & Hj & Ho) Hp. destruct (decide (j = i)) as [->|Hne].
  - simplify_eq. destruct Hp as [|Hp]; [done|]. exists i, p'.
    split; [|done]. apply list_lookup_insert_eq. by eapply lookup_lt_Some.
  - exists j, pj. by rewrite list_lookup_insert_ne.
Qed.

Lemma owner_new ts i p p' o :
  ts !! i = Some p -> owned p' = Some o -> owner (<[i := p']> ts) o.
Proof.
  intros Hi Ho. exists i, p'. split; [|done].
  apply list_lookup_insert_eq. by eapply lookup_lt_Some.
Qed.

(** Uniqueness after a change of thread [i]. *)
Lemma unique_insert ts i p p' :
  ts !! i = Some p ->
  (forall i j p p' o, ts !! i = Some p -> ts !! j = Some p' ->
     owned p = Some o -> owned p' = Some o -> i = j) ->
  (forall o, owned p' = Some o -> owned p = Some o \/ ~ owner ts o) ->
  forall a b pa pb o, <[i := p']> ts !! a = Some pa -> <[i := p']> ts !! b = Some pb ->
    owned pa = Some o -> owned pb = Some o -> a = b.
Proof.
  intros Hi Hu Hp' a b pa pb o Ha Hb Hoa Hob.
  assert (forall x px, <[i := p']> ts !! x = Some px -> owned px = Some o ->
    x = i /\ owned p' = Some o \/ x <> i /\ ts !! x = Some px) as Hx.
  { intros x px Hx Hox. destruct (decide (x = i)) as [->|Hne].
    - rewrite list_lookup_insert_eq in Hx by by eapply lookup_lt_Some.
      simplify_eq. by left.
    - rewrite list_lookup_insert_ne in Hx by done. by right. }
  destruct (Hx a pa Ha Hoa) as [[-> Ea]|[Na Ea]], (Hx b pb Hb Hob) as [[-> Eb]|[Nb Eb]].
  - done.
  - destruct (Hp' o Ea) as [Ho|Ho]; [by eapply Hu|]. exfalso. apply Ho. by exists b, pb.
  - destruct (Hp' o Eb) as [Ho|Ho]; [by eapply Hu|]. exfalso. apply Ho. by exists a, pa.
  - by eapply Hu.
Qed.
End queue_lemmas.

Section queue_steps.
Context {T : Type}.
Implicit Types (q : MpmcQueue T) (log : list T) (ts : list (pc T)).

Lemma threads_insert log q ts i (p : pc T) :
  (forall j pj, j <> i -> ts !! j = Some pj -> thread_ok log q pj) ->
  thread_ok log q p ->
  forall j pj, <[i := p]> ts !! j = Some pj -> thread_ok log q pj.
Proof.
  intros Ho Hp j pj Hj. destruct (decide (j = i)) as [->|Hne].
  - apply list_lookup_insert_Some in Hj as [(_ & -> & _)|[? _]]; done.
  - rewrite list_lookup_insert_ne in Hj by done. by eapply Ho.
Qed.

(** A step that only moves the thread. *)
Lemma local_step log q ts i p p' :
  queue_inv log (q, ts) -> ts !! i = Some p -> owned p' = owned p ->
  thread_ok log q p' ->
  queue_inv log (q, <[i := p']> ts) /\
  abstraction log (q, <[i := p']> ts) = abstraction log (q, ts).
Proof.
  intros [Hs Hh Ht Hr Hsl Hth Hu] Hi Ho Hp'. cbn [fst snd] in *. split.
  - constructor; cbn [fst snd]; try done.
    + intros t Hw. destruct (Hsl t Hw) as (n & Hn & Hc). exists n. split; [done|].
      assert (forall o, owner ts o -> owner (<[i := p']> ts) o) as Hk.
      { intros o Hown. eapply owner_keep; [done..|].
        rewrite Ho. destruct (decide (owned p = Some o)); tauto. }
      naive_solver.
    + apply threads_insert; [eauto|done].
    + eapply unique_insert; [done..|]. intros o. rewrite Ho. tauto.
  - unfold abstraction. cbn [fst snd]. f_equal.
    rewrite list_fmap_insert. apply list_insert_id.
    rewrite list_lookup_fmap, Hi. cbn. unfold pending_of. by rewrite Ho.
Qed.

Lemma log_snoc log (x : T) t :
  t < zlen log -> 0 <= t -> (log ++ [x]) !! Z.to_nat t = log !! Z.to_nat t.
Proof. intros. apply lookup_app_l. lia. Qed.

(** A push claims the slot of ticket [head_seq_], which is free: the ticket that had
    it before is [size_] tickets old. *)
Lemma push_slot log q ts i x :
  queue_inv log (q, ts) -> ts !! i = Some (ECas x (head_seq_ q)) ->
  head_seq_ q < tail_seq_ q + size_ q /\
  exists n, node_at q (head_seq_ q) = Some n /\ seq_ n = head_seq_ q /\
    node_at q (head_seq_ q - size_ q) = Some n.
Proof.
  intros Hinv Hi. pose proof Hinv as [Hs Hh Ht Hr Hsl Hth Hu]. cbn [fst snd] in *.
  pose proof (shape_pos q Hs) as Hp. set (h := head_seq_ q) in *.
  destruct (Hth _ _ Hi) as [_ Hfree]. destruct (Hfree eq_refl) as (n & Hn & Hseq).
  assert (in_window q (h - size_ q)) as Hw by (unfold in_window; fold h; lia).
  assert (index_of q (h - size_ q) = index_of q h) as Hidx.
  { rewrite !index_mod by done. replace h with (h - size_ q + 1 * size_ q) at 2 by lia.
    by rewrite Z_mod_plus_full. }
  assert (node_at q (h - size_ q) = Some n) as Hn' by (rewrite (node_ext q q _ h); done).
  destruct (Hsl _ Hw) as (n2 & Hn2 & Hc). rewrite Hn' in Hn2.
  injection Hn2 as <-. split; [lia|]. by exists n.
Qed.

(** A thread that reads a slot keeps the slot in the window. *)
Lemma push_reader log q ts i x j p t :
  queue_inv log (q, ts) -> ts !! i = Some (ECas x (head_seq_ q)) ->
  ts !! j = Some p -> owned p = Some (false, t) -> head_seq_ q + 1 - size_ q <= t.
Proof.
  intros Hinv Hi Hj Ho. destruct (push_slot log q ts i x Hinv Hi) as (_ & n & _ & Hseq & Hn').
  pose proof Hinv as [Hs Hh Ht Hr Hsl Hth Hu]. cbn [fst snd] in *.
  pose proof (shape_pos q Hs) as Hp. pose proof (Hth _ _ Hj) as Htj.
  assert (in_window q t /\ seq_at q t (t + 1)) as [Hwt (m & Hm & Hsm)].
  { destruct p; simplify_eq/=; destruct Htj as (? & ? & ?); naive_solver. }
  destruct (decide (t = head_seq_ q - size_ q)) as [->|].
  - rewrite Hn' in Hm. simplify_eq. lia.
  - unfold in_window in Hwt. lia.
Qed.

(** The other threads do not see the push. *)
Lemma push_thread log q ts i x j p :
  queue_inv log (q, ts) -> ts !! i = Some (ECas x (head_seq_ q)) -> ts !! j = Some p ->
  thread_ok (log ++ [x]) (set_head (head_seq_ q + 1) q) p.
Proof.
  intros Hinv Hi Hj. destruct (push_slot log q ts i x Hinv Hi) as (Hroom & _).
  pose proof (push_reader log q ts i x j p) as Hread.
  pose proof Hinv as [Hs Hh Ht Hr Hsl Hth Hu]. cbn [fst snd] in *.
  pose proof (shape_pos q Hs) as Hp. pose proof (Hth _ _ Hj) as Htj.
  set (q' := set_head _ q). set (h := head_seq_ q) in *.
  assert (forall t, in_window q t -> 0 <= t -> (log ++ [x]) !! Z.to_nat t = log !! Z.to_nat t)
    as Hlog by (intros t Hwt Ht0; apply log_snoc; [unfold in_window in Hwt; lia|done]).
  assert (forall t, in_window q t -> h + 1 - size_ q <= t -> in_window q' t) as Hwin
    by (unfold in_window; subst q'; cbn; lia).
  assert (head_seq_ q' = h + 1) as Hh' by done.
  destruct p; cbn [thread_ok] in Htj |- *; try exact Htj; rewrite ?Hh'; fold h in Htj; try lia.
  - destruct Htj as (A & B & C & D). rewrite Hlog by (done || lia).
    split_and!; [done| |done|done]. apply Hwin; [done|]. unfold in_window in B. fold h in B. lia.
  - destruct Htj as (A & B & C & D). rewrite Hlog by (done || lia).
    split_and!; [done| |done|done]. apply Hwin; [done|]. unfold in_window in B. fold h in B. lia.
  - destruct Htj as (A & B & C). split_and!; [apply A|apply A| |done].
    apply Hwin; [done|]. by eapply Hread.
  - destruct Htj as (A & B & C & D). rewrite Hlog by (done || lia).
    split_and!; [apply A|apply A| |done|done]. apply Hwin; [done|]. by eapply Hread.
Qed.

Lemma push_step log q ts i x :
  queue_inv log (q, ts) -> ts !! i = Some (ECas x (head_seq_ q)) ->
  queue_inv (log ++ [x]) (set_head (head_seq_ q + 1) q, <[i := EData x (head_seq_ q)]> ts) /\
  head_seq_ q < tail_seq_ q + size_ q.
Proof.
  intros Hinv Hi. destruct (push_slot log q ts i x Hinv Hi) as (Hroom & n & Hn & Hseq & _).
  pose proof Hinv as [Hs Hh Ht Hr Hsl Hth Hu]. cbn [fst snd] in *.
  pose proof (shape_pos q Hs) as Hp. set (q' := set_head _ q). set (h := head_seq_ q) in *.
  split; [|done]. constructor; cbn [fst snd].
  - destruct Hs. by constructor.
  - subst q'. cbn. rewrite length_app. cbn. lia.
  - subst q'. cbn. lia.
  - subst q'. cbn. lia.
  - intros t Hwt. destruct (decide (t = h)) as [->|Hne].
    + exists n. split; [done|]. left. split_and!; [done|subst q'; cbn; lia|].
      eapply owner_new; [done|reflexivity].
    + assert (in_window q t) as Hwt' by (unfold in_window in *; subst q'; cbn in *; lia).
      destruct (Hsl t Hwt') as (m & Hm & Hcm). exists m. split; [done|].
      assert (forall o, owner ts o -> owner (<[i := EData x h]> ts) o) as Hk.
      { intros o Ho. eapply owner_keep; [done..|]. by left. }
      destruct Hcm as [(A & B & C)|[(A & B & C & D)|(A & B)]]; [by left; auto| |by right; right; auto].
      right. left. split_and!; [done|done| |auto].
      rewrite log_snoc; [done|unfold in_window in Hwt'; lia|done].
  - apply threads_insert; [intros j pj _ Hj; by eapply push_thread|].
    cbn [thread_ok]. split_and!; [subst q'; cbn; lia| | |by exists n].
    + unfold in_window. subst q'. cbn. fold h. lia.
    + rewrite Hh. rewrite Nat2Z.id, lookup_app_r, Nat.sub_diag by lia. done.
  - eapply unique_insert; [done..|]. cbn. intros o [= <-]. right.
    intros (j & pj & Hj & Ho). pose proof (Hth _ _ Hj) as Htj.
    destruct pj; simplify_eq/=; destruct Htj as (_ & Hwj & _); unfold in_window in Hwj; lia.
Qed.

(** The slot of a thread that owns one. *)
Lemma owned_ok log q ts j (p : pc T) w t :
  queue_inv log (q, ts) -> ts !! j = Some p -> owned p = Some (w, t) ->
  in_window q t /\ seq_at q t (if w then t else t + 1) /\
  (if w then tail_seq_ q <= t else 0 <= t < tail_seq_ q).
Proof.
  intros [Hs Hh Ht Hr Hsl Hth Hu] Hj Ho. pose proof (Hth _ _ Hj) as Htj. cbn [fst snd] in *.
  destruct p; simplify_eq/=; destruct Htj as (A & B & C); split_and!; try tauto.
  destruct C as (_ & n & Hn & Hseq & _). by exists n.
Qed.

(** No other thread is at the slot of ticket [t] that thread [i] owns. *)
Lemma not_owned log q ts i j p p' w w' t t' :
  queue_inv log (q, ts) -> ts !! i = Some p -> ts !! j = Some p' -> j <> i ->
  owned p = Some (w, t) -> owned p' = Some (w', t') -> index_of q t' <> index_of q t.
Proof.
  intros Hinv Hi Hj Hne Ho Ho' E.
  destruct (owned_ok log q ts i p w t Hinv Hi Ho) as (W & (n & Hn & S) & _).
  destruct (owned_ok log q ts j p' w' t' Hinv Hj Ho') as (W' & (n' & Hn' & S') & _).
  pose proof (window_eq q t' t (qi_shape _ _ Hinv) W' W E) as ->.
  rewrite Hn in Hn'. injection Hn' as <-.
  assert (w = w') as -> by (destruct w, w'; done || lia).
  apply Hne. by eapply (qi_unique _ _ Hinv).
Qed.

(** A step of the owner of a slot that changes the slot. *)
Lemma node_step log q ts i p p' w t n' :
  queue_inv log (q, ts) -> ts !! i = Some p -> owned p = Some (w, t) ->
  owned p' = owned p \/ owned p' = None ->
  slot_ok log (set_node t n' q) (<[i := p']> ts) t ->
  thread_ok log (set_node t n' q) p' ->
  queue_inv log (set_node t n' q, <[i := p']> ts).
Proof.
  intros Hinv Hi Ho Ho' Hslot Hp'.
  destruct (owned_ok log q ts i p w t Hinv Hi Ho) as (W & (n & Hn & S) & Htl).
  pose proof Hinv as [Hs Hh Ht Hr Hsl Hth Hu]. cbn [fst snd] in *.
  pose proof (shape_pos q Hs) as Hp.
  constructor; cbn [fst snd]; try done; [by apply shape_set_node|..].
  - intros t' W'. destruct (decide (t' = t)) as [->|Hne]; [done|].
    change (in_window q t') in W'.
    destruct (Hsl t' W') as (m & Hm & Hc). exists m. split.
    + rewrite node_set_ne; [done|done|]. intros E. apply Hne. by eapply window_eq.
    + assert (forall b, owner ts (b, t') -> owner (<[i := p']> ts) (b, t')) as Hk.
      { intros b Hb. eapply owner_keep; [done..|]. left. congruence. }
      naive_solver.
  - apply threads_insert; [|done]. intros j pj Hne Hj. pose proof (Hth _ _ Hj) as Htj.
    assert (forall w' t', owned pj = Some (w', t') ->
      node_at (set_node t n' q) t' = node_at q t') as Hsame.
    { intros w' t' Hoj. apply node_set_ne; [done|]. by eapply (not_owned log q ts i j). }
    unfold seq_at in S. destruct pj; cbn [thread_ok] in Htj |- *; try exact Htj.
    + destruct Htj as [A B]. split; [exact A|]. intros E. destruct (B E) as (m & Hm & Hsm).
      exists m. split; [|done]. rewrite node_set_ne; [done|done|]. intros Ei.
      rewrite (node_ext q q _ t) in Hm by done. rewrite Hn in Hm. injection Hm as <-.
      rewrite index_mod, (index_mod _ t) in Ei by done. cbn in E. unfold in_window in W.
      pose proof (mod_close (head_seq - size_ q) t (size_ q)) as Hmc.
      rewrite <- (Z_mod_plus_full (head_seq - size_ q) 1 (size_ q)) in Hmc.
      replace (head_seq - size_ q + 1 * size_ q) with head_seq in Hmc by lia.
      destruct w; lia.
    + unfold seq_at. by rewrite (Hsame _ _ eq_refl).
    + by rewrite (Hsame _ _ eq_refl).
    + destruct Htj as [A B]. split; [exact A|]. intros E. destruct (B E) as (m & Hm & Hsm).
      exists m. split; [|done]. rewrite node_set_ne; [done|done|]. intros Ei.
      rewrite (node_ext q q _ t) in Hm by done. rewrite Hn in Hm. injection Hm as <-.
      rewrite index_mod, (index_mod _ t) in Ei by done. cbn in E. unfold in_window in W.
      pose proof (mod_close tail_seq t (size_ q)) as Hmc. destruct w; lia.
    + unfold seq_at. by rewrite (Hsame _ _ eq_refl).
    + unfold seq_at. by rewrite (Hsame _ _ eq_refl).
  - eapply unique_insert; [done..|]. intros o Hoo. left.
    destruct Ho' as [E|E]; congruence.
Qed.

Lemma tail_set_seq q t v : tail_seq_ (set_seq t v q) = tail_seq_ q.
Proof. unfold set_seq. by destruct (node_at q t). Qed.

Lemma tail_set_data q t v : tail_seq_ (set_data t v q) = tail_seq_ q.
Proof. unfold set_data. by destruct (node_at q t). Qed.

Lemma set_data_node q t n (x : option T) :
  node_at q t = Some n -> set_data t x q = set_node t {| data := x; seq_ := seq_ n |} q.
Proof. unfold set_data. by intros ->. Qed.

Lemma set_seq_node q t (n : Node T) v :
  node_at q t = Some n -> set_seq t v q = set_node t {| data := data n; seq_ := v |} q.
Proof. unfold set_seq. by intros ->. Qed.

Lemma data_step log q ts i x t :
  queue_inv log (q, ts) -> ts !! i = Some (EData x t) ->
  queue_inv log (set_data t (Some x) q, <[i := EPublish x t]> ts).
Proof.
  intros Hinv Hi. pose proof (qi_shape _ _ Hinv) as Hs. cbn in Hs.
  destruct (qi_threads _ _ Hinv _ _ Hi) as (A & B & C & n & Hn & S).
  rewrite (set_data_node _ _ _ _ Hn).
  eapply node_step; [done..|by left| |].
  - eexists. split; [by apply node_set_eq|]. left. cbn. split_and!; [done|done|].
    eapply owner_new; [done|reflexivity].
  - cbn. split_and!; [done..|]. eexists. split; [by apply node_set_eq|]. by cbn.
Qed.

Lemma publish_step log q ts i x t :
  queue_inv log (q, ts) -> ts !! i = Some (EPublish x t) ->
  queue_inv log (set_seq t (t + 1) q, <[i := Idle]> ts).
Proof.
  intros Hinv Hi. pose proof Hinv as [Hs Hh Ht Hr Hsl Hth Hu]. cbn [fst snd] in *.
  destruct (Hth _ _ Hi) as (A & B & C & n & Hn & S & D).
  rewrite (set_seq_node _ _ _ _ Hn).
  eapply node_step; [done..|by right| |done].
  eexists. split; [by apply node_set_eq|]. right. left. cbn. rewrite C.
  split_and!; [done|lia|done|]. lia.
Qed.

Lemma release_step log q ts i x t :
  queue_inv log (q, ts) -> ts !! i = Some (DRelease x t) ->
  queue_inv log (set_seq t (t + size_ q) q, <[i := Idle]> ts).
Proof.
  intros Hinv Hi. pose proof Hinv as [Hs Hh Ht Hr Hsl Hth Hu]. cbn [fst snd] in *.
  destruct (Hth _ _ Hi) as (A & B & (n & Hn & S) & D).
  rewrite (set_seq_node _ _ _ _ Hn).
  eapply node_step; [done..|by right| |done].
  eexists. split; [by apply node_set_eq|]. right. right. cbn. split; [done|lia].
Qed.

(** A pop claims the slot of ticket [tail_seq_], which holds a value. *)
Lemma pop_slot log q ts i :
  queue_inv log (q, ts) -> ts !! i = Some (DCas (tail_seq_ q)) ->
  tail_seq_ q < head_seq_ q /\
  exists n, node_at q (tail_seq_ q) = Some n /\ seq_ n = tail_seq_ q + 1.
Proof.
  intros Hinv Hi. pose proof Hinv as [Hs Hh Ht Hr Hsl Hth Hu]. cbn [fst snd] in *.
  pose proof (shape_pos q Hs) as Hp. set (t := tail_seq_ q) in *.
  destruct (Hth _ _ Hi) as [_ Hfull]. destruct (Hfull eq_refl) as (n & Hn & Hseq).
  split; [|by exists n]. destruct (decide (t < head_seq_ q)) as [|Hge]; [done|].
  assert (in_window q (t - size_ q)) as W by (unfold in_window; lia).
  assert (node_at q (t - size_ q) = Some n) as Hn'.
  { rewrite <- Hn. apply node_ext; [|done]. rewrite !index_mod by done.
    replace t with (t - size_ q + 1 * size_ q) at 2 by lia. by rewrite Z_mod_plus_full. }
  pose proof (slot_seq _ _ _ _ _ Hs (Hsl _ W) Hn'). lia.
Qed.

(** A ticket whose slot is not written yet is after the one that is popped. *)
Lemma pop_after log q ts i t :
  queue_inv log (q, ts) -> ts !! i = Some (DCas (tail_seq_ q)) ->
  seq_at q t t -> tail_seq_ q <= t -> tail_seq_ q + 1 <= t.
Proof.
  intros Hinv Hi (m & Hm & Sm) Hle. destruct (pop_slot log q ts i Hinv Hi) as (_ & n & Hn & Hseq).
  destruct (decide (t = tail_seq_ q)) as [->|]; [|lia]. rewrite Hn in Hm. simplify_eq. lia.
Qed.

(** The other threads do not see the pop. *)
Lemma pop_thread log q ts i j p :
  queue_inv log (q, ts) -> ts !! i = Some (DCas (tail_seq_ q)) -> ts !! j = Some p ->
  thread_ok log (set_tail (tail_seq_ q + 1) q) p.
Proof.
  intros Hinv Hi Hj. destruct (pop_slot log q ts i Hinv Hi) as (Hlt & _).
  pose proof (fun t => pop_after log q ts i t Hinv Hi) as Hnext.
  pose proof Hinv as [Hs Hh Ht Hr Hsl Hth Hu]. cbn [fst snd] in *.
  pose proof (Hth _ _ Hj) as Htj. set (t := tail_seq_ q) in *.
  assert (tail_seq_ (set_tail (t + 1) q) = t + 1) as Htl by done.
  destruct p; cbn [thread_ok] in Htj |- *; try exact Htj; rewrite ?Htl; fold t in Htj.
  - split; [apply Hnext; apply Htj|apply Htj].
  - destruct Htj as (A & B & C & m & Hm & Sm & Dm).
    split; [apply Hnext; [by exists m|done]|]. split_and!; [done|done|by exists m].
  - lia.
  - destruct Htj as [A B]. split; [lia|]. intros. lia.
  - destruct Htj as (A & B). split; [lia|done].
  - destruct Htj as (A & B). split; [lia|done].
Qed.

Lemma pop_step log q ts i :
  queue_inv log (q, ts) -> ts !! i = Some (DCas (tail_seq_ q)) ->
  queue_inv log (set_tail (tail_seq_ q + 1) q, <[i := DData (tail_seq_ q)]> ts) /\
  tail_seq_ q < head_seq_ q.
Proof.
  intros Hinv Hi. destruct (pop_slot log q ts i Hinv Hi) as (Hlt & n & Hn & Hseq).
  pose proof (fun t => pop_after log q ts i t Hinv Hi) as Hnext.
  pose proof Hinv as [Hs Hh Ht Hr Hsl Hth Hu]. cbn [fst snd] in *.
  pose proof (shape_pos q Hs) as Hp. set (t := tail_seq_ q) in *. split; [|done].
  assert (in_window q t) as W by (unfold in_window; lia).
  constructor; cbn [fst snd]; try done.
  - by destruct Hs.
  - cbn. fold t. lia.
  - cbn. fold t. lia.
  - intros t' W'. change (in_window q t') in W'.
    destruct (Hsl t' W') as (m & Hm & Hc). exists m. split; [exact Hm|].
    change (tail_seq_ (set_tail (t + 1) q)) with (t + 1).
    change (size_ (set_tail (t + 1) q)) with (size_ q).
    assert (forall o, owner ts o -> owner (<[i := DData t]> ts) o) as Hk
      by (intros o Hoo; eapply owner_keep; [done..|by left]).
    destruct Hc as [(A & B & C)|[(A & B & C & D)|(A & B)]].
    + left. split_and!; [done| |auto]. apply Hnext; [by exists m|done].
    + right. left. split_and!; [done..|]. intros E.
      destruct (decide (t' = t)) as [->|]; [|apply Hk, D; fold t; lia].
      eapply owner_new; [done|reflexivity].
    + right. right. fold t in B. split; [done|lia].
  - apply threads_insert; [intros j pj _ Hj; by eapply pop_thread|].
    cbn [thread_ok]. split_and!; [lia|cbn; lia|exact W|by exists n].
  - eapply unique_insert; [done..|]. cbn. intros o [= <-]. right.
    intros (j & pj & Hj & Ho).
    destruct (owned_ok log q ts j pj false t Hinv Hj Ho) as (_ & _ & ?). subst t. lia.
Qed.
End queue_steps.

Section refinement.
Context {T : Type}.
Implicit Types (q : MpmcQueue T) (log : list T) (ts : list (pc T)).

(** Counters that cannot wrap around in a run with so many pushes. *)
Definition few_pushes (size : Z) log : Prop := zlen log + size < 4611686018427387904.

(** The sequence number seen for [h], in terms of the ticket of the slot. *)
Lemma seen log q ts h n :
  queue_inv log (q, ts) -> few_pushes (size_ q) log -> node_at q h = Some n ->
  exists t m, in_window q t /\ h = t + m * size_ q /\ slot_ok log q ts t /\
    node_at q t = Some n /\ 0 <= seq_ n < 4611686018427387904 /\
    (seq_ n = t \/ seq_ n = t + 1 \/ seq_ n = t + size_ q).
Proof.
  intros [Hs Hh Ht Hr Hsl Hth Hu] Hf Hn. cbn [fst snd] in *. unfold few_pushes in Hf.
  pose proof (shape_pos q Hs). destruct (window_rep q h Hs) as (t & m & W & E & I).
  assert (node_at q t = Some n) as Hn' by (rewrite <- Hn; by apply node_ext).
  pose proof (slot_seq _ _ _ _ _ Hs (Hsl t W) Hn') as Hc.
  exists t, m. split_and!; [done..|auto|done| | |done].
  - destruct (Hsl t W) as (n' & Hn2 & Hc2). rewrite Hn' in Hn2. injection Hn2 as <-.
    unfold in_window in W. lia.
  - unfold in_window in W. lia.
Qed.

Lemma pending_grow log q ts i p x :
  queue_inv log (q, ts) -> ts !! i = Some p -> pending_of (log ++ [x]) p = pending_of log p.
Proof.
  intros Hinv Hi. unfold pending_of. destruct (owned p) as [[[] t]|] eqn:Ho; [done| |done].
  destruct (owned_ok log q ts i p false t Hinv Hi Ho) as (_ & _ & ?).
  pose proof (qi_head _ _ Hinv). pose proof (qi_tail _ _ Hinv). cbn [fst] in *.
  by rewrite log_snoc by lia.
Qed.

Lemma pending_insert log ts i p :
  pending_of log <$> <[i := p]> ts = <[i := pending_of log p]> (pending_of log <$> ts).
Proof. apply list_fmap_insert. Qed.

Lemma pending_lookup log ts i p :
  ts !! i = Some p -> (pending_of log <$> ts) !! i = Some (pending_of log p).
Proof. intros Hi. by rewrite list_lookup_fmap, Hi. Qed.

(** A thread that owns a slot for reading has a pending pop. *)
Lemma reader_pending log q ts t :
  queue_inv log (q, ts) -> owner ts (false, t) ->
  exists j x, (pending_of log <$> ts) !! j = Some (PPop x).
Proof.
  intros Hinv (j & p & Hj & Ho).
  destruct (owned_ok log q ts j p false t Hinv Hj Ho) as (_ & _ & ?).
  pose proof (qi_head _ _ Hinv). pose proof (qi_tail _ _ Hinv). cbn [fst] in *.
  destruct (lookup_lt_is_Some_2 log (Z.to_nat t)) as [x Hx]; [lia|].
  exists j, x. rewrite (pending_lookup _ _ _ _ Hj). unfold pending_of. by rewrite Ho, Hx.
Qed.

(** [enqueue] returns false only when the queue is full or the slot it needs is
    still being read, [dequeue] only when the queue is empty or the slot it
    needs is still being written. *)
Lemma full_seen log q ts h n :
  queue_inv log (q, ts) -> few_pushes (size_ q) log -> node_at q h = Some n ->
  0 <= h <= head_seq_ q -> dif (seq_ n) h < 0 ->
  head_seq_ q - tail_seq_ q = size_ q \/ exists t, owner ts (false, t).
Proof.
  intros Hinv Hf Hn Hh Hd. pose proof (qi_shape _ _ Hinv) as Hs. cbn in Hs.
  pose proof (shape_pos q Hs) as Hp. pose proof (qi_room _ _ Hinv) as Hr.
  pose proof (qi_head _ _ Hinv) as Hlog. cbn [fst] in *. unfold few_pushes in Hf.
  destruct (seen log q ts h n Hinv Hf Hn) as (t & m & W & E & (n' & Hn' & Hc) & Hnt & Hb & S).
  rewrite Hnt in Hn'. injection Hn' as <-. rewrite dif_small in Hd by lia.
  unfold in_window in W.
  assert (h = head_seq_ q /\ t = h - size_ q) as [-> ->].
  { assert (m = 1) by nia. lia. }
  destruct Hc as [(A & B & C)|[(A & B & C & D)|(A & B)]].
  - left. lia.
  - destruct (decide (head_seq_ q - size_ q < tail_seq_ q)); [right; eauto|left; lia].
  - lia.
Qed.

Lemma empty_seen log q ts t n :
  queue_inv log (q, ts) -> few_pushes (size_ q) log -> node_at q t = Some n ->
  0 <= t <= tail_seq_ q -> dif (seq_ n) (t + 1) < 0 ->
  head_seq_ q = tail_seq_ q \/ exists t, owner ts (true, t).
Proof.
  intros Hinv Hf Hn Ht Hd. pose proof (qi_shape _ _ Hinv) as Hs. cbn in Hs.
  pose proof (shape_pos q Hs) as Hp. pose proof (qi_room _ _ Hinv) as Hr.
  pose proof (qi_head _ _ Hinv) as Hlog. pose proof (qi_tail _ _ Hinv) as Htl.
  cbn [fst] in *. unfold few_pushes in Hf.
  destruct (seen log q ts t n Hinv Hf Hn) as (t' & m & W & E & (n' & Hn' & Hc) & Hnt & Hb & S).
  rewrite Hnt in Hn'. injection Hn' as <-. rewrite dif_small in Hd by lia.
  unfold in_window in W.
  assert (m = 0 \/ m = 1) as [-> | ->] by nia.
  - replace t' with t in * by lia. destruct Hc as [(A & B & C)|[(A & B & C & D)|(A & B)]].
    + right. eauto.
    + lia.
    + lia.
  - left. lia.
Qed.

Lemma abstraction_eq log q q' ts i p p' :
  ts !! i = Some p -> tail_seq_ q' = tail_seq_ q -> pending_of log p' = pending_of log p ->
  abstraction log (q', <[i := p']> ts) = abstraction log (q, ts).
Proof.
  intros Hi Ht Hp. unfold abstraction. cbn [fst snd]. rewrite Ht, pending_insert, Hp.
  f_equal. apply list_insert_id. by apply pending_lookup.
Qed.

(** The push and the pop take effect on the abstract queue. *)
Lemma push_spec log q ts i x :
  queue_inv log (q, ts) -> ts !! i = Some (ECas x (head_seq_ q)) ->
  few_pushes (size_ q) (log ++ [x]) ->
  spec_step (size_ q) (abstraction log (q, ts)) (LPush i x)
    (abstraction (log ++ [x])
       (set_head (head_seq_ q + 1) q, <[i := EData x (head_seq_ q)]> ts)).
Proof.
  intros Hinv Hi Hf. destruct (push_step log q ts i x Hinv Hi) as [_ Hroom].
  pose proof (qi_head _ _ Hinv) as Hh. pose proof (qi_tail _ _ Hinv) as Ht. cbn [fst] in *.
  unfold abstraction. cbn [fst snd].
  change (tail_seq_ (set_head _ q)) with (tail_seq_ q).
  rewrite drop_app_le, pending_insert by lia.
  assert ((pending_of (log ++ [x]) <$> ts) = pending_of log <$> ts) as ->.
  { apply list_fmap_ext. intros j p Hj. by eapply pending_grow. }
  apply spec_push.
  - rewrite length_drop. lia.
  - by rewrite (pending_lookup _ _ _ _ Hi).
Qed.

Lemma pop_spec log q ts i :
  queue_inv log (q, ts) -> ts !! i = Some (DCas (tail_seq_ q)) ->
  spec_step (size_ q) (abstraction log (q, ts)) (LPop i)
    (abstraction log (set_tail (tail_seq_ q + 1) q, <[i := DData (tail_seq_ q)]> ts)).
Proof.
  intros Hinv Hi. destruct (pop_step log q ts i Hinv Hi) as [_ Hlt].
  pose proof (qi_head _ _ Hinv) as Hh. pose proof (qi_tail _ _ Hinv) as Ht. cbn [fst] in *.
  destruct (lookup_lt_is_Some_2 log (Z.to_nat (tail_seq_ q))) as [x Hx]; [lia|].
  unfold abstraction. cbn [fst snd].
  change (tail_seq_ (set_tail ?v q)) with v.
  replace (Z.to_nat (tail_seq_ q + 1)) with (S (Z.to_nat (tail_seq_ q))) by lia.
  rewrite (drop_S _ _ _ Hx), pending_insert.
  assert (pending_of log (DData (tail_seq_ q)) = PPop x) as ->
    by (unfold pending_of; cbn [owned]; by rewrite Hx).
  apply spec_pop.
  by rewrite (pending_lookup _ _ _ _ Hi).
Qed.

Lemma popped_spec log q ts i x t :
  queue_inv log (q, ts) -> ts !! i = Some (DRelease x t) ->
  spec_step (size_ q) (abstraction log (q, ts)) (LPopped i x)
    (abstraction log (set_seq t (t + size_ q) q, <[i := Idle]> ts)).
Proof.
  intros Hinv Hi. destruct (qi_threads _ _ Hinv _ _ Hi) as (A & B & C & ->).
  pose proof (qi_head _ _ Hinv) as Hh. pose proof (qi_tail _ _ Hinv) as Ht. cbn [fst] in *.
  destruct (lookup_lt_is_Some_2 log (Z.to_nat t)) as [x Hx]; [lia|].
  unfold abstraction. cbn [fst snd]. rewrite pending_insert.
  rewrite tail_set_seq, Hx. apply spec_popped. rewrite (pending_lookup _ _ _ _ Hi).
  unfold pending_of. cbn [owned]. by rewrite Hx.
Qed.

Lemma pushed_spec log q ts i x t :
  queue_inv log (q, ts) -> ts !! i = Some (EPublish x t) ->
  spec_step (size_ q) (abstraction log (q, ts)) (LPushed i)
    (abstraction log (set_seq t (t + 1) q, <[i := Idle]> ts)).
Proof.
  intros Hinv Hi. unfold abstraction. cbn [fst snd]. rewrite pending_insert.
  rewrite tail_set_seq. apply spec_pushed. by rewrite (pending_lookup _ _ _ _ Hi).
Qed.

Lemma full_spec log q ts i h n :
  queue_inv log (q, ts) -> few_pushes (size_ q) log -> node_at q h = Some n ->
  0 <= h <= head_seq_ q -> dif (seq_ n) h < 0 ->
  spec_step (size_ q) (abstraction log (q, ts)) (LFull i) (abstraction log (q, ts)).
Proof.
  intros Hinv Hf Hn Hh Hd. apply spec_full.
  pose proof (qi_head _ _ Hinv). pose proof (qi_tail _ _ Hinv). cbn [fst snd] in *.
  destruct (full_seen log q ts h n) as [E|[t Ho]]; [done..| |].
  - left. rewrite length_drop. lia.
  - right. by eapply reader_pending.
Qed.

Lemma empty_spec log q ts i t n :
  queue_inv log (q, ts) -> few_pushes (size_ q) log -> node_at q t = Some n ->
  0 <= t <= tail_seq_ q -> dif (seq_ n) (t + 1) < 0 ->
  spec_step (size_ q) (abstraction log (q, ts)) (LEmpty i) (abstraction log (q, ts)).
Proof.
  intros Hinv Hf Hn Ht Hd. apply spec_empty.
  pose proof (qi_head _ _ Hinv). pose proof (qi_tail _ _ Hinv). cbn [fst snd] in *.
  destruct (empty_seen log q ts t n) as [E|[t' (j & p & Hj & Ho)]]; [done..| |].
  - left. apply drop_ge. lia.
  - right. exists j. rewrite (pending_lookup _ _ _ _ Hj). unfold pending_of. by rewrite Ho.
Qed.

(** The local steps that look at a slot: it is free, it is full, it is read. *)
Lemma free_slot_step log q ts i x h n :
  queue_inv log (q, ts) -> ts !! i = Some (ESeq x h) -> few_pushes (size_ q) log ->
  node_at q h = Some n -> 0 <= h <= head_seq_ q -> dif (seq_ n) h = 0 ->
  queue_inv log (q, <[i := ECas x h]> ts) /\
  abstraction log (q, <[i := ECas x h]> ts) = abstraction log (q, ts).
Proof.
  intros Hinv Hi Hf Hn Hh Hd. pose proof (qi_head _ _ Hinv). pose proof (qi_tail _ _ Hinv).
  pose proof (shape_pos q (qi_shape _ _ Hinv)) as Hp. cbn [fst] in *.
  destruct (seen log q ts h n) as (t & m & W & E & _ & _ & Hb & S); [done..|].
  unfold few_pushes in Hf. apply (local_step log q ts i (ESeq x h) (ECas x h)); [done..|].
  cbn. split; [lia|]. intros _. exists n. rewrite dif_small in Hd by lia. split; [done|lia].
Qed.

Lemma full_slot_step log q ts i t n :
  queue_inv log (q, ts) -> ts !! i = Some (DSeq t) -> few_pushes (size_ q) log ->
  node_at q t = Some n -> 0 <= t <= tail_seq_ q -> dif (seq_ n) (t + 1) = 0 ->
  queue_inv log (q, <[i := DCas t]> ts) /\
  abstraction log (q, <[i := DCas t]> ts) = abstraction log (q, ts).
Proof.
  intros Hinv Hi Hf Hn Hh Hd. pose proof (qi_head _ _ Hinv). pose proof (qi_tail _ _ Hinv).
  pose proof (shape_pos q (qi_shape _ _ Hinv)) as Hp. cbn [fst] in *.
  destruct (seen log q ts t n) as (t' & m & W & E & _ & _ & Hb & S); [done..|].
  unfold few_pushes in Hf. apply (local_step log q ts i (DSeq t) (DCas t)); [done..|].
  cbn. split; [lia|]. intros _. exists n. rewrite dif_small in Hd by lia. split; [done|lia].
Qed.

Lemma read_slot_step log q ts i t n :
  queue_inv log (q, ts) -> ts !! i = Some (DData t) -> node_at q t = Some n ->
  queue_inv log (q, <[i := DRelease (data n) t]> ts) /\
  abstraction log (q, <[i := DRelease (data n) t]> ts) = abstraction log (q, ts).
Proof.
  intros Hinv Hi Hn. destruct (qi_threads _ _ Hinv _ _ Hi) as (A & W & (n' & Hn' & S)).
  pose proof (shape_pos q (qi_shape _ _ Hinv)) as Hp.
  cbn [fst snd] in *. rewrite Hn in Hn'. injection Hn' as <-.
  apply (local_step log q ts i (DData t) (DRelease (data n) t)); [done..|].
  cbn. split_and!; [lia|lia|done|by exists n|].
  destruct (qi_slots _ _ Hinv t W) as (n' & Hn' & Hc). cbn [fst snd] in *.
  rewrite Hn in Hn'. injection Hn' as <-.
  destruct Hc as [(?&?&?)|[(?&?&?&?)|(?&?)]]; [lia|done|lia].
Qed.

(** One step keeps the invariant and is a step of the specification. *)
Lemma step_refines log c l c' :
  queue_inv log c -> step c l c' -> few_pushes (size_ c.1) (log ++ pushed_by l) ->
  queue_inv (log ++ pushed_by l) c' /\
  spec_step (size_ c.1) (abstraction log c) l (abstraction (log ++ pushed_by l) c').
Proof.
  intros Hinv Hstep Hf. destruct Hstep as [i q q' ts p p' l Hi Hstep]. cbn [fst] in *.
  pose proof (qi_shape _ _ Hinv) as Hs. pose proof (shape_pos q Hs) as Hp.
  pose proof (qi_head _ _ Hinv) as Hh. pose proof (qi_tail _ _ Hinv) as Ht.
  pose proof (qi_threads _ _ Hinv _ _ Hi) as Hpi. cbn [fst snd] in *.
  assert (few_pushes (size_ q) log) as Hf0
    by (unfold few_pushes in *; rewrite length_app in Hf; lia).
  assert (forall p', owned p' = owned p -> thread_ok log q p' ->
    queue_inv (log ++ []) (q, <[i := p']> ts) /\
    spec_step (size_ q) (abstraction log (q, ts)) LTau
      (abstraction (log ++ []) (q, <[i := p']> ts))) as Hquiet.
  { intros p2 Ho Hp2. rewrite app_nil_r.
    destruct (local_step log q ts i p p2 Hinv Hi Ho Hp2) as [H1 ->].
    split; [done|constructor]. }
  unfold few_pushes in Hf0.
  destruct Hstep; cbn [pushed_by] in *; try (apply Hquiet; cbn; try done; lia);
    rewrite ?app_nil_r in *; cbn [thread_ok] in Hpi.
  - (* a free slot *)
    destruct (free_slot_step log q ts i x h n) as [H1 ->]; [done..|].
    split; [done|constructor].
  - (* full *)
    destruct (local_step log q ts i (ESeq x h) Idle) as [H1 ->]; [done..|].
    split; [done|]. by eapply full_spec.
  - (* claim *)
    subst h. rewrite u64_small by lia. split; [by apply push_step|by apply push_spec].
  - (* the data *)
    split; [by apply data_step|]. rewrite (abstraction_eq log q _ ts i (EData x h));
      [constructor|done|apply tail_set_data|done].
  - (* publish *)
    destruct Hpi as (A & B & _). unfold in_window in B. rewrite u64_small by lia.
    split; [by eapply publish_step|by eapply pushed_spec].
  - (* a full slot *)
    rewrite u64_small in H0 by lia.
    destruct (full_slot_step log q ts i t n) as [H1 ->]; [done..|].
    split; [done|constructor].
  - (* empty *)
    rewrite u64_small in H0 by lia.
    destruct (local_step log q ts i (DSeq t) Idle) as [H1 ->]; [done..|].
    split; [done|]. by eapply empty_spec.
  - (* claim *)
    subst t. rewrite u64_small by lia. split; [by apply pop_step|by apply pop_spec].
  - (* the data *)
    destruct (read_slot_step log q ts i t n) as [H1 ->]; [done..|].
    split; [done|constructor].
  - (* release *)
    destruct Hpi as (A & B & _). unfold in_window in B.
    rewrite (shape_mask q Hs), u64_small by lia.
    replace (t + (size_ q - 1) + 1) with (t + size_ q) by lia.
    split; [by eapply release_step|by eapply popped_spec].
Qed.
End refinement.

(** ** The constructor *)

(** The reference of the assertion of the constructor. *)
Definition power_of_two (n : Z) : bool := (0 <? n) && (2 ^ Z.log2 n =? n).

Lemma land_double a b : Z.land (2 * a) (2 * b) = 2 * Z.land a b.
Proof. rewrite !(Z.mul_comm 2), <- !(Z.shiftl_mul_pow2 _ 1) by lia. symmetry. apply Z.shiftl_land. Qed.

Lemma land_double_odd a b : Z.land (2 * a + 1) (2 * b + 1) = 2 * Z.land a b + 1.
Proof.
  apply Z.bits_inj'. intros n Hn. destruct (decide (n = 0)) as [->|].
  - by rewrite Z.land_spec, !Z.testbit_odd_0.
  - replace n with (Z.succ (n - 1)) by lia.
    rewrite Z.land_spec, !Z.testbit_odd_succ, Z.land_spec by lia. done.
Qed.

(** [n & -n] is the greatest power of two that divides [n]. *)
Lemma low_bit p : exists k, 0 <= k /\ Z.land (Z.pos p) (- Z.pos p) = 2 ^ k.
Proof.
  induction p as [p IH|p IH|].
  - exists 0. split; [done|]. rewrite Pos2Z.inj_xI.
    replace (- (2 * Z.pos p + 1)) with (2 * Z.lnot (Z.pos p) + 1) by (unfold Z.lnot; lia).
    by rewrite land_double_odd, Z.land_lnot_diag.
  - destruct IH as (k & Hk & IH). exists (Z.succ k). split; [lia|].
    rewrite Pos2Z.inj_xO, <- Z.mul_opp_r, land_double, IH, Z.pow_succ_r by done. done.
  - by exists 0.
Qed.

Lemma low_bit_pow2 k : 0 <= k -> Z.land (2 ^ k) (- 2 ^ k) = 2 ^ k.
Proof.
  revert k. apply natlike_ind; [done|]. intros k Hk IH.
  by rewrite Z.pow_succ_r, <- Z.mul_opp_r, land_double, IH by done.
Qed.

Lemma land_wrap n m : 0 <= n < 2 ^ 64 -> Z.land n (u64 m) = Z.land n m.
Proof.
  intros Hn. change (u64 m) with (m mod 2 ^ 64). rewrite <- Z.land_ones by lia.
  rewrite (Z.land_comm m), Z.land_assoc, Z.land_ones, Z.mod_small; [done|lia|lia].
Qed.

Lemma size_ok_eq n : 0 <= n < 2 ^ 64 -> size_ok n = power_of_two n.
Proof.
  intros Hn. unfold size_ok, power_of_two. rewrite land_wrap by done.
  replace (Z.lnot n + 1) with (- n) by (unfold Z.lnot; lia).
  destruct (decide (n = 0)) as [->|Hz]; [done|].
  replace (n =? 0) with false by lia. replace (0 <? n) with true by lia. cbn [negb andb].
  apply eq_bool_prop_intro. rewrite !Is_true_true, !Z.eqb_eq. split.
  - destruct n as [|p|p]; [done| |lia]. destruct (low_bit p) as (k & Hk & ->).
    intros <-. by rewrite Z.log2_pow2.
  - intros E. rewrite <- E. apply low_bit_pow2, Z.log2_nonneg.
Qed.

Section runs.
Context {T : Type}.
Implicit Types (q : MpmcQueue T) (log : list T) (ts : list (pc T)).

Lemma size_ok_pow2 k : 0 <= k <= 61 -> size_ok (2 ^ k) = true.
Proof.
  intros Hk. pose proof (Z.pow_nonneg 2 k). pose proof (Z.pow_lt_mono_r 2 k 64).
  rewrite size_ok_eq by lia. unfold power_of_two. rewrite Z.log2_pow2 by lia.
  assert (0 < 2 ^ k) by (apply Z.pow_pos_nonneg; lia). lia.
Qed.

Definition fresh_queue (size : Z) : MpmcQueue T := {|
  size_ := size; mask_ := size - 1;
  buffer_ := (fun i => {| data := None; seq_ := Z.of_nat i |}) <$> seq 0 (Z.to_nat size);
  head_seq_ := 0; tail_seq_ := 0
|}.

Lemma init_run k : 1 <= k <= 61 -> MpmcQueue_init (2 ^ k) = Ok (fresh_queue (2 ^ k)).
Proof.
  intros Hk. unfold MpmcQueue_init, fresh_queue. rewrite size_ok_pow2 by lia.
  pose proof (Z.pow_le_mono_r 2 1 k). pose proof (Z.pow_le_mono_r 2 k 61).
  change (2 ^ 61) with 2305843009213693952 in *. by rewrite u64_small by lia.
Qed.

Lemma fresh_inv k n :
  1 <= k <= 61 -> queue_inv [] (fresh_queue (2 ^ k), replicate n Idle).
Proof.
  intros Hk. assert (queue_shape (fresh_queue (2 ^ k))) as Hs.
  { constructor; cbn; [by exists k|done|]. rewrite length_fmap, length_seq.
    assert (0 < 2 ^ k) by (apply Z.pow_pos_nonneg; lia). lia. }
  pose proof (shape_pos _ Hs) as Hp. cbn in Hp.
  constructor; cbn [fst snd]; try done; cbn [fresh_queue head_seq_ tail_seq_ size_]; try lia.
  - intros t W. unfold in_window in W. cbn in W.
    exists {| data := None; seq_ := t + 2 ^ k |}. split; [|right; right; cbn; lia].
    unfold node_at. rewrite index_mod by done. cbn.
    replace (t mod 2 ^ k) with (t + 2 ^ k).
    + rewrite list_lookup_fmap, lookup_seq_lt by lia. cbn. do 2 f_equal. lia.
    + rewrite <- (Z_mod_plus_full t 1), Z.mul_1_l. symmetry. apply Z.mod_small. lia.
  - by intros i p [-> _]%lookup_replicate.
  - by intros i j p p' o [-> _]%lookup_replicate.
Qed.

Lemma step_size (c c' : config T) l : step c l c' -> size_ c'.1 = size_ c.1.
Proof.
  intros [i q q' ts p p' l' Hi Hstep]. cbn.
  destruct Hstep; try done; unfold set_data, set_seq; by destruct (node_at _ _).
Qed.

Lemma pushes_snoc (ls : list (label T)) l : pushes (ls ++ [l]) = pushes ls ++ pushed_by l.
Proof. unfold pushes. rewrite fmap_app, concat_app. cbn. by rewrite app_nil_r. Qed.

Lemma run_refines N (c0 : config T) ls c :
  run c0 ls c -> size_ c0.1 = N -> queue_inv [] c0 -> few_pushes N (pushes ls) ->
  size_ c.1 = N /\ queue_inv (pushes ls) c /\
  spec_run N (abstraction [] c0) ls (abstraction (pushes ls) c).
Proof.
  intros Hrun HN H0. induction Hrun as [c0|c0 ls c1 l c2 Hrun IH Hstep]; intros Hf.
  - split_and!; [done|done|constructor].
  - rewrite pushes_snoc in *. destruct IH as (Hs & Hinv & Hsp); [done|done| |].
    { unfold few_pushes in *. rewrite length_app in Hf. lia. }
    rewrite <- Hs in Hf. destruct (step_refines _ _ _ _ Hinv Hstep Hf) as [Hinv2 Hst].
    rewrite Hs in Hst. split_and!; [by rewrite (step_size _ _ _ Hstep)|done|].
    by eapply spec_run_snoc.
Qed.

(** *** One thread *)

(** The queue holds [xs] and nobody uses it; [log] are all values pushed. *)
Definition holds log q (xs : list T) : Prop :=
  queue_inv log (q, [Idle]) /\ xs = drop (Z.to_nat (tail_seq_ q)) log.

Lemma no_owner o : ~ owner ([Idle] : list (pc T)) o.
Proof. intros (i & p & Hi & Ho). destruct i; simplify_eq/=. Qed.

(** The slot that a push looks at. *)
Lemma head_slot log q (n : Node T) :
  queue_inv log (q, [Idle]) -> node_at q (head_seq_ q) = Some n ->
  if decide (head_seq_ q < tail_seq_ q + size_ q) then seq_ n = head_seq_ q
  else seq_ n = head_seq_ q - size_ q + 1.
Proof.
  intros Hinv Hn. pose proof Hinv as [Hs Hh Ht Hr Hsl Hth Hu]. cbn [fst snd] in *.
  pose proof (shape_pos q Hs) as Hp.
  assert (in_window q (head_seq_ q - size_ q)) as W by (unfold in_window; lia).
  assert (node_at q (head_seq_ q - size_ q) = Some n) as Hn'.
  { rewrite <- Hn. apply node_ext; [|done]. rewrite !index_mod by done.
    replace (head_seq_ q) with (head_seq_ q - size_ q + 1 * size_ q) at 2 by lia.
    by rewrite Z_mod_plus_full. }
  destruct (Hsl _ W) as (n' & Hn2 & Hc). rewrite Hn' in Hn2. injection Hn2 as <-.
  destruct Hc as [(A & B & C)|[(A & B & C & D)|(A & B)]].
  - by apply no_owner in C.
  - rewrite decide_False; [lia|]. intros E. apply (no_owner (false, head_seq_ q - size_ q)).
    apply D. lia.
  - rewrite decide_True by lia. lia.
Qed.

Lemma tail_slot log q (n : Node T) :
  queue_inv log (q, [Idle]) -> node_at q (tail_seq_ q) = Some n ->
  if decide (tail_seq_ q < head_seq_ q)
  then seq_ n = tail_seq_ q + 1 /\ data n = log !! Z.to_nat (tail_seq_ q)
  else seq_ n = tail_seq_ q.
Proof.
  intros Hinv Hn. pose proof Hinv as [Hs Hh Ht Hr Hsl Hth Hu]. cbn [fst snd] in *.
  pose proof (shape_pos q Hs) as Hp. case_decide as Hd.
  - assert (in_window q (tail_seq_ q)) as W by (unfold in_window; lia).
    destruct (Hsl _ W) as (n' & Hn2 & Hc). rewrite Hn in Hn2. injection Hn2 as <-.
    destruct Hc as [(A & B & C)|[(A & B & C & D)|(A & B)]]; [by apply no_owner in C|done|lia].
  - assert (tail_seq_ q = head_seq_ q) as E by lia. rewrite E in Hn.
    pose proof (head_slot log q n Hinv Hn) as Hsl2. rewrite decide_True in Hsl2 by lia. lia.
Qed.

(** The two operations of one thread. *)
Lemma enqueue_alone log q xs x :
  holds log q xs -> few_pushes (size_ q) (log ++ [x]) ->
  if decide (zlen xs < size_ q) then
    exists q', enqueue 1 x q = Ok (true, q') /\ holds (log ++ [x]) q' (xs ++ [x])
  else enqueue 1 x q = Ok (false, q).
Proof.
  intros [Hinv ->] Hf. pose proof Hinv as [Hs Hh Ht Hr Hsl Hth Hu]. cbn [fst snd] in *.
  pose proof (shape_pos q Hs) as Hp. unfold few_pushes in Hf. rewrite length_app in Hf.
  cbn [length] in Hf.
  destruct (node_exists q (head_seq_ q) Hs) as [nh Hnh].
  pose proof (head_slot log q nh Hinv Hnh) as Hsh.
  rewrite length_drop.
  unfold enqueue. erewrite bind_run by reflexivity. cbn [enqueue_loop].
  erewrite bind_run by reflexivity. rewrite Hnh.
  destruct (decide (head_seq_ q < tail_seq_ q + size_ q)) as [Hroom|Hroom].
  - rewrite decide_True by lia. rewrite Hsh. rewrite dif_small by lia.
    rewrite decide_True, decide_True, u64_small by lia. eexists. split; [reflexivity|].
    destruct (local_step log q [Idle] 0 Idle (ECas x (head_seq_ q)) Hinv) as [I1 _];
      [done|done|cbn; split; [lia|intros _; by exists nh]|].
    destruct (push_step log q _ 0 x I1 eq_refl) as [I2 _].
    pose proof (data_step _ _ _ 0 x (head_seq_ q) I2 eq_refl) as I3.
    pose proof (publish_step _ _ _ 0 x (head_seq_ q) I3 eq_refl) as I4.
    split; [exact I4|].
    rewrite tail_set_seq, tail_set_data. cbn [tail_seq_ set_head]. by rewrite drop_app_le by lia.
  - rewrite decide_False by lia. rewrite Hsh. rewrite dif_small by lia.
    by rewrite decide_False, decide_True by lia.
Qed.

Lemma dequeue_alone log q xs (x : T) :
  holds log q xs -> few_pushes (size_ q) (log ++ [x]) ->
  match xs with
  | [] => dequeue 1 q = Ok (None, q)
  | y :: ys => exists q', dequeue 1 q = Ok (Some (Some y), q') /\ holds log q' ys
  end.
Proof.
  intros [Hinv ->] Hf. pose proof Hinv as [Hs Hh Ht Hr Hsl Hth Hu]. cbn [fst snd] in *.
  pose proof (shape_pos q Hs) as Hp. unfold few_pushes in Hf. rewrite length_app in Hf.
  cbn [length] in Hf.
  destruct (node_exists q (tail_seq_ q) Hs) as [nt Hnt].
  pose proof (tail_slot log q nt Hinv Hnt) as Hst.
  destruct (decide (tail_seq_ q < head_seq_ q)) as [Hlt|Hge].
  - destruct Hst as [Hst Hdata].
    destruct (lookup_lt_is_Some_2 log (Z.to_nat (tail_seq_ q))) as [y Hy]; [lia|].
    rewrite (drop_S _ _ _ Hy). eexists. split.
    { unfold dequeue. erewrite bind_run by reflexivity. cbn [dequeue_loop].
      erewrite bind_run by reflexivity. rewrite Hnt, Hst, u64_small by lia.
      rewrite dif_small by lia. rewrite decide_True, decide_True by lia.
      rewrite (shape_mask q Hs), u64_small, Hdata, Hy by lia. reflexivity. }
    destruct (local_step log q [Idle] 0 Idle (DCas (tail_seq_ q)) Hinv) as [I1 _];
      [done|done|cbn; split; [lia|intros _; by exists nt]|].
    destruct (pop_step log q _ 0 I1 eq_refl) as [I2 _].
    destruct (local_step log _ _ 0 (DData (tail_seq_ q))
      (DRelease (Some y) (tail_seq_ q)) I2 eq_refl eq_refl) as [I3 _].
    { cbn. split_and!; [lia|lia|unfold in_window; cbn; lia|by exists nt|done]. }
    pose proof (release_step _ _ _ 0 (Some y) (tail_seq_ q) I3 eq_refl) as I4.
    cbn [size_ set_tail] in I4. split.
    + replace (tail_seq_ q + (size_ q - 1) + 1) with (tail_seq_ q + size_ q) by lia.
      exact I4.
    + replace (S (Z.to_nat (tail_seq_ q))) with (Z.to_nat (tail_seq_ q + 1)) by lia.
      by rewrite tail_set_seq.
  - rewrite drop_ge by lia. unfold dequeue. erewrite bind_run by reflexivity.
    cbn [dequeue_loop]. erewrite bind_run by reflexivity.
    rewrite Hnt, Hst, u64_small by lia. rewrite dif_small by lia.
    by rewrite decide_False, decide_True by lia.
Qed.
End runs.

(** ** Theorems *)

(** C8: the queue, used by any number of threads, whose accesses of the shared
    variables interleave in any way, refines the bounded first-in-first-out
    queue: a push or a pop takes effect when its compare-exchange succeeds,
    every pop returns the oldest value not yet popped, no value is lost,
    duplicated or overwritten, there are never more values than slots, false is
    returned only by a full or empty queue or while the slot at that end is
    still in use. *)
Theorem mpmc_refines_fifo {T} k n (q : MpmcQueue T) ls c :
  1 <= k <= 61 -> MpmcQueue_init (2 ^ k) = Ok q ->
  run (q, replicate n Idle) ls c -> few_pushes (2 ^ k) (pushes ls) ->
  spec_run (2 ^ k) ([], replicate n PNone) ls (abstraction (pushes ls) c) /\
  zlen (abstraction (pushes ls) c).1 <= 2 ^ k /\ queue_inv (pushes ls) c.
Proof.
  intros Hk Hq Hrun Hf. rewrite init_run in Hq by done. injection Hq as <-.
  destruct (run_refines (2 ^ k) _ _ _ Hrun) as (Hs & Hinv & Hsp);
    [done|by apply fresh_inv|done|].
  split_and!; [|..|done].
  - unfold abstraction in Hsp at 1. cbn [fst snd] in Hsp.
    by rewrite fmap_replicate in Hsp.
  - pose proof (qi_head _ _ Hinv). pose proof (qi_tail _ _ Hinv). pose proof (qi_room _ _ Hinv).
    unfold abstraction. cbn [fst]. rewrite length_drop. lia.
Qed.

(** C24: the assertion of the constructor, [(size & (~size + 1)) == size], accepts exactly
    the powers of two, for every size of 64 bits; and for these, [seq & mask_] is
    the sequence number modulo the size. *)
Theorem size_check_equiv {T} size :
  0 <= size < 2 ^ 64 ->
  size_ok size = power_of_two size /\
  forall q : MpmcQueue T, MpmcQueue_init size = Ok q ->
    forall s, 0 <= s -> index_of q s = s mod size.
Proof.
  intros Hsize. split; [by apply size_ok_eq|]. unfold MpmcQueue_init.
  rewrite size_ok_eq by done. destruct (power_of_two size) eqn:E; [|done]. intros q [= <-] s Hs.
  apply andb_true_iff in E as [Hpos%Z.ltb_lt Hpow%Z.eqb_eq]. unfold index_of. cbn [mask_].
  rewrite u64_small by (change 18446744073709551616 with (2 ^ 64); lia).
  rewrite <- Hpow at 1. replace (2 ^ Z.log2 size - 1) with (Z.ones (Z.log2 size))
    by (rewrite Z.ones_equiv; lia).
  rewrite Z.land_ones, Hpow; [done|apply Z.log2_nonneg].
Qed.

(** Used by one thread, the queue is a bounded first-in-first-out queue:
    [enqueue] appends and returns true, or returns false when there are [size_]
    values; [dequeue] takes the oldest value, or returns false when there is
    none; the loops run once. *)
Theorem mpmc_sequential {T} log (q : MpmcQueue T) xs x :
  holds log q xs -> few_pushes (size_ q) (log ++ [x]) ->
  (if decide (zlen xs < size_ q) then
     exists q', enqueue 1 x q = Ok (true, q') /\ holds (log ++ [x]) q' (xs ++ [x])
   else enqueue 1 x q = Ok (false, q)) /\
  match xs with
  | [] => dequeue 1 q = Ok (None, q)
  | y :: ys => exists q', dequeue 1 q = Ok (Some (Some y), q') /\ holds log q' ys
  end.
Proof. intros Hq Hf. split; [by apply enqueue_alone|by eapply dequeue_alone]. Qed.

(** A queue of size 1, which the constructor accepts, is broken: the second
    [enqueue] overwrites the value nobody has read, and then [dequeue] loops for
    ever. *)
Theorem mpmc_size_one {T} (x y : T) :
  exists q0 q1 q2,
    MpmcQueue_init 1 = Ok q0 /\
    enqueue 1 x q0 = Ok (true, q1) /\ enqueue 1 y q1 = Ok (true, q2) /\
    data <$> buffer_ q2 = [Some y] /\
    forall fuel, dequeue fuel q2 = Fault OutOfFuel.
Proof.
  exists (fresh_queue 1),
    {| size_ := 1; mask_ := 0; buffer_ := [{| data := Some x; seq_ := 1 |}];
       head_seq_ := 1; tail_seq_ := 0 |},
    {| size_ := 1; mask_ := 0; buffer_ := [{| data := Some y; seq_ := 2 |}];
       head_seq_ := 2; tail_seq_ := 0 |}.
  split_and!; [vm_compute; reflexivity..|]. intros fuel. unfold dequeue. erewrite bind_run by reflexivity.
  induction fuel as [|fuel IH]; [done|]. exact IH.
Qed.

(** ** Witnesses *)

(** Two threads on a queue of two slots: both load, the first wins the slot,
    the second retries and takes the other. *)
Definition two_threads : list (label Z) :=
  [LTau; LTau; LTau; LTau; LTau; LTau; LPush 0 7; LTau; LTau; LPush 1 8].

Lemma two_threads_run :
  exists c, run (fresh_queue 2, replicate 2 Idle) two_threads c /\
    c.2 = [EData 7 0; EData 8 1].
Proof.
  eexists. split.
  - change two_threads with ((((((((((([] ++ [LTau]) ++ [LTau]) ++ [LTau]) ++ [LTau]) ++
      [LTau]) ++ [LTau]) ++ [LPush 0 7]) ++ [LTau]) ++ [LTau]) ++ [LPush 1 8]) : list (label Z)).
    eapply run_snoc; [eapply run_snoc; [eapply run_snoc; [eapply run_snoc; [eapply run_snoc;
      [eapply run_snoc; [eapply run_snoc; [eapply run_snoc; [eapply run_snoc; [eapply run_snoc;
      [apply run_nil|]|]|]|]|]|]|]|]|]|].
    + eapply (step_thread 0); [reflexivity|apply (step_call_enqueue 0 _ 7)].
    + eapply (step_thread 1); [reflexivity|apply (step_call_enqueue 1 _ 8)].
    + eapply (step_thread 0); [reflexivity|constructor].
    + eapply (step_thread 1); [reflexivity|constructor].
    + eapply (step_thread 0); [reflexivity|eapply step_enqueue_free; reflexivity].
    + eapply (step_thread 1); [reflexivity|eapply step_enqueue_free; reflexivity].
    + eapply (step_thread 0); [reflexivity|constructor; reflexivity].
    + eapply (step_thread 1); [reflexivity|apply step_enqueue_retry].
    + eapply (step_thread 1); [reflexivity|eapply step_enqueue_free; reflexivity].
    + eapply (step_thread 1); [reflexivity|constructor; reflexivity].
  - reflexivity.
Qed.

Theorem mpmc_refines_fifo_witness :
  exists c, run (fresh_queue 2, replicate 2 Idle) two_threads c /\
    spec_run 2 ([], replicate 2 PNone) two_threads ([7; 8], [PPush; PPush]).
Proof.
  destruct two_threads_run as (c & Hrun & Hc).
  destruct (mpmc_refines_fifo 1 2 (fresh_queue 2) two_threads c ltac:(lia) eq_refl Hrun eq_refl)
    as (Hsp & _ & Hinv).
  exists c. split; [exact Hrun|].
  assert (abstraction (pushes two_threads) c = ([7; 8], [PPush; PPush])) as <-; [|exact Hsp].
  unfold abstraction. rewrite Hc. cbn [fmap list_fmap].
  assert (tail_seq_ c.1 = 0) as ->; [|reflexivity].
  assert (forall c0 ls c, run c0 ls c -> Forall (fun l => l = LTau \/ exists i x, l = LPush i x) ls ->
    tail_seq_ (T := Z) c.1 = tail_seq_ c0.1) as Hsame.
  { clear. intros c0 ls c Hrun. induction Hrun as [|c0 ls c1 l c2 Hrun IH Hstep]; [done|].
    intros [Hls [Hl _]%Forall_cons]%Forall_app. rewrite <- (IH Hls).
    destruct Hstep as [i q q' ts p p' l Hi Hst].
    destruct Hst; try done; try (unfold set_data; cbn; by destruct (node_at _ _));
      destruct Hl as [|(? & ? & ?)]; done. }
  rewrite (Hsame _ _ _ Hrun); [done|].
  repeat (apply Forall_cons; split; [first [by left|right; by eauto]|]). constructor.
Defined.

Theorem mpmc_sequential_witness :
  (exists q', enqueue 1 5 (fresh_queue 2) = Ok (true, q') /\ holds ([] ++ [5]) q' ([] ++ [5])) /\
  dequeue 1 (fresh_queue (T := Z) 2) = Ok (None, fresh_queue 2).
Proof.
  exact (mpmc_sequential [] (fresh_queue 2) [] 5
    (conj (fresh_inv 1 1 ltac:(lia)) eq_refl) eq_refl).
Defined.

Theorem size_check_equiv_witness :
  size_ok 1024 = power_of_two 1024 /\ size_ok 1000 = power_of_two 1000 /\
  power_of_two 1024 = true /\ power_of_two 1000 = false.
Proof.
  split; [apply (size_check_equiv (T := Z) 1024); lia|].
  split; [apply (size_check_equiv (T := Z) 1000); lia|]. split; reflexivity.
Defined.
