(* ===== verification/MpmcWeak.v ===== *)
(** * cql_mpmc_queue.hpp under its memory orders

    [MpmcQueue] takes every atomic access to be sequentially consistent; the code
    asks for less.  Here the counters [head_seq_] and [tail_seq_] are accessed with
    memory_order_relaxed, the sequence number of a node is loaded with
    memory_order_acquire and stored with memory_order_release, and the data of a
    node are not atomic.  A load may return any value that was stored so far, not
    only the latest; a compare-exchange that succeeds acts on the latest.  What
    happened before a step of a thread is its view: for every slot, how many
    accesses to its data.  A release store attaches the view to the value, an
    acquire load joins the view it finds.  An access to data that is not after
    all earlier ones in this order is a data race. *)

From S2P Require Import Prelude Memory StdMap Common MpmcQueue.

(** ** Views *)

Definition view : Type := nat -> Z.

Definition view_zero : view := fun _ => 0.
Definition view_join (v v' : view) : view := fun s => Z.max (v s) (v' s).
Definition view_set (s : nat) (n : Z) (v : view) : view :=
  fun s' => if decide (s' = s) then n else v s'.

(** [v'] has seen what [v] has. *)
Definition view_le (v v' : view) : Prop := forall s, v s <= v' s.

#[export] Instance view_le_preorder : PreOrder view_le.
Proof. split; [intros v s; lia|intros v1 v2 v3 H12 H23 s; specialize (H12 s); specialize (H23 s); lia]. Qed.

Lemma view_join_l v v' : view_le v (view_join v v').
Proof. intros s. unfold view_join. lia. Qed.

Lemma view_join_r v v' : view_le v' (view_join v v').
Proof. intros s. unfold view_join. lia. Qed.

Lemma view_set_eq s n v : view_set s n v s = n.
Proof. unfold view_set. by rewrite decide_True. Qed.

Lemma view_set_ne s s' n v : s' <> s -> view_set s n v s' = v s'.
Proof. unfold view_set. intros. by rewrite decide_False. Qed.

Section weak.
Context {T : Type}.
Implicit Types (q : MpmcQueue T) (log : list T).

(** ** The memory state

    The latest values, all values that were stored, oldest first, with the views
    of the release stores, and the number of accesses to the data of each slot. *)
Record memory := {
  latest   : MpmcQueue T;
  heads    : list Z;
  tails    : list Z;
  seqs     : nat -> list (Z * view);
  accesses : view
}.

Definition slot_of q (t : Z) : nat := Z.to_nat (index_of q t).

(** A store to [seq], and an access to [data], of the node of ticket [t]. *)
Definition store_seq (t v : Z) (vw : view) (m : memory) : memory := {|
  latest := set_seq t v (latest m); heads := heads m; tails := tails m;
  seqs := fun s => if decide (s = slot_of (latest m) t) then seqs m s ++ [(v, vw)] else seqs m s;
  accesses := accesses m
|}.
Definition access_data (t : Z) (q : MpmcQueue T) (m : memory) : memory := {|
  latest := q; heads := heads m; tails := tails m; seqs := seqs m;
  accesses := view_set (slot_of (latest m) t) (accesses m (slot_of (latest m) t) + 1) (accesses m)
|}.
Definition claim_head (v : Z) (m : memory) : memory := {|
  latest := set_head v (latest m); heads := heads m ++ [v]; tails := tails m;
  seqs := seqs m; accesses := accesses m
|}.
Definition claim_tail (v : Z) (m : memory) : memory := {|
  latest := set_tail v (latest m); heads := heads m; tails := tails m ++ [v];
  seqs := seqs m; accesses := accesses m
|}.

(** The view of a thread after it accessed the data of ticket [t]. *)
Definition after_access (t : Z) (m : memory) (vw : view) : view :=
  view_set (slot_of (latest m) t) (accesses m (slot_of (latest m) t) + 1) vw.

(** ** Steps

    The steps of [thread_step], with the loads and stores as above. *)
Inductive weak_step (i : nat) :
    memory -> pc T * view -> label T -> memory -> pc T * view -> Prop :=
  | weak_call_enqueue m x vw : weak_step i m (Idle, vw) LTau m (ELoad x, vw)
  | weak_enqueue_load m x vw h :
      h ∈ heads m -> weak_step i m (ELoad x, vw) LTau m (ESeq x h, vw)
  | weak_enqueue_free m x h vw v vw' :
      (v, vw') ∈ seqs m (slot_of (latest m) h) -> dif v h = 0 ->
      weak_step i m (ESeq x h, vw) LTau m (ECas x h, view_join vw vw')
  | weak_enqueue_full m x h vw v vw' :
      (v, vw') ∈ seqs m (slot_of (latest m) h) -> dif v h < 0 ->
      weak_step i m (ESeq x h, vw) (LFull i) m (Idle, view_join vw vw')
  | weak_enqueue_reload m x h vw v vw' :
      (v, vw') ∈ seqs m (slot_of (latest m) h) -> 0 < dif v h ->
      weak_step i m (ESeq x h, vw) LTau m (ELoad x, view_join vw vw')
  | weak_enqueue_claim m x h vw :
      head_seq_ (latest m) = h ->
      weak_step i m (ECas x h, vw) (LPush i x) (claim_head (u64 (h + 1)) m) (EData x h, vw)
  | weak_enqueue_retry m x h vw h' :
      h' ∈ heads m -> weak_step i m (ECas x h, vw) LTau m (ESeq x h', vw)
  | weak_enqueue_data m x h vw :
      weak_step i m (EData x h, vw) LTau
        (access_data h (set_data h (Some x) (latest m)) m)
        (EPublish x h, after_access h m vw)
  | weak_enqueue_publish m x h vw :
      weak_step i m (EPublish x h, vw) (LPushed i) (store_seq h (u64 (h + 1)) vw m) (Idle, vw)
  | weak_call_dequeue m vw : weak_step i m (Idle, vw) LTau m (DLoad, vw)
  | weak_dequeue_load m vw t :
      t ∈ tails m -> weak_step i m (DLoad, vw) LTau m (DSeq t, vw)
  | weak_dequeue_ready m t vw v vw' :
      (v, vw') ∈ seqs m (slot_of (latest m) t) -> dif v (u64 (t + 1)) = 0 ->
      weak_step i m (DSeq t, vw) LTau m (DCas t, view_join vw vw')
  | weak_dequeue_empty m t vw v vw' :
      (v, vw') ∈ seqs m (slot_of (latest m) t) -> dif v (u64 (t + 1)) < 0 ->
      weak_step i m (DSeq t, vw) (LEmpty i) m (Idle, view_join vw vw')
  | weak_dequeue_reload m t vw v vw' :
      (v, vw') ∈ seqs m (slot_of (latest m) t) -> 0 < dif v (u64 (t + 1)) ->
      weak_step i m (DSeq t, vw) LTau m (DLoad, view_join vw vw')
  | weak_dequeue_claim m t vw :
      tail_seq_ (latest m) = t ->
      weak_step i m (DCas t, vw) (LPop i) (claim_tail (u64 (t + 1)) m) (DData t, vw)
  | weak_dequeue_retry m t vw t' :
      t' ∈ tails m -> weak_step i m (DCas t, vw) LTau m (DSeq t', vw)
  | weak_dequeue_data m t vw n :
      node_at (latest m) t = Some n ->
      weak_step i m (DData t, vw) LTau (access_data t (latest m) m)
        (DRelease (data n) t, after_access t m vw)
  | weak_dequeue_release m x t vw :
      weak_step i m (DRelease x t, vw) (LPopped i x)
        (store_seq t (u64 (t + mask_ (latest m) + 1)) vw m) (Idle, vw).

Definition weak_config : Type := memory * list (pc T * view).

Inductive weak_run : weak_config -> list (label T) -> weak_config -> Prop :=
  | weak_run_nil c : weak_run c [] c
  | weak_run_snoc c ls m ts i p l m' p' :
      weak_run c ls (m, ts) -> ts !! i = Some p -> weak_step i m p l m' p' ->
      weak_run c (ls ++ [l]) (m', <[i := p']> ts).

(** The queue and the threads as [MpmcQueue] sees them. *)
Definition forget (c : weak_config) : config T := (latest c.1, fst <$> c.2).

(** The ticket whose data a thread is about to access, and a data race. *)
Definition about_to_access (p : pc T) : option Z :=
  match p with EData _ t | DData t => Some t | _ => None end.

Definition racy (c : weak_config) : Prop :=
  exists i p vw t, c.2 !! i = Some (p, vw) /\ about_to_access p = Some t /\
    vw (slot_of (latest c.1) t) < accesses c.1 (slot_of (latest c.1) t).

(** The constructed queue; its threads have seen the construction. *)
Definition fresh_memory (size : Z) : memory := {|
  latest := fresh_queue size; heads := [0]; tails := [0];
  seqs := fun s => [(Z.of_nat s, view_zero)]; accesses := view_zero
|}.

(** ** Specification

    [spec_step], except that a queue that is neither full nor empty may be reported
    to be: a load that returns an old value makes [enqueue] or [dequeue] return
    false. *)
Inductive weak_spec_step (N : Z) : spec T -> label T -> spec T -> Prop :=
  | weak_spec_strong s l s' : spec_step N s l s' -> weak_spec_step N s l s'
  | weak_spec_full s i : weak_spec_step N s (LFull i) s
  | weak_spec_empty s i : weak_spec_step N s (LEmpty i) s.

Inductive weak_spec_run (N : Z) : spec T -> list (label T) -> spec T -> Prop :=
  | weak_spec_nil s : weak_spec_run N s [] s
  | weak_spec_snoc s ls s1 l s2 :
      weak_spec_run N s ls s1 -> weak_spec_step N s1 l s2 -> weak_spec_run N s (ls ++ [l]) s2.
End weak.
Arguments memory : clear implicits.
Arguments weak_config : clear implicits.

(** ** The invariant *)

Section weak_invariant.
Context {T : Type}.
Implicit Types (q : MpmcQueue T) (log : list T) (m : memory T) (ts : list (pc T * view)).
Implicit Types (i : nat) (p : pc T) (vw : view).

(** The data of a slot are accessed twice for each of its tickets: this is how
    often before ticket [t]. *)
Definition rank (N t : Z) : Z := 2 * (t / N).

(** How many accesses a thread must have seen, at the slot of which ticket. *)
Definition needed (N : Z) (p : pc T) : option (Z * Z) :=
  match p with
  | ECas _ t | EData _ t => Some (t, rank N t)
  | EPublish _ t | DCas t | DData t => Some (t, rank N t + 1)
  | DRelease _ t => Some (t, rank N t + 2)
  | _ => None
  end.

Definition view_ok q (p : pc T) (vw : view) : Prop :=
  forall t n, needed (size_ q) p = Some (t, n) -> n <= vw (slot_of q t).

(** So often the data of a slot that has an owner were accessed. *)
Definition owner_ok q (acc : view) (p : pc T) : Prop :=
  forall t n, is_Some (owned p) -> needed (size_ q) p = Some (t, n) -> acc (slot_of q t) = n.

(** A stored value of slot [s] is a ticket or the successor of one, and brings the
    accesses of the tickets before; [cur] is the latest value. *)
Definition msg_ok (N : Z) (s : nat) (cur : Z) (mv : Z * view) : Prop :=
  0 <= mv.1 <= cur /\
  (mv.1 mod N = Z.of_nat s /\ rank N mv.1 <= mv.2 s \/
   (mv.1 - 1) mod N = Z.of_nat s /\ rank N (mv.1 - 1) + 1 <= mv.2 s).

Definition unowned q ts (s : nat) : Prop :=
  forall i p vw w t, ts !! i = Some (p, vw) -> owned p = Some (w, t) -> slot_of q t <> s.

Record weak_inv log (c : weak_config T) : Prop := {
  wi_queue : queue_inv log (forget c);
  wi_heads : forall h, h ∈ heads c.1 -> 0 <= h <= head_seq_ (latest c.1);
  wi_tails : forall t, t ∈ tails c.1 -> 0 <= t <= tail_seq_ (latest c.1);
  wi_seqs  : forall t n mv, node_at (latest c.1) t = Some n ->
               mv ∈ seqs c.1 (slot_of (latest c.1) t) ->
               msg_ok (size_ (latest c.1)) (slot_of (latest c.1) t) (seq_ n) mv;
  wi_views : forall i p vw, c.2 !! i = Some (p, vw) ->
               view_ok (latest c.1) p vw /\ owner_ok (latest c.1) (accesses c.1) p;
  wi_free  : forall t n, node_at (latest c.1) t = Some n ->
               unowned (latest c.1) c.2 (slot_of (latest c.1) t) ->
               (seq_ n = t -> accesses c.1 (slot_of (latest c.1) t) = rank (size_ (latest c.1)) t) /\
               (seq_ n = t + 1 ->
                  accesses c.1 (slot_of (latest c.1) t) = rank (size_ (latest c.1)) t + 1)
}.

(** *** Slots *)

Lemma slot_of_mod q t : queue_shape q -> Z.of_nat (slot_of q t) = t mod size_ q.
Proof.
  intros Hq. pose proof (shape_pos q Hq). unfold slot_of. rewrite index_mod by done.
  pose proof (Z.mod_pos_bound t (size_ q)). lia.
Qed.

Lemma slot_index q t t' :
  queue_shape q -> slot_of q t = slot_of q t' <-> index_of q t = index_of q t'.
Proof.
  intros Hq. pose proof (slot_of_mod q t Hq). pose proof (slot_of_mod q t' Hq).
  rewrite !index_mod by done. lia.
Qed.

Lemma mod_succ N t : 2 <= N -> (t + 1) mod N <> t mod N.
Proof.
  intros HN E. assert (t + 1 = t); [|lia].
  apply (mod_close _ _ N); [lia|done|lia].
Qed.

Lemma rank_next N t : 0 < N -> rank N (t + N) = rank N t + 2.
Proof. intros HN. unfold rank. rewrite <- (Z.mul_1_l N) at 1. rewrite Z.div_add by lia. lia. Qed.

(** What an old sequence number says when it is the one that is waited for. *)
Lemma msg_ticket q t cur vw :
  queue_shape q -> msg_ok (size_ q) (slot_of q t) cur (t, vw) ->
  rank (size_ q) t <= vw (slot_of q t).
Proof.
  intros Hq (_ & [[_ Hr]|[Hm _]]); cbn [fst snd] in *; [done|].
  rewrite slot_of_mod in Hm by done. pose proof (shape_pos q Hq).
  destruct (mod_succ (size_ q) (t - 1)); [lia|]. by rewrite Z.sub_add.
Qed.

Lemma msg_successor q t cur vw :
  queue_shape q -> msg_ok (size_ q) (slot_of q t) cur (t + 1, vw) ->
  rank (size_ q) t + 1 <= vw (slot_of q t).
Proof.
  intros Hq (_ & [[Hm _]|[_ Hr]]); cbn [fst snd] in *.
  - rewrite slot_of_mod in Hm by done. pose proof (shape_pos q Hq).
    by destruct (mod_succ (size_ q) t); [lia|].
  - by rewrite Z.add_simpl_r in Hr.
Qed.

(** The node of a ticket is that of the ticket [size_] before. *)
Lemma node_prev q t : queue_shape q -> node_at q (t - size_ q) = node_at q t.
Proof.
  intros Hs. pose proof (shape_pos q Hs). apply node_ext; [|done]. rewrite !index_mod by done.
  replace t with (t - size_ q + 1 * size_ q) at 2 by lia. by rewrite Z_mod_plus_full.
Qed.

(** A sequence number that was seen for the current head or tail is the latest. *)
Lemma head_fresh log q ps n :
  queue_inv log (q, ps) -> node_at q (head_seq_ q) = Some n -> head_seq_ q <= seq_ n ->
  seq_ n = head_seq_ q.
Proof.
  intros [Hs Hh Ht Hr Hsl Hth Hu] Hn Hle. cbn [fst snd] in *. pose proof (shape_pos q Hs).
  assert (in_window q (head_seq_ q - size_ q)) as W by (unfold in_window; lia).
  rewrite <- node_prev in Hn by done.
  pose proof (slot_seq _ _ _ _ _ Hs (Hsl _ W) Hn). lia.
Qed.

Lemma tail_fresh log q ps n :
  queue_inv log (q, ps) -> node_at q (tail_seq_ q) = Some n -> tail_seq_ q + 1 <= seq_ n ->
  seq_ n = tail_seq_ q + 1.
Proof.
  intros [Hs Hh Ht Hr Hsl Hth Hu] Hn Hle. cbn [fst snd] in *. pose proof (shape_pos q Hs).
  destruct (decide (tail_seq_ q < head_seq_ q)) as [Hlt|Hge].
  - assert (in_window q (tail_seq_ q)) as W by (unfold in_window; lia).
    destruct (Hsl _ W) as (n' & Hn' & Hc). rewrite Hn in Hn'. injection Hn' as <-.
    destruct Hc as [(A & B & C)|[(A & B & C & D)|(A & B)]]; lia.
  - assert (in_window q (tail_seq_ q - size_ q)) as W by (unfold in_window; lia).
    rewrite <- node_prev in Hn by done.
    pose proof (slot_seq _ _ _ _ _ Hs (Hsl _ W) Hn). lia.
Qed.

(** *** Threads *)

Lemma forget_lookup ts i p vw : ts !! i = Some (p, vw) -> (fst <$> ts) !! i = Some p.
Proof. intros Hi. by rewrite list_lookup_fmap, Hi. Qed.

Lemma forget_insert m ts i p vw :
  forget (m, <[i := (p, vw)]> ts) = (latest m, <[i := p]> (fst <$> ts)).
Proof. unfold forget. cbn [fst snd]. by rewrite list_fmap_insert. Qed.

Lemma unowned_insert q ts i p vw p' vw' s :
  ts !! i = Some (p, vw) -> unowned q (<[i := (p', vw')]> ts) s ->
  (forall w t, owned p = Some (w, t) -> slot_of q t <> s) -> unowned q ts s.
Proof.
  intros Hi Hun Hp j pj vj w t Hj Ho. destruct (decide (j = i)) as [->|Hne].
  - simplify_eq. by eapply Hp.
  - eapply (Hun j pj vj); [|done]. by rewrite list_lookup_insert_ne.
Qed.

(** The others are as they were, as far as their slot is the same. *)
Lemma views_insert q (acc acc' : view) ts i p' vw' :
  (forall j p vw, j <> i -> ts !! j = Some (p, vw) -> view_ok q p vw /\ owner_ok q acc p) ->
  (forall j p vw t n, j <> i -> ts !! j = Some (p, vw) -> is_Some (owned p) ->
     needed (size_ q) p = Some (t, n) -> acc' (slot_of q t) = acc (slot_of q t)) ->
  view_ok q p' vw' /\ owner_ok q acc' p' ->
  forall j p vw, <[i := (p', vw')]> ts !! j = Some (p, vw) ->
    view_ok q p vw /\ owner_ok q acc' p.
Proof.
  intros Hold Hacc Hnew j p vw Hj. destruct (decide (j = i)) as [->|Hne].
  - apply list_lookup_insert_Some in Hj as [(_ & Hj & _)|[? _]]; [by simplify_eq|done].
  - rewrite list_lookup_insert_ne in Hj by done. destruct (Hold j p vw Hne Hj) as [Hv Ho].
    split; [done|]. intros t n Hs Hn. rewrite (Hacc j p vw t n) by done. by apply Ho.
Qed.

Lemma needed_owned N (p : pc T) w t : owned p = Some (w, t) -> exists n, needed N p = Some (t, n).
Proof. destruct p; intros; simplify_eq/=; by eexists. Qed.

Lemma needed_ticket N (p : pc T) t n :
  is_Some (owned p) -> needed N p = Some (t, n) -> exists w, owned p = Some (w, t).
Proof. destruct p; intros [? ?]; simplify_eq/=; intros; simplify_eq/=; by eexists. Qed.

(** *** Steps *)

(** A thread without a slot moves. *)
Lemma weak_local log m ts i p vw p' vw' :
  weak_inv log (m, ts) -> ts !! i = Some (p, vw) -> owned p = None -> owned p' = None ->
  thread_ok log (latest m) p' -> view_ok (latest m) p' vw' ->
  weak_inv log (m, <[i := (p', vw')]> ts) /\
  abstraction log (forget (m, <[i := (p', vw')]> ts)) = abstraction log (forget (m, ts)).
Proof.
  intros [Hq Hh Ht Hsq Hv Hf] Hi Hp Hp' Hth Hvw.
  assert (owned p' = owned p) as Ho by congruence.
  destruct (local_step log (latest m) _ i p p' Hq (forget_lookup _ _ _ _ Hi) Ho Hth) as [H1 H2].
  split; [|by rewrite forget_insert]. constructor; cbn [fst snd] in *; try done.
  - by rewrite forget_insert.
  - apply views_insert with (acc := accesses m); [intros; by eapply Hv|done|].
    split; [done|]. intros t n [? ?]. congruence.
  - intros t n Hn Hun. apply Hf; [done|]. eapply unowned_insert; [done..|]. congruence.
Qed.

(** The slot that a push or a pop claims has no owner. *)
Lemma owned_forget log m ts j p vw w t :
  queue_inv log (forget (m, ts)) -> ts !! j = Some (p, vw) -> owned p = Some (w, t) ->
  in_window (latest m) t /\ seq_at (latest m) t (if w then t else t + 1) /\
  (if w then tail_seq_ (latest m) <= t else 0 <= t < tail_seq_ (latest m)).
Proof. intros Hq Hj Ho. eapply owned_ok; [exact Hq|by eapply forget_lookup|done]. Qed.

Lemma head_unowned log m ts n :
  queue_inv log (forget (m, ts)) -> node_at (latest m) (head_seq_ (latest m)) = Some n ->
  seq_ n = head_seq_ (latest m) ->
  unowned (latest m) ts (slot_of (latest m) (head_seq_ (latest m))).
Proof.
  intros Hq Hn Hseq j p vw w t Hj Ho E. pose proof (qi_shape _ _ Hq) as Hs. cbn in Hs.
  pose proof (shape_pos _ Hs). destruct (owned_forget _ _ _ _ _ _ _ _ Hq Hj Ho) as (W & (n' & Hn' & S) & _).
  pose proof E as E'. apply (f_equal Z.of_nat) in E. rewrite !slot_of_mod in E by done.
  apply slot_index in E'; [|done]. rewrite (node_ext _ _ _ _ E' eq_refl), Hn in Hn'.
  injection Hn' as <-. unfold in_window in W. destruct w; [lia|].
  apply (mod_succ (size_ (latest m)) t); [lia|]. by rewrite <- S, Hseq.
Qed.

Lemma tail_unowned log m ts n :
  queue_inv log (forget (m, ts)) -> node_at (latest m) (tail_seq_ (latest m)) = Some n ->
  seq_ n = tail_seq_ (latest m) + 1 ->
  unowned (latest m) ts (slot_of (latest m) (tail_seq_ (latest m))).
Proof.
  intros Hq Hn Hseq j p vw w t Hj Ho E. pose proof (qi_shape _ _ Hq) as Hs. cbn in Hs.
  pose proof (shape_pos _ Hs). destruct (owned_forget _ _ _ _ _ _ _ _ Hq Hj Ho) as (W & (n' & Hn' & S) & B).
  pose proof E as E'. apply (f_equal Z.of_nat) in E. rewrite !slot_of_mod in E by done.
  apply slot_index in E'; [|done]. rewrite (node_ext _ _ _ _ E' eq_refl), Hn in Hn'.
  injection Hn' as <-. destruct w; [|lia].
  apply (mod_succ (size_ (latest m)) (tail_seq_ (latest m))); [lia|]. by rewrite <- Hseq, S.
Qed.

Lemma weak_push log m ts i x vw :
  let h := head_seq_ (latest m) in
  weak_inv log (m, ts) -> ts !! i = Some (ECas x h, vw) ->
  weak_inv (log ++ [x]) (claim_head (h + 1) m, <[i := (EData x h, vw)]> ts).
Proof.
  intros h [Hq Hh Ht Hsq Hv Hf] Hi. cbn [fst snd] in *.
  pose proof (forget_lookup _ _ _ _ Hi) as Hi'.
  destruct (qi_threads _ _ Hq _ _ Hi') as [_ Hat]. destruct (Hat eq_refl) as (n & Hn & Hseq).
  destruct (Hv _ _ _ Hi) as [Hvi _]. constructor; cbn [fst snd] in *.
  - rewrite forget_insert. by apply push_step.
  - cbn. intros h' [Hh'|Hh'%list_elem_of_singleton]%elem_of_app; [specialize (Hh _ Hh')|];
      pose proof (qi_tail _ _ Hq) as Htl; cbn in Htl; subst h; lia.
  - exact Ht.
  - exact Hsq.
  - apply views_insert with (acc := accesses m); [intros; by eapply Hv|done|]. split; [done|].
    intros t k _ [= <- <-]. apply (Hf h n Hn); [by eapply head_unowned|done].
  - intros t n' Hn' Hun. apply Hf; [done|]. by eapply unowned_insert.
Qed.

Lemma weak_pop log m ts i vw :
  let t := tail_seq_ (latest m) in
  weak_inv log (m, ts) -> ts !! i = Some (DCas t, vw) ->
  weak_inv log (claim_tail (t + 1) m, <[i := (DData t, vw)]> ts).
Proof.
  intros t [Hq Hh Ht Hsq Hv Hf] Hi. cbn [fst snd] in *.
  pose proof (forget_lookup _ _ _ _ Hi) as Hi'.
  destruct (qi_threads _ _ Hq _ _ Hi') as [_ Hat]. destruct (Hat eq_refl) as (n & Hn & Hseq).
  destruct (Hv _ _ _ Hi) as [Hvi _]. constructor; cbn [fst snd] in *.
  - rewrite forget_insert. by apply pop_step.
  - exact Hh.
  - cbn. intros t' [Ht'|Ht'%list_elem_of_singleton]%elem_of_app; [specialize (Ht _ Ht')|];
      pose proof (qi_tail _ _ Hq) as Htl; cbn in Htl; subst t; lia.
  - exact Hsq.
  - apply views_insert with (acc := accesses m); [intros; by eapply Hv|done|]. split; [done|].
    intros t' k _ [= <- <-]. apply (Hf t n Hn); [by eapply tail_unowned|done].
  - intros t' n' Hn' Hun. apply Hf; [done|]. by eapply unowned_insert.
Qed.

(** Another thread that owns a slot owns another slot. *)
Lemma other_slot log m ts i j p p' vw vw' w w' t t' :
  queue_inv log (forget (m, ts)) -> ts !! i = Some (p, vw) -> ts !! j = Some (p', vw') ->
  j <> i -> owned p = Some (w, t) -> owned p' = Some (w', t') ->
  slot_of (latest m) t' <> slot_of (latest m) t.
Proof.
  intros Hq Hi Hj Hne Ho Ho' E. apply slot_index in E; [|exact (qi_shape _ _ Hq)]. revert E.
  eapply (not_owned log (latest m) (fst <$> ts) i j p p'); try done; by eapply forget_lookup.
Qed.

(** The owner of a slot accesses its data; the sequence numbers stay. *)
Lemma weak_access log m ts i p p' vw w t k q' :
  weak_inv log (m, ts) -> ts !! i = Some (p, vw) ->
  owned p = Some (w, t) -> owned p' = Some (w, t) ->
  needed (size_ (latest m)) p = Some (t, k) -> needed (size_ (latest m)) p' = Some (t, k + 1) ->
  size_ q' = size_ (latest m) -> mask_ q' = mask_ (latest m) ->
  head_seq_ q' = head_seq_ (latest m) -> tail_seq_ q' = tail_seq_ (latest m) ->
  (forall u n, node_at q' u = Some n ->
     exists n0, node_at (latest m) u = Some n0 /\ seq_ n0 = seq_ n) ->
  queue_inv log (q', <[i := p']> (fst <$> ts)) ->
  weak_inv log (access_data t q' m, <[i := (p', after_access t m vw)]> ts).
Proof.
  intros [Hq Hh Ht Hsq Hv Hf] Hi Ho Ho' Hk Hk' Esz Emk Ehd Etl Hseq Hq'.
  cbn [fst snd] in *. destruct (Hv _ _ _ Hi) as [Hvi Hoi].
  assert (accesses m (slot_of (latest m) t) = k) as Hacc by (apply Hoi; [by eexists|done]).
  assert (forall u, slot_of q' u = slot_of (latest m) u) as Eslot
    by (intros u; unfold slot_of, index_of; by rewrite Emk).
  assert (needed (size_ q') p' = Some (t, k + 1)) as Hk2 by (by rewrite Esz).
  constructor; cbn [fst snd access_data latest heads tails seqs accesses].
  - rewrite forget_insert. exact Hq'.
  - by rewrite Ehd.
  - by rewrite Etl.
  - intros u n mv Hn. rewrite Eslot, Esz. destruct (Hseq u n Hn) as (n0 & Hn0 & <-).
    by apply Hsq.
  - apply views_insert with (acc := accesses m).
    + intros j pj vj _ Hj. destruct (Hv _ _ _ Hj) as [A B].
      unfold view_ok, owner_ok. rewrite Esz. split.
      * intros u n. rewrite Eslot. apply A.
      * intros u n. rewrite Eslot. apply B.
    + intros j pj vj u n Hne Hj Hown Hnd. rewrite Esz in Hnd. rewrite Eslot.
      destruct (needed_ticket _ _ _ _ Hown Hnd) as [w' Hw'].
      apply view_set_ne. by eapply (other_slot log m ts i j).
    + split; intros u n; [|intros _]; rewrite Hk2, Eslot; intros [= <- <-].
      * unfold after_access. rewrite view_set_eq. lia.
      * rewrite view_set_eq. lia.
  - intros u n Hn Hun. rewrite Eslot in *. rewrite Esz.
    assert (slot_of (latest m) t <> slot_of (latest m) u) as Hne.
    { rewrite <- (Eslot t). apply (Hun i p' (after_access t m vw) w t); [|done].
      apply list_lookup_insert_eq. by eapply lookup_lt_Some. }
    rewrite view_set_ne by done. destruct (Hseq u n Hn) as (n0 & Hn0 & <-).
    apply Hf; [done|]. eapply (unowned_insert (latest m)); [done| |].
    + intros j pj vj w' u' Hj Hoj. rewrite <- (Eslot u'). by eapply Hun.
    + intros w' u' ?. by simplify_eq.
Qed.

(** The owner of a slot stores its next sequence number. *)
Lemma weak_store log m ts i p vw w t k v n0 :
  weak_inv log (m, ts) -> ts !! i = Some (p, vw) -> owned p = Some (w, t) ->
  needed (size_ (latest m)) p = Some (t, k) ->
  node_at (latest m) t = Some n0 -> seq_ n0 <= v ->
  queue_inv log (set_seq t v (latest m), <[i := Idle]> (fst <$> ts)) ->
  msg_ok (size_ (latest m)) (slot_of (latest m) t) v (v, vw) ->
  (forall u, slot_of (latest m) u = slot_of (latest m) t ->
     (v = u -> k = rank (size_ (latest m)) u) /\ (v = u + 1 -> k = rank (size_ (latest m)) u + 1)) ->
  weak_inv log (store_seq t v vw m, <[i := (Idle, vw)]> ts).
Proof.
  intros [Hq Hh Ht Hsq Hv Hf] Hi Ho Hk Hn0 Hle Hq' Hmsg Hrank.
  cbn [fst snd] in *. destruct (Hv _ _ _ Hi) as [Hvi Hoi].
  pose proof (qi_shape _ _ Hq) as Hs. cbn in Hs.
  assert (accesses m (slot_of (latest m) t) = k) as Hacc by (apply Hoi; [by eexists|done]).
  rewrite (set_seq_node _ _ _ _ Hn0) in Hq'.
  assert (forall u n, node_at (set_node t {| data := data n0; seq_ := v |} (latest m)) u = Some n ->
    slot_of (latest m) u = slot_of (latest m) t /\ seq_ n = v \/
    slot_of (latest m) u <> slot_of (latest m) t /\ node_at (latest m) u = Some n) as Hnode.
  { intros u n Hn. destruct (decide (slot_of (latest m) u = slot_of (latest m) t)) as [E|E].
    - left. split; [done|]. rewrite node_set_eq in Hn by (done || by apply slot_index).
      by injection Hn as <-.
    - right. split; [done|]. rewrite node_set_ne in Hn; [done|done|].
      intros E'. apply E. by apply slot_index. }
  constructor; cbn [fst snd store_seq latest heads tails seqs accesses];
    rewrite ?(set_seq_node _ _ _ _ Hn0).
  - rewrite forget_insert. cbn [latest store_seq]. by rewrite (set_seq_node _ _ _ _ Hn0).
  - exact Hh.
  - exact Ht.
  - intros u n mv Hn.
    change (slot_of (set_node _ _ _) u) with (slot_of (latest m) u).
    change (size_ (set_node _ _ _)) with (size_ (latest m)).
    destruct (Hnode u n Hn) as [[E Sn]|[E Hn']].
    + rewrite decide_True, E, Sn by done.
      intros [Hmv|Hmv%list_elem_of_singleton]%elem_of_app; [|by subst mv].
      destruct (Hsq t n0 mv Hn0 Hmv) as [? ?]. split; [lia|done].
    + rewrite decide_False by done. by apply Hsq.
  - apply views_insert with (acc := accesses m); [intros; by eapply Hv|done|].
    split; [by intros ? ?|by intros ? ? [? ?]].
  - intros u n Hn Hun.
    change (slot_of (set_node _ _ _) u) with (slot_of (latest m) u) in *.
    change (size_ (set_node _ _ _)) with (size_ (latest m)).
    destruct (Hnode u n Hn) as [[E Sn]|[E Hn']].
    + rewrite E, Hacc, Sn. by apply Hrank.
    + apply Hf; [done|]. eapply (unowned_insert (latest m)); [done|exact Hun|].
      intros w' u' ?. simplify_eq. congruence.
Qed.
End weak_invariant.

(** ** Refinement *)

Section weak_refinement.
Context {T : Type}.
Implicit Types (q : MpmcQueue T) (log : list T) (m : memory T) (ts : list (pc T * view)).
Implicit Types (i : nat) (p : pc T) (vw : view).

(** A load of a sequence number: a ticket or the successor of one, not newer than the
    latest. *)
Lemma loaded log m ts t v vw :
  weak_inv log (m, ts) -> few_pushes (size_ (latest m)) log ->
  (v, vw) ∈ seqs m (slot_of (latest m) t) ->
  exists n, node_at (latest m) t = Some n /\ 0 <= v <= seq_ n /\ seq_ n < 4611686018427387904 /\
    msg_ok (size_ (latest m)) (slot_of (latest m) t) (seq_ n) (v, vw).
Proof.
  intros Hinv Hf Hv. pose proof (wi_queue _ _ Hinv) as Hq.
  destruct (node_exists (latest m) t (qi_shape _ _ Hq)) as [n Hn].
  destruct (seen log (latest m) (fst <$> ts) t n Hq Hf Hn) as (_ & _ & _ & _ & _ & _ & Hb & _).
  exists n. pose proof (wi_seqs _ _ Hinv t n (v, vw) Hn Hv) as Hm.
  split_and!; [done|apply Hm|apply Hm|lia|done].
Qed.

Lemma weak_free_step log m ts i x h vw v vw' :
  weak_inv log (m, ts) -> ts !! i = Some (ESeq x h, vw) -> few_pushes (size_ (latest m)) log ->
  (v, vw') ∈ seqs m (slot_of (latest m) h) -> dif v h = 0 ->
  thread_ok log (latest m) (ECas x h) /\ view_ok (latest m) (ECas x h) (view_join vw vw').
Proof.
  intros Hinv Hi Hf Hm Hd. pose proof (wi_queue _ _ Hinv) as Hq.
  pose proof (qi_threads _ _ Hq _ _ (forget_lookup _ _ _ _ Hi)) as Hh. cbn in Hh.
  pose proof (qi_head _ _ Hq) as Hlen. pose proof (shape_pos _ (qi_shape _ _ Hq)) as Hp.
  cbn [fst forget] in *. pose proof Hf as Hf'. unfold few_pushes in Hf'.
  destruct (loaded log m ts h v vw' Hinv Hf Hm) as (n & Hn & Hv & Hb & Hok).
  rewrite dif_small in Hd by lia. assert (v = h) as -> by lia. split.
  - cbn. split; [lia|]. intros E. exists n. split; [done|]. rewrite E in *.
    eapply head_fresh; [exact Hq|done|lia].
  - intros t k [= <- <-]. pose proof (msg_ticket _ _ _ _ (qi_shape _ _ Hq) Hok).
    unfold view_join. cbn in *. lia.
Qed.

Lemma weak_ready_step log m ts i t vw v vw' :
  weak_inv log (m, ts) -> ts !! i = Some (DSeq t, vw) -> few_pushes (size_ (latest m)) log ->
  (v, vw') ∈ seqs m (slot_of (latest m) t) -> dif v (u64 (t + 1)) = 0 ->
  thread_ok log (latest m) (DCas t) /\ view_ok (latest m) (DCas t) (view_join vw vw').
Proof.
  intros Hinv Hi Hf Hm Hd. pose proof (wi_queue _ _ Hinv) as Hq.
  pose proof (qi_threads _ _ Hq _ _ (forget_lookup _ _ _ _ Hi)) as Hh. cbn in Hh.
  pose proof (qi_head _ _ Hq) as Hlen. pose proof (qi_tail _ _ Hq) as Htl.
  pose proof (shape_pos _ (qi_shape _ _ Hq)) as Hp.
  cbn [fst forget] in *. pose proof Hf as Hf'. unfold few_pushes in Hf'.
  destruct (loaded log m ts t v vw' Hinv Hf Hm) as (n & Hn & Hv & Hb & Hok).
  rewrite u64_small, dif_small in Hd by lia. assert (v = t + 1) as -> by lia. split.
  - cbn. split; [lia|]. intros E. exists n. split; [done|]. rewrite E in *.
    eapply tail_fresh; [exact Hq|done|lia].
  - intros t' k [= <- <-]. pose proof (msg_successor _ _ _ _ (qi_shape _ _ Hq) Hok).
    unfold view_join. cbn in *. lia.
Qed.

(** The steps that store a sequence number. *)
Lemma weak_publish log m ts i x t vw :
  weak_inv log (m, ts) -> ts !! i = Some (EPublish x t, vw) ->
  weak_inv log (store_seq t (t + 1) vw m, <[i := (Idle, vw)]> ts).
Proof.
  intros Hinv Hi. pose proof (wi_queue _ _ Hinv) as Hq.
  pose proof (qi_shape _ _ Hq) as Hs. cbn in Hs. pose proof (shape_pos _ Hs) as Hp.
  pose proof (qi_tail _ _ Hq) as Htl. cbn in Htl.
  pose proof (forget_lookup _ _ _ _ Hi) as Hi'.
  destruct (qi_threads _ _ Hq _ _ Hi') as (A & B & C & n & Hn & S & D). cbn [fst forget] in *.
  destruct (wi_views _ _ Hinv _ _ _ Hi) as [Hvi _].
  specialize (Hvi t _ eq_refl). cbn [fst] in Hvi.
  eapply weak_store; [exact Hinv|exact Hi|done|done|exact Hn|lia|by eapply publish_step| |].
  - split; cbn [fst snd]; [lia|]. right. rewrite Z.add_simpl_r, slot_of_mod; done.
  - intros u E. apply (f_equal Z.of_nat) in E. rewrite !slot_of_mod in E by done. split; intros E2.
    + subst u. by destruct (mod_succ (size_ (latest m)) t); [lia|].
    + assert (u = t) as -> by lia. done.
Qed.

Lemma weak_release log m ts i x t vw :
  weak_inv log (m, ts) -> ts !! i = Some (DRelease x t, vw) ->
  weak_inv log (store_seq t (t + size_ (latest m)) vw m, <[i := (Idle, vw)]> ts).
Proof.
  intros Hinv Hi. pose proof (wi_queue _ _ Hinv) as Hq.
  pose proof (qi_shape _ _ Hq) as Hs. cbn in Hs. pose proof (shape_pos _ Hs) as Hp.
  pose proof (forget_lookup _ _ _ _ Hi) as Hi'.
  destruct (qi_threads _ _ Hq _ _ Hi') as (A & B & (n & Hn & S) & D). cbn [fst forget] in *.
  destruct (wi_views _ _ Hinv _ _ _ Hi) as [Hvi _].
  specialize (Hvi t _ eq_refl). cbn [fst] in Hvi.
  assert ((t + size_ (latest m)) mod size_ (latest m) = t mod size_ (latest m)) as Hmod.
  { rewrite <- (Z.mul_1_l (size_ (latest m))) at 1. by rewrite Z_mod_plus_full. }
  eapply weak_store; [exact Hinv|exact Hi|done|done|exact Hn|lia|by eapply release_step| |].
  - split; cbn [fst snd]; [lia|]. left. rewrite slot_of_mod, Hmod by done.
    split; [done|]. rewrite rank_next by lia. lia.
  - intros u E. apply (f_equal Z.of_nat) in E. rewrite !slot_of_mod in E by done. split; intros E2.
    + subst u. rewrite rank_next by lia. lia.
    + assert (u = t + size_ (latest m) - 1) as -> by lia.
      destruct (mod_succ (size_ (latest m)) (t + size_ (latest m) - 1)); [lia|].
      rewrite E, Z.sub_add. done.
Qed.

Lemma weak_write log m ts i x t vw :
  weak_inv log (m, ts) -> ts !! i = Some (EData x t, vw) ->
  weak_inv log (access_data t (set_data t (Some x) (latest m)) m,
                <[i := (EPublish x t, after_access t m vw)]> ts).
Proof.
  intros Hinv Hi. pose proof (wi_queue _ _ Hinv) as Hq.
  pose proof (forget_lookup _ _ _ _ Hi) as Hi'. pose proof (qi_shape _ _ Hq) as Hs. cbn in Hs.
  destruct (node_exists _ t Hs) as [n Hn].
  apply (weak_access log m ts i (EData x t) (EPublish x t) vw true t
    (rank (size_ (latest m)) t)); try done; try (by rewrite (set_data_node _ _ _ _ Hn));
    [|by eapply data_step].
  rewrite (set_data_node _ _ _ _ Hn). intros u n' Hn'. destruct (decide (index_of (latest m) u = index_of (latest m) t)) as [E|E].
  - exists n. split; [by rewrite (node_ext _ _ _ _ E eq_refl)|].
    rewrite node_set_eq in Hn' by done. by injection Hn' as <-.
  - rewrite node_set_ne in Hn' by done. by exists n'.
Qed.

Lemma weak_read log m ts i t vw n :
  weak_inv log (m, ts) -> ts !! i = Some (DData t, vw) -> node_at (latest m) t = Some n ->
  weak_inv log (access_data t (latest m) m,
                <[i := (DRelease (data n) t, after_access t m vw)]> ts).
Proof.
  intros Hinv Hi Hn. pose proof (wi_queue _ _ Hinv) as Hq.
  pose proof (forget_lookup _ _ _ _ Hi) as Hi'.
  apply (weak_access log m ts i (DData t) (DRelease (data n) t) vw false t
    (rank (size_ (latest m)) t + 1)); try done.
  - cbn. do 2 f_equal. lia.
  - intros u n' Hn'. by exists n'.
  - by eapply (read_slot_step log (latest m)).
Qed.

Lemma weak_step_refines log m ts i pv l m' pv' :
  weak_inv log (m, ts) -> ts !! i = Some pv -> weak_step i m pv l m' pv' ->
  few_pushes (size_ (latest m)) (log ++ pushed_by l) ->
  weak_inv (log ++ pushed_by l) (m', <[i := pv']> ts) /\
  weak_spec_step (size_ (latest m)) (abstraction log (forget (m, ts))) l
    (abstraction (log ++ pushed_by l) (forget (m', <[i := pv']> ts))).
Proof.
  intros Hinv Hi Hstep Hf. pose proof (wi_queue _ _ Hinv) as Hq.
  pose proof (qi_shape _ _ Hq) as Hs. pose proof (shape_pos _ Hs) as Hp.
  pose proof (qi_head _ _ Hq) as Hh. pose proof (qi_tail _ _ Hq) as Ht. cbn [fst forget] in *.
  pose proof (wi_heads _ _ Hinv) as Hhs. pose proof (wi_tails _ _ Hinv) as Hts.
  assert (few_pushes (size_ (latest m)) log) as Hf0
    by (unfold few_pushes in *; rewrite length_app in Hf; lia).
  destruct pv as [p vw]. pose proof (forget_lookup _ _ _ _ Hi) as Hi'.
  pose proof (qi_threads _ _ Hq _ _ Hi') as Hth. cbn [fst snd] in *.
  assert (forall l' p2 vw2,
    (forall s : spec T, weak_spec_step (size_ (latest m)) s l' s) ->
    owned p = None -> owned p2 = None ->
    thread_ok log (latest m) p2 /\ view_ok (latest m) p2 vw2 ->
    weak_inv log (m, <[i := (p2, vw2)]> ts) /\
    weak_spec_step (size_ (latest m)) (abstraction log (forget (m, ts))) l'
      (abstraction log (forget (m, <[i := (p2, vw2)]> ts)))) as Hquiet.
  { intros l' p2 vw2 Hl Ho Ho2 [Hp2 Hv2].
    destruct (weak_local log m ts i p vw p2 vw2) as [H1 ->]; [done..|]. by split. }
  assert (forall s : spec T, weak_spec_step (size_ (latest m)) s LTau s) as Htau
    by (intros s; apply weak_spec_strong, spec_tau).
  unfold few_pushes in Hf0.
  inversion Hstep; subst; cbn [pushed_by thread_ok] in *; rewrite ?app_nil_r in *;
    try (apply Hquiet; try done; first [by constructor | split; [cbn; by auto|by intros ? ?]]).
  - apply Hquiet; try done. by eapply weak_free_step.
  - rewrite !forget_insert, u64_small by lia. split; [by apply weak_push|].
    by apply weak_spec_strong, push_spec.
  - rewrite !forget_insert. split; [by apply weak_write|]. cbn [latest access_data].
    rewrite (abstraction_eq log (latest m) _ _ i (EData x h));
      [apply Htau|done|apply tail_set_data|done].
  - destruct Hth as (A & B & _). unfold in_window in B. cbn [fst forget] in *.
    rewrite !forget_insert, u64_small by lia.
    split; [by eapply weak_publish|]. by eapply weak_spec_strong, pushed_spec.
  - apply Hquiet; try done. by eapply weak_ready_step.
  - rewrite !forget_insert, u64_small by lia. split; [by apply weak_pop|].
    by apply weak_spec_strong, pop_spec.
  - rewrite !forget_insert. split; [by apply weak_read|]. cbn [latest access_data].
    destruct (read_slot_step log (latest m) _ i t n Hq Hi') as [_ E]; [done|].
    cbn [snd] in E. rewrite E. apply Htau.
  - destruct Hth as (A & B & _). unfold in_window in B. cbn [fst forget] in *.
    rewrite !forget_insert, (shape_mask _ Hs), u64_small by lia.
    replace (t + (size_ (latest m) - 1) + 1) with (t + size_ (latest m)) by lia.
    split; [by eapply weak_release|]. by eapply weak_spec_strong, popped_spec.
Qed.

Lemma weak_size i m pv l m' pv' : weak_step i m pv l m' pv' -> size_ (latest m') = size_ (latest m).
Proof.
  intros Hstep. inversion Hstep; subst; try done; cbn [latest access_data store_seq];
    unfold set_data, set_seq; by destruct (node_at _ _).
Qed.

Lemma weak_run_refines N (c0 : weak_config T) ls c :
  weak_run c0 ls c -> size_ (latest c0.1) = N -> weak_inv [] c0 -> few_pushes N (pushes ls) ->
  size_ (latest c.1) = N /\ weak_inv (pushes ls) c /\
  weak_spec_run N (abstraction [] (forget c0)) ls (abstraction (pushes ls) (forget c)).
Proof.
  intros Hrun HN H0. induction Hrun as [c0|c0 ls m ts i p l m' p' Hrun IH Hi Hstep]; intros Hf.
  - split_and!; [done|done|constructor].
  - rewrite pushes_snoc in *. destruct IH as (Hs & Hinv & Hsp); [done|done| |].
    { unfold few_pushes in *. rewrite length_app in Hf. lia. }
    cbn [fst] in *. rewrite <- Hs in Hf.
    destruct (weak_step_refines _ _ _ _ _ _ _ _ Hinv Hi Hstep Hf) as [Hinv2 Hst].
    rewrite Hs in Hst. split_and!; [by rewrite (weak_size _ _ _ _ _ _ Hstep)|done|].
    by eapply weak_spec_snoc.
Qed.

Lemma fresh_weak_inv k n :
  1 <= k <= 61 ->
  weak_inv (T := T) [] (fresh_memory (2 ^ k), replicate n (Idle, view_zero)).
Proof.
  intros Hk. pose proof (fresh_inv (T := T) k n Hk) as Hq.
  pose proof (qi_shape _ _ Hq) as Hs. cbn [fst] in Hs.
  pose proof (shape_pos _ Hs) as Hp. cbn [size_ fresh_queue] in Hp.
  assert (forall t n, node_at (fresh_queue (T := T) (2 ^ k)) t = Some n ->
    seq_ n = t mod 2 ^ k) as Hnode.
  { intros t nd Hn. unfold node_at in Hn. rewrite index_mod in Hn by done.
    cbn [size_ fresh_queue buffer_] in Hn. rewrite list_lookup_fmap in Hn.
    pose proof (Z.mod_pos_bound t (2 ^ k)). rewrite lookup_seq_lt in Hn by lia.
    injection Hn as <-. cbn. lia. }
  assert (forall t : Z, rank (2 ^ k) (t mod 2 ^ k) = 0) as Hrank.
  { intros t. unfold rank. pose proof (Z.mod_pos_bound t (2 ^ k)).
    rewrite Z.div_small by lia. done. }
  constructor; cbn [fst snd fresh_memory latest heads tails seqs accesses].
  - unfold forget. cbn [fst snd latest]. by rewrite fmap_replicate.
  - by intros h Hh%list_elem_of_singleton; subst h.
  - by intros h Hh%list_elem_of_singleton; subst h.
  - intros t nd mv Hn Hmv%list_elem_of_singleton. subst mv.
    change (size_ (fresh_queue _)) with (2 ^ k). pose proof (slot_of_mod _ t Hs) as Hslot.
    cbn [size_ fresh_queue] in Hslot. pose proof (Z.mod_pos_bound t (2 ^ k)).
    rewrite (Hnode t nd Hn). split; cbn [fst snd]; rewrite Hslot; [lia|]. left.
    rewrite Z.mod_mod, Hrank by lia. done.
  - by intros i p vw [[= -> ->] _]%lookup_replicate.
  - intros t nd Hn _. rewrite (Hnode t nd Hn). change (size_ (fresh_queue _)) with (2 ^ k).
    pose proof (Z.mod_pos_bound t (2 ^ k)). split; intros E.
    + rewrite <- E, Hrank. done.
    + destruct (mod_succ (2 ^ k) t); [lia|]. rewrite <- E at 1. by rewrite Z.mod_mod by lia.
Qed.
End weak_refinement.

(** ** Theorems *)

(** C9: the queue under the memory orders of the code: however the accesses of any number
    of threads interleave, and whatever old values their loads return, no access to
    the data of a node races with another, and the queue refines the bounded
    first-in-first-out queue, up to calls that return false although the queue is
    neither full nor empty: no value is lost, duplicated, overwritten or read half
    written, and there are never more values than slots. *)
Theorem mpmc_weak {T} k n (q : MpmcQueue T) (ls : list (label T)) (c : weak_config T) :
  1 <= k <= 61 -> MpmcQueue_init (2 ^ k) = Ok q ->
  weak_run (fresh_memory (2 ^ k), replicate n (Idle, view_zero)) ls c ->
  few_pushes (2 ^ k) (pushes ls) ->
  latest (fresh_memory (2 ^ k)) = q /\ ~ racy c /\
  weak_spec_run (2 ^ k) ([], replicate n PNone) ls (abstraction (pushes ls) (forget c)) /\
  zlen (abstraction (pushes ls) (forget c)).1 <= 2 ^ k.
Proof.
  intros Hk Hq Hrun Hf. rewrite init_run in Hq by done. injection Hq as <-.
  destruct (weak_run_refines (2 ^ k) _ _ _ Hrun) as (Hs & Hinv & Hsp);
    [done|by apply fresh_weak_inv|done|]. split_and!; [done|..].
  - intros (i & p & vw & t & Hi & Ha & Hlt). destruct (wi_views _ _ Hinv _ _ _ Hi) as [Hv Ho].
    assert (exists r, needed (size_ (latest c.1)) p = Some (t, r) /\ is_Some (owned p)) as (r & Hr & Hw).
    { destruct p; simplify_eq/=; eexists; (split; [done|by eexists]). }
    specialize (Hv t r Hr). specialize (Ho t r Hw Hr). lia.
  - change (abstraction [] (forget (fresh_memory (2 ^ k), replicate n (Idle, view_zero)))) with
      ([] : list T, pending_of [] <$> (fst <$> replicate n (Idle (T := T), view_zero))) in Hsp.
    by rewrite !fmap_replicate in Hsp.
  - pose proof (wi_queue _ _ Hinv) as Hq. pose proof (qi_head _ _ Hq).
    pose proof (qi_tail _ _ Hq). pose proof (qi_room _ _ Hq).
    unfold abstraction. cbn [fst forget] in *. rewrite length_drop. lia.
Qed.

(** ** An old value

    A first thread pushes and pops twice, on a queue of two slots; a second one then
    loads the new head and the first sequence number of its slot. *)
Lemma weak_run_cons {T} m ts i p l m' p' ls (c : weak_config T) :
  ts !! i = Some p -> weak_step i m p l m' p' -> weak_run (m', <[i := p']> ts) ls c ->
  weak_run (m, ts) (l :: ls) c.
Proof.
  intros Hi Hs Hrun. remember (m', <[i := p']> ts) as c1 eqn:E. revert E.
  induction Hrun as [c1|c1 ls m1 ts1 j p1 l1 m2 p2 Hrun IH Hj Hstep]; intros ->.
  - by apply (weak_run_snoc _ [] m ts i p l m' p'); [constructor|..].
  - rewrite app_comm_cons. eapply weak_run_snoc; [by apply IH|done..].
Qed.

(** A step of thread [i]; a load of the value number [k]; a call of thread [i] whose
    loads return the values number [c] of the counter and [k] of the node. *)
#[local] Ltac weak_go i tac := eapply (weak_run_cons _ _ i); [reflexivity|tac|].
#[local] Ltac stored k := eapply (list_elem_of_lookup_2 _ k); reflexivity.
#[local] Ltac weak_enqueue i x c k :=
  weak_go i ltac:(apply (weak_call_enqueue _ _ x));
  weak_go i ltac:(eapply weak_enqueue_load; stored c);
  weak_go i ltac:(eapply weak_enqueue_free; [stored k|reflexivity]);
  weak_go i ltac:(apply weak_enqueue_claim; reflexivity);
  weak_go i ltac:(apply weak_enqueue_data);
  weak_go i ltac:(apply weak_enqueue_publish).
#[local] Ltac weak_dequeue i c k :=
  weak_go i ltac:(apply weak_call_dequeue);
  weak_go i ltac:(eapply weak_dequeue_load; stored c);
  weak_go i ltac:(eapply weak_dequeue_ready; [stored k|reflexivity]);
  weak_go i ltac:(apply weak_dequeue_claim; reflexivity);
  weak_go i ltac:(eapply weak_dequeue_data; reflexivity);
  weak_go i ltac:(apply weak_dequeue_release).

Definition two_rounds : list (label Z) :=
  [LTau; LTau; LTau; LPush 0 7; LTau; LPushed 0; LTau; LTau; LTau; LPop 0; LTau; LPopped 0 (Some 7);
   LTau; LTau; LTau; LPush 0 8; LTau; LPushed 0; LTau; LTau; LTau; LPop 0; LTau; LPopped 0 (Some 8);
   LTau; LTau; LFull 1].

(** [enqueue] returns false on a queue that never held more than one of its two
    values, while nobody else uses it. *)
Theorem mpmc_spurious_full :
  exists c, weak_run (fresh_memory 2, replicate 2 (Idle, view_zero)) two_rounds c /\
    abstraction (pushes two_rounds) (forget c) = ([], [PNone; PNone]).
Proof.
  eexists. split.
  - unfold two_rounds.
    weak_enqueue 0%nat 7 0%nat 0%nat. weak_dequeue 0%nat 0%nat 1%nat.
    weak_enqueue 0%nat 8 1%nat 0%nat. weak_dequeue 0%nat 1%nat 1%nat.
    weak_go 1%nat ltac:(apply (weak_call_enqueue _ _ 9)).
    weak_go 1%nat ltac:(eapply weak_enqueue_load; stored 2%nat).
    weak_go 1%nat ltac:(eapply weak_enqueue_full; [stored 0%nat|reflexivity]).
    apply weak_run_nil.
  - vm_compute. reflexivity.
Qed.

(** ** Witness *)

Theorem mpmc_weak_witness :
  exists c, weak_run (fresh_memory 2, replicate 2 (Idle, view_zero)) two_rounds c /\
    ~ racy c /\ weak_spec_run 2 ([], replicate 2 PNone) two_rounds ([], [PNone; PNone]).
Proof.
  destruct mpmc_spurious_full as (c & Hrun & Habs). exists c. split; [exact Hrun|].
  destruct (mpmc_weak 1 2 (fresh_queue 2) two_rounds c ltac:(lia) eq_refl Hrun eq_refl)
    as (_ & Hrace & Hspec & _).
  split; [exact Hrace|]. by rewrite Habs in Hspec.
Defined.
