(* ===== verification/Request.v ===== *)
(** * cql_request.hpp

    A request: the slot in which a result is handed from the event loop to the
    threads that wait for it.  The object and its constructor are data; [wait],
    [wait_for], [notify] and the callback on the worker thread are the steps of
    threads that share the flag, the mutex and the condition variable.  Here the
    flag is sequentially consistent; [RequestWeak] has its memory orders. *)

From stdpp Require Import relations.
From S2P Require Import Prelude Memory StdMap Common.

(** ** The object

    [Data] and [Result] are the template parameters; the error is an [Error*].
    The callback is the client's: here only whether there is one. *)
Record Request (Data Result : Type) := {
  rq_flag           : bool;
  rq_error          : option Error;
  rq_data           : Data;
  rq_result         : option Result;
  rq_callback       : bool;
  rq_use_local_loop : bool
}.
Arguments Build_Request {Data Result} _ _ _ _ _ _.
Arguments rq_flag {Data Result} _.
Arguments rq_error {Data Result} _.
Arguments rq_data {Data Result} _.
Arguments rq_result {Data Result} _.
Arguments rq_callback {Data Result} _.
Arguments rq_use_local_loop {Data Result} _.

Section request.
Context {Data Result : Type}.

(** What the construction of [Data] from NULL gives: for a std::string the
    standard library decides (libstdc++ throws std::logic_error). *)
Variable data_of_null : outcome Data.

Definition Request_init : outcome (Request Data Result) :=
  match data_of_null with
  | Ok d => Ok {| rq_flag := false; rq_error := None; rq_data := d; rq_result := None;
                  rq_callback := false; rq_use_local_loop := false |}
  | Fault f => Fault f
  end.
End request.

(** ** Threads *)

Inductive wait_result : Set :=
  | WReturned              (* [wait] returned *)
  | WReady (b : bool)      (* [wait_for] returned [b] *)
  | WFellOff.              (* [wait_for] ended without a return value *)

(** Where a thread is: in [wait] or ([timed]) [wait_for], in [notify], or on a
    worker thread in [callback_executor]. *)
Inductive rpc : Set :=
  | WStart (timed : bool)                 (* before the load of the flag *)
  | WLock (timed : bool)                  (* before the lock of the mutex *)
  | WCheck (timed last : bool)            (* before [ready()]; [last] after a timeout *)
  | WSleep (timed : bool)                 (* before the unlock and sleep, which are atomic *)
  | WAsleep (timed : bool)
  | WWoken (timed last : bool)            (* before the mutex is locked again *)
  | WUnlock (timed ready : bool)          (* before the mutex is unlocked *)
  | WDone (r : wait_result)
  | NStart                                (* before the store of the flag *)
  | NNotify                               (* before [notify_all] *)
  | NCallback                             (* before the test of the callback *)
  | NDone
  | XStart                                (* the work item, before the callback *)
  | XDone.

Record shared := {
  flag      : bool;
  mutex     : bool;              (* locked *)
  callback  : bool;
  use_local_loop : bool;
  called    : nat;               (* calls of the callback *)
  threads   : list rpc
}.

Definition set_thread (i : nat) (p : rpc) (s : shared) : shared := {|
  flag := flag s; mutex := mutex s; callback := callback s;
  use_local_loop := use_local_loop s; called := called s; threads := <[i := p]> (threads s)
|}.
Definition set_flag (b : bool) (s : shared) : shared := {|
  flag := b; mutex := mutex s; callback := callback s;
  use_local_loop := use_local_loop s; called := called s; threads := threads s
|}.
Definition set_mutex (b : bool) (s : shared) : shared := {|
  flag := flag s; mutex := b; callback := callback s;
  use_local_loop := use_local_loop s; called := called s; threads := threads s
|}.
Definition call_callback (s : shared) : shared := {|
  flag := flag s; mutex := mutex s; callback := callback s;
  use_local_loop := use_local_loop s; called := S (called s); threads := threads s
|}.
(** [uv_queue_work]: the work item is a new thread of the pool. *)
Definition queue_work (s : shared) : shared := {|
  flag := flag s; mutex := mutex s; callback := callback s;
  use_local_loop := use_local_loop s; called := called s;
  threads := threads s ++ [XStart]
|}.

(** [notify_all] wakes the threads that sleep. *)
Definition wake (p : rpc) : rpc :=
  match p with WAsleep t => WWoken t false | _ => p end.
Definition notify_all (s : shared) : shared := {|
  flag := flag s; mutex := mutex s; callback := callback s;
  use_local_loop := use_local_loop s; called := called s; threads := wake <$> threads s
|}.

(** The steps of thread [i].  [spurious] allows a sleeping thread to wake up
    without a notification, which the standard permits but does not promise; a
    timed wait may always end. *)
Inductive req_step (spurious : bool) (i : nat) : shared -> shared -> Prop :=
  | rs_ready s t :
      threads s !! i = Some (WStart t) -> flag s = true ->
      req_step spurious i s
        (set_thread i (WDone (if t then WFellOff else WReturned)) s)
  | rs_not_ready s t :
      threads s !! i = Some (WStart t) -> flag s = false ->
      req_step spurious i s (set_thread i (WLock t) s)
  | rs_lock s t :
      threads s !! i = Some (WLock t) -> mutex s = false ->
      req_step spurious i s (set_thread i (WCheck t false) (set_mutex true s))
  | rs_check_true s t last :
      threads s !! i = Some (WCheck t last) -> flag s = true ->
      req_step spurious i s (set_thread i (WUnlock t true) s)
  | rs_check_false s t :
      threads s !! i = Some (WCheck t false) -> flag s = false ->
      req_step spurious i s (set_thread i (WSleep t) s)
  | rs_check_timeout s t :
      threads s !! i = Some (WCheck t true) -> flag s = false ->
      req_step spurious i s (set_thread i (WUnlock t false) s)
  | rs_sleep s t :
      threads s !! i = Some (WSleep t) ->
      req_step spurious i s (set_thread i (WAsleep t) (set_mutex false s))
  | rs_timeout s :
      threads s !! i = Some (WAsleep true) ->
      req_step spurious i s (set_thread i (WWoken true true) s)
  | rs_spurious s t :
      spurious = true -> threads s !! i = Some (WAsleep t) ->
      req_step spurious i s (set_thread i (WWoken t false) s)
  | rs_relock s t last :
      threads s !! i = Some (WWoken t last) -> mutex s = false ->
      req_step spurious i s (set_thread i (WCheck t last) (set_mutex true s))
  | rs_return s t b :
      threads s !! i = Some (WUnlock t b) ->
      req_step spurious i s
        (set_thread i (WDone (if t then WReady b else WReturned)) (set_mutex false s))
  | rs_store s :
      threads s !! i = Some NStart ->
      req_step spurious i s (set_thread i NNotify (set_flag true s))
  | rs_notify_all s :
      threads s !! i = Some NNotify ->
      req_step spurious i s (set_thread i NCallback (notify_all s))
  | rs_no_callback s :
      threads s !! i = Some NCallback -> callback s = false ->
      req_step spurious i s (set_thread i NDone s)
  | rs_call_local s :
      threads s !! i = Some NCallback -> callback s = true -> use_local_loop s = true ->
      req_step spurious i s (set_thread i NDone (call_callback s))
  | rs_queue_work s :
      threads s !! i = Some NCallback -> callback s = true -> use_local_loop s = false ->
      req_step spurious i s (set_thread i NDone (queue_work s))
  | rs_execute s :
      threads s !! i = Some XStart ->
      req_step spurious i s
        (set_thread i XDone (if callback s then call_callback s else s)).

Inductive req_reach (spurious : bool) : shared -> shared -> Prop :=
  | reach_refl s : req_reach spurious s s
  | reach_step s s1 i s2 :
      req_reach spurious s s1 -> req_step spurious i s1 s2 -> req_reach spurious s s2.

(** A fresh request with threads that are about to wait or to notify. *)
Definition fresh (cb local : bool) (ts : list rpc) : shared := {|
  flag := false; mutex := false; callback := cb; use_local_loop := local;
  called := 0; threads := ts
|}.
Definition starting (p : rpc) : Prop :=
  match p with WStart _ | NStart => True | _ => False end.

(** ** Invariant *)

Definition holds_mutex (p : rpc) : bool :=
  match p with WCheck _ _ | WSleep _ | WUnlock _ _ => true | _ => false end.
Definition after_store (p : rpc) : bool :=
  match p with NNotify | NCallback | NDone => true | _ => false end.
(** How often a thread has called the callback, or will have by its work item. *)
Definition notified (p : rpc) : bool := match p with NDone => true | _ => false end.
Definition in_work (p : rpc) : bool := match p with XStart => true | _ => false end.
Definition worked (p : rpc) : bool := match p with XDone => true | _ => false end.

Definition count (f : rpc -> bool) (ts : list rpc) : nat :=
  length (filter (fun p => f p = true) ts).

(** What a thread may say about the flag and the time out. *)
Definition thread_ok (fl : bool) (p : rpc) : Prop :=
  match p with
  | WUnlock _ true => fl = true
  | WUnlock t false => t = true
  | WCheck t true | WWoken t true => t = true
  | WDone WReturned | WDone (WReady true) | WDone WFellOff => fl = true
  | NNotify | NCallback | NDone => fl = true
  | _ => True
  end.

Record request_inv (s : shared) : Prop := {
  ri_mutex    : count holds_mutex (threads s) = if mutex s then 1%nat else 0%nat;
  ri_threads  : Forall (thread_ok (flag s)) (threads s);
  ri_flag     : flag s = true -> exists p, p ∈ threads s /\ after_store p = true;
  ri_callback : if callback s
                then (called s + count in_work (threads s) = count notified (threads s))%nat
                else called s = 0%nat
}.

Section request_lemmas.
Implicit Types (s : shared) (ts : list rpc).

Abbreviation b2n b := (if b : bool then 1%nat else 0%nat).

Lemma count_cons f p ts : count f (p :: ts) = (b2n (f p) + count f ts)%nat.
Proof. unfold count. rewrite filter_cons. case_decide as Hd; destruct (f p); done. Qed.

Lemma count_insert f ts i p p' :
  ts !! i = Some p ->
  (count f (<[i := p']> ts) + b2n (f p) = count f ts + b2n (f p'))%nat.
Proof.
  revert i. induction ts as [|a ts IH]; intros [|i] Hi; simplify_eq/=.
  - rewrite !count_cons. lia.
  - rewrite !count_cons. specialize (IH i Hi). lia.
Qed.

Lemma count_snoc f ts p : count f (ts ++ [p]) = (count f ts + b2n (f p))%nat.
Proof.
  induction ts as [|a ts IH]; cbn [app].
  - rewrite count_cons. unfold count. cbn. lia.
  - rewrite !count_cons, IH. lia.
Qed.

Lemma count_wake f ts :
  (forall p, f (wake p) = f p) -> count f (wake <$> ts) = count f ts.
Proof.
  intros Hf. induction ts as [|a ts IH]; [done|]. cbn [fmap list_fmap].
  by rewrite !count_cons, Hf, IH.
Qed.

Lemma holds_wake p : holds_mutex (wake p) = holds_mutex p.
Proof. by destruct p. Qed.
Lemma notified_wake p : notified (wake p) = notified p.
Proof. by destruct p. Qed.
Lemma in_work_wake p : in_work (wake p) = in_work p.
Proof. by destruct p. Qed.

Lemma thread_ok_set p : thread_ok false p -> thread_ok true p.
Proof. destruct p; cbn; repeat case_match; naive_solver. Qed.

Lemma thread_ok_wake fl p : thread_ok fl p -> thread_ok fl (wake p).
Proof. by destruct p. Qed.

(** A step that moves thread [i] from [p] to [p'], which both hold the mutex or
    both do not, and do not call the callback. *)
Lemma move_inv s i p p' m :
  request_inv s -> threads s !! i = Some p ->
  (b2n m + b2n (holds_mutex p) = b2n (mutex s) + b2n (holds_mutex p'))%nat ->
  thread_ok (flag s) p' -> (after_store p = true -> after_store p' = true) ->
  notified p' = notified p -> in_work p' = in_work p ->
  request_inv (set_thread i p' (set_mutex m s)).
Proof.
  intros [Hm Ht Hf Hc] Hi Hmm Hp' Ha Hn Hw.
  pose proof (count_insert holds_mutex _ _ _ p' Hi) as C1.
  pose proof (count_insert notified _ _ _ p' Hi) as C2.
  pose proof (count_insert in_work _ _ _ p' Hi) as C3.
  rewrite Hn in C2. rewrite Hw in C3.
  constructor; cbn [threads mutex flag callback called set_thread set_mutex].
  - lia.
  - by apply Forall_insert.
  - intros Hfl. destruct (Hf Hfl) as (q & Hq & Haq).
    apply list_elem_of_lookup in Hq as [j Hj].
    destruct (decide (j = i)) as [->|Hne].
    + simplify_eq. exists p'. split; [|auto]. apply list_elem_of_lookup.
      exists i. apply list_lookup_insert_eq. by eapply lookup_lt_Some.
    + exists q. split; [|done]. apply list_elem_of_lookup. exists j.
      by rewrite list_lookup_insert_ne.
  - destruct (callback s); lia.
Qed.

Lemma set_mutex_same s : set_mutex (mutex s) s = s.
Proof. by destruct s. Qed.

Lemma move_inv' s i p p' :
  request_inv s -> threads s !! i = Some p ->
  holds_mutex p' = holds_mutex p -> thread_ok (flag s) p' ->
  (after_store p = true -> after_store p' = true) ->
  notified p' = notified p -> in_work p' = in_work p ->
  request_inv (set_thread i p' s).
Proof.
  intros Hinv Hi Hh. rewrite <- (set_mutex_same s) at 2. intros.
  eapply move_inv; [done|done|by rewrite Hh|done..].
Qed.

Lemma store_inv s i :
  request_inv s -> threads s !! i = Some NStart ->
  request_inv (set_thread i NNotify (set_flag true s)).
Proof.
  intros [Hm Ht Hf Hc] Hi.
  pose proof (count_insert holds_mutex _ _ _ NNotify Hi) as C1.
  pose proof (count_insert notified _ _ _ NNotify Hi) as C2.
  pose proof (count_insert in_work _ _ _ NNotify Hi) as C3.
  cbn in C1, C2, C3.
  constructor; cbn [threads mutex flag callback called set_thread set_flag].
  - lia.
  - apply Forall_insert; [|done]. eapply Forall_impl; [exact Ht|].
    intros p Hp. destruct (flag s); [done|by apply thread_ok_set].
  - intros _. exists NNotify. split; [|done]. apply list_elem_of_lookup.
    exists i. apply list_lookup_insert_eq. by eapply lookup_lt_Some.
  - destruct (callback s); lia.
Qed.

Lemma notify_all_inv s i :
  request_inv s -> threads s !! i = Some NNotify ->
  request_inv (set_thread i NCallback (notify_all s)).
Proof.
  intros [Hm Ht Hf Hc] Hi.
  assert (Hi' : (wake <$> threads s) !! i = Some NNotify) by (by rewrite list_lookup_fmap, Hi).
  pose proof (count_insert holds_mutex _ _ _ NCallback Hi') as C1.
  pose proof (count_insert notified _ _ _ NCallback Hi') as C2.
  pose proof (count_insert in_work _ _ _ NCallback Hi') as C3.
  rewrite (count_wake _ _ holds_wake) in C1. rewrite (count_wake _ _ notified_wake) in C2.
  rewrite (count_wake _ _ in_work_wake) in C3.
  pose proof (proj1 (Forall_lookup _ _) Ht _ _ Hi) as Hfl. cbn in Hfl.
  constructor; cbn [threads mutex flag callback called set_thread notify_all] in *.
  - cbn in C1. lia.
  - apply Forall_insert; [|done]. apply Forall_fmap.
    eapply Forall_impl; [exact Ht|]. intros p. apply thread_ok_wake.
  - intros _. exists NCallback. split; [|done]. apply list_elem_of_lookup.
    exists i. apply list_lookup_insert_eq. by eapply lookup_lt_Some.
  - cbn in C2, C3. destruct (callback s); lia.
Qed.

Lemma after_insert s i p' :
  (i < length (threads s))%nat -> after_store p' = true ->
  exists p, p ∈ <[i := p']> (threads s) /\ after_store p = true.
Proof.
  intros Hi Hp. exists p'. split; [|done]. apply list_elem_of_lookup.
  exists i. by apply list_lookup_insert_eq.
Qed.

Lemma callback_inv s i :
  request_inv s -> threads s !! i = Some NCallback -> callback s = true ->
  request_inv (set_thread i NDone (call_callback s)) /\
  request_inv (set_thread i NDone (queue_work s)).
Proof.
  intros [Hm Ht Hf Hc] Hi Hcb. rewrite Hcb in Hc.
  pose proof (lookup_lt_Some _ _ _ Hi) as Hlt.
  pose proof (proj1 (Forall_lookup _ _) Ht _ _ Hi) as Hfl. cbn in Hfl.
  split.
  - pose proof (count_insert holds_mutex _ _ _ NDone Hi) as C1.
    pose proof (count_insert notified _ _ _ NDone Hi) as C2.
    pose proof (count_insert in_work _ _ _ NDone Hi) as C3.
    constructor; cbn [threads mutex flag callback called set_thread call_callback] in *;
      cbn in C1, C2, C3.
    + lia.
    + by apply Forall_insert.
    + intros _. by apply after_insert.
    + rewrite Hcb. lia.
  - assert (Hi' : (threads s ++ [XStart]) !! i = Some NCallback) by (by rewrite lookup_app_l).
    pose proof (count_insert holds_mutex _ _ _ NDone Hi') as C1.
    pose proof (count_insert notified _ _ _ NDone Hi') as C2.
    pose proof (count_insert in_work _ _ _ NDone Hi') as C3.
    rewrite count_snoc in C1, C2, C3.
    constructor; cbn [threads mutex flag callback called set_thread queue_work] in *;
      cbn in C1, C2, C3.
    + lia.
    + apply Forall_insert; [|done]. apply Forall_app. split; [done|by repeat constructor].
    + intros _. apply (after_insert (queue_work s)); [|done].
      cbn. rewrite length_app. lia.
    + rewrite Hcb. lia.
Qed.

Lemma execute_inv s i :
  request_inv s -> threads s !! i = Some XStart ->
  request_inv (set_thread i XDone (if callback s then call_callback s else s)).
Proof.
  intros Hinv Hi. pose proof Hinv as [Hm Ht Hf Hc].
  pose proof (count_insert holds_mutex _ _ _ XDone Hi) as C1.
  pose proof (count_insert notified _ _ _ XDone Hi) as C2.
  pose proof (count_insert in_work _ _ _ XDone Hi) as C3.
  cbn in C1, C2, C3.
  assert (forall fl, flag s = fl -> fl = true ->
    exists p, p ∈ <[i := XDone]> (threads s) /\ after_store p = true) as Hafter.
  { intros fl <- Hfl. destruct (Hf Hfl) as (q & Hq & Haq).
    apply list_elem_of_lookup in Hq as [j Hj].
    destruct (decide (j = i)) as [->|Hne]; [simplify_eq|].
    exists q. split; [|done]. apply list_elem_of_lookup. exists j.
    by rewrite list_lookup_insert_ne. }
  destruct (callback s) eqn:Hcb; constructor;
    cbn [threads mutex flag callback called set_thread call_callback]; rewrite ?Hcb;
    try (by apply Forall_insert); try (by eapply Hafter); lia.
Qed.

Lemma step_inv sp i s s' : request_inv s -> req_step sp i s s' -> request_inv s'.
Proof.
  intros Hinv Hstep. pose proof (ri_threads _ Hinv) as Ht. rewrite Forall_lookup in Ht.
  pose proof (ri_mutex _ Hinv) as Hm.
  destruct Hstep as [s t Hi Hf|s t Hi Hf|s t Hi Hmx|s t last Hi Hf|s t Hi Hf|s t Hi Hf|s t Hi
    |s Hi|s t Hs Hi|s t last Hi Hmx|s t b Hi|s Hi|s Hi|s Hi Hcb|s Hi Hcb Hl|s Hi Hcb Hl|s Hi];
    pose proof (Ht _ _ Hi) as Hok.
  - eapply move_inv'; [done..|by destruct t|done|by destruct t|by destruct t].
  - by eapply move_inv'.
  - eapply move_inv; [done..|by rewrite Hmx|by destruct t|done|done|done].
  - by eapply move_inv'.
  - by eapply move_inv'.
  - eapply move_inv'; [done..| |done|done|done]. exact Hok.
  - eapply move_inv; [done..| |done|done|done|done]. cbn.
    pose proof (count_insert holds_mutex _ _ _ (WAsleep t) Hi) as C. cbn in C.
    destruct (mutex s); [lia|]. rewrite Hm in C. lia.
  - by eapply move_inv'.
  - by eapply move_inv'.
  - eapply move_inv; [done..|by rewrite Hmx|exact Hok|done|done|done].
  - eapply move_inv; [done..| | |by destruct t, b|by destruct t, b|by destruct t, b].
    + pose proof (count_insert holds_mutex _ _ _ (WDone WReturned) Hi) as C. cbn in C.
      destruct (mutex s), t; cbn; lia.
    + destruct t, b; cbn in *; done.
  - by apply store_inv.
  - by apply notify_all_inv.
  - pose proof Hinv as [_ _ Hfa Hc]. rewrite Hcb in Hc.
    pose proof (count_insert holds_mutex _ _ _ NDone Hi) as C1. cbn in C1.
    constructor; cbn [threads mutex flag callback called set_thread]; rewrite ?Hcb.
    + lia.
    + apply Forall_insert; [by apply Forall_lookup|done].
    + intros _. apply after_insert; [by eapply lookup_lt_Some|done].
    + done.
  - by apply callback_inv.
  - by apply callback_inv.
  - by apply execute_inv.
Qed.

Lemma fresh_request_inv cb local ts :
  Forall starting ts -> request_inv (fresh cb local ts).
Proof.
  intros Hts. assert (forall f, (forall p, starting p -> f p = false) -> count f ts = 0%nat) as Hc.
  { intros f Hf. induction Hts as [|p ts Hp Hts IH]; [done|].
    rewrite count_cons, (Hf p Hp), IH. done. }
  constructor; cbn [fresh threads mutex flag callback called].
  - apply Hc. by intros [].
  - eapply Forall_impl; [exact Hts|]. by intros [].
  - done.
  - destruct cb; [|done]. rewrite !Hc; [done| |]; by intros [].
Qed.

Lemma reach_inv sp s s' : request_inv s -> req_reach sp s s' -> request_inv s'.
Proof.
  intros Hinv Hr. induction Hr as [|s s1 i s2 Hr IH Hstep]; [done|].
  eapply step_inv; [by apply IH|exact Hstep].
Qed.
End request_lemmas.

(** ** Progress once the flag is set

    How many steps a thread has left, a work item that it queues included; every step
    of any thread uses one up. *)
Definition steps_left (p : rpc) : nat :=
  match p with
  | WSleep _ => 5
  | WAsleep _ => 4
  | WLock _ | WWoken _ _ => 3
  | WCheck _ _ => 2
  | WStart _ | WUnlock _ _ => 1
  | NStart => 4
  | NNotify => 3
  | NCallback => 2
  | XStart => 1
  | WDone _ | NDone | XDone => 0
  end.
Definition work (ts : list rpc) : nat := sum_list_with steps_left ts.

(** A step of some thread. *)
Definition any_step (spurious : bool) (s s' : shared) : Prop :=
  exists i, req_step spurious i s s'.

(** A thread in [wait] that has not yet found the flag unset at the mutex. *)
Definition comes_back (p : rpc) : bool :=
  match p with
  | WStart false | WLock false | WCheck false _ | WWoken false _ | WUnlock false _ => true
  | _ => false
  end.

Section progress.
Implicit Types (s : shared) (ts : list rpc).

Lemma work_insert ts i p p' :
  ts !! i = Some p -> (work (<[i := p']> ts) + steps_left p = work ts + steps_left p')%nat.
Proof.
  revert i. induction ts as [|a ts IH]; intros [|i] Hi; simplify_eq/=; [lia|].
  specialize (IH i Hi). unfold work in *. lia.
Qed.

Lemma work_wake ts : (work (wake <$> ts) <= work ts)%nat.
Proof. unfold work. induction ts as [|[] ts IH]; cbn in *; lia. Qed.

Lemma work_bound ts : (work ts <= 5 * length ts)%nat.
Proof. unfold work. induction ts as [|[] ts IH]; cbn in *; lia. Qed.

(** Every step, of whichever thread, is one less to make; the flag stays set. *)
Lemma step_work sp i s s' :
  flag s = true -> req_step sp i s s' ->
  flag s' = true /\ (S (work (threads s')) <= work (threads s))%nat.
Proof.
  intros Hf Hstep.
  destruct Hstep as [s t Hi _|s t Hi Hf'|s t Hi Hmx|s t last Hi _|s t Hi Hf'|s t Hi Hf'|s t Hi
    |s Hi|s t Hs Hi|s t last Hi Hmx|s t b Hi|s Hi|s Hi|s Hi Hcb|s Hi Hcb Hl|s Hi Hcb Hl|s Hi];
    try congruence.
  all: try (split; [done|]; cbn [threads set_thread set_mutex call_callback set_flag];
    match goal with |- context [<[_ := ?q]> _] =>
      pose proof (work_insert _ _ _ q Hi) as Hw; cbn in Hw; lia end).
  - split; [done|]. cbn [threads set_thread notify_all].
    assert ((wake <$> threads s) !! i = Some NNotify) as Hi' by (by rewrite list_lookup_fmap, Hi).
    pose proof (work_insert _ _ _ NCallback Hi') as Hw. pose proof (work_wake (threads s)).
    cbn in Hw. lia.
  - split; [done|]. cbn [threads set_thread queue_work].
    assert ((threads s ++ [XStart]) !! i = Some NCallback) as Hi'
      by (by rewrite lookup_app_l by (by eapply lookup_lt_Some)).
    pose proof (work_insert _ _ _ NDone Hi') as Hw. unfold work in *.
    rewrite sum_list_with_app in Hw. cbn in Hw. lia.
  - assert (threads (if callback s then call_callback s else s) = threads s) as E
      by (by destruct (callback s)).
    split; [by destruct (callback s)|]. cbn [threads set_thread]. rewrite E.
    pose proof (work_insert _ _ _ XDone Hi) as Hw. cbn in Hw. lia.
Qed.

Lemma run_work sp n s s' :
  flag s = true -> nsteps (any_step sp) n s s' -> (n + work (threads s') <= work (threads s))%nat.
Proof.
  intros Hf Hn. induction Hn as [s|n s s1 s' [i Hs] Hn IH]; [lia|].
  destruct (step_work _ _ _ _ Hf Hs) as [Hf1 Hw]. specialize (IH Hf1). lia.
Qed.

(** Such a thread stays one, whoever makes a step, until it has returned. *)
Lemma step_comes_back sp i j s s' p :
  flag s = true -> threads s !! i = Some p -> comes_back p = true \/ p = WDone WReturned ->
  req_step sp j s s' ->
  exists p', threads s' !! i = Some p' /\ (comes_back p' = true \/ p' = WDone WReturned).
Proof.
  intros Hf Hi Hp Hstep. pose proof (lookup_lt_Some _ _ _ Hi) as Hlt.
  assert (wake p = p) as Hwk by (destruct Hp as [Hp| ->]; [by destruct p|done]).
  destruct (decide (i = j)) as [<-|Hij].
  - inversion Hstep; subst; simplify_eq/=; try congruence;
      (destruct Hp as [Hp|Hp]; [|done]);
      repeat match goal with t : bool |- _ => destruct t; simplify_eq/= end;
      (eexists; split; [by apply list_lookup_insert_eq|auto]).
  - exists p. split; [|done].
    inversion Hstep; subst; cbn [threads set_thread set_mutex set_flag call_callback notify_all
      queue_work]; rewrite list_lookup_insert_ne by done; try done.
    + rewrite list_lookup_fmap, Hi. cbn. by rewrite Hwk.
    + by rewrite lookup_app_l.
    + by destruct (callback s).
Qed.

Lemma reach_comes_back sp i s s' p :
  flag s = true -> threads s !! i = Some p -> comes_back p = true \/ p = WDone WReturned ->
  req_reach sp s s' ->
  flag s' = true /\
  exists p', threads s' !! i = Some p' /\ (comes_back p' = true \/ p' = WDone WReturned).
Proof.
  intros Hf Hi Hp Hr. induction Hr as [s|s s1 j s2 Hr IH Hstep]; [by split; [|exists p]|].
  destruct (IH Hf Hi) as (Hf1 & p1 & Hi1 & Hp1).
  split; [by eapply step_work|by eapply step_comes_back].
Qed.

(** The thread that holds the mutex has a step. *)
Lemma holder_steps sp s :
  request_inv s -> flag s = true -> mutex s = true -> exists j s', req_step sp j s s'.
Proof.
  intros Hinv Hf Hm. pose proof (ri_mutex _ Hinv) as Hc. rewrite Hm in Hc. unfold count in Hc.
  destruct (filter _ _) as [|p l] eqn:E; [done|].
  assert (p ∈ filter (fun p => holds_mutex p = true) (threads s)) as Hp by (rewrite E; left).
  apply list_elem_of_filter in Hp as [Hh [j Hj]%list_elem_of_lookup].
  exists j. destruct p; try done; eexists;
    [by eapply rs_check_true|by eapply rs_sleep|by eapply rs_return].
Qed.

Lemma comes_back_progress sp s i p :
  request_inv s -> flag s = true -> threads s !! i = Some p -> comes_back p = true ->
  exists j s', req_step sp j s s'.
Proof.
  intros Hinv Hf Hi Hp.
  destruct (mutex s) eqn:Hm; [by apply holder_steps|].
  exists i. destruct p; try done; eexists;
    [by eapply rs_ready|by eapply rs_lock|by eapply rs_check_true|by eapply rs_relock
    |by eapply rs_return].
Qed.
End progress.

(** ** Theorems *)

(** C16: whatever the interleaving of threads that wait and notify: at most one
    thread is inside the mutex; [wait] returns, and [wait_for] returns true,
    only after a [notify] has set the flag; [wait_for] returns false only to a
    caller with a time limit; and the callback is called once per [notify],
    directly or by the work item that is still to run. *)
Theorem request_safety sp cb local ts s :
  Forall starting ts -> req_reach sp (fresh cb local ts) s ->
  (count holds_mutex (threads s) <= 1)%nat /\
  (forall i r, threads s !! i = Some (WDone r) -> r <> WReady false ->
     flag s = true /\ exists p, p ∈ threads s /\ after_store p = true) /\
  (called s + count in_work (threads s) =
     if callback s then count notified (threads s) else count in_work (threads s))%nat.
Proof.
  intros Hts Hr. pose proof (reach_inv _ _ _ (fresh_request_inv cb local ts Hts) Hr)
    as [Hm Ht Hf Hc].
  split_and!.
  - rewrite Hm. destruct (mutex s); lia.
  - intros i r Hi Hne. rewrite Forall_lookup in Ht. pose proof (Ht _ _ Hi) as Hok.
    assert (flag s = true) as Hfl by (destruct r as [|[]|]; done).
    split; [done|]. by apply Hf.
  - destruct (callback s); lia.
Qed.

(** C39: the wakeup can be lost.  [notify] stores the flag and notifies without
    the mutex, so both can happen between the test of the flag by a waiting
    thread and its going to sleep: the request is ready, [notify] is done, and
    the thread sleeps with no step left, unless it wakes up spuriously. *)
Theorem lost_wakeup local :
  exists s, req_reach false (fresh false local [WStart false; NStart]) s /\
    flag s = true /\ threads s = [WAsleep false; NDone] /\
    forall i s', ~ req_step false i s s'.
Proof.
  eexists. split_and!.
  - eapply reach_step; [eapply reach_step; [eapply reach_step; [eapply reach_step;
      [eapply reach_step; [eapply reach_step; [eapply reach_step; [apply reach_refl|]|]|]|]|]|]|].
    + by apply (rs_not_ready false 0 _ false).
    + by apply (rs_lock false 0 _ false).
    + by apply (rs_check_false false 0 _ false).
    + by apply (rs_store false 1).
    + by apply (rs_notify_all false 1).
    + by apply (rs_no_callback false 1).
    + by apply (rs_sleep false 0 _ false).
  - done.
  - done.
  - intros i s' Hstep. destruct i as [|[|i]]; inversion Hstep; simplify_eq/=.
Qed.

(** [wait_for] on a request that is already ready does not return true: its
    only step leaves the function without a return value. *)
Theorem wait_for_ready_falls_off sp i s s' :
  threads s !! i = Some (WStart true) -> flag s = true -> req_step sp i s s' ->
  s' = set_thread i (WDone WFellOff) s.
Proof.
  intros Hi Hf Hstep. inversion Hstep; subst; rewrite Hi in *; simplify_eq; try congruence.
Qed.

(** C18: [wait] returns once the flag is set, under every schedule, to a thread that
    has not yet found the flag unset at the mutex: it is before the first load, waits
    for the mutex (for the first time or after a wakeup), or holds it and is before
    the test of the flag or before the unlock.  No fairness is asked of the schedule.
    A run from such a state has at most five steps for each thread, and one that ends
    because no thread has a step left has brought the thread back from [wait].  (A
    thread at [WSleep], which has tested the flag before it was set, is not one of
    them: it can sleep for ever, see [lost_wakeup].) *)
Theorem wait_completes sp cb local ts s i p :
  Forall starting ts -> req_reach sp (fresh cb local ts) s -> flag s = true ->
  threads s !! i = Some p -> comes_back p = true ->
  (forall n s', nsteps (any_step sp) n s s' -> (n <= 5 * length (threads s))%nat) /\
  (forall s', req_reach sp s s' -> (forall j s2, ~ req_step sp j s' s2) ->
     threads s' !! i = Some (WDone WReturned)).
Proof.
  intros Hts Hr Hf Hi Hp.
  assert (request_inv s) as Hinv by (eapply reach_inv; [by apply fresh_request_inv|done]).
  split.
  - intros n s' Hn. pose proof (run_work _ _ _ _ Hf Hn). pose proof (work_bound (threads s)). lia.
  - intros s' Hr' Hstuck.
    destruct (reach_comes_back _ _ _ _ _ Hf Hi (or_introl Hp) Hr') as (Hf' & p' & Hi' & [Hp'|Hp']);
      [|by rewrite Hi', Hp'].
    destruct (comes_back_progress sp s' i p') as (j & s2 & Hs2); [|done..|by destruct (Hstuck j s2)].
    by eapply reach_inv.
Qed.

(** ** Witnesses *)

Theorem request_safety_witness :
  exists s, req_reach false (fresh true true [NStart; WStart false]) s /\
    (called s + count in_work (threads s) = 1)%nat.
Proof.
  assert (exists s, req_reach false (fresh true true [NStart; WStart false]) s /\
    callback s = true /\ threads s = [NDone; WDone WReturned]) as (s & Hr & Hcb & Hts).
  { eexists. split_and!.
    - eapply reach_step; [eapply reach_step; [eapply reach_step; [eapply reach_step;
        [apply reach_refl|]|]|]|].
      + by apply (rs_store false 0).
      + by apply (rs_notify_all false 0).
      + by apply (rs_call_local false 0).
      + by apply (rs_ready false 1 _ false).
    - done.
    - done. }
  exists s. split; [exact Hr|].
  destruct (request_safety false true true [NStart; WStart false] s) as (_ & _ & Hc);
    [by repeat constructor|exact Hr|].
  rewrite Hcb, Hts in Hc. rewrite Hts. exact Hc.
Defined.

Theorem wait_for_ready_falls_off_witness :
  exists s', req_step false 0 (set_flag true (fresh false false [WStart true])) s' /\
    threads s' = [WDone WFellOff].
Proof.
  assert (req_step false 0 (set_flag true (fresh false false [WStart true]))
    (set_thread 0 (WDone WFellOff) (set_flag true (fresh false false [WStart true])))) as Hs
    by (by apply (rs_ready false 0 _ true)).
  eexists. split; [exact Hs|].
  exact (f_equal threads (wait_for_ready_falls_off false 0
    (set_flag true (fresh false false [WStart true])) _ eq_refl eq_refl Hs)).
Defined.

(** One thread waits for the mutex, another one has tested the flag too early and
    holds it; the flag has been set in between. *)
Theorem wait_completes_witness :
  exists s, threads s = [WLock false; WSleep false; NNotify] /\ flag s = true /\
    forall s', req_reach false s s' -> (forall j s2, ~ req_step false j s' s2) ->
      threads s' !! 0%nat = Some (WDone WReturned).
Proof.
  assert (exists s, req_reach false (fresh false false [WStart false; WStart false; NStart]) s /\
    threads s = [WLock false; WSleep false; NNotify] /\ flag s = true) as (s & Hr & Hts & Hf).
  { eexists. split_and!.
    - eapply reach_step; [eapply reach_step; [eapply reach_step; [eapply reach_step;
        [eapply reach_step; [apply reach_refl|]|]|]|]|].
      + by apply (rs_not_ready false 0 _ false).
      + by apply (rs_not_ready false 1 _ false).
      + by apply (rs_lock false 1 _ false).
      + by apply (rs_check_false false 1 _ false).
      + by apply (rs_store false 2).
    - done.
    - done. }
  exists s. split_and!; [exact Hts|exact Hf|].
  refine (proj2 (wait_completes false false false [WStart false; WStart false; NStart] s 0
    (WLock false) _ Hr Hf _ eq_refl)); [by repeat constructor|by rewrite Hts].
Defined.
