(* ===== verification/RequestWeak.v ===== *)
(** * cql_request.hpp under its memory orders

    The result of a request is an ordinary variable: the thread of the loop writes it
    and then sets the flag with memory_order_release; a caller whose load of the flag
    gave true, in [ready], [wait] or [wait_for], reads it.  The load asks for
    memory_order_consume.  A consume load orders only what depends on the value that
    was loaded, and the result does not depend on the flag; an acquire load orders
    everything.  The mutex of [wait] does not help: [notify] does not take it. *)

From S2P Require Import Prelude Memory StdMap Common Request.

(** The order of the loads of [flag]. *)
Inductive load_order : Set :=
  | Acquire
  | Consume.

(** Where a thread is: the loop before it writes the result, before it sets the flag,
    and after; a caller before a load of the flag, before it reads the result, and
    after. *)
Inductive wpc : Set :=
  | NResult
  | NFlag
  | NDone
  | CLoad
  | CResult
  | CDone.

(** The values of [flag], oldest first, with the writes to the result that are before
    them, and how often the result was written. *)
Record flag_memory := {
  flags         : list (bool * nat);
  result_writes : nat
}.

Section steps.
Variable order : load_order.

(** A thread has seen so many writes to the result. *)
Inductive caller_step : flag_memory -> wpc * nat -> flag_memory -> wpc * nat -> Prop :=
  | step_write_result m v :
      caller_step m (NResult, v)
        {| flags := flags m; result_writes := S (result_writes m) |} (NFlag, S (result_writes m))
  | step_set_flag m v :
      caller_step m (NFlag, v)
        {| flags := flags m ++ [(true, v)]; result_writes := result_writes m |} (NDone, v)
  | step_load_flag m v b v' :
      (b, v') ∈ flags m ->
      caller_step m (CLoad, v) m
        (if (b : bool) then CResult else CLoad,
         match order with Acquire => Nat.max v v' | Consume => v end)
  | step_read_result m v : caller_step m (CResult, v) m (CDone, v).

Inductive caller_run : flag_memory * list (wpc * nat) -> flag_memory * list (wpc * nat) -> Prop :=
  | caller_refl c : caller_run c c
  | caller_next c m ts i p m' p' :
      caller_run c (m, ts) -> ts !! i = Some p -> caller_step m p m' p' ->
      caller_run c (m', <[i := p']> ts).
End steps.

(** The loop and [n] callers of a request that was just made. *)
Definition request_start (n : nat) : flag_memory * list (wpc * nat) :=
  ({| flags := [(false, 0%nat)]; result_writes := 0 |},
   (NResult, 0%nat) :: replicate n (CLoad, 0%nat)).

(** A caller is about to read the result, and the write is not before the read. *)
Definition result_race (c : flag_memory * list (wpc * nat)) : Prop :=
  exists i v, c.2 !! i = Some (CResult, v) /\ (v < result_writes c.1)%nat.

(** ** With acquire loads *)

Definition at_point (m : flag_memory) (i : nat) (p : wpc) (v : nat) : Prop :=
  match p with
  | NResult => i = 0%nat /\ v = 0%nat /\ result_writes m = 0%nat /\ forall u, (true, u) ∉ flags m
  | NFlag => i = 0%nat /\ v = 1%nat
  | CResult => v = 1%nat
  | _ => (v <= 1)%nat
  end.

Record flag_inv (c : flag_memory * list (wpc * nat)) : Prop := {
  fi_writes  : (result_writes c.1 <= 1)%nat;
  fi_flags   : forall b v, (b, v) ∈ flags c.1 -> (v <= 1)%nat /\ (b = true -> v = 1%nat);
  fi_threads : forall i p v, c.2 !! i = Some (p, v) -> at_point c.1 i p v
}.

Lemma request_start_inv n : flag_inv (request_start n).
Proof.
  constructor; cbn [request_start fst snd flags result_writes]; [lia|..].
  - intros b v Hb%list_elem_of_singleton. injection Hb as -> ->. split; [lia|done].
  - intros [|i] p v Hi; cbn in Hi.
    + injection Hi as <- <-. split_and!; try done. by intros u Hu%list_elem_of_singleton.
    + apply lookup_replicate in Hi as [[= -> ->] _]. cbn. lia.
Qed.

(** The other threads, when thread [i] moved. *)
Lemma threads_moved m m' (ts : list (wpc * nat)) i q u :
  (forall j p v, ts !! j = Some (p, v) -> at_point m j p v) ->
  (forall j p v, j <> i -> at_point m j p v -> at_point m' j p v) ->
  at_point m' i q u ->
  forall j p v, <[i := (q, u)]> ts !! j = Some (p, v) -> at_point m' j p v.
Proof.
  intros Hth Hold Hnew j p v Hj. destruct (decide (j = i)) as [->|Hne].
  - apply list_lookup_insert_Some in Hj as [(_ & [= <- <-] & _)|[? _]]; done.
  - rewrite list_lookup_insert_ne in Hj by done. by eapply Hold, Hth.
Qed.

(** Thread 0 is the only one that writes, so while it moves no other is at the write. *)
Lemma only_loop_writes m m' j p v : j <> 0%nat -> at_point m j p v -> at_point m' j p v.
Proof. intros Hne. destruct p; cbn; try done; intros [-> _]; done. Qed.

Lemma acquire_step_inv m ts i p m' p' :
  flag_inv (m, ts) -> ts !! i = Some p -> caller_step Acquire m p m' p' ->
  flag_inv (m', <[i := p']> ts).
Proof.
  intros [Hw Hf Hth] Hi Hstep. cbn [fst snd] in *.
  destruct p as [q v]. pose proof (Hth _ _ _ Hi) as Hp.
  inversion Hstep; subst; cbn [at_point] in Hp.
  - destruct Hp as (-> & -> & Hz & Hno). constructor; cbn [fst snd flags result_writes];
      [lia|done|]. eapply threads_moved; [exact Hth|intros; by eapply only_loop_writes|].
    cbn. split; lia.
  - destruct Hp as [-> ->]. constructor; cbn [fst snd flags result_writes]; [done|..].
    + intros b u [Hu|Hu%list_elem_of_singleton]%elem_of_app; [by apply Hf|].
      injection Hu as -> ->. split; [lia|done].
    + eapply threads_moved; [exact Hth|intros; by eapply only_loop_writes|]. cbn. lia.
  - assert (Hv : (v <= 1)%nat) by exact Hp.
    match goal with H : (_, _) ∈ _ |- _ => destruct (Hf _ _ H) as [Hle Htrue] end.
    constructor; cbn [fst snd]; [done..|].
    eapply threads_moved; [exact Hth|done|]. destruct b; cbn; [rewrite Htrue by done|]; lia.
  - constructor; cbn [fst snd]; [done..|]. eapply threads_moved; [exact Hth|done|]. cbn. lia.
Qed.

Lemma acquire_run_inv n c : caller_run Acquire (request_start n) c -> flag_inv c.
Proof.
  remember (request_start n) as c0 eqn:Hc0. induction 1; subst.
  - apply request_start_inv.
  - eapply acquire_step_inv; eauto.
Qed.

Lemma flag_inv_no_race c : flag_inv c -> ~ result_race c.
Proof.
  intros [Hw _ Hth] (i & v & Hi & Hlt). apply Hth in Hi. cbn in Hi. lia.
Qed.

(** ** With consume loads *)

(** The loop writes the result and sets the flag; the load of a caller gives true. *)
Lemma consume_races : exists c, caller_run Consume (request_start 1) c /\ result_race c.
Proof.
  eexists. split.
  - eapply caller_next with (i := 1%nat).
    + eapply caller_next with (i := 0%nat).
      * eapply caller_next with (i := 0%nat); [apply caller_refl|reflexivity|].
        apply step_write_result.
      * reflexivity.
      * apply step_set_flag.
    + reflexivity.
    + apply step_load_flag with (b := true) (v' := 1%nat). cbn. set_solver.
  - exists 1%nat, 0%nat. split; [reflexivity|cbn; lia].
Qed.

(** The order the code's three loads ask for. *)
Definition flag_load_order : load_order := Consume.

(** C17: Whether the result of a request is safe to read once the flag was seen set:
    the loop's write of the result comes before the read of every caller, in every
    run, for any number of callers, when the flag is loaded with acquire; with the
    order the code asks for there is a run in which a caller that saw the flag reads
    the result although no order puts the write before it. *)
Theorem result_ordering order :
  (order = Acquire <->
     forall n c, caller_run order (request_start n) c -> ~ result_race c) /\
  exists c, caller_run flag_load_order (request_start 1) c /\ result_race c.
Proof.
  split; [split|apply consume_races].
  - intros -> n c Hrun. eapply flag_inv_no_race, acquire_run_inv, Hrun.
  - intros Hno. destruct order; [done|]. destruct consume_races as (c & Hrun & Hrace).
    by destruct (Hno _ _ Hrun).
Qed.
