(* ===== verification/SslSession.v ===== *)
(** * cql_ssl_session.hpp

    A TLS session: an SSL object of OpenSSL between two BIOs, the one of the
    application and the one of the network.  OpenSSL is the parameter [OpenSSL]:
    the state of an SSL object with its BIOs, and the calls the session makes.
    [read_write] moves what it can in one call. *)

From S2P Require Import Prelude Memory StdMap Common.

Class OpenSSL := {
  SSL_CTX : Type;
  SSL     : Type;
  SSL_new : SSL_CTX -> option SSL;
  BIO_new_bio_pair : SSL -> Z -> Z -> option SSL;   (* internal_bio, network_bio *)
  BIO_new_ssl : SSL -> option SSL;                  (* ssl_bio *)
  SSL_set_bio : SSL -> SSL;
  BIO_set_ssl : SSL -> SSL;
  SSL_set_connect_state : SSL -> SSL;
  SSL_set_accept_state  : SSL -> SSL;
  SSL_do_handshake : SSL -> SSL;
  SSL_is_init_finished : SSL -> bool;
  SSL_shutdown : SSL -> SSL;
  SSL_free : SSL -> SSL;
  SSL_cipher_description : SSL -> ptr -> Z -> prog heap ptr;
  BIO_write_ssl : SSL -> block -> Z * SSL;
  BIO_ctrl_pending_ssl : SSL -> Z;
  BIO_read_ssl : SSL -> Z -> Z * block * SSL;       (* the result, the bytes *)
  BIO_get_write_guarantee : SSL -> Z;
  BIO_write_network : SSL -> block -> Z * SSL;
  BIO_ctrl_pending_network : SSL -> Z;
  BIO_read_network : SSL -> Z -> Z * block * SSL;
  SSL_get_error : SSL -> Z -> Z;
  ERR_error_string : Z -> list Z;
  SSL_ERROR_NONE : Z;
  SSL_ERROR_WANT_READ : Z
}.

Definition BUFFER_SIZE : Z := 66560.

Section session.
Context `{Allocator} `{OpenSSL}.

(** An [SSL*]: SSL_new may return NULL. *)
Definition SSLSession : Type := option SSL.

Definition SSLSession_new (ctx : SSL_CTX) : SSLSession := SSL_new ctx.

Definition init (s : SSLSession) : bool * SSLSession :=
  match s with
  | None => (false, None)
  | Some ssl =>
      match BIO_new_bio_pair ssl BUFFER_SIZE BUFFER_SIZE with
      | None => (false, Some ssl)
      | Some ssl =>
          match BIO_new_ssl ssl with
          | None => (false, Some ssl)
          | Some ssl => (true, Some (BIO_set_ssl (SSL_set_bio ssl)))
          end
      end
  end.

(** The other calls hand the pointer to OpenSSL, which dereferences it. *)
Definition with_ssl {A} (s : SSLSession) (f : SSL -> A) : outcome A :=
  match s with Some ssl => Ok (f ssl) | None => Fault NullPointer end.

Definition shutdown (s : SSLSession) : outcome SSLSession :=
  with_ssl s (fun ssl => Some (SSL_free (SSL_shutdown ssl))).

Definition handshake (client : bool) (s : SSLSession) : outcome SSLSession :=
  with_ssl s (fun ssl =>
    Some (SSL_do_handshake
            (if client then SSL_set_connect_state ssl else SSL_set_accept_state ssl))).

Definition handshake_done (s : SSLSession) : outcome bool :=
  with_ssl s SSL_is_init_finished.

Definition ciphers (s : SSLSession) (output : ptr) (size : Z) : prog heap ptr :=
  match s with
  | Some ssl => SSL_cipher_description ssl output size
  | None => fail NullPointer
  end.

(** What [read_write] leaves in its reference arguments. *)
Record rw_result := {
  rw_read_size         : Z;
  rw_read_output       : ptr;
  rw_read_output_size  : Z;
  rw_write_output      : ptr;
  rw_write_output_size : Z
}.

(** CQL_SSL_CHECK_ERROR: the error to return, if any; [line] is where. *)
Definition check_error (ssl : SSL) (input line : Z) : option Error :=
  let err := SSL_get_error ssl (i32 input) in
  if decide (err <> SSL_ERROR_NONE /\ err <> SSL_ERROR_WANT_READ)
  then Some {| e_source := CQL_ERROR_SOURCE_SSL; e_code := err;
               e_message := ERR_error_string err;
               e_file := "cql_ssl_session.hpp"; e_line := line |}
  else None.

(** The four parts of [read_write]; each returns the error, if any. *)
Definition rw_write_input (ssl : SSL) (write_input : ptr) (write_input_size : Z)
    : prog heap (option Error * SSL) :=
  if decide (write_input_size = 0) then mret (None, ssl)
  else
    cs ← read_cells write_input write_input_size;
    let '(write_status, ssl) := BIO_write_ssl ssl cs in
    mret (check_error ssl write_status 139, ssl).

Definition rw_read_plain (ssl : SSL) (r : rw_result)
    : prog heap (option Error * SSL * rw_result) :=
  let pending := i32 (BIO_ctrl_pending_ssl ssl) in
  if decide (pending = 0) then mret (None, ssl, r)
  else
    read_output ← new_chars pending;
    let '(n, cs, ssl) := BIO_read_ssl ssl pending in
    write_cells read_output cs ;;
    let r := {| rw_read_size := rw_read_size r; rw_read_output := read_output;
                rw_read_output_size := u64 n; rw_write_output := rw_write_output r;
                rw_write_output_size := rw_write_output_size r |} in
    mret (check_error ssl (u64 n) 147, ssl, r).

Definition rw_take_input (ssl : SSL) (read_input : ptr) (read_input_size : Z)
    (r : rw_result) : prog heap (option Error * SSL * rw_result) :=
  let with_size n := {|
    rw_read_size := n; rw_read_output := rw_read_output r;
    rw_read_output_size := rw_read_output_size r; rw_write_output := rw_write_output r;
    rw_write_output_size := rw_write_output_size r |} in
  if decide (0 < read_input_size) then
    let read_size := BIO_get_write_guarantee ssl in
    if decide (read_size = 0) then mret (None, ssl, with_size 0)
    else
      let read_size := if decide (read_input_size < read_size)
                       then read_input_size else read_size in
      cs ← read_cells read_input read_size;
      let '(n, ssl) := BIO_write_network ssl cs in
      mret (check_error ssl n 156, ssl, with_size read_size)
  else mret (None, ssl, with_size 0).

Definition rw_give_output (ssl : SSL) (r : rw_result)
    : prog heap (option Error * SSL * rw_result) :=
  let size := BIO_ctrl_pending_network ssl in
  if decide (size = 0) then
    mret (None, ssl, {|
      rw_read_size := rw_read_size r; rw_read_output := rw_read_output r;
      rw_read_output_size := rw_read_output_size r; rw_write_output := rw_write_output r;
      rw_write_output_size := 0 |})
  else
    write_output ← new_chars size;
    let '(n, cs, ssl) := BIO_read_network ssl size in
    write_cells write_output cs ;;
    mret (check_error ssl n 166, ssl, {|
      rw_read_size := rw_read_size r; rw_read_output := rw_read_output r;
      rw_read_output_size := rw_read_output_size r; rw_write_output := write_output;
      rw_write_output_size := size |}).

(** [read_write]: the error or NULL, the session, the reference arguments. *)
Definition read_write (ssl : SSL) (read_input : ptr) (read_input_size : Z)
    (write_input : ptr) (write_input_size : Z) (r : rw_result)
    : prog heap (option Error * SSL * rw_result) :=
  '(err, ssl) ← rw_write_input ssl write_input write_input_size;
  match err with Some e => mret (Some e, ssl, r) | None =>
  '(err, ssl, r) ← rw_read_plain ssl r;
  match err with Some e => mret (Some e, ssl, r) | None =>
  '(err, ssl, r) ← rw_take_input ssl read_input read_input_size r;
  match err with Some e => mret (Some e, ssl, r) | None =>
  rw_give_output ssl r
  end end end.
End session.

(** ** What one call moves

    The call of the connection: nothing to encrypt.  The hypotheses are those of
    the documentation of the BIO calls: a read returns the bytes it read, or -1
    and none; a read of what is pending in the network BIO reads all of it. *)
Section read_write_lemmas.
Context `{Allocator} `{OpenSSL}.
Implicit Types (h : heap) (p : ptr) (ssl : SSL).

(** The result of a call on [ssl] is not an error. *)
Definition no_error (ssl : SSL) (n : Z) : Prop :=
  SSL_get_error ssl (i32 n) = SSL_ERROR_NONE \/
  SSL_get_error ssl (i32 n) = SSL_ERROR_WANT_READ.

Lemma check_no_error ssl n line : no_error ssl n -> check_error ssl n line = None.
Proof. unfold check_error. intros Hn. apply decide_False. destruct Hn; naive_solver. Qed.

(** A block of [n] bytes that was filled from its start with [cs]. *)
Definition filled (n : Z) (cs : block) : block :=
  cs ++ replicate (Z.to_nat (usable n) - length cs) None.

Lemma new_fill {A} n cs (k : ptr -> prog heap A) h :
  0 <= n < 9223372036854775808 -> zlen cs <= n ->
  (p ← new_chars n; write_cells p cs ;; k p) h =
    k (Heap (length h) 0) (h ++ [Some (filled n cs)]).
Proof.
  intros Hn Hcs. pose proof (usable_ge n) as Hu.
  erewrite bind_run by (by apply new_chars_run).
  erewrite bind_run.
  2:{ apply write_cells_run; [by apply list_lookup_middle|lia|].
      rewrite length_replicate. lia. }
  rewrite insert_app_r_alt, Nat.sub_diag by lia. cbn [insert list_insert].
  unfold splice, filled. change (Z.to_nat 0) with 0%nat. cbn [take app].
  by rewrite drop_replicate, Nat.add_0_l.
Qed.

(** The session after each of the three parts; the sizes and bytes it moves. *)
Definition plain_read (ssl : SSL) : Z * block * SSL :=
  let pending := i32 (BIO_ctrl_pending_ssl ssl) in
  if decide (pending = 0) then (0, [], ssl) else BIO_read_ssl ssl pending.

Definition taken (ssl : SSL) (size : Z) : Z :=
  if decide (0 < size) then Z.min (BIO_get_write_guarantee ssl) size else 0.

Definition input_written (ssl : SSL) (cs : block) : Z * SSL :=
  if decide (cs = []) then (0, ssl) else BIO_write_network ssl cs.

(** The blocks a call allocates: [new char[n]] where [n] is not 0. *)
Definition output_block (n : Z) (cs : block) : heap :=
  if decide (n = 0) then [] else [Some (filled n cs)].

Lemma read_plain_run ssl r h n cs ssl' :
  plain_read ssl = (n, cs, ssl') ->
  0 <= i32 (BIO_ctrl_pending_ssl ssl) -> zlen cs <= i32 (BIO_ctrl_pending_ssl ssl) ->
  (i32 (BIO_ctrl_pending_ssl ssl) <> 0 -> no_error ssl' (u64 n)) ->
  rw_read_plain ssl r h =
    let pending := i32 (BIO_ctrl_pending_ssl ssl) in
    Ok ((None, ssl', if decide (pending = 0) then r else {|
           rw_read_size := rw_read_size r; rw_read_output := Heap (length h) 0;
           rw_read_output_size := u64 n; rw_write_output := rw_write_output r;
           rw_write_output_size := rw_write_output_size r |}),
        h ++ output_block pending cs).
Proof.
  unfold plain_read, rw_read_plain, output_block. intros Hr Hp Hcs Hne. cbv zeta.
  pose proof (i32_range (BIO_ctrl_pending_ssl ssl)) as Hb.
  destruct (decide (i32 (BIO_ctrl_pending_ssl ssl) = 0)) as [E|E].
  - simplify_eq. by rewrite app_nil_r.
  - rewrite Hr. cbv beta iota.
    rewrite (new_fill (i32 (BIO_ctrl_pending_ssl ssl)) cs) by lia.
    by rewrite check_no_error by auto.
Qed.

Lemma take_input_run ssl p cs rest r h n ssl' :
  cells_at h p (cs ++ rest) -> zlen cs = taken ssl (zlen (cs ++ rest)) ->
  0 <= BIO_get_write_guarantee ssl ->
  input_written ssl cs = (n, ssl') -> (cs <> [] -> no_error ssl' n) ->
  rw_take_input ssl p (zlen (cs ++ rest)) r h =
    Ok ((None, ssl', {|
           rw_read_size := zlen cs; rw_read_output := rw_read_output r;
           rw_read_output_size := rw_read_output_size r; rw_write_output := rw_write_output r;
           rw_write_output_size := rw_write_output_size r |}), h).
Proof.
  unfold taken, rw_take_input, input_written. intros Hat Ht Hg Hw Hne. cbv zeta.
  apply cells_at_app in Hat as [Hat _].
  destruct (decide (0 < zlen (cs ++ rest))) as [Hpos|Hpos].
  - rewrite ?decide_True in Ht by done.
    destruct (decide (BIO_get_write_guarantee ssl = 0)) as [E|E].
    + assert (cs = []) as -> by (destruct cs; [done|cbn in Ht; lia]).
      rewrite decide_True in Hw by done. by simplify_eq.
    + assert ((if decide (zlen (cs ++ rest) < BIO_get_write_guarantee ssl)
               then zlen (cs ++ rest) else BIO_get_write_guarantee ssl) = zlen cs) as ->
        by (destruct (decide (zlen (cs ++ rest) < _)); lia).
      erewrite bind_run by (by apply read_cells_at).
      assert (cs <> []) as Hcs by (intros ->; change (zlen []) with 0 in Ht; lia).
      rewrite decide_False in Hw by done. rewrite Hw, check_no_error by auto. done.
  - rewrite ?decide_False in Ht by done.
    assert (cs = []) as -> by (destruct cs; [done|cbn in Hpos; lia]).
    rewrite decide_True in Hw by done. by simplify_eq.
Qed.

Lemma give_output_run ssl r h n cs ssl' :
  0 <= BIO_ctrl_pending_network ssl < 9223372036854775808 ->
  (if decide (BIO_ctrl_pending_network ssl = 0) then (0, [], ssl)
   else BIO_read_network ssl (BIO_ctrl_pending_network ssl)) = (n, cs, ssl') ->
  zlen cs = BIO_ctrl_pending_network ssl -> (cs <> [] -> no_error ssl' n) ->
  rw_give_output ssl r h =
    Ok ((None, ssl', {|
           rw_read_size := rw_read_size r; rw_read_output := rw_read_output r;
           rw_read_output_size := rw_read_output_size r;
           rw_write_output := (if decide (cs = []) then rw_write_output r
                               else Heap (length h) 0);
           rw_write_output_size := zlen cs |}),
        h ++ output_block (zlen cs) cs).
Proof.
  unfold rw_give_output, output_block. intros Hp Hr Hcs Hne. cbv zeta.
  rewrite <- Hcs in *.
  destruct (decide (zlen cs = 0)) as [E|E].
  - assert (cs = []) as -> by (destruct cs; [done|cbn in E; lia]).
    simplify_eq. by rewrite app_nil_r.
  - rewrite Hr. cbv beta iota. rewrite (new_fill (zlen cs) cs) by lia.
    assert (cs <> []) as Hne' by by destruct cs.
    rewrite check_no_error by auto. by rewrite decide_False.
Qed.
End read_write_lemmas.

(** What the documentation of OpenSSL says of the BIO calls. *)
Class OpenSSLLaws `{OpenSSL} := {
  pending_ssl_range ssl : 0 <= BIO_ctrl_pending_ssl ssl < 2147483648;
  pending_network_range ssl : 0 <= BIO_ctrl_pending_network ssl < 2147483648;
  guarantee_nonneg ssl : 0 <= BIO_get_write_guarantee ssl;
  BIO_read_ssl_result ssl size n cs ssl' :
    0 < size -> BIO_read_ssl ssl size = (n, cs, ssl') ->
    zlen cs <= size /\ (n = zlen cs \/ n = -1 /\ cs = []);
  BIO_read_network_all ssl n cs ssl' :
    0 < BIO_ctrl_pending_network ssl ->
    BIO_read_network ssl (BIO_ctrl_pending_network ssl) = (n, cs, ssl') ->
    n = zlen cs /\ zlen cs = BIO_ctrl_pending_network ssl
}.

(** The reference arguments as the connection initialises them. *)
Definition rw_zero : rw_result := {|
  rw_read_size := 0; rw_read_output := Null; rw_read_output_size := 0;
  rw_write_output := Null; rw_write_output_size := 0
|}.

Definition network_read `{OpenSSL} (ssl : SSL) : Z * block * SSL :=
  if decide (BIO_ctrl_pending_network ssl = 0) then (0, [], ssl)
  else BIO_read_network ssl (BIO_ctrl_pending_network ssl).

(** ** Theorems *)

Lemma read_write_run `{Allocator} `{OpenSSLLaws} ssl p cs rest h
    n1 plain ssl1 n2 ssl2 n3 out ssl3 :
  cells_at h p (cs ++ rest) ->
  plain_read ssl = (n1, plain, ssl1) ->
  zlen cs = taken ssl1 (zlen (cs ++ rest)) ->
  input_written ssl1 cs = (n2, ssl2) ->
  network_read ssl2 = (n3, out, ssl3) ->
  (BIO_ctrl_pending_ssl ssl <> 0 -> no_error ssl1 (u64 n1)) ->
  (cs <> [] -> no_error ssl2 n2) -> (out <> [] -> no_error ssl3 n3) ->
  let pending := BIO_ctrl_pending_ssl ssl in
  let h1 := h ++ output_block pending plain in
  read_write ssl p (zlen (cs ++ rest)) Null 0 rw_zero h =
    Ok ((None, ssl3, {|
           rw_read_size := zlen cs;
           rw_read_output := if decide (pending = 0) then Null else Heap (length h) 0;
           rw_read_output_size := if decide (pending = 0) then 0 else u64 n1;
           rw_write_output := if decide (out = []) then Null else Heap (length h1) 0;
           rw_write_output_size := zlen out |}),
        h1 ++ output_block (zlen out) out).
Proof.
  intros Hat Hrd Ht Hwr Hnt E1 E2 E3. cbv zeta.
  pose proof (pending_ssl_range ssl) as Hp. pose proof (pending_network_range ssl2) as Hq.
  unfold read_write, rw_write_input. rewrite decide_True by done. rewrite bind_ret.
  assert (i32 (BIO_ctrl_pending_ssl ssl) = BIO_ctrl_pending_ssl ssl) as Hi
    by (apply i32_small; lia).
  assert (zlen plain <= BIO_ctrl_pending_ssl ssl) as Hpl.
  { unfold plain_read in Hrd. rewrite Hi in Hrd. case_decide as Hd; [simplify_eq; cbn; lia|].
    eapply BIO_read_ssl_result in Hrd as [? _]; lia. }
  erewrite bind_run by (eapply read_plain_run; [exact Hrd|lia|lia|rewrite Hi; exact E1]).
  cbv beta iota zeta. rewrite Hi.
  erewrite bind_run.
  2:{ eapply take_input_run; [|exact Ht|apply guarantee_nonneg|exact Hwr|done].
      unfold output_block. case_decide; [by rewrite app_nil_r|by apply cells_at_alloc]. }
  cbv beta iota.
  assert (zlen out = BIO_ctrl_pending_network ssl2) as Hout.
  { unfold network_read in Hnt. case_decide as Hd; [by simplify_eq|].
    by eapply BIO_read_network_all in Hnt as [_ ?]; [|lia]. }
  erewrite give_output_run; [|lia|exact Hnt|done|done].
  by destruct (decide (BIO_ctrl_pending_ssl ssl = 0)).
Qed.

(** One call of [read_write] without data to encrypt and without an error of
    OpenSSL: the plaintext that is pending is read into a new block, a prefix
    of the input as long as the network BIO has room goes to it, [read_size]
    says how long, and all that the network BIO has to send goes to another new
    block; a block is only allocated when there is something pending.  The
    plaintext size is the result of BIO_read as a size_t. *)
Theorem read_write_spec `{Allocator} `{OpenSSLLaws} ssl p cs rest h
    n1 plain ssl1 n2 ssl2 n3 out ssl3 :
  cells_at h p (cs ++ rest) ->
  plain_read ssl = (n1, plain, ssl1) ->
  zlen cs = taken ssl1 (zlen (cs ++ rest)) ->
  input_written ssl1 cs = (n2, ssl2) ->
  network_read ssl2 = (n3, out, ssl3) ->
  (BIO_ctrl_pending_ssl ssl <> 0 -> no_error ssl1 (u64 n1)) ->
  (cs <> [] -> no_error ssl2 n2) -> (out <> [] -> no_error ssl3 n3) ->
  let pending := BIO_ctrl_pending_ssl ssl in
  let h1 := h ++ output_block pending plain in
  read_write ssl p (zlen (cs ++ rest)) Null 0 rw_zero h =
    Ok ((None, ssl3, {|
           rw_read_size := zlen cs;
           rw_read_output := if decide (pending = 0) then Null else Heap (length h) 0;
           rw_read_output_size := if decide (pending = 0) then 0 else u64 n1;
           rw_write_output := if decide (out = []) then Null else Heap (length h1) 0;
           rw_write_output_size := zlen out |}),
        h1 ++ output_block (zlen out) out).
Proof. apply read_write_run. Qed.

(** A BIO_read that has to wait for more of the peer's bytes returns -1, and
    SSL_get_error says SSL_ERROR_WANT_READ, which is not an error for
    [read_write]: it returns no error, a fresh block without a byte in it, and
    the size 2^64 - 1. *)
Theorem read_write_want_read `{Allocator} `{OpenSSLLaws} ssl h ssl1 n3 out ssl3 :
  0 < BIO_ctrl_pending_ssl ssl ->
  BIO_read_ssl ssl (BIO_ctrl_pending_ssl ssl) = (-1, [], ssl1) ->
  SSL_get_error ssl1 (-1) = SSL_ERROR_WANT_READ ->
  network_read ssl1 = (n3, out, ssl3) -> no_error ssl1 0 -> no_error ssl3 n3 ->
  exists r h',
    read_write ssl Null 0 Null 0 rw_zero h = Ok ((None, ssl3, r), h') /\
    rw_read_output r = Heap (length h) 0 /\
    rw_read_output_size r = 18446744073709551615 /\
    h' !! length h = Some (Some (replicate (Z.to_nat (usable (BIO_ctrl_pending_ssl ssl))) None)).
Proof.
  intros Hp Hr He Hn E2 E3. pose proof (pending_ssl_range ssl) as Hb.
  assert (plain_read ssl = (-1, [], ssl1)) as Hpr.
  { unfold plain_read. rewrite i32_small by lia. by rewrite decide_False by lia. }
  eexists _, _. split.
  { apply (read_write_run ssl Null [] [] h (-1) [] ssl1 0 ssl1 n3 out ssl3); [done..| | |].
    - by right.
    - done.
    - done. }
  cbn [rw_read_output rw_read_output_size]. rewrite !decide_False by lia. split_and!; [done..|].
  unfold output_block at 1. rewrite decide_False by lia.
  rewrite <- app_assoc, lookup_app_r, Nat.sub_diag by done. cbn [app lookup list_lookup].
  do 2 f_equal. unfold filled. cbn. f_equal. lia.
Qed.

(** ** Witnesses

    A session that encrypts nothing: the bytes on their way to the application
    and to the network, the state of the handshake, and the last error: a session
    that is [waiting] waits for the rest of the handshake, or, after it, was closed
    by the peer. *)
Record null_ssl := { to_app : block; to_net : block; hello : bool; waiting : bool }.

Definition bio_room : Z := 66560.

Definition take_z (n : Z) (l : block) : block := take (Z.to_nat n) l.

Definition null_openssl : OpenSSL := {|
  SSL_CTX := unit; SSL := null_ssl;
  SSL_new := fun _ => Some {| to_app := []; to_net := []; hello := false; waiting := false |};
  BIO_new_bio_pair := fun s _ _ => Some s; BIO_new_ssl := Some;
  SSL_set_bio := id; BIO_set_ssl := id; SSL_set_connect_state := id;
  SSL_set_accept_state := id; SSL_do_handshake := id;
  SSL_is_init_finished := hello; SSL_shutdown := id; SSL_free := id;
  SSL_cipher_description := fun _ p _ => mret p;
  BIO_write_ssl := fun s cs => (zlen cs,
    {| to_app := to_app s; to_net := to_net s ++ cs; hello := hello s; waiting := false |});
  BIO_ctrl_pending_ssl := fun s => Z.min (zlen (to_app s)) bio_room;
  BIO_read_ssl := fun s n =>
    if hello s && waiting s then (0, [], s)
    else if hello s then
      (zlen (take_z n (to_app s)), take_z n (to_app s),
       {| to_app := drop (Z.to_nat n) (to_app s); to_net := to_net s;
          hello := true; waiting := false |})
    else (-1, [], {| to_app := []; to_net := to_net s; hello := false; waiting := true |});
  BIO_get_write_guarantee := fun s => Z.max 0 (bio_room - zlen (to_app s));
  BIO_write_network := fun s cs => (zlen cs,
    {| to_app := to_app s ++ cs; to_net := to_net s; hello := hello s; waiting := waiting s |});
  BIO_ctrl_pending_network := fun s => Z.min (zlen (to_net s)) bio_room;
  BIO_read_network := fun s n =>
    (zlen (take_z n (to_net s)), take_z n (to_net s),
     {| to_app := to_app s; to_net := drop (Z.to_nat n) (to_net s);
        hello := hello s; waiting := waiting s |});
  SSL_get_error := fun s _ => if waiting s then if hello s then 6 else 2 else 0;
  ERR_error_string := fun _ => [];
  SSL_ERROR_NONE := 0; SSL_ERROR_WANT_READ := 2
|}.

Definition null_laws : @OpenSSLLaws null_openssl.
Proof.
  constructor; cbn; unfold bio_room.
  - intros s. lia.
  - intros s. lia.
  - intros s. lia.
  - intros s size n cs s' Hs. destruct (hello s); cbn; [destruct (waiting s)|];
      intros; simplify_eq.
    + cbn. split; [lia|by left].
    + unfold take_z. rewrite length_take. lia.
    + cbn. split; [lia|by right].
  - intros s n cs s' Hs ?. simplify_eq. split; [done|].
    unfold take_z. rewrite length_take. lia.
Defined.

Definition null_session : null_ssl := {|
  to_app := Some <$> [1; 2; 3]; to_net := Some <$> [4; 5]; hello := true; waiting := false
|}.

Theorem read_write_spec_witness :
  exists s r h,
    @read_write exact_allocator null_openssl null_session (Heap 0 0) 2 Null 0 rw_zero
      [Some [Some 6; None]] = Ok ((None, s, r), h) /\
    rw_read_size r = 2 /\ rw_read_output r = Heap 1 0 /\ rw_read_output_size r = 3 /\
    rw_write_output r = Heap 2 0 /\ rw_write_output_size r = 2 /\
    to_app s = [Some 6; None] /\
    h = [Some [Some 6; None]; Some (Some <$> [1; 2; 3]); Some (Some <$> [4; 5])].
Proof.
  eexists _, _, _. split.
  { apply (@read_write_spec exact_allocator null_openssl null_laws null_session (Heap 0 0)
      [Some 6; None] [] [Some [Some 6; None]] 3 (Some <$> [1; 2; 3])
      {| to_app := []; to_net := Some <$> [4; 5]; hello := true; waiting := false |} 2
      {| to_app := [Some 6; None]; to_net := Some <$> [4; 5]; hello := true;
         waiting := false |} 2 (Some <$> [4; 5])
      {| to_app := [Some 6; None]; to_net := []; hello := true; waiting := false |});
      first [reflexivity | by left]. }
  vm_compute. split_and!; reflexivity.
Defined.

Definition handshaking : null_ssl := {|
  to_app := Some <$> [22; 3]; to_net := []; hello := false; waiting := false
|}.

Theorem read_write_want_read_witness :
  exists r h s,
    @read_write exact_allocator null_openssl handshaking Null 0 Null 0 rw_zero [] =
      Ok ((None, s, r), h) /\
    rw_read_output_size r = 18446744073709551615.
Proof.
  destruct (@read_write_want_read exact_allocator null_openssl null_laws handshaking []
    {| to_app := []; to_net := []; hello := false; waiting := true |} 0 []
    {| to_app := []; to_net := []; hello := false; waiting := true |}
    eq_refl eq_refl eq_refl eq_refl (or_intror eq_refl) (or_intror eq_refl))
    as (r & h & Hrun & _ & Hsize & _).
  exists r, h. eexists. split; [exact Hrun|exact Hsize].
Defined.
