(* ===== verification/SslContext.v ===== *)
(** * cql_ssl_context.hpp

    A TLS context: the configuration of an SSL_CTX, and the making of keys and
    certificates.  The code is a sequence of calls of OpenSSL, and these are
    what is modelled: a program is given the answer of every call and leaves the
    trace of its calls.  OpenSSL is the parameter [answer], which may depend on
    all that was called before.  What a call does to the ownership of objects
    is the documentation of OpenSSL, read off the trace by [owned]. *)

From S2P Require Import Prelude Memory StdMap Common.

(** ** Calls *)

(** An argument: a number, a pointer to an object (0 is NULL), a [char*], the text
    of a literal, or the name of a function or a constant. *)
Inductive arg : Set :=
  | AInt (z : Z)
  | APtr (p : Z)
  | AChars (p : ptr)
  | AText (s : string)
  | AName (s : string).

Record api_call := {
  ac_name   : string;
  ac_args   : list arg;
  ac_result : Z
}.

Abbreviation api := (list api_call).

Section context.
Variable answer : api -> string -> list arg -> Z.
Variable NID_undef : Z.

Definition call (name : string) (args : list arg) : prog api Z := fun t =>
  let r := answer t name args in
  Ok (r, t ++ [{| ac_name := name; ac_args := args; ac_result := r |}]).

(** ** Data *)

(** The constructor leaves the store indeterminate. *)
Record SSLContext := {
  pem_callback_    : arg;
  verify_callback_ : arg;
  ssl_ctx_         : Z;
  ca_store_        : option Z
}.

Definition SSLContext_new : SSLContext := {|
  pem_callback_ := APtr 0; verify_callback_ := AName "default_verify_callback";
  ssl_ctx_ := 0; ca_store_ := None
|}.

Definition set_ssl_ctx (v : Z) (c : SSLContext) : SSLContext := {|
  pem_callback_ := pem_callback_ c; verify_callback_ := verify_callback_ c;
  ssl_ctx_ := v; ca_store_ := ca_store_ c
|}.
Definition set_ca_store (v : Z) (c : SSLContext) : SSLContext := {|
  pem_callback_ := pem_callback_ c; verify_callback_ := verify_callback_ c;
  ssl_ctx_ := ssl_ctx_ c; ca_store_ := Some v
|}.

(** Reading the store. *)
Definition the_ca_store (c : SSLContext) : prog api Z :=
  match ca_store_ c with Some s => mret s | None => fail Uninitialised end.

(** ** Configuration *)

Definition context_init (debug client : bool) (c : SSLContext) : prog api (Z * SSLContext) :=
  when debug (
    call "CRYPTO_malloc_debug_init" [] ;;
    call "CRYPTO_dbg_set_options" [AName "V_CRYPTO_MDEBUG_ALL"] ;;
    call "CRYPTO_mem_ctrl" [AName "CRYPTO_MEM_CHECK_ON"] ;; mret tt) ;;
  call "SSL_load_error_strings" [] ;;
  call "ERR_load_BIO_strings" [] ;;
  call "SSL_library_init" [] ;;
  call "OpenSSL_add_all_algorithms" [] ;;
  method ← call (if client then "TLSv1_client_method" else "TLSv1_server_method") [];
  ctx ← call "SSL_CTX_new" [APtr method];
  call "SSL_CTX_set_cipher_list"
    [APtr ctx; AText "AES256-SHA:TLSv1+HIGH:!SSLv2:!aNULL:!eNULL:!3DES:@STRENGTH"] ;;
  call "SSL_CTX_set_verify" [APtr ctx; AName "SSL_VERIFY_PEER"; verify_callback_ c] ;;
  mret (CQL_ERROR_NO_ERROR, set_ssl_ctx ctx c).

(** The SSL object of the new session. *)
Definition session_new (c : SSLContext) : prog api Z := call "SSL_new" [APtr (ssl_ctx_ c)].

Definition load_bio (input : ptr) (size : Z) : prog api Z :=
  method ← call "BIO_s_mem" [];
  bio ← call "BIO_new" [APtr method];
  r ← call "BIO_write" [APtr bio; AChars input; AInt size];
  mret (if decide (i32 r <= 0) then 0 else bio).

Definition load_pem_cert (input : ptr) (size : Z) (callback : arg) : prog api Z :=
  bio ← load_bio input size;
  if decide (bio = 0) then mret 0
  else
    x509 ← call "PEM_read_bio_X509" [APtr bio; APtr 0; callback; APtr 0];
    call "BIO_free_all" [APtr bio] ;;
    mret x509.

Definition add_ca (input : ptr) (size : Z) (c : SSLContext) : prog api (Z * SSLContext) :=
  store ← the_ca_store c;
  c ← (if decide (store = 0) then
         store ← call "X509_STORE_new" [];
         call "SSL_CTX_set_cert_store" [APtr (ssl_ctx_ c); APtr store] ;;
         mret (set_ca_store store c)
       else mret c);
  x509 ← load_pem_cert input size (pem_callback_ c);
  if decide (x509 = 0) then mret (CQL_ERROR_SSL_CA_CERT, c)
  else
    store ← the_ca_store c;
    call "X509_STORE_add_cert" [APtr store; APtr x509] ;;
    call "SSL_CTX_add_client_CA" [APtr (ssl_ctx_ c); APtr x509] ;;
    call "X509_free" [APtr x509] ;;
    mret (CQL_ERROR_NO_ERROR, c).

Definition add_crl (input : ptr) (size : Z) (c : SSLContext) : prog api Z :=
  bio ← load_bio input size;
  if decide (bio = 0) then mret CQL_ERROR_SSL_CRL
  else
    x509 ← call "PEM_read_bio_X509_CRL" [APtr bio; APtr 0; pem_callback_ c; APtr 0];
    if decide (x509 = 0) then
      call "BIO_free_all" [APtr bio] ;;
      mret CQL_ERROR_SSL_CRL
    else
      store ← the_ca_store c;
      call "X509_STORE_add_crl" [APtr store; APtr x509] ;;
      call "X509_STORE_set_flags"
        [APtr store; AName "X509_V_FLAG_CRL_CHECK | X509_V_FLAG_CRL_CHECK_ALL"] ;;
      call "BIO_free_all" [APtr bio] ;;
      call "X509_CRL_free" [APtr x509] ;;
      mret CQL_ERROR_NO_ERROR.

Definition use_key (input : ptr) (input_size : Z) (passphrase : ptr) (c : SSLContext)
    : prog api Z :=
  bio ← load_bio input input_size;
  if decide (bio = 0) then mret CQL_ERROR_SSL_PRIVATE_KEY
  else
    key ← call "PEM_read_bio_PrivateKey"
            [APtr bio; APtr 0; pem_callback_ c; AChars passphrase];
    if decide (key = 0) then
      call "BIO_free_all" [APtr bio] ;;
      mret CQL_ERROR_SSL_PRIVATE_KEY
    else
      call "SSL_CTX_use_PrivateKey" [APtr (ssl_ctx_ c); APtr key] ;;
      call "EVP_PKEY_free" [APtr key] ;;
      call "BIO_free_all" [APtr bio] ;;
      mret CQL_ERROR_NO_ERROR.

Definition use_cert (input : ptr) (size : Z) (c : SSLContext) : prog api Z :=
  x509 ← load_pem_cert input size (pem_callback_ c);
  if decide (x509 = 0) then mret CQL_ERROR_SSL_CA_CERT
  else
    r ← call "SSL_CTX_use_certificate" [APtr (ssl_ctx_ c); APtr x509];
    call "X509_free" [APtr x509] ;;
    mret (if decide (i32 r <= 0) then CQL_ERROR_SSL_CERT else CQL_ERROR_NO_ERROR).

Definition use_rsa_key (rsa : Z) (c : SSLContext) : prog api Z :=
  r ← call "SSL_CTX_use_RSAPrivateKey" [APtr (ssl_ctx_ c); APtr rsa];
  mret (if decide (i32 r <= 0) then CQL_ERROR_SSL_PRIVATE_KEY else CQL_ERROR_NO_ERROR).

Definition use_x509_cert (cert : Z) (c : SSLContext) : prog api Z :=
  r ← call "SSL_CTX_use_certificate" [APtr (ssl_ctx_ c); APtr cert];
  mret (if decide (i32 r <= 0) then CQL_ERROR_SSL_CERT else CQL_ERROR_NO_ERROR).

Definition context_ciphers (ciphers : ptr) (c : SSLContext) : prog api unit :=
  call "SSL_CTX_set_cipher_list" [APtr (ssl_ctx_ c); AChars ciphers] ;; mret tt.

Definition pem_callback (callback : arg) (c : SSLContext) : SSLContext := {|
  pem_callback_ := callback; verify_callback_ := verify_callback_ c;
  ssl_ctx_ := ssl_ctx_ c; ca_store_ := ca_store_ c
|}.

Definition verify_callback (callback : arg) (c : SSLContext) : prog api SSLContext :=
  call "SSL_CTX_set_verify" [APtr (ssl_ctx_ c); AName "SSL_VERIFY_PEER"; callback] ;;
  mret {| pem_callback_ := pem_callback_ c; verify_callback_ := callback;
          ssl_ctx_ := ssl_ctx_ c; ca_store_ := ca_store_ c |}.

(** Every certificate is accepted. *)
Definition default_verify_callback (preverify_ok ctx : Z) : Z := 1.

(** ** Keys and certificates *)

Definition create_key (size : Z) : prog api Z :=
  pair ← call "RSA_new" [];
  e ← call "BN_new" [];
  call "BN_set_word" [APtr e; AInt 65537] ;;
  r ← call "RSA_generate_key_ex" [APtr pair; AInt size; APtr e; APtr 0];
  let pair := if decide (r = 0) then 0 else pair in
  call "BN_free" [APtr e] ;;
  mret pair.

(** [CHECK_KEY(x)], and what follows it. *)
Definition check_key (pkey key : Z) (x : bool) (k : prog api Z) : prog api Z :=
  if x then
    (if decide (pkey <> 0) then call "EVP_PKEY_free" [APtr pkey] ;; mret tt else mret tt) ;;
    (if decide (key <> 0) then call "RSA_free" [APtr key] ;; mret tt else mret tt) ;;
    mret 0
  else k.

Definition get_evp_pkey (rsa priv : Z) : prog api Z :=
  key ← call (if decide (priv <> 0) then "RSAPrivateKey_dup" else "RSAPublicKey_dup")%string
          [APtr rsa];
  pkey ← call "EVP_PKEY_new" [];
  check_key pkey key (bool_decide (key = 0)) (
  check_key pkey key (bool_decide (pkey = 0)) (
  r ← call "EVP_PKEY_assign_RSA" [APtr pkey; APtr key];
  check_key pkey key (bool_decide (r = 0)) (
  mret pkey))).

(** [CHECK_CERT(x)], and what follows it. *)
Definition check_cert (x509 : Z) (x : bool) (k : prog api Z) : prog api Z :=
  if x then call "X509_free" [APtr x509] ;; mret 0 else k.

(** The call of a function, and a check that it does not return 0. *)
Definition checked (x509 : Z) (name : string) (args : list arg) (k : prog api Z) : prog api Z :=
  r ← call name args;
  check_cert x509 (bool_decide (r = 0)) k.

(** Looking up a name and adding an entry for it. *)
Definition add_entry (x509 name : Z) (field : string) (text : ptr) (k : prog api Z)
    : prog api Z :=
  nid ← call "OBJ_txt2nid" [AText field];
  check_cert x509 (bool_decide (nid = NID_undef)) (
  checked x509 "X509_NAME_add_entry_by_NID"
    [APtr name; AInt nid; AName "MBSTRING_ASC"; AChars text; AInt (-1); AInt (-1); AInt 0] k).

Definition create_cert (rsa rsaSign : Z) (cname cnameSign pszOrgName : ptr)
    (certLifetime : Z) : prog api Z :=
  start_time ← call "time" [APtr 0];
  let end_time := i64 (start_time + certLifetime) in
  x509 ← call "X509_new" [];
  check_cert x509 (bool_decide (x509 = 0)) (
  sign_pkey ← get_evp_pkey rsaSign 1;
  check_cert x509 (bool_decide (sign_pkey = 0)) (
  pkey ← get_evp_pkey rsa 0;
  check_cert x509 (bool_decide (pkey = 0)) (
  checked x509 "X509_set_version" [APtr x509; AInt 2] (
  serial ← call "X509_get_serialNumber" [APtr x509];
  checked x509 "ASN1_INTEGER_set" [APtr serial; AInt start_time] (
  name ← call "X509_NAME_new" [];
  check_cert x509 (bool_decide (name = 0)) (
  add_entry x509 name "organizationName" pszOrgName (
  add_entry x509 name "commonName" cname (
  checked x509 "X509_set_subject_name" [APtr x509; APtr name] (
  name_issuer ← call "X509_NAME_new" [];
  check_cert x509 (bool_decide (name_issuer = 0)) (
  add_entry x509 name_issuer "organizationName" pszOrgName (
  add_entry x509 name_issuer "commonName" cnameSign (
  checked x509 "X509_set_issuer_name" [APtr x509; APtr name_issuer] (
  before ← call "X509_get_notBefore" [APtr x509];
  checked x509 "X509_time_adj" [APtr before; AInt 0; AInt start_time] (
  after ← call "X509_get_notAfter" [APtr x509];
  checked x509 "X509_time_adj" [APtr after; AInt 0; AInt end_time] (
  checked x509 "X509_set_pubkey" [APtr x509; APtr pkey] (
  digest ← call "EVP_sha1" [];
  checked x509 "X509_sign" [APtr x509; APtr sign_pkey; APtr digest] (
  (if decide (sign_pkey <> 0) then call "EVP_PKEY_free" [APtr sign_pkey] ;; mret tt
   else mret tt) ;;
  (if decide (pkey <> 0) then call "EVP_PKEY_free" [APtr pkey] ;; mret tt else mret tt) ;;
  (if decide (name <> 0) then call "X509_NAME_free" [APtr name] ;; mret tt else mret tt) ;;
  (if decide (name_issuer <> 0) then call "X509_NAME_free" [APtr name_issuer] ;; mret tt
   else mret tt) ;;
  mret x509))))))))))))))))).
End context.

(** ** Ownership

    Which objects the caller of OpenSSL has to free, by its documentation: what
    a constructor returned, unless it was freed or given to another object. *)

Definition makers : list string :=
  ["X509_new"; "RSAPrivateKey_dup"; "RSAPublicKey_dup"; "EVP_PKEY_new"; "X509_NAME_new";
   "RSA_new"; "BN_new"; "BIO_new"; "PEM_read_bio_X509"; "PEM_read_bio_X509_CRL";
   "PEM_read_bio_PrivateKey"; "X509_STORE_new"; "SSL_CTX_new"; "SSL_new"]%string.

Definition frees : list string :=
  ["X509_free"; "EVP_PKEY_free"; "RSA_free"; "X509_NAME_free"; "BN_free"; "BIO_free_all";
   "X509_CRL_free"]%string.

(** Freeing NULL does nothing; freeing what is not owned is an error. *)
Definition disown (p : Z) (l : list Z) : option (list Z) :=
  if decide (p = 0) then Some l
  else if decide (p ∈ l) then Some (filter (fun q => q <> p) l) else None.

Definition effect (r : api_call) (l : list Z) : option (list Z) :=
  if decide (ac_name r ∈ makers) then
    Some (if decide (ac_result r = 0) then l else ac_result r :: l)
  else if decide (ac_name r ∈ frees) then
    match ac_args r with [APtr p] => disown p l | _ => None end
  else if decide (ac_name r = "EVP_PKEY_assign_RSA"%string) then
    match ac_args r with
    | [_; APtr key] => if decide (ac_result r = 0) then Some l else disown key l
    | _ => None
    end
  else if decide (ac_name r = "SSL_CTX_set_cert_store"%string) then
    match ac_args r with [_; APtr store] => disown store l | _ => None end
  else Some l.

(** The objects that are owned after a trace, the newest first. *)
Definition owned (t : api) : option (list Z) :=
  foldl (fun l r => match l with Some l => effect r l | None => None end) (Some []) t.

(** ** Lemmas *)

(** [gives m t Q]: the calls of [m] after the trace [t] end, in [Q]. *)
Definition gives {A} (m : prog api A) (t : api) (Q : A -> api -> Prop) : Prop :=
  exists a t', m t = Ok (a, t') /\ Q a t'.

(** The caller owns [l], each object once. *)
Definition owns (t : api) (l : list Z) : Prop := owned t = Some l /\ NoDup l /\ 0 ∉ l.

(** A constructor returns NULL or an object that is not in use. *)
Definition fresh_objects (answer : api -> string -> list arg -> Z) : Prop :=
  forall t l name args, owned t = Some l -> name ∈ makers -> answer t name args ∉ l.

(** A call that does not change what is owned. *)
Definition neutral (name : string) : bool :=
  bool_decide (name ∉ makers /\ name ∉ frees /\ name <> "EVP_PKEY_assign_RSA"%string /\
    name <> "SSL_CTX_set_cert_store"%string).

Section gives_lemmas.
Context {A B : Type}.

Lemma gives_ret (a : A) t Q : Q a t -> gives (mret a) t Q.
Proof. intros Ha. by exists a, t. Qed.

Lemma gives_bind (m : prog api A) (k : A -> prog api B) t R Q :
  gives m t R -> (forall a t', R a t' -> gives (k a) t' Q) -> gives (m ≫= k) t Q.
Proof.
  intros (a & t1 & Hm & Ha) Hk. destruct (Hk a t1 Ha) as (b & t2 & Hr & Hb).
  exists b, t2. split; [|done]. by erewrite bind_run by exact Hm.
Qed.

Lemma gives_mono (m : prog api A) t (R Q : A -> api -> Prop) :
  gives m t R -> (forall a t', R a t' -> Q a t') -> gives m t Q.
Proof. intros (a & t1 & Hm & Ha) HQ. exists a, t1. auto. Qed.
End gives_lemmas.

Section ownership.
Context (answer : api -> string -> list arg -> Z) (NID_undef : Z).
Hypothesis Hfresh : fresh_objects answer.
Implicit Types (t : api) (l pre : list Z) (name : string).
Abbreviation call := (call answer).

Lemma owned_snoc t r :
  owned (t ++ [r]) = match owned t with Some l => effect r l | None => None end.
Proof. unfold owned. by rewrite foldl_app. Qed.

Lemma filter_absent p l : p ∉ l -> filter (fun q => q <> p) l = l.
Proof.
  induction l as [|q l IH]; [done|]. intros [Hq Hl]%not_elem_of_cons.
  rewrite filter_cons_True by done. by rewrite IH.
Qed.

Lemma disown_spec p pre l :
  NoDup (pre ++ p :: l) -> 0 ∉ pre ++ p :: l -> disown p (pre ++ p :: l) = Some (pre ++ l).
Proof.
  intros Hnd H0. unfold disown.
  rewrite decide_False by (intros ->; apply H0; rewrite elem_of_app, elem_of_cons; auto).
  rewrite decide_True by (rewrite elem_of_app, elem_of_cons; auto). f_equal.
  apply NoDup_app in Hnd as (Hpre & Hdisj & [Hp Hl]%NoDup_cons).
  rewrite filter_app, filter_cons_False by naive_solver.
  rewrite !filter_absent; [done|done|]. intros Hq. eapply Hdisj; [exact Hq|by left].
Qed.

Lemma owns_remove t p pre l :
  NoDup (pre ++ p :: l) -> 0 ∉ pre ++ p :: l -> owned t = Some (pre ++ l) -> owns t (pre ++ l).
Proof.
  intros Hnd Hz Ho. split; [done|]. split.
  - apply NoDup_app in Hnd as (? & Hd & [? ?]%NoDup_cons). apply NoDup_app.
    split_and!; [done| |done]. intros q Hq Hl. eapply Hd; [exact Hq|by right].
  - rewrite elem_of_app in *. rewrite elem_of_cons in Hz. tauto.
Qed.

(** NULL, or an object that is owned then. *)
Definition made l (p : Z) t : Prop := (p = 0 /\ owns t l) \/ (p <> 0 /\ owns t (p :: l)).

Lemma call_made name args t l :
  bool_decide (name ∈ makers) = true -> owns t l ->
  gives (call name args) t (made l).
Proof.
  intros Hn%bool_decide_eq_true (Ho & Hnd & Hz). do 2 eexists. split; [done|].
  pose proof (Hfresh t l name args Ho Hn) as Hf. unfold made, owns.
  rewrite owned_snoc, Ho. unfold effect. cbn [ac_name ac_result]. rewrite decide_True by done.
  destruct (decide (answer t name args = 0)) as [E|E]; [by left|right].
  split_and!; [done|done|by constructor|by apply not_elem_of_cons].
Qed.

Lemma call_neutral name args t l :
  neutral name = true -> owns t l -> gives (call name args) t (fun _ t' => owns t' l).
Proof.
  intros (Hm & Hf & Ha & Hs)%bool_decide_eq_true (Ho & Hnd & Hz). do 2 eexists.
  split; [done|]. split; [|done]. rewrite owned_snoc, Ho. unfold effect.
  cbn [ac_name]. by rewrite !decide_False.
Qed.

Lemma call_free name p pre l t :
  bool_decide (name ∈ frees /\ name ∉ makers) = true -> owns t (pre ++ p :: l) ->
  gives (call name [APtr p]) t (fun _ t' => owns t' (pre ++ l)).
Proof.
  intros [Hf Hm]%bool_decide_eq_true (Ho & Hnd & Hz). do 2 eexists. split; [done|].
  apply owns_remove with p; [done..|]. rewrite owned_snoc, Ho. unfold effect.
  cbn [ac_name ac_args]. rewrite decide_False, decide_True by done. by apply disown_spec.
Qed.

(** The destructor of an object that may be NULL. *)
Lemma call_free_null name t l :
  bool_decide (name ∈ frees /\ name ∉ makers) = true -> owns t l ->
  gives (call name [APtr 0]) t (fun _ t' => owns t' l).
Proof.
  intros [Hf Hm]%bool_decide_eq_true (Ho & Hnd & Hz). do 2 eexists. split; [done|].
  split; [|done]. rewrite owned_snoc, Ho. unfold effect. cbn [ac_name ac_args].
  by rewrite decide_False, decide_True.
Qed.

(** ** The operations *)

(** [cstep] runs a call that changes nothing; [cmake] one that makes an
    object, or NULL in the first case. *)
Ltac cstep :=
  eapply gives_bind; [apply call_neutral; [reflexivity|eassumption]|];
  let r := fresh "r" in let t := fresh "t" in let Ht := fresh "Ht" in
  cbv beta; intros r t Ht.
Tactic Notation "cmake" ident(p) :=
  eapply gives_bind; [apply call_made; [reflexivity|eassumption]|];
  let t := fresh "t" in let Ht := fresh "Ht" in let Hp := fresh "Hp" in
  cbv beta; intros p t [[-> Ht]|[Hp Ht]].
(** [cfree pre] frees an object behind [pre]. *)
Tactic Notation "cfree" constr(pre) :=
  eapply gives_bind; [eapply (call_free _ _ pre); [reflexivity|cbn [app]; eassumption]|];
  let r := fresh "r" in let t := fresh "t" in let Ht := fresh "Ht" in
  cbv beta; intros r t Ht.

(** The BIO, or NULL: then a BIO that was made is lost. *)
Lemma load_bio_gives input size t l :
  owns t l ->
  gives (load_bio answer input size) t (fun bio t' =>
    (bio <> 0 /\ owns t' (bio :: l)) \/
    (bio = 0 /\ exists lost, (length lost <= 1)%nat /\ owns t' (lost ++ l))).
Proof.
  intros Ht. unfold load_bio. cstep. cmake bio; cstep; apply gives_ret.
  - right. split; [by case_decide|]. exists []. split; [cbn; lia|done].
  - case_decide; [right|by left]. split; [done|]. by exists [bio].
Qed.

Lemma load_pem_cert_gives input size cb t l :
  owns t l ->
  gives (load_pem_cert answer input size cb) t (fun x509 t' =>
    (x509 <> 0 /\ owns t' (x509 :: l)) \/
    (x509 = 0 /\ exists lost, (length lost <= 1)%nat /\ owns t' (lost ++ l))).
Proof.
  intros Ht. unfold load_pem_cert. eapply gives_bind; [by apply load_bio_gives|].
  intros bio t1 [[Hb Ht1]|[-> (lost & Hl & Ht1)]].
  - rewrite decide_False by done. cmake x509.
    + cfree (@nil Z). apply gives_ret. right. split; [done|]. exists []. split; [cbn; lia|done].
    + cfree [x509]. apply gives_ret. by left.
  - rewrite decide_True by done. apply gives_ret. right. split; [done|]. by exists lost.
Qed.

(** What an operation of the configuration leaves: its code, and at most a BIO. *)
Definition configured (codes : list Z) l (code : Z) t : Prop :=
  code ∈ CQL_ERROR_NO_ERROR :: codes /\
  exists lost, (length lost <= 1)%nat /\ owns t (lost ++ l) /\
    (code = CQL_ERROR_NO_ERROR -> lost = []).

Lemma configured_ret codes l code lost t :
  (length lost <= 1)%nat -> owns t (lost ++ l) -> code ∈ codes -> code <> 0 ->
  gives (mret code) t (configured codes l).
Proof.
  intros Hl Ht Hc H0. apply gives_ret. split; [by right|]. by exists lost.
Qed.

Lemma configured_done codes l t :
  owns t l -> gives (mret CQL_ERROR_NO_ERROR) t (configured codes l).
Proof.
  intros Ht. apply gives_ret. split; [by left|]. exists []. split_and!; [cbn; lia|done|done].
Qed.

Lemma use_cert_gives input size c t l :
  owns t l ->
  gives (use_cert answer input size c) t
    (configured [CQL_ERROR_SSL_CA_CERT; CQL_ERROR_SSL_CERT] l).
Proof.
  intros Ht. unfold use_cert. eapply gives_bind; [by apply load_pem_cert_gives|].
  intros x509 t1 [[Hx Ht1]|[-> (lost & Hl & Ht1)]].
  - rewrite decide_False by done. cstep. cfree (@nil Z). case_decide.
    + apply (configured_ret _ _ _ []); [cbn; lia|done|set_solver|done].
    + by apply configured_done.
  - rewrite decide_True by done. apply (configured_ret _ _ _ lost); [done|done|by left|done].
Qed.

Lemma use_key_gives input size pass c t l :
  owns t l ->
  gives (use_key answer input size pass c) t (configured [CQL_ERROR_SSL_PRIVATE_KEY] l).
Proof.
  intros Ht. unfold use_key. eapply gives_bind; [by apply load_bio_gives|].
  intros bio t1 [[Hb Ht1]|[-> (lost & Hl & Ht1)]].
  - rewrite decide_False by done. cmake key.
    + cfree (@nil Z). apply (configured_ret _ _ _ []); [cbn; lia|done|by left|done].
    + rewrite decide_False by done. cstep. cfree (@nil Z). cfree (@nil Z). by apply configured_done.
  - rewrite decide_True by done. apply (configured_ret _ _ _ lost); [done|done|by left|done].
Qed.

Lemma add_crl_gives input size c store t l :
  owns t l -> ca_store_ c = Some store ->
  gives (add_crl answer input size c) t (configured [CQL_ERROR_SSL_CRL] l).
Proof.
  intros Ht Hs. unfold add_crl. eapply gives_bind; [by apply load_bio_gives|].
  intros bio t1 [[Hb Ht1]|[-> (lost & Hl & Ht1)]].
  - rewrite decide_False by done. cmake x509.
    + cfree (@nil Z). apply (configured_ret _ _ _ []); [cbn; lia|done|by left|done].
    + rewrite decide_False by done. unfold the_ca_store. rewrite Hs.
      eapply gives_bind; [by apply (gives_ret store _ (fun s t' => s = store /\ t' = t0))|].
      intros s ? [-> ->]. cstep. cstep. cfree [x509]. cfree (@nil Z).
      by apply configured_done.
  - rewrite decide_True by done. apply (configured_ret _ _ _ lost); [done|done|by left|done].
Qed.

(** [if (p) free(p);] *)
Abbreviation free_if name p :=
  (if decide (p <> 0) then call name [APtr p] ;; mret tt else mret tt).

Lemma free_if_gives name p pre l t :
  bool_decide (name ∈ frees /\ name ∉ makers) = true -> owns t (pre ++ p :: l) ->
  gives (free_if name p) t (fun _ t' => owns t' (pre ++ l)).
Proof.
  intros Hn Ht. destruct (decide (p <> 0)) as [Hp|Hp].
  - eapply gives_bind; [by apply (call_free name p pre l)|].
    intros r t' Ht'. by apply gives_ret.
  - exfalso. destruct Ht as (_ & _ & Hz). apply Hz. rewrite elem_of_app, elem_of_cons.
    right. left. lia.
Qed.

Lemma free_if_null name l t : owns t l -> gives (free_if name 0) t (fun _ t' => owns t' l).
Proof. intros Ht. by apply gives_ret. Qed.

Tactic Notation "cfree_if" constr(pre) :=
  eapply gives_bind; [eapply (free_if_gives _ _ pre); [reflexivity|cbn [app]; eassumption]|];
  let r := fresh "r" in let t := fresh "t" in let Ht := fresh "Ht" in
  cbv beta; intros r t Ht; cbn [app] in Ht.
Ltac cfree_null :=
  eapply gives_bind; [eapply free_if_null; eassumption|];
  let r := fresh "r" in let t := fresh "t" in let Ht := fresh "Ht" in
  cbv beta; intros r t Ht.

(** The key belongs to [pkey] if the call succeeds. *)
Lemma call_assign pkey key l t :
  owns t (pkey :: key :: l) ->
  gives (call "EVP_PKEY_assign_RSA" [APtr pkey; APtr key]) t (fun r t' =>
    (r = 0 /\ owns t' (pkey :: key :: l)) \/ (r <> 0 /\ owns t' (pkey :: l))).
Proof.
  assert (bool_decide ("EVP_PKEY_assign_RSA"%string ∉ makers /\
    "EVP_PKEY_assign_RSA"%string ∉ frees) = true) as [Hm Hf]%bool_decide_eq_true by reflexivity.
  intros (Ho & Hnd & Hz). do 2 eexists. split; [done|].
  match goal with |- (?r = 0 /\ _) \/ _ => destruct (decide (r = 0)) as [E|E] end; [left|right];
    (split; [done|]).
  - split; [|done]. rewrite owned_snoc, Ho. unfold effect. cbn [ac_name ac_args ac_result].
    rewrite (decide_False _ _ Hm), (decide_False _ _ Hf), decide_True by done. by rewrite E.
  - apply (owns_remove _ key [pkey]); [done..|]. rewrite owned_snoc, Ho. unfold effect.
    cbn [ac_name ac_args ac_result].
    rewrite (decide_False _ _ Hm), (decide_False _ _ Hf), decide_True, (decide_False _ _ E)
      by done.
    by apply (disown_spec key [pkey]).
Qed.

(** No copy of a key is lost, and the key that is returned owns its copy. *)
Lemma get_evp_pkey_gives rsa priv t l :
  owns t l -> gives (get_evp_pkey answer rsa priv) t (made l).
Proof.
  intros Ht. unfold get_evp_pkey, check_key.
  eapply (gives_bind _ _ _ (made l)).
  { destruct (decide (priv <> 0)); by apply call_made. }
  intros key t1 [[-> Ht1]|[Hk Ht1]]; cmake pkey.
  - rewrite bool_decide_true by done. cfree_null. cfree_null. apply gives_ret. by left.
  - rewrite bool_decide_true by done. cfree_if (@nil Z). cfree_null. apply gives_ret. by left.
  - rewrite bool_decide_false, bool_decide_true by done. cfree_null. cfree_if (@nil Z).
    apply gives_ret. by left.
  - rewrite !bool_decide_false by done. eapply gives_bind; [by apply call_assign|].
    intros r t3 [[-> Ht3]|[Hr Ht3]].
    + rewrite bool_decide_true by done. cfree_if (@nil Z). cfree_if (@nil Z).
      apply gives_ret. by left.
    + rewrite bool_decide_false by done. apply gives_ret. by right.
Qed.

(** ** [create_cert] *)

(** What [create_cert] leaves: the certificate, or NULL and what it lost. *)
Definition certified l (x509 : Z) t : Prop :=
  (x509 <> 0 /\ owns t (x509 :: l)) \/
  (x509 = 0 /\ exists lost, (length lost <= 4)%nat /\ owns t (lost ++ l)).

(** The certificate [x509], and the objects that were made after it. *)
Lemma check_cert_gives x509 (b : bool) k lost l t :
  owns t (lost ++ x509 :: l) -> (length lost <= 4)%nat ->
  (b = false -> gives k t (certified l)) -> gives (check_cert answer x509 b k) t (certified l).
Proof.
  intros Ht Hl Hk. destruct b; [|by apply Hk]. unfold check_cert.
  eapply gives_bind; [by eapply (call_free "X509_free" x509 lost l)|].
  intros r t' Ht'. apply gives_ret. right. split; [done|]. by exists lost.
Qed.

Lemma checked_gives x509 name args k lost l t :
  neutral name = true -> owns t (lost ++ x509 :: l) -> (length lost <= 4)%nat ->
  (forall t', owns t' (lost ++ x509 :: l) -> gives k t' (certified l)) ->
  gives (checked answer x509 name args k) t (certified l).
Proof.
  intros Hn Ht Hl Hk. unfold checked. eapply gives_bind; [by apply call_neutral|].
  cbv beta. intros r t' Ht'. eapply check_cert_gives; [done..|]. auto.
Qed.

Lemma add_entry_gives x509 nm field text k lost l t :
  owns t (lost ++ x509 :: l) -> (length lost <= 4)%nat ->
  (forall t', owns t' (lost ++ x509 :: l) -> gives k t' (certified l)) ->
  gives (add_entry answer NID_undef x509 nm field text k) t (certified l).
Proof.
  intros Ht Hl Hk. unfold add_entry. eapply gives_bind; [by apply call_neutral|].
  cbv beta. intros nid t' Ht'. eapply check_cert_gives; [done..|]. intros _.
  by eapply checked_gives.
Qed.

(** A check of what was made after [lost]. *)
Lemma check_made_gives x509 p k lost l t :
  made (lost ++ x509 :: l) p t -> (length lost <= 4)%nat ->
  (p <> 0 -> owns t (p :: lost ++ x509 :: l) -> gives k t (certified l)) ->
  gives (check_cert answer x509 (bool_decide (p = 0)) k) t (certified l).
Proof.
  intros [[-> Ht]|[Hp Ht]] Hl Hk.
  - eapply check_cert_gives; [done..|]. by rewrite bool_decide_true.
  - rewrite bool_decide_false by done. by apply Hk.
Qed.

(** [checked_step lost] passes a check of a function, [entry_step lost] one of an
    entry, [made_step m p lost] a constructor [m] of [p] and its check; [lost] are
    the objects that are there. *)
Ltac next_state :=
  let t := fresh "t" in let Ht := fresh "Ht" in intros t Ht; cbn [app] in Ht.
Tactic Notation "checked_step" constr(lost) :=
  eapply (checked_gives _ _ _ _ lost); 
    [reflexivity|cbn [app]; eassumption|cbn; lia|next_state].
Tactic Notation "entry_step" constr(lost) :=
  eapply (add_entry_gives _ _ _ _ _ lost); 
    [cbn [app]; eassumption|cbn; lia|next_state].
Tactic Notation "made_step" tactic3(m) ident(p) constr(lost) :=
  eapply gives_bind; [m; eassumption|];
  let t := fresh "t" in let Hm := fresh "Hm" in let Hp := fresh "Hp" in
  let Ht := fresh "Ht" in
  intros p t Hm; eapply (check_made_gives _ _ _ lost); [exact Hm|cbn; lia|];
  intros Hp Ht; cbn [app] in Ht.

Lemma create_cert_gives rsa rsaSign cname cnameSign org lifetime t l :
  owns t l ->
  gives (create_cert answer NID_undef rsa rsaSign cname cnameSign org lifetime) t (certified l).
Proof.
  intros Ht. unfold create_cert. cstep. cbv zeta. cmake x509.
  { rewrite bool_decide_true by done. eapply gives_bind; [by apply call_free_null|].
    intros r1 t2 Ht2. apply gives_ret. right. split; [done|]. exists []. split; [cbn; lia|done]. }
  rewrite bool_decide_false by done. cbn [check_cert].
  made_step (apply get_evp_pkey_gives) sign (@nil Z).
  made_step (apply get_evp_pkey_gives) pkey [sign].
  checked_step [pkey; sign]. cstep. checked_step [pkey; sign].
  made_step (apply call_made; [reflexivity|]) nm [pkey; sign].
  entry_step [nm; pkey; sign]. entry_step [nm; pkey; sign]. checked_step [nm; pkey; sign].
  made_step (apply call_made; [reflexivity|]) issuer [nm; pkey; sign].
  entry_step [issuer; nm; pkey; sign]. entry_step [issuer; nm; pkey; sign].
  checked_step [issuer; nm; pkey; sign].
  cstep. checked_step [issuer; nm; pkey; sign]. cstep. checked_step [issuer; nm; pkey; sign].
  checked_step [issuer; nm; pkey; sign]. cstep. checked_step [issuer; nm; pkey; sign].
  cfree_if [issuer; nm; pkey]. cfree_if [issuer; nm]. cfree_if [issuer]. cfree_if (@nil Z).
  apply gives_ret. by left.
Qed.
End ownership.

(** ** Theorems *)

(** C32: the resources of [create_cert], over every behaviour of OpenSSL in which a
    constructor returns NULL or a new object.  No object is freed twice, on any
    of its paths.  A certificate that is returned is all that is left: the keys
    and the names are freed.  If a step fails NULL is returned and the
    certificate is freed, but up to four other objects are lost: the check
    frees the certificate only. *)
Theorem create_cert_resources answer NID_undef rsa rsaSign cname cnameSign org lifetime t l :
  fresh_objects answer -> owns t l ->
  exists x509 t',
    create_cert answer NID_undef rsa rsaSign cname cnameSign org lifetime t = Ok (x509, t') /\
    (x509 <> 0 -> owns t' (x509 :: l)) /\
    (x509 = 0 -> exists lost, (length lost <= 4)%nat /\ owns t' (lost ++ l)).
Proof.
  intros Hf Ht.
  destruct (create_cert_gives answer NID_undef Hf rsa rsaSign cname cnameSign org lifetime t l Ht)
    as (x509 & t' & Hrun & [[Hx Ho]|[Hx Ho]]); exists x509, t'; by split_and!.
Qed.

(** The configuration of a context: each operation returns one of its codes; no
    object is freed twice; what the operation made is freed, except for a BIO
    whose first write failed, which is lost.  On a context as the constructor
    and [init] leave it, [add_ca] and a list of revocations read the pointer to
    the store before it is set. *)
Theorem context_resources answer input size pass c t l :
  fresh_objects answer -> owns t l ->
  gives (use_cert answer input size c) t
    (configured [CQL_ERROR_SSL_CA_CERT; CQL_ERROR_SSL_CERT] l) /\
  gives (use_key answer input size pass c) t (configured [CQL_ERROR_SSL_PRIVATE_KEY] l) /\
  (forall store, ca_store_ c = Some store ->
     gives (add_crl answer input size c) t (configured [CQL_ERROR_SSL_CRL] l)) /\
  (ca_store_ c = None -> add_ca answer input size c t = Fault Uninitialised) /\
  (forall debug client, exists t' ctx,
     context_init answer debug client SSLContext_new t = Ok ((0, ctx), t') /\
     ca_store_ ctx = None).
Proof.
  intros Hf Ht. split_and!.
  - by apply use_cert_gives.
  - by apply use_key_gives.
  - intros store. by apply add_crl_gives.
  - intros Hs. unfold add_ca, the_ca_store. by rewrite Hs.
  - intros [] client; do 2 eexists; done.
Qed.

(** ** Witnesses *)

(** An OpenSSL whose constructors return a new number and whose other calls
    succeed, except for the function [failing]. *)
Definition next_object (t : api) : Z := 1 + foldr Z.max 0 (default [] (owned t)).

Definition openssl_failing (failing : string) (t : api) (name : string) (args : list arg) : Z :=
  if decide (name ∈ makers) then next_object t
  else if decide (name = failing) then 0 else 1.

Lemma max_above l p : p ∈ l -> p <= foldr Z.max 0 l.
Proof.
  induction l as [|q l IH]; [by intros ?%elem_of_nil|]. cbn.
  intros [->|Hp]%elem_of_cons; [lia|]. specialize (IH Hp). lia.
Qed.

Lemma openssl_failing_fresh failing : fresh_objects (openssl_failing failing).
Proof.
  intros t l name args Ho Hn Hin. unfold openssl_failing in Hin.
  rewrite decide_True in Hin by done. unfold next_object in Hin. rewrite Ho in Hin.
  apply max_above in Hin. cbn in Hin. lia.
Qed.

Lemma owns_nothing : owns [] [].
Proof. split_and!; [done|constructor|apply not_elem_of_nil]. Qed.

(** When the signature fails both keys and both names are lost. *)
Example create_cert_loses :
  match create_cert (openssl_failing "X509_sign") 0 7 8 Null Null Null 3600 [] with
  | Ok (x509, t) => (x509, owned t) = (0, Some [7; 6; 5; 3])
  | Fault _ => False
  end.
Proof. vm_compute. reflexivity. Qed.

Theorem create_cert_resources_witness :
  exists x509 t',
    create_cert (openssl_failing "none") 0 7 8 Null Null Null 3600 [] = Ok (x509, t') /\
    (x509 <> 0 -> owns t' [x509]).
Proof.
  destruct (create_cert_resources (openssl_failing "none") 0 7 8 Null Null Null 3600 [] []
    (openssl_failing_fresh "none") owns_nothing) as (x509 & t' & Hrun & Hok & _).
  exists x509, t'. split; [exact Hrun|exact Hok].
Defined.

Theorem context_resources_witness :
  gives (use_cert (openssl_failing "BIO_write") Null 0 SSLContext_new) []
    (configured [CQL_ERROR_SSL_CA_CERT; CQL_ERROR_SSL_CERT] []) /\
  add_ca (openssl_failing "BIO_write") Null 0 SSLContext_new [] = Fault Uninitialised.
Proof.
  destruct (context_resources (openssl_failing "BIO_write") Null 0 Null SSLContext_new [] []
    (openssl_failing_fresh "BIO_write") owns_nothing) as (Hcert & _ & _ & Hca & _).
  split; [exact Hcert|apply Hca; reflexivity].
Defined.
