(* ===== verification/HeapEffects.v ===== *)
(** * What the programs over the heap leave alone

    The decoders, and with them [consume] of every body, only read the heap; the
    encoders, and with them [prepare] of every body, write to the block they are
    given or allocate.  None of them exhausts the fuel of a loop. *)

From S2P Require Import Prelude Memory StdMap Common Serialization Body Query Result.
From S2P Require Import Message.

(** ** Programs that only read *)

Section readonly.
Implicit Types (p : ptr).

Lemma target_fault p h f : target p h = Fault f -> f <> OutOfFuel.
Proof. destruct p; cbn; unfold block_at; repeat case_match; naive_solver. Qed.

Lemma scan_nul_fault cs f : scan_nul cs = Fault f -> f <> OutOfFuel.
Proof.
  induction cs as [|[b|] cs IH]; cbn; [by intros [= <-]| |by intros [= <-]].
  case_decide; [done|]. destruct (scan_nul cs); naive_solver.
Qed.

Lemma read_cells_readonly p n : readonly (read_cells p n).
Proof.
  intros K h Hh. unfold read_cells. case_decide; [done|].
  destruct (target p h) as [[b off]|f] eqn:E; [|by apply target_fault in E].
  by destruct (slice b off n).
Qed.

Lemma read_cstring_readonly p : readonly (read_cstring p).
Proof.
  intros K h Hh. unfold read_cstring.
  destruct (target p h) as [[b off]|f] eqn:E; [|by apply target_fault in E].
  case_decide; [|done].
  destruct (scan_nul _) eqn:E2; [done|by apply scan_nul_fault in E2].
Qed.

#[local] Hint Resolve read_cells_readonly read_cstring_readonly : safe.

Lemma read_bytes_readonly p n : readonly (read_bytes p n).
Proof. unfold read_bytes. safe_solve. Qed.
#[local] Hint Resolve read_bytes_readonly : safe.

Lemma decode_short_readonly p : readonly (decode_short p).
Proof. unfold decode_short. safe_solve. Qed.
Lemma decode_int_readonly p : readonly (decode_int p).
Proof. unfold decode_int. safe_solve. Qed.
#[local] Hint Resolve decode_short_readonly decode_int_readonly : safe.

Lemma decode_string_readonly p n : readonly (decode_string p n).
Proof. unfold decode_string. safe_solve. Qed.
Lemma decode_long_string_readonly p n : readonly (decode_long_string p n).
Proof. unfold decode_long_string. safe_solve. Qed.
#[local] Hint Resolve decode_string_readonly decode_long_string_readonly : safe.

Lemma decode_entries_readonly n p m : readonly (decode_entries n p m).
Proof. revert p m. induction n; intros p m; cbn [decode_entries]; safe_solve. Qed.
Lemma decode_strings_readonly n p m : readonly (decode_strings n p m).
Proof. revert p m. induction n; intros p m; cbn [decode_strings]; safe_solve. Qed.
#[local] Hint Resolve decode_entries_readonly decode_strings_readonly : safe.

Lemma decode_string_map_readonly p : readonly (decode_string_map p).
Proof. unfold decode_string_map. safe_solve. Qed.
Lemma decode_stringlist_readonly p : readonly (decode_stringlist p).
Proof. unfold decode_stringlist. safe_solve. Qed.
#[local] Hint Resolve decode_string_map_readonly decode_stringlist_readonly : safe.

Lemma decode_multi_entries_readonly n p m : readonly (decode_multi_entries n p m).
Proof. revert p m. induction n; intros p m; cbn [decode_multi_entries]; safe_solve. Qed.
#[local] Hint Resolve decode_multi_entries_readonly : safe.

Lemma decode_string_multimap_readonly p : readonly (decode_string_multimap p).
Proof. unfold decode_string_multimap. safe_solve. Qed.
Lemma decode_option_readonly p c n : readonly (decode_option p c n).
Proof. unfold decode_option. safe_solve. Qed.
Lemma decode_span_readonly p s : readonly (decode_span p s).
Proof. unfold decode_span. safe_solve. Qed.
Lemma decode_long_span_readonly p s : readonly (decode_long_span p s).
Proof. unfold decode_long_span. safe_solve. Qed.
#[local] Hint Resolve decode_string_multimap_readonly decode_option_readonly
  decode_span_readonly decode_long_span_readonly : safe.

Lemma resize_columns_readonly n v : readonly (resize_columns n v).
Proof. unfold resize_columns. safe_solve. Qed.
Lemma parse_column_readonly g p : readonly (parse_column g p).
Proof. unfold parse_column. safe_solve. Qed.
#[local] Hint Resolve resize_columns_readonly parse_column_readonly : safe.

Lemma parse_columns_readonly n i r p : readonly (parse_columns n i r p).
Proof. revert i r p. induction n; intros i r p; cbn [parse_columns]; safe_solve. Qed.
#[local] Hint Resolve parse_columns_readonly : safe.

Lemma parse_metadata_readonly r p : readonly (parse_metadata r p).
Proof. unfold parse_metadata. safe_solve. Qed.
#[local] Hint Resolve parse_metadata_readonly : safe.

Lemma result_consume_readonly r p n : readonly (BodyResult_consume r p n).
Proof.
  unfold BodyResult_consume, parse_rows, parse_set_keyspace, parse_prepared,
    parse_schema_change. safe_solve.
Qed.

Lemma map_snd_readonly {A B C} (f : B -> C) (m : prog heap (A * B)) :
  readonly m -> readonly (map_snd f m).
Proof. intros Hm. unfold map_snd. safe_solve. Qed.

(** [consume] of a body decodes in place. *)
Lemma body_consume_readonly `{Allocator} (b : body) p n : readonly (consume b p n).
Proof.
  destruct b; cbn [consume body_any]; apply map_snd_readonly; cbn.
  - apply result_consume_readonly.
  - unfold BodyPrepare_consume. safe_solve.
  - unfold BodyError_consume. safe_solve.
  - unfold BodyOptions_consume. safe_solve.
  - unfold BodyStartup_consume. safe_solve.
  - unfold BodySupported_consume. safe_solve.
  - unfold BodyQuery_consume. safe_solve.
  - unfold BodyReady_consume. safe_solve.
Qed.
End readonly.

#[export] Hint Resolve read_cells_readonly read_cstring_readonly read_bytes_readonly
  body_consume_readonly decode_int_readonly decode_string_readonly : safe.

(** ** Programs that write to one block

    [holds l x]: the content of block [l] is [x]. *)
Definition holds (l : nat) (x : option block) (h : heap) : Prop := h !! l = Some x.

(** The blocks a message owns or writes to are not block [l]. *)
Record message_off (l : nat) (m : Message) : Prop := {
  off_buffer : off_block l (m_body_buffer m);
  off_pos    : forall p, m_body_buffer_pos m = Some p -> off_block l p;
  off_guard  : forall e, m_body m = Some (BError e) -> off_block l (err_guard e)
}.

Section writers.
Context `{Allocator} (l : nat) (x : option block).
Implicit Types (p : ptr).
Abbreviation K := (holds l x).

Lemma off_block_padd p n : off_block l p -> off_block l (padd p n).
Proof. by destruct p. Qed.

Lemma block_at_fault k h f : block_at k h = Fault f -> f <> OutOfFuel.
Proof. unfold block_at. repeat case_match; naive_solver. Qed.

Lemma write_cells_safe p cs :
  off_block l p -> safe K (write_cells p cs) (fun _ => True).
Proof.
  intros Hp h Hh. unfold write_cells. case_decide; [done|].
  destruct p as [|k off|s off]; [done| |done]. cbn in Hp.
  destruct (block_at k h) as [b|f] eqn:E; [|by apply block_at_fault in E].
  case_decide; [|done]. split; [|done]. unfold holds. by rewrite list_lookup_insert_ne.
Qed.

Lemma delete_chars_safe p : off_block l p -> safe K (delete_chars p) (fun _ => True).
Proof.
  intros Hp h Hh. unfold delete_chars.
  destruct p as [|k off|s off]; [done| |done]. cbn in Hp.
  destruct off; [|done..].
  destruct (block_at k h) as [b|f] eqn:E; [|by apply block_at_fault in E].
  split; [|done]. unfold holds. by rewrite list_lookup_insert_ne.
Qed.

Lemma new_chars_safe n : safe K (new_chars n) (off_block l).
Proof.
  intros h Hh. unfold new_chars. pose proof (lookup_lt_Some _ _ _ Hh).
  case_decide; [|done]. split; [by apply lookup_app_l_Some|cbn; lia].
Qed.

#[local] Hint Resolve off_block_padd write_cells_safe delete_chars_safe new_chars_safe : safe.

Lemma write_bytes_safe p bs : off_block l p -> safe K (write_bytes p bs) (fun _ => True).
Proof. unfold write_bytes. eauto with safe. Qed.
Lemma memcpy_safe p q n : off_block l p -> safe K (memcpy p q n) (fun _ => True).
Proof. intros Hp. unfold memcpy. safe_solve. Qed.
#[local] Hint Resolve write_bytes_safe memcpy_safe : safe.

Lemma encode_byte_safe p v : off_block l p -> safe K (encode_byte p v) (off_block l).
Proof. intros Hp. unfold encode_byte. safe_solve. by apply off_block_padd. Qed.
Lemma encode_short_safe p v : off_block l p -> safe K (encode_short p v) (off_block l).
Proof. intros Hp. unfold encode_short. safe_solve. by apply off_block_padd. Qed.
Lemma encode_int_safe p v : off_block l p -> safe K (encode_int p v) (off_block l).
Proof. intros Hp. unfold encode_int. safe_solve. by apply off_block_padd. Qed.
#[local] Hint Resolve encode_byte_safe encode_short_safe encode_int_safe : safe.

Lemma encode_string_safe p q n : off_block l p -> safe K (encode_string p q n) (off_block l).
Proof. intros Hp. unfold encode_string. safe_solve. by apply off_block_padd. Qed.
Lemma encode_long_string_safe p q n :
  off_block l p -> safe K (encode_long_string p q n) (off_block l).
Proof. intros Hp. unfold encode_long_string. safe_solve. by apply off_block_padd. Qed.
#[local] Hint Resolve encode_string_safe encode_long_string_safe : safe.

Lemma encode_entries_safe m p : off_block l p -> safe K (encode_entries m p) (off_block l).
Proof.
  revert p. induction m as [|[k v] m IH]; intros p Hp; cbn [encode_entries]; safe_solve; auto.
Qed.
#[local] Hint Resolve encode_entries_safe : safe.

Lemma encode_string_map_safe m p : off_block l p -> safe K (encode_string_map p m) (off_block l).
Proof. intros Hp. unfold encode_string_map. safe_solve. Qed.
Lemma encode_values_safe vs p : off_block l p -> safe K (encode_values vs p) (off_block l).
Proof.
  revert p. induction vs as [|[q n] vs IH]; intros p Hp; cbn [encode_values]; safe_solve; auto.
Qed.
#[local] Hint Resolve encode_string_map_safe encode_values_safe : safe.

(** An optional part of an encoding. *)
Lemma optional_safe (b : bool) (m : prog heap ptr) p :
  off_block l p -> safe K m (off_block l) ->
  safe K (if b then m else mret p) (off_block l).
Proof. intros Hp Hm. destruct b; [done|]. by apply safe_ret. Qed.
Lemma optional_safe' (P : Prop) `{!Decision P} (m : prog heap ptr) p :
  off_block l p -> safe K m (off_block l) ->
  safe K (if decide P then mret p else m) (off_block l).
Proof. intros Hp Hm. case_decide; [by apply safe_ret|done]. Qed.

Lemma encode_query_safe q p : off_block l p -> safe K (encode_query q p) (off_block l).
Proof.
  intros Hp. unfold encode_query.
  do 3 (eapply safe_bind; [eauto with safe|intros ? ?]).
  eapply safe_bind; [apply optional_safe'; [done|safe_solve]|intros ? ?].
  eapply safe_bind; [apply optional_safe; eauto with safe|intros ? ?].
  eapply safe_bind; [apply optional_safe'; eauto with safe|intros ? ?].
  apply optional_safe; eauto with safe.
Qed.
#[local] Hint Resolve encode_query_safe : safe.

Lemma body_prepare_safe (b : body) reserved output size :
  off_block l output ->
  safe K (prepare b reserved output size) (fun r => off_block l r.1.2).
Proof.
  intros Ho. destruct b; cbn [prepare body_any].
  - apply safe_ret. done.
  - cbn. unfold BodyPrepare_prepare. safe_solve. done.
  - cbn. unfold BodyError_prepare. safe_solve. done.
  - cbn. unfold BodyOptions_prepare. safe_solve. done.
  - cbn. unfold BodyStartup_prepare. safe_solve. done.
  - apply safe_ret. done.
  - cbn. unfold BodyQuery_prepare. safe_solve. done.
  - cbn. unfold BodyReady_prepare. safe_solve. done.
Qed.

Lemma message_prepare_safe m output size :
  off_block l output -> message_off l m ->
  safe K (Message_prepare m output size)
    (fun r => off_block l r.1.2 /\ message_off l r.1.1.2).
Proof.
  intros Ho Hm. unfold Message_prepare. destruct (m_body m) as [b|]; [|by apply safe_ret].
  eapply safe_bind; [by apply body_prepare_safe|intros [[ok p] n] Hp; cbn in Hp].
  eapply (safe_bind _ _ _ (fun r => off_block l r.1.2 /\ message_off l r.1.1));
    [|intros [[m' q] n'] [Hq Hm']; cbn in Hq, Hm'].
  - case_decide.
    + eapply safe_bind; [apply new_chars_safe|intros q Hq]. by apply safe_ret.
    + apply safe_ret. split; [done|]. by destruct Hm.
  - safe_solve. done.
Qed.
End writers.

#[export] Hint Resolve off_block_padd write_cells_safe delete_chars_safe new_chars_safe
  write_bytes_safe memcpy_safe body_prepare_safe message_prepare_safe : safe.

(** ** [Message::consume] *)

(** A message that waits for bytes: of its header, or of its body. *)
Definition receiving (m : Message) : Prop :=
  m_body_ready m = false /\
  (m_header_received m = false /\ 0 <= m_received m < 8 \/
   m_header_received m = true /\ 0 <= m_length m < 2147483648 /\
     8 <= m_received m < 8 + m_length m).

Lemma receiving_default : receiving Message_default.
Proof. split; [done|]. left. cbn. lia. Qed.

Lemma message_off_default l : message_off l Message_default.
Proof. by constructor. Qed.

Section consume.
Context `{Allocator}.

(** [delete_body] and [consume] do not change what the body owns. *)
Lemma body_consume_guard (b : body) p n h ok b' h' e :
  consume b p n h = Ok ((ok, b'), h') -> b' = BError e ->
  exists e0, b = BError e0 /\ err_guard e = err_guard e0.
Proof.
  intros Hr ->.
  destruct b as [b|b|b|b|b|b|b|b]; cbn [consume body_any] in Hr; unfold map_snd in Hr;
    try (inv_prog; discriminate).
  cbn in Hr. unfold BodyError_consume in Hr. inv_prog. eexists. split; [reflexivity|done].
Qed.

Lemma allocate_body_guard o h b h' e :
  allocate_body o h = Ok (b, h') -> b = BError e -> err_guard e = Null.
Proof.
  intros Hr ->. unfold allocate_body in Hr.
  repeat (case_decide; [inv_prog; done|]). done.
Qed.

Lemma allocate_body_readonly o : readonly (allocate_body o).
Proof. unfold allocate_body. safe_solve. Qed.

(** What [consume] takes: at least a byte, at most what there is; and it goes on
    waiting only if it took everything. *)
Lemma consume_body_progress m p consumed size h n m' h' :
  m_header_received m = true -> m_body_ready m = false ->
  0 <= m_length m < 2147483648 -> 8 <= m_received m < 2147483648 ->
  0 <= consumed <= size -> 0 < size < 2147483648 ->
  size - consumed <= m_received m - 8 ->
  (consumed = 0 -> m_received m - size < 8 + m_length m) ->
  (0 < consumed -> size - consumed = m_received m - 8) ->
  consume_body m p consumed size h = Ok ((n, m'), h') ->
  0 < n <= size /\
  (m_body_ready m' = true \/ n = size /\ receiving m' /\ m_received m' = m_received m).
Proof.
  intros Hh Hr Hl Hrec Hc Hs Hle H0 H1 Hrun. unfold consume_body in Hrun.
  destruct (m_body_buffer_pos m) as [pos|]; [|done]. destruct (m_body m) as [b|]; [|done].
  unfold CQL_HEADER_SIZE in Hrun.
  replace (i32 (m_received m - 8)) with (m_received m - 8) in Hrun by int_solve.
  case_decide as Hd.
  - replace (u64 (size - consumed - u64 (i32 (m_received m - m_length m - 8))))
      with (size - consumed - (m_received m - m_length m - 8)) in Hrun
      by (destruct (decide (consumed = 0)); int_solve).
    inv_prog. split; [|by left].
    rewrite i32_small by lia. destruct (decide (consumed = 0)); lia.
  - inv_prog. rewrite i32_small by lia. split; [lia|]. right.
    split_and!; [done| |done]. split; [exact Hr|]. right. cbn. split_and!; [exact Hh|lia..].
Qed.

Lemma parse_header_inv m h m' h' :
  parse_header m h = Ok (m', h') ->
  m_header_received m' = true /\ m_body_ready m' = m_body_ready m /\
  m_received m' = m_received m /\ 0 <= m_length m' < 2147483648.
Proof.
  unfold parse_header. intros Hr.
  destruct (initialised _) as [[|b0 [|b1 [|b2 [|b3 bs]]]]|]; try done.
  cbv zeta in Hr. apply bind_inv in Hr as (p & h1 & Hn & Hr).
  apply bind_inv in Hr as (? & h2 & _ & Hr). apply bind_inv in Hr as (b & h3 & _ & Hr).
  apply bind_inv in Hr as (? & h4 & _ & Hr). unfold mret, prog_ret in Hr.
  injection Hr as <- <-. cbn [m_header_received m_body_ready m_received m_length].
  split_and!; [done..| |].
  - unfold new_chars in Hn. case_decide as Hd; [|done].
    pose proof (i32_range (ntohl (le_value (take 4 bs)))) as Hi. revert Hd Hi.
    generalize (i32 (ntohl (le_value (take 4 bs)))). intros z Hd Hi. int_solve.
  - apply i32_range.
Qed.

Lemma message_consume_step m p size h n m' h' :
  receiving m -> 0 < size -> m_received m + size < 2147483648 ->
  Message_consume m p size h = Ok ((n, m'), h') ->
  0 < n <= size /\
  (m_body_ready m' = true \/
   n = size /\ receiving m' /\ m_received m' = m_received m + size).
Proof.
  intros [Hb Hm] Hs Hmax Hr. unfold Message_consume in Hr.
  cbn [m_received m_header_received set_m_received] in Hr.
  assert (i32 (m_received m + size) = m_received m + size) as Hi by (apply i32_small; lia).
  rewrite Hi in Hr. unfold CQL_HEADER_SIZE in Hr.
  destruct Hm as [[Hh Hrec]|(Hh & Hl & Hrec)]; rewrite Hh in Hr.
  - case_decide as Hd.
    + replace (u64 (size - u64 (m_received m + size - 8))) with (8 - m_received m) in Hr
        by int_solve.
      apply bind_inv in Hr as (m1 & h1 & H1 & Hr). apply bind_inv in Hr as (m2 & h2 & H2 & Hr).
      apply parse_header_inv in H2 as (P1 & P2 & P3 & P4).
      assert (m_received m1 = m_received m + size /\ m_body_ready m1 = false) as [E1 E2].
      { unfold copy_header in H1. inv_prog. case_decide; by inv_prog. }
      apply consume_body_progress in Hr; rewrite ?P2, ?P3, ?E1, ?E2 in *; try lia; try done.
    + apply bind_inv in Hr as (m1 & h1 & H1 & Hr).
      unfold mret, prog_ret in Hr. injection Hr as <- <- <-. rewrite i32_small by lia.
      split; [lia|]. right.
      assert (m_received m1 = m_received m + size /\ m_body_ready m1 = false /\
        m_header_received m1 = false) as (E1 & E2 & E3).
      { unfold copy_header in H1. inv_prog. case_decide; by inv_prog. }
      split_and!; [done| |exact E1]. split; [exact E2|]. left. cbn. rewrite E1, E3. split; [done|lia].
  - apply consume_body_progress in Hr; cbn [m_header_received m_body_ready m_length m_received
      set_m_received] in *; try lia; try done.
Qed.

(** [consume] spares the blocks that are not of the message. *)
Lemma copy_header_safe l x m p n :
  message_off l m -> safe (holds l x) (copy_header m p n) (message_off l).
Proof.
  intros [H1 H2 H3]. unfold copy_header. safe_solve. by constructor.
Qed.

Lemma delete_body_safe l x m :
  message_off l m -> safe (holds l x) (delete_body (m_body m)) (fun _ => True).
Proof.
  intros [H1 H2 H3]. unfold delete_body.
  destruct (m_body m) as [[]|]; try by apply safe_ret. by apply delete_chars_safe, H3.
Qed.

Lemma allocate_body_safe l x o :
  safe (holds l x) (allocate_body o) (fun b => forall e, b = BError e -> err_guard e = Null).
Proof.
  intros h Hh. destruct (allocate_body o h) as [[b h']|f] eqn:E.
  - pose proof (readonly_run _ _ _ _ (allocate_body_readonly o) E) as ->.
    split; [done|]. intros e. by eapply allocate_body_guard.
  - pose proof (allocate_body_readonly o (holds l x) h Hh) as Hs. by rewrite E in Hs.
Qed.

Lemma parse_header_safe l x m :
  message_off l m -> safe (holds l x) (parse_header m) (message_off l).
Proof.
  intros Hm. unfold parse_header.
  destruct (initialised _) as [[|b0 [|b1 [|b2 [|b3 bs]]]]|]; try by apply safe_fail.
  cbv zeta. eapply safe_bind; [apply new_chars_safe|intros q Hq].
  eapply safe_bind; [apply delete_chars_safe, Hm|intros _ _].
  eapply safe_bind; [apply allocate_body_safe|intros b Hb].
  eapply safe_bind; [by apply delete_body_safe|intros _ _].
  apply safe_ret. constructor; cbn; [done|congruence|].
  intros e [= ->]. by rewrite (Hb e).
Qed.

Lemma body_consume_safe l x m b p n :
  message_off l m -> m_body m = Some b ->
  safe (holds l x) (consume b p n)
    (fun r => forall e, r.2 = BError e -> off_block l (err_guard e)).
Proof.
  intros Hm Hb h Hh. destruct (consume b p n h) as [[[ok b'] h']|f] eqn:E.
  - pose proof (readonly_run _ _ _ _ (body_consume_readonly b p n) E) as ->.
    split; [done|]. intros e He. cbn in He.
    destruct (body_consume_guard _ _ _ _ _ _ _ _ E He) as (e0 & -> & ->).
    by apply (off_guard _ _ Hm).
  - pose proof (body_consume_readonly b p n (holds l x) h Hh) as Hs. by rewrite E in Hs.
Qed.

Lemma consume_body_safe l x m p consumed size :
  message_off l m ->
  safe (holds l x) (consume_body m p consumed size) (fun r => message_off l r.2).
Proof.
  intros Hm. unfold consume_body.
  destruct (m_body_buffer_pos m) as [pos|] eqn:Hpos; [|by apply safe_fail].
  destruct (m_body m) as [b|] eqn:Hb; [|by apply safe_fail].
  pose proof (off_pos _ _ Hm _ Hpos) as Hoff. destruct Hm as [H1 H2 H3] eqn:Em.
  case_decide.
  - eapply safe_bind; [by apply memcpy_safe|intros _ _].
    eapply safe_bind; [eapply body_consume_safe; [exact Hm|exact Hb]|intros [ok b'] Hb'].
    apply safe_ret. cbn in *. constructor; cbn; [done| |].
    + intros q [= <-]. by apply off_block_padd.
    + intros e [= ->]. by apply Hb'.
  - eapply safe_bind; [by apply memcpy_safe|intros _ _].
    apply safe_ret. constructor; cbn; [done| |].
    + intros q [= <-]. by apply off_block_padd.
    + exact H3.
Qed.

Lemma message_consume_safe l x m p size :
  message_off l m ->
  safe (holds l x) (Message_consume m p size) (fun r => message_off l r.2).
Proof.
  intros Hm. unfold Message_consume.
  assert (forall r, message_off l (set_m_received r m)) as Hr by (intros r; by destruct Hm).
  destruct (m_header_received _); [by apply consume_body_safe|].
  case_decide.
  - eapply safe_bind; [by apply copy_header_safe|intros m1 H1].
    eapply safe_bind; [by apply parse_header_safe|intros m2 H2].
    by apply consume_body_safe.
  - eapply safe_bind; [by apply copy_header_safe|intros m1 H1].
    apply safe_ret. by destruct H1.
Qed.

Lemma message_init_safe l x o : safe (holds l x) (Message_init o) (message_off l).
Proof.
  unfold Message_init. eapply safe_bind; [apply allocate_body_safe|intros b Hb].
  apply safe_ret. constructor; cbn; [done..|]. intros e [= ->]. by rewrite (Hb e).
Qed.

Lemma destroy_safe l x m :
  message_off l m ->
  safe (holds l x) (delete_chars (m_body_buffer m) ;; delete_body (m_body m))
    (fun _ => True).
Proof.
  intros Hm. eapply safe_bind; [apply delete_chars_safe, Hm|intros _ _].
  by apply delete_body_safe.
Qed.
End consume.
