(* ===== verification/Connection.v ===== *)
(** * cql_client_connection.hpp

    A connection to a server: a state machine over the event loop of libuv.
    The world of a run is the heap, the connection, the requests of the callers
    and a trace of what the connection asks of libuv and tells its user.  The
    callbacks of libuv ([on_resolve], [on_connect], [on_read], [on_write],
    [on_close]) and the calls of the user are programs over the world.

    libuv and OpenSSL are parameters, and so is the code of the user that the
    callbacks run ([Client]), which may itself call the connection. *)

From S2P Require Import Prelude Memory StdMap Common Serialization Body Query Result.
From S2P Require Import Message StreamStorage Request SslSession.

(** ** Data *)

Definition CQL_ADDRESS_MAX_LENGTH : Z := 46.
Definition CQL_STREAM_ID_MAX : nat := 127.

Inductive ClientConnectionState : Set :=
  | CLIENT_STATE_NEW
  | CLIENT_STATE_RESOLVED
  | CLIENT_STATE_CONNECTED
  | CLIENT_STATE_HANDSHAKE
  | CLIENT_STATE_SUPPORTED
  | CLIENT_STATE_READY
  | CLIENT_STATE_DISCONNECTING
  | CLIENT_STATE_DISCONNECTED.

#[export] Instance ClientConnectionState_eq_dec : EqDecision ClientConnectionState.
Proof. solve_decision. Defined.

(** Nothing uses these two yet. *)
Inductive Compression : Set :=
  | CLIENT_COMPRESSION_NONE
  | CLIENT_COMPRESSION_SNAPPY
  | CLIENT_COMPRESSION_LZ4.
Inductive SchemaEventType : Set :=
  | CLIENT_EVENT_SCHEMA_CREATED
  | CLIENT_EVENT_SCHEMA_UPDATED
  | CLIENT_EVENT_SCHEMA_DROPPED.

(** The value of the enumerator. *)
Definition state_value (s : ClientConnectionState) : Z :=
  match s with
  | CLIENT_STATE_NEW => 0
  | CLIENT_STATE_RESOLVED => 1
  | CLIENT_STATE_CONNECTED => 2
  | CLIENT_STATE_HANDSHAKE => 3
  | CLIENT_STATE_SUPPORTED => 4
  | CLIENT_STATE_READY => 5
  | CLIENT_STATE_DISCONNECTING => 6
  | CLIENT_STATE_DISCONNECTED => 7
  end.

(** What the connection uses of libuv and the headers of the system. *)
Class LibUV := {
  sockaddr    : Type;
  uv_buf_init : ptr -> Z -> uv_buf;
  uv_ip4_name : sockaddr -> list Z;
  uv_ip6_name : sockaddr -> list Z;
  PF_INET     : Z;
  AF_INET     : Z;
  AF_INET6    : Z;
  SOCK_STREAM : Z;
  IPPROTO_TCP : Z
}.

Record addrinfo_hints := {
  hint_family   : Z;
  hint_socktype : Z;
  hint_protocol : Z;
  hint_flags    : Z
}.

Record addrinfo `{LibUV} := {
  ai_family : Z;
  ai_addr   : sockaddr
}.

(** A request of a caller: the statement, and the message that answers it. *)
Abbreviation CallerRequest := (Request (list Z) Message).

(** The texts of the log. *)
Inductive log_message : Set :=
  | LText (s : string)
  | LConsumed (opcode : string) (stream size remaining : Z)
  | LSending (opcode : string) (stream size : Z).

(** What the connection does to the outside, in the order it does it. *)
Inductive event `{LibUV} : Type :=
  | EvLog (level : Z) (m : log_message)
  | EvStderr (s : string)
  | EvGetaddrinfo (host port : list Z) (hints : addrinfo_hints)
  | EvFreeaddrinfo
  | EvTcpInit
  | EvTcpConnect (a : option sockaddr)
  | EvReadStart
  | EvWrite (buf : uv_buf) (cs : block)     (* uv_write, and the bytes of the buffer *)
  | EvClose
  | EvNotifyAll (request : nat)
  | EvQueueWork (request : nat).

Section connection_data.
Context `{LibUV} `{OpenSSL}.

(** A [CallerRequest*] is NULL or the number of a request; the callbacks are
    given by whether they are set.  [address_] is indeterminate at first. *)
Record ClientConnection := {
  state_              : ClientConnectionState;
  incomming_          : Message;
  stream_storage_     : StreamStorage (option nat);
  connect_callback_   : bool;
  keyspace_callback_  : bool;
  prepare_callback_   : bool;
  log_callback_       : bool;
  address_            : option sockaddr;
  address_string_     : list Z;
  address_family_     : Z;
  hostname_           : list Z;
  port_               : list Z;
  resolver_hints_     : addrinfo_hints;
  ssl_                : option SSLSession;
  ssl_handshake_done_ : bool;
  compression_        : list Z;
  cql_version_        : list Z
}.

Record world := {
  w_heap     : heap;
  w_conn     : ClientConnection;
  w_requests : list CallerRequest;
  w_trace    : list event
}.

Definition set_state (v : ClientConnectionState) (c : ClientConnection) : ClientConnection := {|
  state_ := v; incomming_ := incomming_ c; stream_storage_ := stream_storage_ c;
  connect_callback_ := connect_callback_ c; keyspace_callback_ := keyspace_callback_ c;
  prepare_callback_ := prepare_callback_ c; log_callback_ := log_callback_ c;
  address_ := address_ c; address_string_ := address_string_ c;
  address_family_ := address_family_ c; hostname_ := hostname_ c; port_ := port_ c;
  resolver_hints_ := resolver_hints_ c; ssl_ := ssl_ c;
  ssl_handshake_done_ := ssl_handshake_done_ c; compression_ := compression_ c;
  cql_version_ := cql_version_ c
|}.
Definition set_incomming (v : Message) (c : ClientConnection) : ClientConnection := {|
  state_ := state_ c; incomming_ := v; stream_storage_ := stream_storage_ c;
  connect_callback_ := connect_callback_ c; keyspace_callback_ := keyspace_callback_ c;
  prepare_callback_ := prepare_callback_ c; log_callback_ := log_callback_ c;
  address_ := address_ c; address_string_ := address_string_ c;
  address_family_ := address_family_ c; hostname_ := hostname_ c; port_ := port_ c;
  resolver_hints_ := resolver_hints_ c; ssl_ := ssl_ c;
  ssl_handshake_done_ := ssl_handshake_done_ c; compression_ := compression_ c;
  cql_version_ := cql_version_ c
|}.
Definition set_stream_storage (v : StreamStorage (option nat)) (c : ClientConnection)
    : ClientConnection := {|
  state_ := state_ c; incomming_ := incomming_ c; stream_storage_ := v;
  connect_callback_ := connect_callback_ c; keyspace_callback_ := keyspace_callback_ c;
  prepare_callback_ := prepare_callback_ c; log_callback_ := log_callback_ c;
  address_ := address_ c; address_string_ := address_string_ c;
  address_family_ := address_family_ c; hostname_ := hostname_ c; port_ := port_ c;
  resolver_hints_ := resolver_hints_ c; ssl_ := ssl_ c;
  ssl_handshake_done_ := ssl_handshake_done_ c; compression_ := compression_ c;
  cql_version_ := cql_version_ c
|}.
Definition set_callbacks (connect keyspace : bool) (c : ClientConnection)
    : ClientConnection := {|
  state_ := state_ c; incomming_ := incomming_ c; stream_storage_ := stream_storage_ c;
  connect_callback_ := connect; keyspace_callback_ := keyspace;
  prepare_callback_ := prepare_callback_ c; log_callback_ := log_callback_ c;
  address_ := address_ c; address_string_ := address_string_ c;
  address_family_ := address_family_ c; hostname_ := hostname_ c; port_ := port_ c;
  resolver_hints_ := resolver_hints_ c; ssl_ := ssl_ c;
  ssl_handshake_done_ := ssl_handshake_done_ c; compression_ := compression_ c;
  cql_version_ := cql_version_ c
|}.
Definition set_address (v : sockaddr) (s : list Z) (c : ClientConnection)
    : ClientConnection := {|
  state_ := state_ c; incomming_ := incomming_ c; stream_storage_ := stream_storage_ c;
  connect_callback_ := connect_callback_ c; keyspace_callback_ := keyspace_callback_ c;
  prepare_callback_ := prepare_callback_ c; log_callback_ := log_callback_ c;
  address_ := Some v; address_string_ := s; address_family_ := address_family_ c;
  hostname_ := hostname_ c; port_ := port_ c; resolver_hints_ := resolver_hints_ c;
  ssl_ := ssl_ c; ssl_handshake_done_ := ssl_handshake_done_ c;
  compression_ := compression_ c; cql_version_ := cql_version_ c
|}.
Definition set_ssl (v : option SSLSession) (c : ClientConnection) : ClientConnection := {|
  state_ := state_ c; incomming_ := incomming_ c; stream_storage_ := stream_storage_ c;
  connect_callback_ := connect_callback_ c; keyspace_callback_ := keyspace_callback_ c;
  prepare_callback_ := prepare_callback_ c; log_callback_ := log_callback_ c;
  address_ := address_ c; address_string_ := address_string_ c;
  address_family_ := address_family_ c; hostname_ := hostname_ c; port_ := port_ c;
  resolver_hints_ := resolver_hints_ c; ssl_ := v;
  ssl_handshake_done_ := ssl_handshake_done_ c; compression_ := compression_ c;
  cql_version_ := cql_version_ c
|}.

Definition set_w_heap (h : heap) (w : world) : world := {|
  w_heap := h; w_conn := w_conn w; w_requests := w_requests w; w_trace := w_trace w
|}.
Definition set_w_conn (c : ClientConnection) (w : world) : world := {|
  w_heap := w_heap w; w_conn := c; w_requests := w_requests w; w_trace := w_trace w
|}.
Definition set_w_requests (r : list CallerRequest) (w : world) : world := {|
  w_heap := w_heap w; w_conn := w_conn w; w_requests := r; w_trace := w_trace w
|}.
Definition add_event (e : event) (w : world) : world := {|
  w_heap := w_heap w; w_conn := w_conn w; w_requests := w_requests w;
  w_trace := w_trace w ++ [e]
|}.

(** ** Programs over the world *)

Definition on_heap {A} (m : prog heap A) : prog world A := zoom w_heap set_w_heap m.

Definition on_streams {A} (m : prog (StreamStorage (option nat)) A) : prog world A :=
  zoom (fun w => stream_storage_ (w_conn w))
       (fun s w => set_w_conn (set_stream_storage s (w_conn w)) w) m.

Definition conn : prog world ClientConnection := w ← get; mret (w_conn w).
Definition upd (f : ClientConnection -> ClientConnection) : prog world unit :=
  modify (fun w => set_w_conn (f (w_conn w)) w).
Definition emit (e : event) : prog world unit := modify (add_event e).
Definition lift {A} (o : outcome A) : prog world A := fun w =>
  match o with Ok a => Ok (a, w) | Fault f => Fault f end.

Definition log (level : Z) (m : log_message) : prog world unit :=
  c ← conn;
  when (log_callback_ c) (emit (EvLog level m)).

(** The object behind a [CallerRequest*]. *)
Definition request_at (i : nat) : prog world CallerRequest :=
  w ← get;
  match w_requests w !! i with Some r => mret r | None => fail OutOfBounds end.
Definition put_request (i : nat) (r : CallerRequest) : prog world unit :=
  modify (fun w => set_w_requests (<[i := r]> (w_requests w)) w).

(** A pointer that [get_stream] read: indeterminate, NULL, or a request. *)
Definition deref (p : option (option nat)) : prog world nat :=
  match p with
  | None => fail Uninitialised
  | Some None => fail NullPointer
  | Some (Some i) => mret i
  end.
End connection_data.

Definition set_rq_flag (r : CallerRequest) : CallerRequest := {|
  rq_flag := true; rq_error := rq_error r; rq_data := rq_data r;
  rq_result := rq_result r; rq_callback := rq_callback r;
  rq_use_local_loop := rq_use_local_loop r
|}.
Definition set_rq_error (e : Error) (r : CallerRequest) : CallerRequest := {|
  rq_flag := rq_flag r; rq_error := Some e; rq_data := rq_data r;
  rq_result := rq_result r; rq_callback := rq_callback r;
  rq_use_local_loop := rq_use_local_loop r
|}.
Definition set_rq_data (d : list Z) (r : CallerRequest) : CallerRequest := {|
  rq_flag := rq_flag r; rq_error := rq_error r; rq_data := d;
  rq_result := rq_result r; rq_callback := rq_callback r;
  rq_use_local_loop := rq_use_local_loop r
|}.
Definition set_rq_result (m : Message) (r : CallerRequest) : CallerRequest := {|
  rq_flag := rq_flag r; rq_error := rq_error r; rq_data := rq_data r;
  rq_result := Some m; rq_callback := rq_callback r;
  rq_use_local_loop := rq_use_local_loop r
|}.
Definition set_rq_callback (b : bool) (r : CallerRequest) : CallerRequest := {|
  rq_flag := rq_flag r; rq_error := rq_error r; rq_data := rq_data r;
  rq_result := rq_result r; rq_callback := b;
  rq_use_local_loop := rq_use_local_loop r
|}.

(** More assignments to a message. *)
Definition set_m_stream (v : Z) (m : Message) : Message := {|
  m_version := m_version m; m_flags := m_flags m; m_stream := v;
  m_opcode := m_opcode m; m_length := m_length m; m_received := m_received m;
  m_header_received := m_header_received m; m_header_buffer := m_header_buffer m;
  m_header_buffer_pos := m_header_buffer_pos m; m_body := m_body m;
  m_body_buffer := m_body_buffer m; m_body_buffer_pos := m_body_buffer_pos m;
  m_body_ready := m_body_ready m; m_body_error := m_body_error m
|}.
Definition set_m_body (b : body) (m : Message) : Message := {|
  m_version := m_version m; m_flags := m_flags m; m_stream := m_stream m;
  m_opcode := m_opcode m; m_length := m_length m; m_received := m_received m;
  m_header_received := m_header_received m; m_header_buffer := m_header_buffer m;
  m_header_buffer_pos := m_header_buffer_pos m; m_body := Some b;
  m_body_buffer := m_body_buffer m; m_body_buffer_pos := m_body_buffer_pos m;
  m_body_ready := m_body_ready m; m_body_error := m_body_error m
|}.

(** The code of the user: the callbacks of the connection, and the callback of a
    request that uses the local loop.  A span is a [char*] and a size. *)
Class Client `{LibUV} `{OpenSSL} := {
  client_connect  : option Error -> prog world unit;
  client_keyspace : span -> prog world unit;
  client_prepare  : option Error -> list Z -> span -> prog world unit;
  client_request  : nat -> prog world unit
}.

Section connection.
Context `{Allocator} `{LibUV} `{OpenSSL} `{!Client}.

(** ** Construction *)

(** The session is initialised, which may fail, and the handshake begun. *)
Definition ClientConnection_init (ssl_session : option SSLSession)
    : outcome ClientConnection :=
  let make ssl := {|
    state_ := CLIENT_STATE_NEW; incomming_ := Message_default;
    stream_storage_ := StreamStorage_init CQL_STREAM_ID_MAX i8;
    connect_callback_ := false; keyspace_callback_ := false;
    prepare_callback_ := false; log_callback_ := false;
    address_ := None; address_string_ := []; address_family_ := PF_INET;
    hostname_ := bytes_of_string "localhost"; port_ := bytes_of_string "9042";
    resolver_hints_ := {| hint_family := PF_INET; hint_socktype := SOCK_STREAM;
                          hint_protocol := IPPROTO_TCP; hint_flags := 0 |};
    ssl_ := ssl; ssl_handshake_done_ := false;
    compression_ := []; cql_version_ := bytes_of_string "3.0.0"
  |} in
  match ssl_session with
  | None => Ok (make None)
  | Some s =>
      let '(_, s) := init s in
      match handshake true s with
      | Ok s => Ok (make (Some s))
      | Fault f => Fault f
      end
  end.

(** ** Sending *)

(** The destructor of a message: its buffer and its body. *)
Definition destroy_message (m : Message) : prog world unit :=
  on_heap (delete_chars (m_body_buffer m) ;; delete_body (m_body m)).

(** The write is queued: the trace keeps what the buffer holds.  The buffer goes to
    libuv as it is, also when there is a TLS session. *)
Definition send_data (buf : uv_buf) : prog world (option Error) :=
  cs ← on_heap (read_cells (buf_base buf) (buf_len buf));
  emit (EvWrite buf cs) ;;
  mret None.

(** A message without a body leaves the buffer indeterminate. *)
Definition send_message (m : Message) (request : option nat)
    : prog world (option Error * Message) :=
  '(err, stream) ← on_streams (set_stream CQL_STREAM_ID_MAX request (m_stream m));
  match err with
  | Some e => mret (Some e, m)
  | None =>
      '(ok, m, base, len) ← on_heap (Message_prepare (set_m_stream stream m) Null 0);
      if (ok : bool) then
        name ← lift (opcode_to_string (m_opcode m));
        log CQL_LOG_DEBUG (LSending name (m_stream m) len) ;;
        err ← send_data {| buf_base := base; buf_len := len |};
        mret (err, m)
      else fail Uninitialised
  end.

Definition send_options : prog world unit :=
  log CQL_LOG_DEBUG (LText "send_options") ;;
  message ← on_heap (Message_init CQL_OPCODE_OPTIONS);
  '(_, message) ← send_message message None;
  destroy_message message.

Definition send_startup : prog world unit :=
  log CQL_LOG_DEBUG (LText "send_startup") ;;
  message ← on_heap (Message_init CQL_OPCODE_STARTUP);
  c ← conn;
  match m_body message with
  | Some (BStartup startup) =>
      let startup := {| cql_version := cql_version_ c;
                        compression := compression startup |} in
      '(_, message) ← send_message (set_m_body (BStartup startup) message) None;
      destroy_message message
  | _ => fail NullPointer
  end.

Definition connection_set_keyspace (keyspace : list Z) : prog world unit :=
  message ← on_heap (Message_init CQL_OPCODE_QUERY);
  match m_body message with
  | Some (BQuery query) =>
      let query := query_string query (bytes_of_string "USE " ++ keyspace) in
      '(_, message) ← send_message (set_m_body (BQuery query) message) None;
      destroy_message message
  | _ => fail NullPointer
  end.

(** ** Requests *)

(** [request->notify(loop_)]. *)
Definition notify_request (i : nat) : prog world unit :=
  r ← request_at i;
  put_request i (set_rq_flag r) ;;
  emit (EvNotifyAll i) ;;
  if rq_callback r then
    if rq_use_local_loop r then client_request i else emit (EvQueueWork i)
  else mret tt.

(** [new CallerRequest()]; [data_of_null] is the construction of its data. *)
Definition new_request (data_of_null : outcome (list Z)) : prog world nat :=
  r ← lift (Request_init data_of_null);
  w ← get;
  put (set_w_requests (w_requests w ++ [r]) w) ;;
  mret (length (w_requests w)).

Definition fail_request (request : nat) (err : option Error) : prog world unit :=
  match err with
  | None => mret tt
  | Some e =>
      r ← request_at request;
      put_request request (set_rq_error e r) ;;
      notify_request request
  end.

(** [prepare] does not delete its message. *)
Definition connection_prepare (data_of_null : outcome (list Z)) (statement : ptr)
    (size : Z) (callback : bool) : prog world nat :=
  request ← new_request data_of_null;
  message ← on_heap (Message_init CQL_OPCODE_PREPARE);
  match m_body message with
  | Some (BPrepare prepare) =>
      prepare ← on_heap (prepare_string_chars prepare statement size);
      data ← on_heap (read_bytes statement size);
      r ← request_at request;
      put_request request (set_rq_data data (set_rq_callback callback r)) ;;
      '(err, _) ← send_message (set_m_body (BPrepare prepare) message) (Some request);
      fail_request request err ;;
      mret request
  | _ => fail NullPointer
  end.

Definition exec (data_of_null : outcome (list Z)) (message : Message) (callback : bool)
    : prog world (nat * Message) :=
  request ← new_request data_of_null;
  r ← request_at request;
  put_request request (set_rq_callback callback r) ;;
  '(err, message) ← send_message message (Some request);
  fail_request request err ;;
  mret (request, message).

(** ** Notifications *)

Definition notify_ready : prog world unit :=
  log CQL_LOG_DEBUG (LText "notify_ready") ;;
  c ← conn;
  when (connect_callback_ c) (client_connect None).

Definition notify_error (err : Error) : prog world unit :=
  log CQL_LOG_DEBUG (LText "notify_error") ;;
  c ← conn;
  when (connect_callback_ c) (client_connect (Some err)).

(** ** Connecting and closing *)

Definition resolve : prog world unit :=
  log CQL_LOG_DEBUG (LText "resolve") ;;
  c ← conn;
  emit (EvGetaddrinfo (hostname_ c) (port_ c) (resolver_hints_ c)).

Definition connect : prog world unit :=
  log CQL_LOG_DEBUG (LText "connect") ;;
  emit EvTcpInit ;;
  c ← conn;
  emit (EvTcpConnect (address_ c)).

Definition close : prog world unit :=
  log CQL_LOG_DEBUG (LText "close") ;;
  upd (set_state CLIENT_STATE_DISCONNECTING) ;;
  emit EvClose.

Definition on_write (buf : uv_buf) (status : Z) : prog world unit :=
  log CQL_LOG_DEBUG (LText "on_write") ;;
  when (bool_decide (status = -1)) (emit (EvStderr "Write error")) ;;
  on_heap (delete_chars (buf_base buf)).
End connection.

(** ** Receiving

    [event_received] calls the handlers and the handlers call it: they are
    defined over the call [event_received] first. *)
Section handlers.
Context `{Allocator} `{LibUV} `{OpenSSL} `{!Client}.
Variable event_received : prog world unit.

(** The cast takes the body for what its opcode says; the body of a message
    that was received is (see [allocate_body]). *)
Definition result_of (m : Message) : outcome BodyResult :=
  match m_body m with Some (BResult r) => Ok r | _ => Fault NullPointer end.
Definition error_of (m : Message) : outcome BodyError :=
  match m_body m with Some (BError e) => Ok e | _ => Fault NullPointer end.

(** The request gets the response and is notified. *)
Definition give_response (request : option (option nat)) (response : Message)
    : prog world unit :=
  i ← deref request;
  r ← request_at i;
  put_request i (set_rq_result response r) ;;
  notify_request i.

Definition on_result (response : Message) : prog world unit :=
  log CQL_LOG_DEBUG (LText "on_result") ;;
  result ← lift (result_of response);
  c ← conn;
  if decide (kind result = CQL_RESULT_KIND_SET_KEYSPACE) then
    when (keyspace_callback_ c) (client_keyspace (keyspace result))
  else if decide (kind result = CQL_RESULT_KIND_PREPARED) then
    '(err, request) ← on_streams (get_stream (m_stream response) true);
    (if prepare_callback_ c then
       i ← deref request;
       r ← request_at i;
       client_prepare err (rq_data r) (prepared_id result)
     else mret tt) ;;
    match err with
    | None => give_response request response
    | Some _ => mret tt
    end
  else
    '(err, request) ← on_streams (get_stream (m_stream response) true);
    match err with
    | None => give_response request response
    | Some e => when (connect_callback_ c) (client_connect (Some e))
    end.

(** The message of the error is read as a C string. *)
Definition on_error (response : Message) : prog world unit :=
  log CQL_LOG_DEBUG (LText "on_error") ;;
  error ← lift (error_of response);
  c ← conn;
  (if decide (state_value (state_ c) < state_value CLIENT_STATE_READY) then
     message ← on_heap (read_cstring (err_message error));
     notify_error {| e_source := CQL_ERROR_SOURCE_SERVER; e_code := 0;
                     e_message := message; e_file := "cql_client_connection.hpp";
                     e_line := 500 |}
   else mret tt) ;;
  destroy_message response.

Definition on_ready (response : Message) : prog world unit :=
  log CQL_LOG_DEBUG (LText "on_ready") ;;
  destroy_message response ;;
  upd (set_state CLIENT_STATE_READY) ;;
  event_received.

Definition on_supported (response : Message) : prog world unit :=
  log CQL_LOG_DEBUG (LText "on_supported") ;;
  destroy_message response ;;
  upd (set_state CLIENT_STATE_SUPPORTED) ;;
  event_received.

(** What [consume] does with a complete message. *)
Definition dispatch (message : Message) (size remaining : Z) : prog world unit :=
  name ← lift (opcode_to_string (m_opcode message));
  log CQL_LOG_DEBUG (LConsumed name (m_stream message) size remaining) ;;
  if decide (m_stream message < 0) then fail AssertFailed
  else if decide (m_opcode message = CQL_OPCODE_SUPPORTED) then on_supported message
  else if decide (m_opcode message = CQL_OPCODE_ERROR) then on_error message
  else if decide (m_opcode message = CQL_OPCODE_READY) then on_ready message
  else if decide (m_opcode message = CQL_OPCODE_RESULT) then on_result message
  else fail AssertFailed.

(** The loop of [consume]; an iteration that takes nothing would repeat. *)
Fixpoint consume_loop (fuel : nat) (buffer : ptr) (size remaining : Z)
    : prog world unit :=
  if decide (remaining = 0) then mret tt else
  match fuel with
  | O => fail OutOfFuel
  | S fuel =>
      c ← conn;
      '(consumed, m) ← on_heap (Message_consume (incomming_ c) buffer (u64 remaining));
      upd (set_incomming m) ;;
      when (bool_decide (consumed < 0)) (emit (EvStderr "consume error")) ;;
      (if m_body_ready m then
         upd (set_incomming Message_default) ;;
         dispatch m size remaining
       else mret tt) ;;
      consume_loop fuel (padd buffer consumed) size (i32 (remaining - consumed))
  end.

(** An iteration takes at least a byte, so [remaining] of them are enough. *)
Definition connection_consume (input : ptr) (size : Z) : prog world unit :=
  let remaining := i32 size in
  consume_loop (S (Z.to_nat remaining)) input size remaining.

(** ** Reading *)

Definition the_ssl : prog world SSL :=
  c ← conn;
  match ssl_ c with
  | Some (Some ssl) => mret ssl
  | _ => fail NullPointer
  end.

(** The loop of [on_read]; the error of [read_write] is dropped. *)
Fixpoint ssl_loop (fuel : nat) (read_input : ptr) (read_input_size : Z)
    : prog world unit :=
  match fuel with
  | O => fail OutOfFuel
  | S fuel =>
      ssl ← the_ssl;
      '(_, ssl, r) ← on_heap (read_write ssl read_input read_input_size Null 0 rw_zero);
      upd (set_ssl (Some (Some ssl))) ;;
      (if decide (rw_read_output r <> Null /\ rw_read_output_size r <> 0) then
         connection_consume (rw_read_output r) (rw_read_output_size r) ;;
         on_heap (delete_chars (rw_read_output r))
       else mret tt) ;;
      (if decide (rw_write_output r <> Null /\ rw_write_output_size r <> 0) then
         _ ← send_data (uv_buf_init (rw_write_output r) (rw_write_output_size r));
         mret tt
       else mret tt) ;;
      if decide (rw_read_size r < read_input_size) then
        c ← conn;
        (if ssl_handshake_done_ c then mret tt
         else
           ssl ← the_ssl;
           done ← lift (handshake_done (Some ssl));
           when done (upd (set_state CLIENT_STATE_HANDSHAKE) ;; event_received)) ;;
        ssl_loop fuel (padd read_input (rw_read_size r)) (read_input_size - rw_read_size r)
      else mret tt
  end.

(** [eof]: whether the last error of the loop is UV_EOF. *)
Definition on_read (fuel : nat) (nread : Z) (eof : bool) (buf : uv_buf)
    : prog world unit :=
  log CQL_LOG_DEBUG (LText "on_read") ;;
  if decide (nread = -1) then
    when (negb eof) (emit (EvStderr "Read error")) ;;
    close
  else
    c ← conn;
    match ssl_ c with
    | Some _ => ssl_loop fuel (buf_base buf) (u64 nread)
    | None => connection_consume (buf_base buf) (u64 nread)
    end ;;
    on_heap (free_buffer buf).

Definition ssl_handshake (fuel : nat) : prog world unit :=
  c ← conn;
  match ssl_ c with
  | Some _ =>
      buf ← on_heap (alloc_buffer uv_buf_init 0);
      on_read fuel 0 false buf
  | None => upd (set_state CLIENT_STATE_HANDSHAKE) ;; event_received
  end.

Definition event_body (fuel : nat) : prog world unit :=
  log CQL_LOG_DEBUG (LText "event received") ;;
  c ← conn;
  match state_ c with
  | CLIENT_STATE_NEW => resolve
  | CLIENT_STATE_RESOLVED => connect
  | CLIENT_STATE_CONNECTED => ssl_handshake fuel
  | CLIENT_STATE_HANDSHAKE => send_options
  | CLIENT_STATE_SUPPORTED => send_startup
  | CLIENT_STATE_READY => notify_ready
  | _ => fail AssertFailed
  end.
End handlers.

Section events.
Context `{Allocator} `{LibUV} `{OpenSSL} `{!Client}.

(** The recursion: a call of [event_received] in the state CONNECTED makes calls
    in the states HANDSHAKE, SUPPORTED and READY, and those make none. *)
Fixpoint event_received_n (depth fuel : nat) : prog world unit :=
  match depth with
  | O => fail OutOfFuel
  | S depth => event_body (event_received_n depth fuel) fuel
  end.

Definition event_received (fuel : nat) : prog world unit := event_received_n 2 fuel.

Definition connection_init (fuel : nat) (connect keyspace : bool) : prog world unit :=
  upd (set_callbacks connect keyspace) ;;
  event_received fuel.

Definition on_resolve (fuel : nat) (status : Z) (res : addrinfo) : prog world unit :=
  log CQL_LOG_DEBUG (LText "on_resolve") ;;
  if decide (status = -1) then emit (EvStderr "getaddrinfo request error")
  else
    c ← conn;
    let name :=
      if decide (ai_family res = AF_INET)
      then take (Z.to_nat CQL_ADDRESS_MAX_LENGTH) (uv_ip4_name (ai_addr res))
      else if decide (ai_family res = AF_INET6)
      then take (Z.to_nat CQL_ADDRESS_MAX_LENGTH) (uv_ip6_name (ai_addr res))
      else address_string_ c in
    upd (set_address (ai_addr res) name) ;;
    emit EvFreeaddrinfo ;;
    upd (set_state CLIENT_STATE_RESOLVED) ;;
    event_received fuel.

Definition on_connect (fuel : nat) (status : Z) : prog world unit :=
  log CQL_LOG_DEBUG (LText "on_connect") ;;
  if decide (status = -1) then emit (EvStderr "connect failed error")
  else
    emit EvReadStart ;;
    upd (set_state CLIENT_STATE_CONNECTED) ;;
    event_received fuel.

Definition on_close (fuel : nat) : prog world unit :=
  log CQL_LOG_DEBUG (LText "on_close") ;;
  upd (set_state CLIENT_STATE_DISCONNECTED) ;;
  event_received fuel.

(** The read callback of libuv. *)
Definition on_read_cb (fuel : nat) (nread : Z) (eof : bool) (buf : uv_buf)
    : prog world unit := on_read (event_received fuel) fuel nread eof buf.
End events.
