(* ===== verification/Typing.v ===== *)
(** * The types of a message

    C++ gives the fields of a message their widths, and trusts two things it does not
    check: that the copies into the header buffer end inside it, and that the object
    behind [body] has the type that [opcode] says, to which [on_result] and
    [on_error] cast it.  The invariant that both need is kept by the constructors,
    [consume] and [prepare]; from it [header_step] shows that the copies of [consume]
    fit, whatever the chunks of the input are. *)

From S2P Require Import Prelude Memory StdMap Common Serialization Body Query Result.
From S2P Require Import Message StreamStorage Request SslSession Connection.

Section typing.
Context `{Allocator}.

Record message_typed (m : Message) : Prop := {
  mt_version  : 0 <= m_version m < 256;
  mt_flags    : -128 <= m_flags m < 128;
  mt_stream   : -128 <= m_stream m < 128;
  mt_opcode   : 0 <= m_opcode m < 256;
  mt_length   : -2147483648 <= m_length m < 2147483648;
  mt_received : -2147483648 <= m_received m < 2147483648;
  mt_buffer   : zlen (m_header_buffer m) = CQL_HEADER_SIZE;
  mt_pos      : 0 <= m_header_buffer_pos m <= CQL_HEADER_SIZE;
  (** Until the header is complete, its next byte goes where the count says. *)
  mt_header   : m_header_received m = false ->
                m_header_buffer_pos m = m_received m /\ m_received m < CQL_HEADER_SIZE;
  mt_body     : forall b, m_body m = Some b -> opcode b = m_opcode m;
  mt_ready    : m_body_ready m = true -> m_body m <> None
}.

Lemma i8_range z : -128 <= i8 z < 128.
Proof. unfold i8. int_solve. Qed.

Lemma default_typed : message_typed Message_default.
Proof. constructor; cbn; done || (unfold CQL_HEADER_SIZE; lia). Qed.

(** The body that is allocated for an opcode says that opcode. *)
Lemma allocate_body_opcode o b h h' : allocate_body o h = Ok (b, h') -> opcode b = o.
Proof.
  unfold allocate_body. intros Hr. repeat (case_decide; [by inv_prog|]). done.
Qed.

(** [consume] of a body does not change its type. *)
Lemma map_snd_inv {A B C} (f : B -> C) (m : prog heap (A * B)) a c h h' :
  map_snd f m h = Ok ((a, c), h') -> exists b, c = f b.
Proof. unfold map_snd. intros Hr. inv_prog. by eexists. Qed.

Lemma consume_opcode (b b' : body) p n ok h h' :
  consume b p n h = Ok ((ok, b'), h') -> opcode b' = opcode b.
Proof. destruct b; cbn [consume body_any]; by intros [b0 ->]%map_snd_inv. Qed.

Lemma init_typed o m h h' : Message_init o h = Ok (m, h') -> message_typed m.
Proof.
  unfold Message_init. intros Hr. apply bind_inv in Hr as (b & h1 & Hb & [= <- <-]).
  apply allocate_body_opcode in Hb.
  constructor; cbn; try done; unfold CQL_HEADER_SIZE; try lia; try apply u8_range.
  by intros ? [= <-].
Qed.

(** ** consume *)

(** The parts of the invariant that hold between the copy of the header bytes and the
    end of [consume]. *)
Record header_room (m : Message) : Prop := {
  hr_buffer : zlen (m_header_buffer m) = CQL_HEADER_SIZE;
  hr_pos    : 0 <= m_header_buffer_pos m <= CQL_HEADER_SIZE
}.

Lemma set_received_typed v m :
  message_typed m -> m_header_received m = true -> message_typed (set_m_received (i32 v) m).
Proof. intros [] Hh. constructor; cbn; try done; [apply i32_range|by rewrite Hh]. Qed.

Lemma copy_header_room m p n m' h h' :
  header_room m -> copy_header m p n h = Ok (m', h') ->
  header_room m' /\ 0 <= n /\ m_header_buffer_pos m + n <= CQL_HEADER_SIZE /\ h' = h /\
  m' = set_m_header (m_header_buffer m') (m_header_buffer_pos m) m.
Proof.
  intros [Hb Hp] Hr. unfold copy_header in Hr. apply bind_inv in Hr as (cs & h1 & Hc & Hr).
  pose proof (read_cells_heap _ _ _ _ _ Hc) as ->.
  apply read_cells_length in Hc as [Hn Hcs]. cbv zeta in Hr. case_decide as Hd; [|done].
  injection Hr as <- <-. rewrite Hb in Hd. split_and!; [|lia|lia|done|done].
  constructor; [|done]. cbn. rewrite length_splice; [done|lia|]. by rewrite Hb.
Qed.

Lemma parse_header_typed m m' h h' :
  zlen (m_header_buffer m) = CQL_HEADER_SIZE -> -2147483648 <= m_received m < 2147483648 ->
  (m_body_ready m = true -> m_body m <> None) ->
  parse_header m h = Ok (m', h') -> message_typed m'.
Proof.
  intros ??? Hr. unfold parse_header in Hr.
  destruct (initialised _) as [[|b0 [|b1 [|b2 [|b3 bs]]]]|]; try done.
  apply bind_inv in Hr as (bb & h1 & _ & Hr). apply bind_inv in Hr as ([] & h2 & _ & Hr).
  apply bind_inv in Hr as (b & h3 & Hb & Hr). apply bind_inv in Hr as ([] & h4 & _ & Hr).
  apply allocate_body_opcode in Hb. injection Hr as <- <-.
  constructor; cbn; try done; unfold CQL_HEADER_SIZE; try lia;
    auto using u8_range, i8_range, i32_range. by intros ? [= <-].
Qed.

Lemma consume_body_typed m p c n k m' h h' :
  message_typed m -> consume_body m p c n h = Ok ((k, m'), h') ->
  message_typed m' /\ -2147483648 <= k < 2147483648.
Proof.
  intros Hm Hr. unfold consume_body in Hr.
  destruct (m_body_buffer_pos m) as [pos|]; [|done]. destruct (m_body m) as [b|] eqn:Eb; [|done].
  case_decide.
  - apply bind_inv in Hr as ([] & h1 & _ & Hr).
    apply bind_inv in Hr as ([ok b'] & h2 & Hc & [= <- <- <-]).
    apply consume_opcode in Hc. split; [|apply i32_range].
    destruct Hm. constructor; cbn; try done. intros ? [= <-]. etransitivity; [exact Hc|by apply mt_body0].
  - apply bind_inv in Hr as ([] & h1 & _ & [= <- <- <-]). split; [|apply i32_range].
    destruct Hm. by constructor.
Qed.

Lemma typed_room m : message_typed m -> header_room m.
Proof. by intros []. Qed.

Lemma consume_typed m p n k m' h h' :
  message_typed m -> Message_consume m p n h = Ok ((k, m'), h') ->
  message_typed m' /\ -2147483648 <= k < 2147483648.
Proof.
  intros Hm Hr. unfold Message_consume in Hr. cbv zeta in Hr.
  cbn [m_header_received m_received set_m_received] in Hr.
  pose proof (i32_range (m_received m + n)) as Hrange.
  assert (header_room (set_m_received (i32 (m_received m + n)) m)) as Hroom
    by (destruct (typed_room _ Hm); by constructor).
  destruct (m_header_received m) eqn:Hh.
  { eapply consume_body_typed, Hr. by apply set_received_typed. }
  case_decide as Hd.
  - apply bind_inv in Hr as (m1 & h1 & H1 & Hr).
    apply copy_header_room in H1 as ([Hb1 _] & _ & _ & -> & Hm1); [|done].
    apply bind_inv in Hr as (m2 & h2 & H2 & Hr).
    apply parse_header_typed in H2; [by eapply consume_body_typed, Hr|done|by rewrite Hm1|].
    rewrite Hm1. apply (mt_ready _ Hm).
  - apply bind_inv in Hr as (m1 & h1 & H1 & [= <- <- <-]).
    apply copy_header_room in H1 as ([Hb1 _] & Hn & Hpos & _ & Hm1); [|done].
    split; [|apply i32_range]. destruct Hm as [? ? ? ? ? ? ? Hp Hhd ? ?].
    destruct (Hhd Hh) as [Hp1 Hp2]. cbn in Hpos.
    rewrite Hm1 in Hb1 |- *. constructor; cbn in *; try done; [lia|].
    intros _. unfold CQL_HEADER_SIZE in *. rewrite i32_small in * by lia. lia.
Qed.

(** Every copy into the header buffer ends inside it: as much of the input is copied
    as the header still lacks, and not more. *)
Lemma header_step m p cs h :
  message_typed m -> m_header_received m = false -> cells_at h p cs ->
  m_received m + zlen cs < 2147483648 ->
  let pos := m_received m in
  let lacks := CQL_HEADER_SIZE - pos in
  let m1 := set_m_received (pos + zlen cs) m in
  0 < lacks <= CQL_HEADER_SIZE /\
  Message_consume m p (zlen cs) h =
    if decide (zlen cs < lacks)
    then Ok ((zlen cs, set_m_header (splice (m_header_buffer m) pos cs) (pos + zlen cs) m1), h)
    else (m' ← parse_header (set_m_header
            (take (Z.to_nat pos) (m_header_buffer m) ++ take (Z.to_nat lacks) cs) pos m1);
          consume_body m' p lacks (zlen cs)) h.
Proof.
  intros Hm Hh Hat Hsz pos lacks m1. destruct (mt_header _ Hm Hh) as [Hp Hr].
  pose proof (mt_pos _ Hm) as Hpos. pose proof (mt_buffer _ Hm) as Hbuf.
  assert (0 < lacks <= 8) as Hl by (unfold lacks, pos, CQL_HEADER_SIZE in *; lia).
  split; [done|]. unfold Message_consume. cbv zeta.
  cbn [m_header_received m_received set_m_received]. rewrite Hh. fold pos.
  unfold CQL_HEADER_SIZE in *. rewrite (i32_small (pos + zlen cs)) by lia. fold m1.
  assert (forall n, (n <= length cs)%nat -> Z.of_nat n <= lacks ->
    copy_header m1 p (Z.of_nat n) h =
      Ok (set_m_header (splice (m_header_buffer m) pos (take n cs)) pos m1, h)) as Hcopy.
  { intros n Hn Hnl. unfold copy_header.
    rewrite <- (take_drop n cs) in Hat. apply cells_at_app in Hat as [Hat _].
    erewrite bind_run by (apply (read_cells_at h p _ _ Hat); rewrite length_take; lia).
    cbv zeta. cbn [m_header_buffer_pos m_header_buffer set_m_received m1]. rewrite Hp, Hbuf.
    fold pos. by rewrite decide_True by (rewrite length_take; lia). }
  case_decide as Hd; (rewrite decide_False by lia) || (rewrite decide_True by lia).
  - replace (u64 (zlen cs - u64 (pos + zlen cs - 8))) with lacks
      by (rewrite (u64_small (pos + zlen cs - 8)) by lia; rewrite u64_small by lia; lia).
    specialize (Hcopy (Z.to_nat lacks)). rewrite Z2Nat.id in Hcopy by lia.
    erewrite bind_run by (apply Hcopy; lia).
    do 3 f_equal. unfold splice. rewrite drop_ge; [by rewrite app_nil_r|].
    rewrite length_take. lia.
  - erewrite bind_run by (apply Hcopy; lia). rewrite firstn_all.
    cbn [m_header_buffer m_header_buffer_pos set_m_header]. by rewrite i32_small by lia.
Qed.

(** ** prepare *)

Lemma prepare_typed m o n ok m' o' n' h h' :
  message_typed m -> Message_prepare m o n h = Ok ((ok, m', o', n'), h') -> message_typed m'.
Proof.
  intros Hm Hr. unfold Message_prepare in Hr. cbv zeta in Hr.
  destruct (m_body m) as [b|]; [|by inv_prog].
  apply bind_inv in Hr as ([[ok1 o1] n1] & h1 & _ & Hr).
  apply bind_inv in Hr as ([[m2 o2] n2] & h2 & H2 & Hr).
  assert (message_typed m2) as Hm2.
  { case_decide; inv_prog; [done|]. destruct Hm. constructor; cbn; try done. apply i32_range. }
  by inv_prog.
Qed.

(** ** The casts *)

Lemma result_cast m :
  message_typed m -> m_body_ready m = true -> m_opcode m = CQL_OPCODE_RESULT ->
  exists r, result_of m = Ok r.
Proof.
  intros Hm Hr Ho. unfold result_of. pose proof (mt_ready _ Hm Hr) as Hb.
  destruct (m_body m) as [b|] eqn:E; [|done]. apply (mt_body _ Hm) in E. rewrite Ho in E.
  destruct b; try done. by eexists.
Qed.

Lemma error_cast m :
  message_typed m -> m_body_ready m = true -> m_opcode m = CQL_OPCODE_ERROR ->
  exists e, error_of m = Ok e.
Proof.
  intros Hm Hr Ho. unfold error_of. pose proof (mt_ready _ Hm Hr) as Hb.
  destruct (m_body m) as [b|] eqn:E; [|done]. apply (mt_body _ Hm) in E. rewrite Ho in E.
  destruct b; try done. by eexists.
Qed.
End typing.

(** ** Theorem *)

(** C19: well-typed messages.  The constructors give such a message, and [consume], of
    any bytes in any chunks, and [prepare] keep it one: its body is of the type that
    the opcode says, so that the casts of [on_result] and [on_error] of a ready
    message are to the type of the object; the fields are in the ranges of their C++
    types; the next byte of the header goes where the number of the bytes received so
    far says.  And a typed message whose header is not complete never writes outside
    the 8 bytes of the header buffer: of readable input of any length [consume] copies
    exactly the bytes that the header lacks, and no more than there are; if the
    header is still not complete it returns, otherwise it goes on with the full
    header at the byte of the input behind it. *)
Theorem message_type_safety `{Allocator} :
  message_typed Message_default /\
  (forall o m h h', Message_init o h = Ok (m, h') -> message_typed m) /\
  (forall m p n k m' h h',
     message_typed m -> Message_consume m p n h = Ok ((k, m'), h') ->
     message_typed m' /\ -2147483648 <= k < 2147483648) /\
  (forall m p cs h,
     message_typed m -> m_header_received m = false -> cells_at h p cs ->
     m_received m + zlen cs < 2147483648 ->
     let pos := m_received m in
     let lacks := CQL_HEADER_SIZE - pos in
     let m1 := set_m_received (pos + zlen cs) m in
     0 < lacks <= CQL_HEADER_SIZE /\
     Message_consume m p (zlen cs) h =
       if decide (zlen cs < lacks)
       then Ok ((zlen cs, set_m_header (splice (m_header_buffer m) pos cs) (pos + zlen cs) m1), h)
       else (m' ← parse_header (set_m_header
               (take (Z.to_nat pos) (m_header_buffer m) ++ take (Z.to_nat lacks) cs) pos m1);
             consume_body m' p lacks (zlen cs)) h) /\
  (forall m o n ok m' o' n' h h',
     message_typed m -> Message_prepare m o n h = Ok ((ok, m', o', n'), h') ->
     message_typed m') /\
  (forall m, message_typed m -> m_body_ready m = true ->
     (m_opcode m = CQL_OPCODE_RESULT -> exists r, result_of m = Ok r) /\
     (m_opcode m = CQL_OPCODE_ERROR -> exists e, error_of m = Ok e)).
Proof.
  split_and!.
  - apply default_typed.
  - apply init_typed.
  - apply consume_typed.
  - apply header_step.
  - apply prepare_typed.
  - intros m Hm Hr. split; [by apply result_cast|by apply error_cast].
Qed.

(** ** Witness

    The header and the first two bytes of the body of a RESULT. *)
#[local] Existing Instance exact_allocator.

Theorem message_type_safety_witness :
  exists m h, Message_consume Message_default (Heap 0 0) 12
      [Some (Some <$> wire_header 0x82 0 1 CQL_OPCODE_RESULT 4 ++ be 4 1)] = Ok ((12, m), h) /\
    message_typed m /\ exists r, result_of m = Ok r.
Proof.
  destruct message_type_safety as (Hd & _ & Hc & _ & _ & Hcast).
  eexists _, _. split; [vm_compute; reflexivity|].
  match goal with |- message_typed ?m /\ _ => assert (message_typed m) as Hm end.
  { eapply (Hc Message_default (Heap 0 0) 12 12 _
      [Some (Some <$> wire_header 0x82 0 1 CQL_OPCODE_RESULT 4 ++ be 4 1)]);
      [exact Hd|vm_compute; reflexivity]. }
  split; [exact Hm|]. apply (Hcast _ Hm eq_refl). reflexivity.
Defined.
