(* ===== verification/ConnectionFacts.v ===== *)
(** * Facts about the connection

    How the programs of the connection run step by step, what they leave alone,
    and the bounds of the recursion and of the loop of [consume]. *)

From S2P Require Import Prelude Memory StdMap Common Serialization Body Query Result.
From S2P Require Import Message StreamStorage Request SslSession HeapEffects Connection.

(** ** Steps *)

Section steps.
Context `{LibUV} `{OpenSSL}.
Implicit Types (w : world).

(** The world after a line of the log. *)
Definition logged (level : Z) (m : log_message) (w : world) : world :=
  if log_callback_ (w_conn w) then add_event (EvLog level m) w else w.

Lemma log_run level m w : log level m w = Ok (tt, logged level m w).
Proof.
  unfold log, logged, conn. rewrite bind_assoc. erewrite bind_run by reflexivity.
  rewrite bind_ret. by destruct (log_callback_ (w_conn w)).
Qed.

Lemma log_off level m w :
  log_callback_ (w_conn w) = false -> log level m w = Ok (tt, w).
Proof. intros Hl. rewrite log_run. unfold logged. by rewrite Hl. Qed.

Lemma logged_conn level m w : w_conn (logged level m w) = w_conn w.
Proof. unfold logged. by destruct (log_callback_ _). Qed.
Lemma logged_heap level m w : w_heap (logged level m w) = w_heap w.
Proof. unfold logged. by destruct (log_callback_ _). Qed.
Lemma logged_requests level m w : w_requests (logged level m w) = w_requests w.
Proof. unfold logged. by destruct (log_callback_ _). Qed.

Lemma conn_run w : conn w = Ok (w_conn w, w).
Proof. reflexivity. Qed.

Lemma upd_run f w : upd f w = Ok (tt, set_w_conn (f (w_conn w)) w).
Proof. reflexivity. Qed.

Lemma emit_run e w : emit e w = Ok (tt, add_event e w).
Proof. reflexivity. Qed.

Lemma on_heap_run {A} (m : prog heap A) w a h :
  m (w_heap w) = Ok (a, h) -> on_heap m w = Ok (a, set_w_heap h w).
Proof. unfold on_heap, zoom. by intros ->. Qed.

Lemma on_heap_inv {A} (m : prog heap A) w a w' :
  on_heap m w = Ok (a, w') -> exists h, m (w_heap w) = Ok (a, h) /\ w' = set_w_heap h w.
Proof. unfold on_heap, zoom. destruct (m (w_heap w)) as [[? h]|]; naive_solver. Qed.

Lemma on_heap_fault {A} (m : prog heap A) w f :
  m (w_heap w) = Fault f -> on_heap m w = Fault f.
Proof. unfold on_heap, zoom. by intros ->. Qed.

Lemma on_streams_run {A} (m : prog (StreamStorage (option nat)) A) w a s :
  m (stream_storage_ (w_conn w)) = Ok (a, s) ->
  on_streams m w = Ok (a, set_w_conn (set_stream_storage s (w_conn w)) w).
Proof. unfold on_streams, zoom. by intros ->. Qed.

Lemma lift_run {A} (a : A) w : lift (Ok a) w = Ok (a, w).
Proof. reflexivity. Qed.
End steps.

(** ** The recursion of [event_received] *)

Section recursion.
Context `{Allocator} `{LibUV} `{OpenSSL} `{!Client}.

(** The states in which [event_received] makes no further event. *)
Definition quiet_state (s : ClientConnectionState) : Prop :=
  s = CLIENT_STATE_HANDSHAKE \/ s = CLIENT_STATE_SUPPORTED \/ s = CLIENT_STATE_READY.

Definition agree (ev1 ev2 : prog world unit) : Prop :=
  forall w, quiet_state (state_ (w_conn w)) -> ev1 w = ev2 w.

Lemma agree_state ev1 ev2 s w :
  agree ev1 ev2 -> quiet_state s ->
  (upd (set_state s) ;; ev1) w = (upd (set_state s) ;; ev2) w.
Proof.
  intros Ha Hs. erewrite !bind_run by (apply upd_run). by apply Ha.
Qed.

Ltac ext_step :=
  lazymatch goal with
  | |- ?x = ?x => reflexivity
  | |- (_ ≫= _) _ = (_ ≫= _) _ => apply bind_cong; intros
  | |- (match ?x with _ => _ end) _ = _ => destruct x
  end.

Lemma dispatch_ext ev1 ev2 m size remaining w :
  agree ev1 ev2 -> dispatch ev1 m size remaining w = dispatch ev2 m size remaining w.
Proof.
  intros Ha. unfold dispatch. repeat ext_step.
  - unfold on_supported. do 2 (apply bind_ext; intros). apply agree_state; [done|].
    right; by left.
  - unfold on_ready. do 2 (apply bind_ext; intros). apply agree_state; [done|].
    by right; right.
Qed.

Lemma consume_loop_ext ev1 ev2 fuel p size remaining w :
  agree ev1 ev2 ->
  consume_loop ev1 fuel p size remaining w = consume_loop ev2 fuel p size remaining w.
Proof.
  intros Ha. revert p remaining w. induction fuel as [|fuel IH]; intros p remaining w;
    cbn [consume_loop]; repeat ext_step.
  - by apply dispatch_ext.
  - apply IH.
Qed.

Lemma ssl_loop_ext ev1 ev2 fuel p n w :
  agree ev1 ev2 -> ssl_loop ev1 fuel p n w = ssl_loop ev2 fuel p n w.
Proof.
  intros Ha. revert p n w. induction fuel as [|fuel IH]; intros p n w;
    cbn [ssl_loop]; [done|].
  repeat ext_step.
  - by apply consume_loop_ext.
  - unfold when. case_match; [|done]. apply agree_state; [done|by left].
  - apply IH.
Qed.

Lemma on_read_ext ev1 ev2 fuel n eof buf w :
  agree ev1 ev2 -> on_read ev1 fuel n eof buf w = on_read ev2 fuel n eof buf w.
Proof.
  intros Ha. unfold on_read. repeat ext_step.
  - by apply ssl_loop_ext.
  - by apply consume_loop_ext.
Qed.

Lemma event_body_ext ev1 ev2 fuel w :
  agree ev1 ev2 -> event_body ev1 fuel w = event_body ev2 fuel w.
Proof.
  intros Ha. unfold event_body. do 2 (apply bind_ext; intros).
  destruct (state_ _); try done. unfold ssl_handshake. apply bind_ext; intros.
  destruct (ssl_ _).
  - apply bind_ext; intros. by apply on_read_ext.
  - apply agree_state; [done|by left].
Qed.

(** What an event does, by the state. *)
Lemma event_body_run ev fuel w :
  event_body ev fuel w =
    match state_ (w_conn w) with
    | CLIENT_STATE_NEW => resolve
    | CLIENT_STATE_RESOLVED => connect
    | CLIENT_STATE_CONNECTED => ssl_handshake ev fuel
    | CLIENT_STATE_HANDSHAKE => send_options
    | CLIENT_STATE_SUPPORTED => send_startup
    | CLIENT_STATE_READY => notify_ready
    | _ => fail AssertFailed
    end (logged CQL_LOG_DEBUG (LText "event received") w).
Proof.
  unfold event_body. erewrite bind_run by (apply log_run).
  erewrite bind_run by (apply conn_run). cbv beta. by rewrite logged_conn.
Qed.

(** In a quiet state the recursive call is not made. *)
Lemma event_body_quiet ev1 ev2 fuel w :
  quiet_state (state_ (w_conn w)) -> event_body ev1 fuel w = event_body ev2 fuel w.
Proof. rewrite !event_body_run. by intros [-> | [-> | ->]]. Qed.

Lemma event_received_agree d1 d2 fuel :
  agree (event_received_n (S d1) fuel) (event_received_n (S d2) fuel).
Proof. intros w Hq. cbn [event_received_n]. by apply event_body_quiet. Qed.
End recursion.

(** ** What the connection leaves alone while it reads

    [reading l x m s]: the block [l] that is being read holds [x], [incomming_] is
    [m] and the TLS session is [s]. *)
Section reading.
Context `{Allocator} `{LibUV} `{OpenSSL} `{!Client}.

Definition reading (l : nat) (x : option block) (m : Message) (s : option SSLSession)
    (w : world) : Prop :=
  holds l x (w_heap w) /\ incomming_ (w_conn w) = m /\ ssl_ (w_conn w) = s.

(** What is asked of the code of the user: that it returns, leaves the block that
    is being read, [incomming_] and the TLS session alone. *)
Definition user_safe {A} (l : nat) (p : prog world A) : Prop :=
  forall x m s, safe (reading l x m s) p (fun _ => True).
Record client_ok (l : nat) : Prop := {
  client_connect_ok e : user_safe l (client_connect e);
  client_keyspace_ok s : user_safe l (client_keyspace s);
  client_prepare_ok e d s : user_safe l (client_prepare e d s);
  client_request_ok i : user_safe l (client_request i)
}.

Context (l : nat) (x : option block) (m0 : Message) (s0 : option SSLSession).
Abbreviation K := (reading l x m0 s0).

Lemma safe_ext {A} (m m' : prog world A) (Q : A -> Prop) :
  (forall w, m w = m' w) -> safe K m' Q -> safe K m Q.
Proof. intros He Hm w Hw. rewrite He. by apply Hm. Qed.

Lemma on_heap_safe {A} (m : prog heap A) (Q : A -> Prop) :
  safe (holds l x) m Q -> safe K (on_heap m) Q.
Proof.
  intros Hm w [Hh Hi]. unfold on_heap, zoom. specialize (Hm _ Hh).
  destruct (m (w_heap w)) as [[a h]|f]; [|done]. destruct Hm. by split.
Qed.

Lemma on_streams_safe {A} (m : prog (StreamStorage (option nat)) A) :
  safe (fun _ => True) m (fun _ => True) -> safe K (on_streams m) (fun _ => True).
Proof.
  intros Hm w Hw. unfold on_streams, zoom. specialize (Hm (stream_storage_ (w_conn w)) I).
  by destruct (m _) as [[a s]|f].
Qed.

Lemma array_get_safe {S A} (J : S -> Prop) (a : list A) i :
  safe J (array_get a i) (fun _ => True).
Proof. unfold array_get. safe_solve. Qed.
Lemma array_set_safe {S A} (J : S -> Prop) (a : list A) i y :
  safe J (array_set a i y) (fun _ => True).
Proof. unfold array_set. safe_solve. Qed.
Lemma get_safe {S} (J : S -> Prop) : safe J get (fun _ => True).
Proof. by intros s Hs. Qed.
Lemma put_true_safe {S} (s : S) : safe (fun _ => True) (put s) (fun _ => True).
Proof. by intros s' Hs. Qed.
#[local] Hint Resolve array_get_safe array_set_safe get_safe put_true_safe : safe.

Lemma set_stream_safe Max (i : option nat) o :
  safe (fun _ => True) (set_stream Max i o) (fun _ => True).
Proof. unfold set_stream. safe_solve. Qed.
Lemma get_stream_safe i release :
  safe (fun _ => True) (@get_stream (option nat) i release) (fun _ => True).
Proof. unfold get_stream. safe_solve. Qed.

Lemma conn_safe : safe K conn (fun _ => True).
Proof. by intros w Hw. Qed.
Lemma emit_safe e : safe K (emit e) (fun _ => True).
Proof. by intros w Hw. Qed.
Lemma upd_safe f :
  (forall c, incomming_ (f c) = incomming_ c /\ ssl_ (f c) = ssl_ c) ->
  safe K (upd f) (fun _ => True).
Proof.
  intros Hf w (Hh & Hi & Hs). destruct (Hf (w_conn w)) as [Ei Es].
  split; [|done]. split_and!; cbn; [done|by rewrite Ei|by rewrite Es].
Qed.
Lemma put_request_safe i r : safe K (put_request i r) (fun _ => True).
Proof. by intros w Hw. Qed.
Lemma lift_safe {A} (o : outcome A) :
  match o with Fault OutOfFuel => False | _ => True end -> safe K (lift o) (fun _ => True).
Proof. intros Ho w Hw. unfold lift. destruct o as [a|[]]; by try split. Qed.
Lemma deref_safe p : safe K (deref p) (fun _ => True).
Proof. unfold deref. destruct p as [[i|]|]; safe_solve. Qed.

Lemma log_safe level m : safe K (log level m) (fun _ => True).
Proof.
  intros w [Hh Hi]. rewrite log_run. split; [|done].
  split; [by rewrite logged_heap|by rewrite logged_conn].
Qed.

Lemma request_at_safe i : safe K (request_at i) (fun _ => True).
Proof.
  intros w Hw. unfold request_at. erewrite bind_run by reflexivity.
  destruct (w_requests w !! i); [by split|done].
Qed.

Lemma opcode_name_safe o : safe K (lift (opcode_to_string o)) (fun _ => True).
Proof. apply lift_safe. unfold opcode_to_string. by repeat case_decide. Qed.

#[local] Hint Resolve conn_safe emit_safe put_request_safe deref_safe log_safe
  request_at_safe opcode_name_safe set_stream_safe get_stream_safe on_streams_safe : safe.

Lemma destroy_message_safe m :
  message_off l m -> safe K (destroy_message m) (fun _ => True).
Proof. intros Hm. unfold destroy_message. by apply on_heap_safe, destroy_safe. Qed.

Lemma send_data_safe buf : safe K (send_data buf) (fun _ => True).
Proof.
  unfold send_data. eapply safe_bind; [apply on_heap_safe, read_cells_readonly|intros cs _].
  safe_solve.
Qed.
#[local] Hint Resolve send_data_safe destroy_message_safe : safe.

Lemma send_message_safe m r :
  message_off l m -> safe K (send_message m r) (fun r => message_off l r.2).
Proof.
  intros Hm. unfold send_message.
  eapply safe_bind; [apply on_streams_safe, set_stream_safe|intros [[e|] stream] _].
  { by apply safe_ret. }
  assert (message_off l (set_m_stream stream m)) as Hm' by by destruct Hm.
  eapply safe_bind; [by apply on_heap_safe, message_prepare_safe|].
  intros [[[ok m'] p] n] [Hp Hoff]. cbn in Hp, Hoff.
  destruct ok; [|by apply safe_fail]. safe_solve. done.
Qed.

(** A message of our own is made, filled, sent and destroyed. *)
Lemma send_options_safe : safe K send_options (fun _ => True).
Proof.
  unfold send_options. eapply safe_bind; [apply log_safe|intros _ _].
  eapply safe_bind; [apply on_heap_safe, message_init_safe|intros m Hm].
  eapply safe_bind; [by apply send_message_safe|intros [e m'] Hm'].
  by apply destroy_message_safe.
Qed.

Lemma send_startup_safe : safe K send_startup (fun _ => True).
Proof.
  unfold send_startup. eapply safe_bind; [apply log_safe|intros _ _].
  eapply safe_bind; [apply on_heap_safe, message_init_safe|intros m Hm].
  eapply safe_bind; [apply conn_safe|intros c _].
  destruct (m_body m) as [[]|] eqn:Hb; try by apply safe_fail.
  eapply safe_bind; [apply send_message_safe; destruct Hm; by constructor|].
  intros [e m'] Hm'. by apply destroy_message_safe.
Qed.

Context (Hclient : client_ok l).

Lemma notify_ready_safe : safe K notify_ready (fun _ => True).
Proof.
  unfold notify_ready. eapply safe_bind; [apply log_safe|intros _ _].
  eapply safe_bind; [apply conn_safe|intros c _]. apply safe_when.
  by apply client_connect_ok.
Qed.

Lemma notify_error_safe e : safe K (notify_error e) (fun _ => True).
Proof.
  unfold notify_error. eapply safe_bind; [apply log_safe|intros _ _].
  eapply safe_bind; [apply conn_safe|intros c _]. apply safe_when.
  by apply client_connect_ok.
Qed.

Lemma notify_request_safe i : safe K (notify_request i) (fun _ => True).
Proof.
  unfold notify_request. pose proof (fun i => client_request_ok l Hclient i x m0 s0). safe_solve.
Qed.
#[local] Hint Resolve notify_ready_safe notify_error_safe notify_request_safe : safe.

Lemma give_response_safe p m : safe K (give_response p m) (fun _ => True).
Proof. unfold give_response. safe_solve. Qed.
#[local] Hint Resolve give_response_safe : safe.

Lemma get_stream_conn_safe i release : safe K (on_streams (get_stream i release)) (fun _ => True).
Proof. apply on_streams_safe, get_stream_safe. Qed.
#[local] Hint Resolve get_stream_conn_safe : safe.

Lemma on_result_safe m : safe K (on_result m) (fun _ => True).
Proof.
  unfold on_result. pose proof (fun e => client_connect_ok l Hclient e x m0 s0).
  pose proof (fun s => client_keyspace_ok l Hclient s x m0 s0). pose proof (fun e d s => client_prepare_ok l Hclient e d s x m0 s0).
  eapply safe_bind; [apply log_safe|intros _ _].
  eapply safe_bind; [apply lift_safe; unfold result_of; by destruct (m_body m) as [[]|]
                    |intros r _].
  safe_solve.
Qed.

Lemma on_error_safe m : message_off l m -> safe K (on_error m) (fun _ => True).
Proof.
  intros Hm. unfold on_error.
  eapply safe_bind; [apply log_safe|intros _ _].
  eapply safe_bind; [apply lift_safe; unfold error_of; by destruct (m_body m) as [[]|]
                    |intros r _].
  eapply safe_bind; [apply conn_safe|intros c _].
  apply (safe_bind _ _ _ (fun _ => True)); [|intros _ _; by apply destroy_message_safe].
  case_decide; [|by apply safe_ret].
  eapply safe_bind; [apply on_heap_safe, read_cstring_readonly|intros s _].
  apply notify_error_safe.
Qed.

(** The event after a handler has changed the state. *)
Lemma next_event_safe s d fuel :
  s = CLIENT_STATE_HANDSHAKE \/ s = CLIENT_STATE_SUPPORTED \/ s = CLIENT_STATE_READY ->
  safe K (upd (set_state s) ;; event_received_n (S d) fuel) (fun _ => True).
Proof.
  intros Hs.
  assert (safe K (upd (set_state s) ;; log CQL_LOG_DEBUG (LText "event received") ;;
    match s with
    | CLIENT_STATE_HANDSHAKE => send_options
    | CLIENT_STATE_SUPPORTED => send_startup
    | _ => notify_ready
    end) (fun _ => True)) as Hsafe.
  { eapply safe_bind; [by apply upd_safe|intros _ _].
    eapply safe_bind; [apply log_safe|intros _ _].
    destruct s; eauto using send_options_safe, send_startup_safe, notify_ready_safe. }
  eapply safe_ext; [|exact Hsafe]. intros w. cbn [event_received_n].
  erewrite !bind_run by (apply upd_run). erewrite bind_run by (apply log_run).
  rewrite event_body_run. cbn [w_conn set_w_conn state_ set_state].
  by destruct Hs as [-> | [-> | ->]].
Qed.

Lemma dispatch_safe d fuel m size remaining :
  message_off l m ->
  safe K (dispatch (event_received_n (S d) fuel) m size remaining) (fun _ => True).
Proof.
  intros Hm. unfold dispatch.
  eapply safe_bind; [apply opcode_name_safe|intros s _].
  eapply safe_bind; [apply log_safe|intros _ _].
  case_decide; [by apply safe_fail|]. case_decide.
  { unfold on_supported. eapply safe_bind; [apply log_safe|intros _ _].
    eapply safe_bind; [by apply destroy_message_safe|intros _ _].
    apply next_event_safe. auto. }
  case_decide; [by apply on_error_safe|]. case_decide.
  { unfold on_ready. eapply safe_bind; [apply log_safe|intros _ _].
    eapply safe_bind; [by apply destroy_message_safe|intros _ _].
    apply next_event_safe. auto. }
  case_decide; [by apply on_result_safe|by apply safe_fail].
Qed.
End reading.

(** ** Concrete instances for examples

    A libuv whose addresses are their texts, with the constants of Linux; a user
    whose callbacks do nothing. *)
Definition linux_uv : LibUV := {|
  sockaddr := list Z;
  uv_buf_init := fun p n => {| buf_base := p; buf_len := n |};
  uv_ip4_name := fun a => a; uv_ip6_name := fun a => a;
  PF_INET := 2; AF_INET := 2; AF_INET6 := 10; SOCK_STREAM := 1; IPPROTO_TCP := 6
|}.

Definition silent_client : @Client linux_uv null_openssl := {|
  client_connect := fun _ => mret tt;
  client_keyspace := fun _ => mret tt;
  client_prepare := fun _ _ _ => mret tt;
  client_request := fun _ => mret tt
|}.

Lemma silent_client_ok l : @client_ok linux_uv null_openssl silent_client l.
Proof. constructor; intros; intros x m s0; by apply safe_ret. Qed.

(** A connection without TLS that nothing has happened to. *)
Definition plain_connection : @ClientConnection linux_uv null_openssl := {|
  state_ := CLIENT_STATE_NEW; incomming_ := Message_default;
  stream_storage_ := StreamStorage_init CQL_STREAM_ID_MAX i8;
  connect_callback_ := false; keyspace_callback_ := false;
  prepare_callback_ := false; log_callback_ := false;
  address_ := None; address_string_ := []; address_family_ := 2;
  hostname_ := bytes_of_string "localhost"; port_ := bytes_of_string "9042";
  resolver_hints_ := {| hint_family := 2; hint_socktype := 1;
                        hint_protocol := 6; hint_flags := 0 |};
  ssl_ := None; ssl_handshake_done_ := false;
  compression_ := []; cql_version_ := bytes_of_string "3.0.0"
|}.

Definition fresh_world (h : heap) (c : @ClientConnection linux_uv null_openssl)
    (rs : list CallerRequest) : @world linux_uv null_openssl := {|
  w_heap := h; w_conn := c; w_requests := rs; w_trace := []
|}.

Lemma plain_connection_init :
  @ClientConnection_init linux_uv null_openssl None = Ok plain_connection.
Proof. reflexivity. Qed.
