(* ===== verification/Receive.v ===== *)
(** * Receiving on a connection

    The loop of [ClientConnection::consume]: it ends, and what it does with a
    buffer of whole frames is to handle the messages of the frames in their
    order, the handlers included. *)

From S2P Require Import Prelude Memory StdMap Common Serialization Body Query Result.
From S2P Require Import Message StreamStorage Request SslSession HeapEffects Connection.
From S2P Require Import ConnectionFacts.

(** ** Frames *)

Record frame := {
  fr_version : Z;
  fr_flags   : Z;
  fr_stream  : Z;
  fr_opcode  : Z;
  fr_payload : block
}.

Definition frame_cells (f : frame) : block :=
  (Some <$> wire_header (fr_version f) (fr_flags f) (fr_stream f) (fr_opcode f)
              (zlen (fr_payload f))) ++ fr_payload f.

(** There is a type of body for the opcode. *)
Definition frame_ok (f : frame) : Prop :=
  exists b, allocate_body (u8 (fr_opcode f)) = mret b.

Lemma on_heap_ret `{LibUV} `{OpenSSL} {A} (a : A) (w : world) :
  on_heap (mret a) w = Ok (a, w).
Proof. by destruct w. Qed.

Section receive.
Context `{Allocator} `{LibUV} `{OpenSSL} `{!Client}.

(** A copy of the payload in a block of its own. *)
Definition place (payload : block) : prog heap ptr := fun h =>
  Ok (Heap (length h) 0,
      h ++ [Some (payload ++
              replicate (Z.to_nat (usable (zlen payload) - zlen payload)) None)]).

(** The specification: a frame is a message, whose body is decoded from a copy
    of the payload, and which is then dispatched. *)
Definition receive_frame (ev : prog world unit) (f : frame) (size remaining : Z)
    : prog world unit :=
  w ← get;
  b ← on_heap (allocate_body (u8 (fr_opcode f)));
  buffer ← on_heap (place (fr_payload f));
  '(ok, b) ← on_heap (consume b buffer (zlen (fr_payload f)));
  dispatch ev
    (completed (fr_version f) (fr_flags f) (fr_stream f) (fr_opcode f)
       (zlen (fr_payload f)) remaining ok b (length (w_heap w)) (zlen (fr_payload f)))
    size remaining.

Fixpoint receive_frames (ev : prog world unit) (fs : list frame) (size remaining : Z)
    : prog world unit :=
  match fs with
  | [] => mret tt
  | f :: fs =>
      receive_frame ev f size remaining ;;
      receive_frames ev fs size (remaining - zlen (frame_cells f))
  end.

Lemma length_frame_cells f : zlen (frame_cells f) = 8 + zlen (fr_payload f).
Proof.
  unfold frame_cells. rewrite length_app, length_fmap, length_wire_header. lia.
Qed.

Lemma set_incomming_id c : set_incomming (incomming_ c) c = c.
Proof. by destruct c. Qed.
Lemma set_w_conn_id w : set_w_conn (w_conn w) w = w.
Proof. by destruct w. Qed.

(** [consume] of a message, then a fresh one. *)
Lemma set_incomming_fresh m w :
  incomming_ (w_conn w) = Message_default ->
  set_w_conn (set_incomming Message_default (set_incomming m (w_conn w))) w = w.
Proof.
  intros Hi. rewrite <- Hi. change (set_incomming ?a (set_incomming m ?c))
    with (set_incomming a c). by rewrite set_incomming_id, set_w_conn_id.
Qed.

(** One iteration of the loop for a whole frame. *)
Lemma consume_loop_frame ev l off f rest size n w :
  incomming_ (w_conn w) = Message_default -> frame_ok f ->
  cells_at (w_heap w) (Heap l off) (frame_cells f ++ rest) ->
  zlen (frame_cells f ++ rest) < 2147483648 ->
  consume_loop ev (S n) (Heap l off) size (zlen (frame_cells f ++ rest)) w =
  (receive_frame ev f size (zlen (frame_cells f ++ rest)) ;;
   consume_loop ev n (Heap l (off + zlen (frame_cells f))) size (zlen rest)) w.
Proof.
  intros Hi [b Hb] Hat Hlt. cbn [consume_loop].
  rewrite length_app, Nat2Z.inj_add in *. pose proof (length_frame_cells f) as Hlen.
  rewrite decide_False by lia.
  erewrite bind_run by (apply conn_run). cbv beta. rewrite Hi, u64_small by lia.
  unfold frame_cells in Hat. rewrite <- app_assoc in Hat.
  pose proof (consume_whole (w_heap w) (Heap l off) [] _ (fr_payload f) rest _ _ _ _ b
    eq_refl eq_refl Hat Hb) as Hc.
  rewrite partial_nil in Hc.
  change (zlen (wire_header _ _ _ _ _)) with 8 in Hc.
  rewrite <- Hlen, Z.add_assoc, <- Hlen in Hc. specialize (Hc Hlt).
  unfold receive_frame. rewrite !bind_assoc. erewrite (bind_run get) by reflexivity.
  rewrite bind_assoc, Hb. erewrite (bind_run (on_heap (mret b))) by (apply on_heap_ret).
  rewrite bind_assoc. erewrite (bind_run (on_heap (place _))) by (by apply on_heap_run).
  rewrite bind_assoc.
  destruct (consume b (Heap (length (w_heap w)) 0) _ _) as [[[ok b'] h']|e] eqn:E.
  - erewrite bind_run by (apply on_heap_run; exact Hc). cbv beta iota.
    erewrite (bind_run (upd (set_incomming _))) by (apply upd_run).
    rewrite bool_decide_eq_false_2 by lia.
    unfold when. rewrite bind_ret. cbn [m_body_ready completed set_m_ready].
    rewrite bind_assoc. erewrite (bind_run (upd (set_incomming _))) by (apply upd_run).
    erewrite (bind_run (on_heap (consume _ _ _))) by (apply on_heap_run; exact E).
    cbv beta iota. cbn [w_heap w_conn set_w_heap set_w_conn].
    rewrite i32_small by lia.
    replace (zlen (frame_cells f) + zlen rest - zlen (frame_cells f)) with (zlen rest) by lia.
    cbn [padd].
    change (set_w_conn ?c (set_w_conn _ ?v)) with (set_w_conn c v).
    change (w_conn w) with (w_conn (set_w_heap h' w)).
    rewrite set_incomming_fresh by done. reflexivity.
  - erewrite bind_fault by (apply on_heap_fault; exact Hc).
    by erewrite bind_fault by (apply on_heap_fault; exact E).
Qed.

(** Receiving a frame keeps the buffer that is read and a fresh [incomming_]. *)
Lemma receive_frame_safe l x s d fuel f size remaining :
  client_ok l -> frame_ok f ->
  safe (reading l x Message_default s) (receive_frame (event_received_n (S d) fuel) f size remaining)
    (fun _ => True).
Proof.
  intros Hc [b Hb] w Hw. unfold receive_frame.
  erewrite (bind_run get) by reflexivity. rewrite Hb.
  erewrite (bind_run (on_heap (mret b))) by (apply on_heap_ret).
  erewrite (bind_run (on_heap (place _))) by (by apply on_heap_run).
  set (w1 := set_w_heap _ _).
  assert (reading l x Message_default s w1) as Hw1.
  { destruct Hw as [Hh Hi]. split; [by apply lookup_app_l_Some|done]. }
  destruct (consume b (Heap (length (w_heap w)) 0) (zlen (fr_payload f)) (w_heap w1))
    as [[[ok b'] h']|e] eqn:E.
  - erewrite bind_run by (apply on_heap_run; exact E). cbv beta iota.
    pose proof (readonly_run _ _ _ _ (body_consume_readonly _ _ _) E) as ->.
    apply (dispatch_safe l x _ s Hc); [|done].
    destruct Hw as [Hh _]. pose proof (lookup_lt_Some _ _ _ Hh).
    constructor; cbn; [lia|intros p [= <-]; cbn; lia|].
    intros e [= ->]. destruct (body_consume_guard _ _ _ _ _ _ _ _ E eq_refl) as (e0 & He0 & ->).
    rewrite (allocate_body_guard (u8 (fr_opcode f)) [] b [] e0); [done| |done].
    by rewrite Hb.
  - erewrite bind_fault by (apply on_heap_fault; exact E).
    pose proof (body_consume_readonly b (Heap (length (w_heap w)) 0) (zlen (fr_payload f))
      (fun _ => True) (w_heap w1) I) as Hs. by rewrite E in Hs.
Qed.

Lemma consume_loop_frames l b s d fuel fs tail off size n w :
  client_ok l -> reading l (Some b) Message_default s w -> Forall frame_ok fs ->
  slice b off (zlen (concat (frame_cells <$> fs) ++ (Some <$> tail))) =
    Some (concat (frame_cells <$> fs) ++ (Some <$> tail)) ->
  zlen tail < 8 -> zlen (concat (frame_cells <$> fs) ++ (Some <$> tail)) < 2147483648 ->
  (length (concat (frame_cells <$> fs) ++ (Some <$> tail)) < n)%nat ->
  let ev := event_received_n (S d) fuel in
  let remaining := zlen (concat (frame_cells <$> fs) ++ (Some <$> tail)) in
  consume_loop ev n (Heap l off) size remaining w =
  (receive_frames ev fs size remaining ;; upd (set_incomming (partial tail))) w.
Proof.
  intros Hc Hw Hfs. revert off n w Hw. cbv zeta.
  induction Hfs as [|f fs Hf Hfs IH]; intros off n w Hw Hsl Ht Hlt Hn.
  - cbn [fmap list_fmap concat app receive_frames] in *. rewrite bind_ret, upd_run.
    destruct Hw as (Hh & Hi & _). destruct n as [|n]; [lia|].
    destruct (decide (tail = [])) as [->|Hne].
    + cbn [fmap list_fmap length]. rewrite partial_nil, <- Hi, set_incomming_id, set_w_conn_id.
      done.
    + cbn [consume_loop]. rewrite length_fmap in *.
      rewrite decide_False by (destruct tail; [done|cbn; lia]).
      erewrite bind_run by (apply conn_run). cbv beta.
      rewrite Hi, u64_small, <- partial_nil by lia.
      erewrite bind_run.
      2:{ apply on_heap_run, consume_partial; [|cbn; lia].
          eapply cells_at_heap; [exact Hh|]. by rewrite length_fmap. }
      cbv beta iota. erewrite bind_run by (apply upd_run).
      rewrite bool_decide_eq_false_2 by lia. unfold when. rewrite bind_ret.
      cbn [m_body_ready partial]. rewrite bind_ret, Z.sub_diag.
      destruct n as [|n]; [destruct tail; [done|cbn in Hn; lia]|].
      by destruct w.
  - cbn [fmap list_fmap concat receive_frames] in *. rewrite <- app_assoc in *.
    destruct n as [|n]; [lia|].
    set (rest := concat (frame_cells <$> fs) ++ (Some <$> tail)) in *.
    rewrite consume_loop_frame;
      [|apply Hw|done|by eapply cells_at_heap; [apply Hw|]|done].
    rewrite bind_assoc. rewrite length_app, Nat2Z.inj_add in *.
    pose proof (length_frame_cells f) as Hlen.
    replace (zlen (frame_cells f) + zlen rest - zlen (frame_cells f)) with (zlen rest) by lia.
    pose proof (receive_frame_safe l (Some b) s d fuel f size
      (zlen (frame_cells f) + zlen rest) Hc Hf w Hw) as Hs.
    unfold mbind at 1 2, prog_bind.
    destruct (receive_frame _ f size _ w) as [[[] w']|e]; [|done].
    destruct Hs as [Hw' _]. apply IH; [done| |done|lia|lia].
    apply slice_app_inv in Hsl as [_ Hsl]; [|lia..].
    by rewrite Nat2Z.id, drop_app_length in Hsl.
Qed.

(** The loop ends: what is left shrinks with every iteration. *)
Lemma consume_loop_ends l x d fuel n p size remaining w :
  client_ok l -> holds l x (w_heap w) -> receiving (incomming_ (w_conn w)) ->
  message_off l (incomming_ (w_conn w)) -> 0 <= remaining < Z.of_nat n ->
  m_received (incomming_ (w_conn w)) + remaining < 2147483648 ->
  match consume_loop (event_received_n (S d) fuel) n p size remaining w with
  | Ok (_, w') => holds l x (w_heap w') /\ receiving (incomming_ (w_conn w')) /\
                  message_off l (incomming_ (w_conn w'))
  | Fault f => f <> OutOfFuel
  end.
Proof.
  intros Hc. revert p remaining w. induction n as [|n IH];
    intros p remaining w Hh Hr Ho Hb Hmax; [lia|].
  cbn [consume_loop]. case_decide as Hd; [done|].
  erewrite bind_run by (apply conn_run). cbv beta.
  assert (0 <= m_received (incomming_ (w_conn w))) by (destruct Hr as [_ [[]|(?&?&?)]]; lia).
  rewrite u64_small by lia.
  pose proof (message_consume_safe l x (incomming_ (w_conn w)) p remaining Ho
    (w_heap w) Hh) as Hs.
  destruct (Message_consume _ _ _ _) as [[[k m] h]|e] eqn:E;
    [|by erewrite bind_fault by (apply on_heap_fault; exact E)].
  destruct Hs as [Hh' Hm]. cbn in Hm.
  apply message_consume_step in E as Hstep; [|done|lia|lia].
  destruct Hstep as [Hk Hready].
  erewrite bind_run by (apply on_heap_run; exact E). cbv beta iota.
  erewrite bind_run by (apply upd_run).
  rewrite bool_decide_eq_false_2 by lia. unfold when. rewrite bind_ret.
  rewrite i32_small by lia.
  destruct (m_body_ready m) eqn:Hrd.
  - rewrite bind_assoc. erewrite bind_run by (apply upd_run).
    set (w1 := set_w_conn _ _).
    assert (reading l x Message_default (ssl_ (w_conn w)) w1) as Hw1 by done.
    pose proof (dispatch_safe l x _ _ Hc d fuel m size remaining Hm w1 Hw1) as Hds.
    unfold mbind, prog_bind.
    destruct (dispatch _ m size remaining w1) as [[[] w2]|e]; [|done].
    destruct Hds as [(Hh2 & Hi2 & _) _]. apply IH; rewrite ?Hi2.
    + done.
    + apply receiving_default.
    + apply message_off_default.
    + lia.
    + cbn. lia.
  - destruct Hready as [|(-> & Hrec & Hrecd)]; [done|].
    rewrite bind_ret, Z.sub_diag. apply IH; cbn; [done..|lia|lia].
Qed.

(** Whatever the bytes are and wherever they are, a run that ends leaves the block
    and the session as they were. *)
Definition left_alone (l : nat) (x : option block) (s : option SSLSession) (w : world) : Prop :=
  holds l x (w_heap w) /\ message_off l (incomming_ (w_conn w)) /\ ssl_ (w_conn w) = s.

Section left_alone.
Context (l : nat) (x : option block) (s : option SSLSession) (Hc : client_ok l).
Abbreviation L := (left_alone l x s).

Lemma reading_left_alone {A} (m : prog world A) (Q : A -> Prop) :
  (forall m0, safe (reading l x m0 s) m Q) -> keeps L m Q.
Proof.
  intros Hm w a w' (Hh & Ho & Hs) Hrun.
  destruct (safe_run _ _ _ _ _ _ (Hm (incomming_ (w_conn w))) (conj Hh (conj eq_refl Hs)) Hrun)
    as [(Hh' & Hi & Hs') Ha].
  split; [|done]. split_and!; [done|by rewrite Hi|done].
Qed.

Lemma set_incomming_left_alone m :
  message_off l m -> keeps L (upd (set_incomming m)) (fun _ => True).
Proof. intros Hm w [] w' (Hh & _ & Hs) [= <-]. done. Qed.

Lemma dispatch_left_alone d fuel m size remaining :
  message_off l m ->
  keeps L (dispatch (event_received_n (S d) fuel) m size remaining) (fun _ => True).
Proof. intros Hm. apply reading_left_alone. intros m0. by apply dispatch_safe. Qed.

Lemma consume_loop_left_alone d fuel n p size remaining :
  keeps L (consume_loop (event_received_n (S d) fuel) n p size remaining) (fun _ => True).
Proof.
  revert p remaining. induction n as [|n IH]; intros p remaining; cbn [consume_loop];
    (case_decide; [by apply keeps_ret|]); [apply keeps_fail|].
  apply (keeps_bind _ _ _ (fun c => message_off l (incomming_ c)));
    [by intros w c w' (? & ? & ?) [= <- <-]|intros c Ho].
  apply (keeps_bind _ _ _ (fun r => message_off l r.2)).
  { intros w [k m] w' Hw Hrun. apply on_heap_inv in Hrun as (h & Hrun & ->).
    destruct Hw as (Hh & Hr).
    destruct (safe_run _ _ _ _ _ _ (message_consume_safe l x _ p _ Ho) Hh Hrun). done. }
  intros [k m] Hm. cbn in Hm.
  eapply keeps_bind; [by apply set_incomming_left_alone|intros _ _].
  eapply keeps_bind; [apply keeps_when, reading_left_alone; intros; apply emit_safe|intros _ _].
  apply (keeps_bind _ _ _ (fun _ => True)); [|intros _ _; apply IH].
  destruct (m_body_ready m); [|by apply keeps_ret].
  eapply keeps_bind; [apply set_incomming_left_alone, message_off_default|intros _ _].
  by apply dispatch_left_alone.
Qed.
End left_alone.
End receive.

(** ** Theorems *)

(** C15: the loop of [consume] ends whatever the bytes are: it takes at least one
    byte in every iteration, so it never runs out of fuel, and unless it faults
    it leaves a message that waits for more bytes and the buffer as it was. *)
Theorem consume_terminates `{Allocator} `{LibUV} `{OpenSSL} `{!Client} l x fuel off size w :
  client_ok l -> holds l x (w_heap w) -> receiving (incomming_ (w_conn w)) ->
  message_off l (incomming_ (w_conn w)) -> 0 <= size ->
  m_received (incomming_ (w_conn w)) + size < 2147483648 ->
  match connection_consume (event_received fuel) (Heap l off) size w with
  | Ok (_, w') => holds l x (w_heap w') /\ receiving (incomming_ (w_conn w')) /\
                  message_off l (incomming_ (w_conn w'))
  | Fault f => f <> OutOfFuel
  end.
Proof.
  intros Hc Hh Hr Ho Hs Hmax. unfold connection_consume.
  assert (0 <= m_received (incomming_ (w_conn w))) by (destruct Hr as [_ [[]|(?&?&?)]]; lia).
  rewrite i32_small by lia. apply (consume_loop_ends l x 1); [done..|lia|lia].
Qed.

(** C2: [consume] of a buffer that holds whole frames, and perhaps the start of
    another header, is the specification [receive_frames]: the messages of the
    frames are decoded and dispatched one after the other, the handlers run
    before the next frame is looked at, and the rest is kept for the next call.
    A fault of a handler ends the run there. *)
Theorem consume_frames `{Allocator} `{LibUV} `{OpenSSL} `{!Client} l b s fuel fs tail off w :
  client_ok l -> reading l (Some b) Message_default s w -> Forall frame_ok fs ->
  slice b off (zlen (concat (frame_cells <$> fs) ++ (Some <$> tail))) =
    Some (concat (frame_cells <$> fs) ++ (Some <$> tail)) ->
  zlen tail < 8 -> zlen (concat (frame_cells <$> fs) ++ (Some <$> tail)) < 2147483648 ->
  let size := zlen (concat (frame_cells <$> fs) ++ (Some <$> tail)) in
  connection_consume (event_received fuel) (Heap l off) size w =
  (receive_frames (event_received fuel) fs size size ;;
   upd (set_incomming (partial tail))) w.
Proof.
  intros Hc Hw Hfs Hsl Ht Hlt. cbv zeta. unfold connection_consume.
  rewrite i32_small by lia. apply (consume_loop_frames l b s 1); [exact Hc|exact Hw|exact Hfs|exact Hsl|lia..].
Qed.

(** The recursion of [event_received] through the handlers is bounded: calls
    deeper than two change nothing. *)
Theorem event_recursion_bounded `{Allocator} `{LibUV} `{OpenSSL} `{!Client} d fuel w :
  event_received_n (2 + d) fuel w = event_received fuel w.
Proof.
  change (event_body (event_received_n (S d) fuel) fuel w =
    event_body (event_received_n 1 fuel) fuel w).
  apply event_body_ext, (event_received_agree d 0).
Qed.

(** ** Witnesses *)

#[local] Existing Instances exact_allocator linux_uv null_openssl silent_client.

(** Two frames, and the start of a third, in block 0. *)
Definition ready_frame : frame := {|
  fr_version := 0x82; fr_flags := 0; fr_stream := 1; fr_opcode := CQL_OPCODE_READY;
  fr_payload := []
|}.
Definition error_frame : frame := {|
  fr_version := 0x82; fr_flags := 0; fr_stream := 0; fr_opcode := CQL_OPCODE_ERROR;
  fr_payload := Some <$> error_payload
|}.
Definition sample_buffer : block :=
  concat (frame_cells <$> [ready_frame; error_frame]) ++ (Some <$> [0x82; 0]).
Definition sample_world : world := fresh_world [Some sample_buffer] plain_connection [].

Theorem consume_terminates_witness :
  exists w', connection_consume (event_received 0) (Heap 0 0) 30 sample_world = Ok (tt, w') /\
    receiving (incomming_ (w_conn w')).
Proof.
  pose proof (consume_terminates 0 (Some sample_buffer) 0 0 30 sample_world
    (silent_client_ok 0) eq_refl receiving_default (message_off_default 0)
    ltac:(lia) ltac:(cbn; lia)) as Ht.
  assert (match connection_consume (event_received 0) (Heap 0 0) 30 sample_world with
    Ok _ => True | Fault _ => False end) as Hrun by (vm_compute; exact I).
  destruct (connection_consume _ _ _ _) as [[[] w']|f]; [|done].
  exists w'. split; [done|apply Ht].
Defined.

(** What an observer sees of a run. *)
Definition observe {A} (o : outcome (unit * world)) (f : world -> A) : outcome A :=
  match o with Ok (_, w) => Ok (f w) | Fault e => Fault e end.

Theorem consume_frames_witness :
  observe (connection_consume (event_received 0) (Heap 0 0) 30 sample_world)
    (fun w => (state_ (w_conn w), incomming_ (w_conn w))) =
  Ok (CLIENT_STATE_READY, partial [0x82; 0]).
Proof.
  pose proof (consume_frames 0 sample_buffer None 0 [ready_frame; error_frame] [0x82; 0] 0
    sample_world (silent_client_ok 0) (conj eq_refl (conj eq_refl eq_refl))) as Hf.
  assert (Forall frame_ok [ready_frame; error_frame]) as Hok.
  { constructor; [eexists; reflexivity|]. constructor; [eexists; reflexivity|constructor]. }
  specialize (Hf Hok eq_refl eq_refl eq_refl).
  etransitivity; [exact (f_equal (fun o => observe o _) Hf)|]. vm_compute. reflexivity.
Defined.
