(* ===== verification/Lifecycle.v ===== *)
(** * The life of a connection

    What a connection sends, from the resolution of the address to the state
    READY, and what becomes of the answers to requests. *)

From S2P Require Import Prelude Memory StdMap Common Serialization Body Query Result.
From S2P Require Import Message StreamStorage Request SslSession HeapEffects Connection.
From S2P Require Import ConnectionFacts Receive.

(** ** The streams of a connection *)

Lemma max_pos : (1 <= CQL_STREAM_ID_MAX)%nat.
Proof. unfold CQL_STREAM_ID_MAX. lia. Qed.
Lemma max_64 : Z.of_nat CQL_STREAM_ID_MAX < 18446744073709551616.
Proof. unfold CQL_STREAM_ID_MAX. lia. Qed.

Definition conn_set_stream_run :=
  @set_stream_run (option nat) CQL_STREAM_ID_MAX max_pos max_64.
Definition conn_get_stream_run :=
  @get_stream_run (option nat) CQL_STREAM_ID_MAX max_pos max_64.

(** ** Sending *)

Section sending.
Context `{Allocator} `{LibUV} `{OpenSSL} `{!Client}.
Implicit Types (w : world).

(** The world after [send_message] has handed out stream [id] to [request] and
    queued the first [n] bytes of the new block [blk]. *)
Definition sent (id : Z) (request : option nat) (n : Z) (blk : block) (w : world) : world := {|
  w_heap := w_heap w ++ [Some blk];
  w_conn := set_stream_storage (stream_taken (stream_storage_ (w_conn w)) id request)
              (w_conn w);
  w_requests := w_requests w;
  w_trace := w_trace w ++
    [EvWrite {| buf_base := Heap (length (w_heap w)) 0; buf_len := n |}
       (take (Z.to_nat n) blk)]
|}.

(** The next free stream of a connection, and that there is one. *)
Definition next_stream (c : ClientConnection) (id : Z) : Prop :=
  storage_inv CQL_STREAM_ID_MAX (stream_storage_ c) /\
  available_streams_ (stream_storage_ c) !!
    Z.to_nat (available_streams_index_ (stream_storage_ c)) = Some id /\
  1 <= id < Z.of_nat CQL_STREAM_ID_MAX.

Lemma send_message_prepared w m request id m' n blk :
  log_callback_ (w_conn w) = false -> next_stream (w_conn w) id ->
  Message_prepare (set_m_stream id m) Null 0 (w_heap w) =
    Ok ((true, m', Heap (length (w_heap w)) 0, n), w_heap w ++ [Some blk]) ->
  0 <= n <= zlen blk -> 0 <= m_opcode m' <= 12 ->
  send_message m request w = Ok ((None, m'), sent id request n blk w).
Proof.
  intros Hlog (Hinv & Htop & Hid) Hp Hn Ho. unfold send_message.
  erewrite bind_run.
  2:{ apply on_streams_run. apply conn_set_stream_run; [exact Hinv|exact Htop|exact Hid]. }
  cbv beta iota.
  erewrite bind_run by (apply on_heap_run; exact Hp). cbv beta iota.
  destruct (proj2 (opcode_to_string_total (m_opcode m')) Ho) as [name Hname].
  erewrite bind_run by (rewrite Hname; apply lift_run).
  erewrite bind_run by (by apply log_off).
  unfold send_data. rewrite bind_assoc.
  erewrite bind_run.
  2:{ apply on_heap_run. cbn [buf_base buf_len w_heap set_w_heap set_w_conn].
      apply (read_cells_at _ _ (take (Z.to_nat n) blk)).
      - eapply cells_at_heap; [apply lookup_last|]. apply slice_Some.
        exists [], (drop (Z.to_nat n) blk). cbn [app]. by rewrite take_drop.
      - rewrite length_take. lia. }
  rewrite bind_assoc. erewrite bind_run by (apply emit_run).
  reflexivity.
Qed.

(** A body that keeps the contract of [Body]. *)
Lemma send_message_run w m b cs request id :
  log_callback_ (w_conn w) = false -> next_stream (w_conn w) id ->
  m_body m = Some b -> wire b (w_heap w) cs -> 0 <= m_opcode m <= 12 ->
  8 + zlen cs + excess b < 2147483648 ->
  let n := 8 + (zlen cs + excess b) in
  let m' := set_m_length (n - 8) (set_m_stream id m) in
  exists blk,
    send_message m request w = Ok ((None, m'), sent id request n blk w) /\
    take (Z.to_nat n) blk =
      (Some <$> header_of m') ++ cs ++ replicate (Z.to_nat (excess b)) None.
Proof.
  intros Hlog Hs Hb Hw Ho Hn. cbv zeta. pose proof (excess_nonneg b).
  pose proof (usable_ge (8 + zlen cs + excess b)).
  pose proof (prepare_header (set_m_stream id m) b (w_heap w) cs Null 0 Hb Hw Hn) as Hp.
  cbv zeta in Hp. rewrite <- Z.add_assoc in *.
  eexists. split.
  - apply send_message_prepared; [done..|exact Hp| |done].
    rewrite !length_app, length_fmap, length_replicate.
    change (length (header_of _)) with 8%nat. lia.
  - rewrite take_app_ge by
      (rewrite length_fmap; change (length (header_of _)) with 8%nat; lia).
    rewrite length_fmap. change (length (header_of _)) with 8%nat.
    rewrite take_app_ge by lia. rewrite take_replicate. do 3 f_equal. lia.
Qed.

(** [send_options]: eight bytes, if the allocator has the room for them. *)
Lemma send_options_run w id :
  log_callback_ (w_conn w) = false -> next_stream (w_conn w) id ->
  send_options w =
    if decide (8 <= usable 0) then
      Ok (tt, sent id None 8 ((Some <$> wire_header 0x02 0 id CQL_OPCODE_OPTIONS 0) ++
                              replicate (Z.to_nat (usable 0 - 8)) None) w)
    else Fault OutOfBounds.
Proof.
  intros Hlog Hs. unfold send_options.
  erewrite bind_run by (by apply log_off).
  set (m := {| m_version := 0x02; m_flags := 0; m_stream := 0; m_opcode := 5;
    m_length := 0; m_received := 0; m_header_received := false;
    m_header_buffer := replicate 8 None; m_header_buffer_pos := 0;
    m_body := Some (BOptions mkBodyOptions); m_body_buffer := Null;
    m_body_buffer_pos := None; m_body_ready := false; m_body_error := None |}).
  erewrite (bind_run (on_heap (Message_init _)) _ w m w).
  2:{ unfold Message_init. change (u8 CQL_OPCODE_OPTIONS) with CQL_OPCODE_OPTIONS.
      apply (on_heap_ret m). }
  pose proof (prepare_empty_run (set_m_stream id m) (w_heap w) Null 0 (or_introl eq_refl)) as Hp.
  case_decide as Hd.
  - erewrite bind_run.
    2:{ eapply send_message_prepared; [done|exact Hs|exact Hp| |cbn; lia].
        rewrite length_app, length_fmap, length_replicate.
        change (length (header_of _)) with 8%nat. lia. }
    reflexivity.
  - apply bind_fault. destruct Hs as (Hinv & Htop & Hid). unfold send_message.
    erewrite bind_run by (by apply on_streams_run, conn_set_stream_run).
    cbv beta iota. apply bind_fault. by apply on_heap_fault.
Qed.

(** [send_startup]: the version of CQL the connection has. *)
Lemma send_startup_run w id :
  log_callback_ (w_conn w) = false -> next_stream (w_conn w) id ->
  let startup := {| cql_version := cql_version_ (w_conn w); compression := [] |} in
  let payload := wire_string_map (startup_options startup) in
  8 + zlen payload < 2147483648 ->
  exists blk,
    send_startup w = Ok (tt, sent id None (8 + zlen payload) blk w) /\
    take (Z.to_nat (8 + zlen payload)) blk =
      Some <$> (wire_header 0x02 0 id CQL_OPCODE_STARTUP (zlen payload) ++ payload).
Proof.
  intros Hlog Hs startup payload Hn. unfold send_startup.
  set (m := {| m_version := 0x02; m_flags := 0; m_stream := 0; m_opcode := 1;
    m_length := 0; m_received := 0; m_header_received := false;
    m_header_buffer := replicate 8 None; m_header_buffer_pos := 0;
    m_body := Some (BStartup BodyStartup_default); m_body_buffer := Null;
    m_body_buffer_pos := None; m_body_ready := false; m_body_error := None |}).
  destruct (send_message_run w (set_m_body (BStartup startup) m) (BStartup startup)
    (Some <$> payload) None id Hlog Hs eq_refl) as (blk & Hrun & Hblk);
    [reflexivity|cbn; lia|rewrite length_fmap; cbn [excess body_laws body_excess startup_laws]; lia|].
  cbn [excess body_laws body_excess startup_laws] in *. rewrite length_fmap, Z.add_0_r in *.
  replace (8 + zlen payload - 8) with (zlen payload) in * by lia.
  exists blk. split.
  - erewrite bind_run by (by apply log_off).
    erewrite (bind_run (on_heap (Message_init _)) _ w m w).
    2:{ unfold Message_init. change (u8 CQL_OPCODE_STARTUP) with CQL_OPCODE_STARTUP.
        apply (on_heap_ret m). }
    erewrite bind_run by (apply conn_run). cbv beta. cbn [m_body m].
    erewrite bind_run by exact Hrun. reflexivity.
  - rewrite Hblk, fmap_app, app_nil_r. reflexivity.
Qed.
End sending.

(** ** The events of a connection without TLS *)

(** [uv_buf_init] makes the pair of its arguments. *)
Definition buf_init_ok `{LibUV} : Prop :=
  forall p n, uv_buf_init p n = {| buf_base := p; buf_len := n |}.

(** libuv reads: it asks for a buffer, fills it and calls [on_read]. *)
Definition deliver `{Allocator} `{LibUV} `{OpenSSL} `{!Client} (fuel : nat)
    (suggested : Z) (bs : list Z) : prog world unit :=
  buf ← on_heap (alloc_buffer uv_buf_init suggested);
  on_heap (write_bytes (buf_base buf) bs) ;;
  on_read_cb fuel (zlen bs) false buf.

Section plain.
Context `{Allocator} `{LibUV} `{OpenSSL} `{!Client}.
Implicit Types (w : world).

(** The connection logs nothing and has no TLS session. *)
Definition plain (c : ClientConnection) : Prop :=
  log_callback_ c = false /\ ssl_ c = None.

Lemma event_n_run d fuel w :
  log_callback_ (w_conn w) = false ->
  event_received_n (S d) fuel w =
    match state_ (w_conn w) with
    | CLIENT_STATE_NEW => resolve
    | CLIENT_STATE_RESOLVED => connect
    | CLIENT_STATE_CONNECTED => ssl_handshake (event_received_n d fuel) fuel
    | CLIENT_STATE_HANDSHAKE => send_options
    | CLIENT_STATE_SUPPORTED => send_startup
    | CLIENT_STATE_READY => notify_ready
    | _ => fail AssertFailed
    end w.
Proof.
  intros Hlog. cbn [event_received_n]. rewrite event_body_run. unfold logged. by rewrite Hlog.
Qed.

Lemma connection_init_run fuel cb kb w :
  log_callback_ (w_conn w) = false -> state_ (w_conn w) = CLIENT_STATE_NEW ->
  connection_init fuel cb kb w =
    Ok (tt, add_event (EvGetaddrinfo (hostname_ (w_conn w)) (port_ (w_conn w))
                         (resolver_hints_ (w_conn w)))
              (set_w_conn (set_callbacks cb kb (w_conn w)) w)).
Proof.
  intros Hlog Hst. unfold connection_init. erewrite bind_run by (apply upd_run).
  unfold event_received. rewrite event_n_run by done. cbn [w_conn set_w_conn state_ set_callbacks].
  rewrite Hst. unfold resolve. by erewrite bind_run by (by apply log_off).
Qed.

Lemma resolved_run fuel res w :
  log_callback_ (w_conn w) = false ->
  exists name, on_resolve fuel 0 res w =
    Ok (tt, add_event (EvTcpConnect (Some (ai_addr res))) (add_event EvTcpInit
              (add_event EvFreeaddrinfo
                 (set_w_conn (set_state CLIENT_STATE_RESOLVED
                    (set_address (ai_addr res) name (w_conn w))) w)))).
Proof.
  intros Hlog. eexists. unfold on_resolve. erewrite bind_run by (by apply log_off).
  rewrite decide_False by done.
  erewrite bind_run by (apply conn_run). cbv beta zeta.
  erewrite bind_run by (apply upd_run). erewrite bind_run by (apply emit_run).
  erewrite bind_run by (apply upd_run).
  unfold event_received. rewrite event_n_run by done. cbn [w_conn set_w_conn state_ set_state].
  unfold connect. by erewrite bind_run by (by apply log_off).
Qed.

Lemma connected_run fuel w :
  plain (w_conn w) ->
  on_connect fuel 0 w =
    send_options (set_w_conn (set_state CLIENT_STATE_HANDSHAKE
      (set_state CLIENT_STATE_CONNECTED (w_conn w))) (add_event EvReadStart w)).
Proof.
  intros [Hlog Hssl]. unfold on_connect. erewrite bind_run by (by apply log_off).
  rewrite decide_False by done. erewrite bind_run by (apply emit_run).
  erewrite bind_run by (apply upd_run).
  unfold event_received. rewrite event_n_run by done. cbn [w_conn set_w_conn state_ set_state].
  unfold ssl_handshake. erewrite bind_run by (apply conn_run).
  cbn [w_conn set_w_conn ssl_ set_state add_event]. rewrite Hssl.
  erewrite bind_run by (apply upd_run). by rewrite event_n_run.
Qed.

(** The buffer that [on_read] is given. *)
Definition read_buffer (suggested : Z) (bs : list Z) : block :=
  splice (replicate (Z.to_nat (usable suggested)) None) 0 (Some <$> bs).

Lemma read_buffer_cells suggested bs h :
  zlen bs <= suggested ->
  cells_at (h ++ [Some (read_buffer suggested bs)]) (Heap (length h) 0) (Some <$> bs).
Proof.
  intros Hsz. pose proof (usable_ge suggested). eapply cells_at_heap; [apply lookup_last|].
  apply slice_splice; rewrite ?length_fmap, ?length_replicate; lia.
Qed.

Lemma deliver_run fuel suggested bs w :
  buf_init_ok -> plain (w_conn w) -> zlen bs <= suggested < 2147483648 ->
  deliver fuel suggested bs w =
    (consume_loop (event_received fuel) (S (Z.to_nat (zlen bs))) (Heap (length (w_heap w)) 0)
       (zlen bs) (zlen bs) ;;
     on_heap (delete_chars (Heap (length (w_heap w)) 0)))
    (set_w_heap (w_heap w ++ [Some (read_buffer suggested bs)]) w).
Proof.
  intros Hbuf [Hlog Hssl] Hsz. pose proof (usable_ge suggested).
  unfold deliver.
  erewrite bind_run.
  2:{ apply on_heap_run. unfold alloc_buffer.
      erewrite bind_run by (apply new_chars_run; lia). rewrite Hbuf. apply ret_run. }
  cbv beta. cbn [buf_base].
  erewrite bind_run.
  2:{ apply on_heap_run, write_cells_run; [apply lookup_last|lia|].
      rewrite length_fmap, length_replicate. lia. }
  cbn [w_heap set_w_heap]. rewrite insert_fresh. fold (read_buffer suggested bs).
  change (set_w_heap ?h (set_w_heap _ w)) with (set_w_heap h w).
  set (w1 := set_w_heap _ w).
  unfold on_read_cb, on_read. erewrite bind_run by (by apply log_off).
  rewrite decide_False by lia. erewrite bind_run by (apply conn_run).
  cbn [w_conn set_w_heap w1]. rewrite Hssl. cbn [buf_base].
  rewrite u64_small by lia. unfold connection_consume. by rewrite i32_small by lia.
Qed.

Lemma deliver_frame fuel suggested f bs w :
  buf_init_ok -> plain (w_conn w) -> incomming_ (w_conn w) = Message_default ->
  frame_ok f -> Some <$> bs = frame_cells f -> zlen bs <= suggested < 2147483648 ->
  deliver fuel suggested bs w =
    (receive_frame (event_received fuel) f (zlen bs) (zlen bs) ;;
     on_heap (delete_chars (Heap (length (w_heap w)) 0)))
    (set_w_heap (w_heap w ++ [Some (read_buffer suggested bs)]) w).
Proof.
  intros Hbuf Hpl Hinc Hf Hbs Hsz. rewrite deliver_run by done.
  pose proof (read_buffer_cells suggested bs (w_heap w) (proj1 Hsz)) as Hat.
  assert (zlen bs = zlen (frame_cells f ++ [])) as Hlen
    by (rewrite app_nil_r, <- Hbs, length_fmap; done).
  rewrite Hbs, <- (app_nil_r (frame_cells f)) in Hat.
  rewrite Hlen. etransitivity.
  { apply bind_cong; [|reflexivity]. apply consume_loop_frame; [done..|lia]. }
  rewrite bind_assoc. apply bind_ext. intros [] w2.
  cbn [length Z.of_nat]. by destruct (Z.to_nat _).
Qed.
End plain.

(** ** The answers of the server *)

Section answers.
Context `{Allocator} `{LibUV} `{OpenSSL} `{!Client}.
Implicit Types (w : world).

(** A frame that is decoded to [b] without a fault, on a stream of a client. *)
Lemma receive_frame_run ev f size remaining w b0 b :
  log_callback_ (w_conn w) = false -> allocate_body (u8 (fr_opcode f)) = mret b0 ->
  0 <= fr_opcode f <= 12 -> 0 <= fr_stream f < 128 ->
  let payload := fr_payload f in
  let h := w_heap w ++ [Some (payload ++
             replicate (Z.to_nat (usable (zlen payload) - zlen payload)) None)] in
  consume b0 (Heap (length (w_heap w)) 0) (zlen payload) h = Ok ((true, b), h) ->
  let w1 := set_w_heap h w in
  let m := completed (fr_version f) (fr_flags f) (fr_stream f) (fr_opcode f)
             (zlen payload) remaining true b (length (w_heap w)) (zlen payload) in
  receive_frame ev f size remaining w =
    (if decide (fr_opcode f = CQL_OPCODE_SUPPORTED) then on_supported ev m
     else if decide (fr_opcode f = CQL_OPCODE_ERROR) then on_error m
     else if decide (fr_opcode f = CQL_OPCODE_READY) then on_ready ev m
     else if decide (fr_opcode f = CQL_OPCODE_RESULT) then on_result m
     else fail AssertFailed) w1.
Proof.
  intros Hlog Hb0 Ho Hs payload h Hcons w1 m. unfold receive_frame.
  erewrite (bind_run get) by reflexivity. rewrite Hb0.
  erewrite (bind_run (on_heap (mret b0))) by (apply on_heap_ret).
  erewrite (bind_run (on_heap (place _))) by (by apply on_heap_run).
  erewrite (bind_run (on_heap (consume _ _ _))).
  2:{ apply on_heap_run. exact Hcons. }
  cbv beta iota. fold payload. unfold dispatch.
  cbn [m_opcode completed headed set_m_ready m_stream].
  replace (u8 (fr_opcode f)) with (fr_opcode f) by int_solve.
  rewrite i8_small by lia.
  destruct (proj2 (opcode_to_string_total (fr_opcode f)) Ho) as [name Hname].
  erewrite bind_run by (rewrite Hname; apply lift_run).
  erewrite bind_run by (by apply log_off). rewrite decide_False by lia. reflexivity.
Qed.

Lemma destroy_last m h x (w : world) :
  w_heap w = h ++ [x] -> x <> None -> m_body_buffer m = Heap (length h) 0 ->
  (forall e, m_body m = Some (BError e) -> err_guard e = Null) ->
  destroy_message m w = Ok (tt, set_w_heap (h ++ [None]) w).
Proof.
  intros Hh Hx Hb Hg. unfold destroy_message. apply on_heap_run.
  erewrite bind_run.
  2:{ rewrite Hb, Hh. unfold delete_chars, block_at. rewrite lookup_last.
      by destruct x as [blk|]; [rewrite insert_fresh|done]. }
  unfold delete_body. destruct (m_body m) as [[]|]; try reflexivity. by rewrite Hg.
Qed.

(** An event handler that destroys its message and changes the state. *)
Lemma receive_supported fuel f bs mm rest size remaining w :
  log_callback_ (w_conn w) = false ->
  fr_opcode f = CQL_OPCODE_SUPPORTED -> 0 <= fr_stream f < 128 ->
  fr_payload f = Some <$> bs -> Forall is_byte bs ->
  parse_string_multimap bs = Some (mm, rest) ->
  receive_frame (event_received fuel) f size remaining w =
    send_startup (set_w_conn (set_state CLIENT_STATE_SUPPORTED (w_conn w))
      (set_w_heap (w_heap w ++ [None]) w)).
Proof.
  intros Hlog Ho Hs Hp Hby Hparse.
  erewrite (receive_frame_run _ f size remaining w (BSupported BodySupported_default));
    [|done|by rewrite Ho|rewrite Ho; unfold CQL_OPCODE_SUPPORTED; lia|done|].
  2:{ cbn [consume body_any]. set (h := w_heap w ++ _).
      assert (tail_at h (Heap (length (w_heap w)) 0) bs) as Ht.
      { eexists _, 0, _, _. split_and!; [done|apply lookup_last|lia| |by rewrite Hp|done].
        rewrite length_app. lia. }
      pose proof (decode_string_multimap_refines h _ _ Ht) as Hd. rewrite Hparse in Hd.
      destruct Hd as (q & Hd & _). unfold map_snd. cbn [consume body_supported].
      unfold BodySupported_consume. rewrite bind_assoc. erewrite bind_run by exact Hd.
      reflexivity. }
  rewrite decide_True by done. unfold on_supported.
  erewrite bind_run by (by apply log_off).
  erewrite bind_run.
  2:{ eapply destroy_last; [reflexivity|done|reflexivity|]. cbn. done. }
  erewrite bind_run by (apply upd_run).
  unfold event_received. by rewrite event_n_run.
Qed.

Lemma receive_ready fuel f size remaining w :
  log_callback_ (w_conn w) = false ->
  fr_opcode f = CQL_OPCODE_READY -> 0 <= fr_stream f < 128 ->
  receive_frame (event_received fuel) f size remaining w =
    when (connect_callback_ (w_conn w)) (client_connect None)
      (set_w_conn (set_state CLIENT_STATE_READY (w_conn w))
        (set_w_heap (w_heap w ++ [None]) w)).
Proof.
  intros Hlog Ho Hs.
  erewrite (receive_frame_run _ f size remaining w (BReady mkBodyReady));
    [|done|by rewrite Ho|rewrite Ho; unfold CQL_OPCODE_READY; lia|done|done].
  rewrite Ho. do 2 rewrite decide_False by done. rewrite decide_True by done.
  unfold on_ready. erewrite bind_run by (by apply log_off).
  erewrite bind_run.
  2:{ eapply destroy_last; [reflexivity|done|reflexivity|]. cbn. done. }
  erewrite bind_run by (apply upd_run).
  unfold event_received. rewrite event_n_run by done. cbn [w_conn set_w_conn state_ set_state].
  unfold notify_ready. erewrite bind_run by (by apply log_off).
  by erewrite bind_run by (apply conn_run).
Qed.
End answers.

(** ** From the address to READY *)

Section handshake.
Context `{Allocator} `{LibUV} `{OpenSSL} `{!Client}.
Implicit Types (w : world).

Abbreviation fresh_streams :=
  (@StreamStorage_init (option nat) CQL_STREAM_ID_MAX i8).

Lemma i8_id i : 1 <= i <= Z.of_nat CQL_STREAM_ID_MAX -> i8 i = i.
Proof. unfold CQL_STREAM_ID_MAX. intros. apply i8_small. lia. Qed.

Lemma fresh_streams_inv : storage_inv CQL_STREAM_ID_MAX fresh_streams.
Proof. apply storage_inv_init; [apply max_pos|apply i8_id]. Qed.

(** The first two streams of a connection. *)
Lemma stream_one c : stream_storage_ c = fresh_streams -> next_stream c 1.
Proof.
  intros Hs. split; [rewrite Hs; apply fresh_streams_inv|]. rewrite Hs. split; [reflexivity|].
  unfold CQL_STREAM_ID_MAX. lia.
Qed.

Lemma stream_two c x :
  stream_storage_ c = stream_taken fresh_streams 1 x -> next_stream c 2.
Proof.
  intros Hs. split; [|rewrite Hs; split; [reflexivity|unfold CQL_STREAM_ID_MAX; lia]].
  rewrite Hs. apply stream_taken_inv; [apply max_pos|apply max_64|apply fresh_streams_inv|..];
    unfold CQL_STREAM_ID_MAX; cbn; try lia; [reflexivity|]. unfold free_id. by cbn.
Qed.

(** A server that answers OPTIONS with SUPPORTED and STARTUP with READY. *)
Definition handshake_run (fuel : nat) (cb kb : bool) (res : addrinfo) (suggested : Z)
    (supported ready : list Z) : prog world unit :=
  connection_init fuel cb kb ;;
  on_resolve fuel 0 res ;;
  on_connect fuel 0 ;;
  deliver fuel suggested supported ;;
  deliver fuel suggested ready.

(** The options a fresh connection sends. *)
Definition startup_bytes : list Z :=
  wire_string_map (startup_options
    {| cql_version := bytes_of_string "3.0.0"; compression := [] |}).

(** What the connection has done before the callback of the user runs. *)
Definition handshake_trace (l : nat) (res : addrinfo) : list event := [
  EvGetaddrinfo (bytes_of_string "localhost") (bytes_of_string "9042")
    {| hint_family := PF_INET; hint_socktype := SOCK_STREAM;
       hint_protocol := IPPROTO_TCP; hint_flags := 0 |};
  EvFreeaddrinfo; EvTcpInit; EvTcpConnect (Some (ai_addr res)); EvReadStart;
  EvWrite {| buf_base := Heap l 0; buf_len := 8 |}
    (Some <$> wire_header 0x02 0 1 CQL_OPCODE_OPTIONS 0);
  EvWrite {| buf_base := Heap (l + 3) 0; buf_len := 8 + zlen startup_bytes |}
    (Some <$> (wire_header 0x02 0 2 CQL_OPCODE_STARTUP (zlen startup_bytes) ++
               startup_bytes))
].

(** A fresh connection up to the OPTIONS message. *)
Lemma handshake_options fuel cb kb res c w :
  ClientConnection_init None = Ok c -> w_conn w = c ->
  exists name,
    let c1 := set_state CLIENT_STATE_HANDSHAKE (set_state CLIENT_STATE_CONNECTED
      (set_state CLIENT_STATE_RESOLVED
        (set_address (ai_addr res) name (set_callbacks cb kb c)))) in
    (connection_init fuel cb kb ;; on_resolve fuel 0 res ;; on_connect fuel 0) w =
    if decide (8 <= usable 0) then
      Ok (tt, sent 1 None 8 ((Some <$> wire_header 0x02 0 1 CQL_OPCODE_OPTIONS 0) ++
                             replicate (Z.to_nat (usable 0 - 8)) None)
        {| w_heap := w_heap w; w_conn := c1; w_requests := w_requests w;
           w_trace := w_trace w ++ take 5 (handshake_trace (length (w_heap w)) res) |})
    else Fault OutOfBounds.
Proof.
  intros [= <-] Hc.
  match type of Hc with _ = ?c0 => set (c := c0) in * end.
  pose proof (connection_init_run fuel cb kb w) as Hi. rewrite Hc in Hi. specialize (Hi eq_refl eq_refl).
  match type of Hi with _ = Ok (tt, ?w1) => destruct (resolved_run fuel res w1) as [name Hr] end;
    [done|].
  exists name. cbv zeta. erewrite bind_run by exact Hi. erewrite bind_run by exact Hr.
  rewrite connected_run by done.
  rewrite (send_options_run _ 1); [|done|by apply stream_one].
  case_decide; [|done]. unfold sent. cbn [w_heap w_conn w_requests w_trace set_w_conn add_event].
  by rewrite <- !(app_assoc (w_trace w)).
Qed.
(** The answer to OPTIONS: STARTUP is sent; the buffer and the message are gone. *)
Lemma deliver_supported fuel suggested f supported bs mm rest w id :
  buf_init_ok -> plain (w_conn w) -> incomming_ (w_conn w) = Message_default ->
  next_stream (w_conn w) id -> cql_version_ (w_conn w) = bytes_of_string "3.0.0" ->
  Some <$> supported = frame_cells f -> zlen supported <= suggested < 2147483648 ->
  fr_opcode f = CQL_OPCODE_SUPPORTED -> 0 <= fr_stream f < 128 ->
  fr_payload f = Some <$> bs -> Forall is_byte bs ->
  parse_string_multimap bs = Some (mm, rest) ->
  exists blk,
    let n := 8 + zlen startup_bytes in
    let c := set_state CLIENT_STATE_SUPPORTED (w_conn w) in
    deliver fuel suggested supported w = Ok (tt, {|
      w_heap := w_heap w ++ [None; None; Some blk];
      w_conn := set_stream_storage (stream_taken (stream_storage_ c) id None) c;
      w_requests := w_requests w;
      w_trace := w_trace w ++
        [EvWrite {| buf_base := Heap (length (w_heap w) + 2) 0; buf_len := n |}
           (take (Z.to_nat n) blk)] |}) /\
    take (Z.to_nat n) blk =
      Some <$> (wire_header 0x02 0 id CQL_OPCODE_STARTUP (zlen startup_bytes) ++
                startup_bytes).
Proof.
  intros Hbuf Hpl Hinc Hs Hv Hf Hsz Ho Hst Hp Hby Hparse.
  set (w2 := set_w_conn (set_state CLIENT_STATE_SUPPORTED (w_conn w))
    (set_w_heap (w_heap w ++ [Some (read_buffer suggested supported); None]) w)).
  destruct (send_startup_run w2 id) as (blk & Hrun & Hblk); [apply Hpl|exact Hs| |].
  { cbn [w2 w_conn set_w_conn cql_version_ set_state]. by rewrite Hv. }
  cbn [w2 w_conn set_w_conn cql_version_ set_state] in Hblk, Hrun.
  rewrite Hv in Hblk, Hrun. fold startup_bytes in Hblk, Hrun.
  exists blk. split; [|exact Hblk]. cbv zeta.
  rewrite (deliver_frame fuel suggested f supported) by (done || by eexists; rewrite Ho).
  erewrite bind_run.
  2:{ erewrite receive_supported; [|apply Hpl|done..].
      cbn [w_heap w_conn set_w_heap]. rewrite <- app_assoc. exact Hrun. }
  unfold on_heap, zoom, delete_chars, block_at, sent.
  cbn [w_heap w2 set_w_conn set_w_heap w_conn w_requests w_trace].
  rewrite <- app_assoc. cbn [app]. rewrite list_lookup_middle by done.
  rewrite insert_app_r_alt, Nat.sub_diag by done. cbn [insert list_insert app].
  rewrite !length_app. reflexivity.
Qed.

(** The answer to STARTUP: the user is called, then the buffer is released. *)
Lemma deliver_ready fuel suggested f ready w :
  buf_init_ok -> plain (w_conn w) -> incomming_ (w_conn w) = Message_default ->
  Some <$> ready = frame_cells f -> zlen ready <= suggested < 2147483648 ->
  fr_opcode f = CQL_OPCODE_READY -> 0 <= fr_stream f < 128 ->
  deliver fuel suggested ready w =
    (when (connect_callback_ (w_conn w)) (client_connect None) ;;
     on_heap (delete_chars (Heap (length (w_heap w)) 0)))
    (set_w_conn (set_state CLIENT_STATE_READY (w_conn w))
      (set_w_heap (w_heap w ++ [Some (read_buffer suggested ready); None]) w)).
Proof.
  intros Hbuf Hpl Hinc Hf Hsz Ho Hst.
  rewrite (deliver_frame fuel suggested f ready) by (done || by eexists; rewrite Ho).
  unfold mbind, prog_bind. rewrite receive_ready by (done || apply Hpl). cbn [w_heap w_conn set_w_heap].
  by rewrite <- app_assoc.
Qed.
End handshake.

(** ** A connection that serves *)
Section serving.
Context `{LibUV} `{OpenSSL}.
Implicit Types (w : world).

Definition streams_left w : Z :=
  available_streams CQL_STREAM_ID_MAX (stream_storage_ (w_conn w)).

(** A connection that can send and receive. *)
Record serving w : Prop := {
  sv_plain     : plain (w_conn w);
  sv_incomming : incomming_ (w_conn w) = Message_default;
  sv_prepare   : prepare_callback_ (w_conn w) = false;
  sv_streams   : storage_inv CQL_STREAM_ID_MAX (stream_storage_ (w_conn w))
}.
End serving.

(** The server answers OPTIONS with SUPPORTED and STARTUP with READY. *)
Definition server_greets (suggested : Z) (supported ready : list Z) : Prop :=
  exists fs fr bs mm rest,
    Some <$> supported = frame_cells fs /\ Some <$> ready = frame_cells fr /\
    zlen supported <= suggested < 2147483648 /\ zlen ready <= suggested /\
    fr_opcode fs = CQL_OPCODE_SUPPORTED /\ fr_opcode fr = CQL_OPCODE_READY /\
    0 <= fr_stream fs < 128 /\ 0 <= fr_stream fr < 128 /\
    fr_payload fs = Some <$> bs /\ Forall is_byte bs /\
    parse_string_multimap bs = Some (mm, rest).

(** The world in which the user is called back; the buffer of the read is block 4 of
    the new ones. *)
Lemma handshake_run_ready `{Allocator} `{LibUV} `{OpenSSL} `{!Client}
    fuel cb kb res suggested supported ready c w :
  buf_init_ok -> ClientConnection_init None = Ok c -> w_conn w = c ->
  server_greets suggested supported ready ->
  let run := handshake_run fuel cb kb res suggested supported ready w in
  if decide (8 <= usable 0) then
    exists w1 l,
      run = (when cb (client_connect None) ;;
             on_heap (delete_chars (Heap (length (w_heap w) + 4) 0))) w1 /\
      serving w1 /\ state_ (w_conn w1) = CLIENT_STATE_READY /\
      w_trace w1 = w_trace w ++ handshake_trace (length (w_heap w)) res /\
      w_requests w1 = w_requests w /\ streams_left w1 = 125 /\
      w_heap w1 = w_heap w ++ l /\ exists b, l !! 4%nat = Some (Some b)
  else run = Fault OutOfBounds.
Proof.
  intros Hbuf Hc Hw (fs & fr & bs & mm & rest & Hfs & Hfr & Hn1 & Hn2 & Ho1 & Ho2 & Hs1 & Hs2 &
    Hp & Hby & Hparse). cbv zeta.
  destruct (handshake_options fuel cb kb res c w Hc Hw) as [name Hopt]. cbv zeta in Hopt.
  assert ((connection_init fuel cb kb ;; on_resolve fuel 0 res ;; on_connect fuel 0 ;;
    deliver fuel suggested supported ;; deliver fuel suggested ready) w =
    ((connection_init fuel cb kb ;; on_resolve fuel 0 res ;; on_connect fuel 0) ;;
     deliver fuel suggested supported ;; deliver fuel suggested ready) w) as Hassoc.
  { rewrite bind_assoc. apply bind_ext. intros _ w2. by rewrite bind_assoc. }
  unfold handshake_run. rewrite Hassoc. clear Hassoc.
  case_decide as Hu; [|by apply bind_fault].
  erewrite bind_run by exact Hopt. clear Hopt. injection Hc as <-.
  match goal with |- context [sent 1 None 8 ?b ?w0] => set (w1 := sent 1 None 8 b w0) end.
  assert (next_stream (w_conn w1) 2) as Htwo by (by eapply stream_two).
  destruct (deliver_supported fuel suggested fs supported bs mm rest w1 2)
    as (blk & Hd & Hblk); [done..|].
  erewrite bind_run by exact Hd.
  rewrite (deliver_ready fuel suggested fr ready) by (done || lia).
  eexists _, _. split.
  { cbn [w_heap]. assert (length (w_heap w1 ++ [None; None; Some blk]) =
      length (w_heap w) + 4)%nat as -> by (subst w1; cbn [w_heap sent]; len_solve).
    reflexivity. }
  cbn [w_conn w_trace w_requests set_w_conn set_w_heap state_ set_state w_heap].
  split_and!; [|done| |done|done|subst w1; cbn [w_heap sent]; by rewrite <- !app_assoc|by eexists].
  - constructor; try done. cbn.
    apply stream_taken_inv; [apply max_pos|apply max_64|apply Htwo|..];
      unfold CQL_STREAM_ID_MAX; cbn; try lia; [reflexivity|]. by unfold free_id.
  - rewrite Hblk. replace (length (w_heap w1) + 2)%nat with (length (w_heap w) + 3)%nat
      by (subst w1; cbn [w_heap sent]; len_solve).
    subst w1. cbn [w_trace sent]. by rewrite <- !app_assoc.
Qed.

(** ** Theorems *)

(** C11: the handshake of a connection without TLS.  When the address is resolved
    and the connection made, and the server answers with any SUPPORTED and
    then a READY message, the connection has asked libuv for exactly the calls
    of [handshake_trace], with an OPTIONS frame on stream 1 and a STARTUP frame
    on stream 2, and calls the user back in the state READY, when it can send
    requests and take answers ([serving]).  The two streams stay taken: of 127,
    125 are left.  The run only gets there if the allocator
    makes eight bytes of an empty allocation usable. *)
Theorem handshake_sequence `{Allocator} `{LibUV} `{OpenSSL} `{!Client}
    fuel cb kb res suggested fs fr supported bs mm rest ready c w :
  buf_init_ok -> ClientConnection_init None = Ok c -> w_conn w = c ->
  Some <$> supported = frame_cells fs -> Some <$> ready = frame_cells fr ->
  zlen supported <= suggested < 2147483648 -> zlen ready <= suggested ->
  fr_opcode fs = CQL_OPCODE_SUPPORTED -> fr_opcode fr = CQL_OPCODE_READY ->
  0 <= fr_stream fs < 128 -> 0 <= fr_stream fr < 128 ->
  fr_payload fs = Some <$> bs -> Forall is_byte bs ->
  parse_string_multimap bs = Some (mm, rest) ->
  let run := handshake_run fuel cb kb res suggested supported ready w in
  if decide (8 <= usable 0) then
    exists w1,
      run = (when cb (client_connect None) ;;
             on_heap (delete_chars (Heap (length (w_heap w) + 4) 0))) w1 /\
      serving w1 /\ state_ (w_conn w1) = CLIENT_STATE_READY /\
      w_trace w1 = w_trace w ++ handshake_trace (length (w_heap w)) res /\
      w_requests w1 = w_requests w /\ streams_left w1 = 125
  else run = Fault OutOfBounds.
Proof.
  intros Hbuf Hc Hw Hfs Hfr Hn1 Hn2 Ho1 Ho2 Hs1 Hs2 Hp Hby Hparse. cbv zeta.
  pose proof (handshake_run_ready fuel cb kb res suggested supported ready c w Hbuf Hc Hw) as Hr.
  cbv zeta in Hr. case_decide; [|apply Hr; by exists fs, fr, bs, mm, rest].
  destruct Hr as (w1 & l & Hrun & Hsv & Hst & Htr & Hrq & Hleft & _);
    [by exists fs, fr, bs, mm, rest|]. by exists w1.
Qed.

(** ** Witnesses *)

#[local] Existing Instances glibc_allocator linux_uv null_openssl silent_client.

Definition supported_bytes : list Z :=
  wire_multimap [(key_CQL_VERSION, [bytes_of_string "3.0.0"])].
Definition supported_frame : frame := {|
  fr_version := 0x82; fr_flags := 0; fr_stream := 1; fr_opcode := CQL_OPCODE_SUPPORTED;
  fr_payload := Some <$> supported_bytes
|}.
Definition localhost : addrinfo :=
  {| ai_family := 2; ai_addr := (bytes_of_string "127.0.0.1" : sockaddr) |}.

Theorem handshake_sequence_witness :
  exists w1,
    handshake_run 0 true false localhost 65536
      (wire_header 0x82 0 1 6 (zlen supported_bytes) ++ supported_bytes)
      (wire_header 0x82 0 1 2 0) (fresh_world [] plain_connection []) =
      (client_connect None ;; on_heap (delete_chars (Heap 4 0))) w1 /\
    state_ (w_conn w1) = CLIENT_STATE_READY /\
    length (w_trace w1) = 7%nat.
Proof.
  destruct (handshake_sequence 0 true false localhost 65536 supported_frame ready_frame
    (wire_header 0x82 0 1 6 (zlen supported_bytes) ++ supported_bytes) supported_bytes
    [(key_CQL_VERSION, [bytes_of_string "3.0.0"])] [] (wire_header 0x82 0 1 2 0)
    plain_connection (fresh_world [] plain_connection []))
    as (w1 & Hrun & _ & Hst & Htr & _).
  - intros p n. reflexivity.
  - reflexivity.
  - reflexivity.
  - vm_compute. reflexivity.
  - vm_compute. reflexivity.
  - vm_compute. split; [discriminate|reflexivity].
  - vm_compute. discriminate.
  - reflexivity.
  - reflexivity.
  - cbn. lia.
  - cbn. lia.
  - reflexivity.
  - vm_compute. repeat constructor; discriminate.
  - vm_compute. reflexivity.
  - exists w1. split; [exact Hrun|]. split; [exact Hst|]. rewrite Htr. reflexivity.
Defined.
