(* ===== verification/Answers.v ===== *)
(** * Requests and answers

    A request is sent on a free stream; what the connection does with the
    message that comes back, whatever it is, and what goes wrong: errors that
    are dropped, strings without an end, a close that aborts, a TLS handshake
    that overruns a buffer. *)

From S2P Require Import Prelude Memory StdMap Common Serialization Body Query Result.
From S2P Require Import Message StreamStorage Request SslSession HeapEffects Connection.
From S2P Require Import ConnectionFacts Receive Lifecycle.

Section answers.
Context `{Allocator} `{LibUV} `{OpenSSL} `{!Client}.
Implicit Types (w : world).

(** ** What a result does to its request *)

(** The request with its answer. *)
Definition answered (m : Message) (r : CallerRequest) : CallerRequest :=
  set_rq_flag (set_rq_result m r).

(** The world after [give_response] to request [i], if its callback goes to the
    worker threads. *)
Definition given (i : nat) (m : Message) (r : CallerRequest) (w : world) : world := {|
  w_heap := w_heap w; w_conn := w_conn w;
  w_requests := <[i := answered m r]> (w_requests w);
  w_trace := w_trace w ++ [EvNotifyAll i] ++ (if rq_callback r then [EvQueueWork i] else [])
|}.

Lemma request_at_run i r w : w_requests w !! i = Some r -> request_at i w = Ok (r, w).
Proof.
  intros Hi. unfold request_at. erewrite bind_run by reflexivity. by rewrite Hi.
Qed.

Lemma notify_request_run i r w :
  w_requests w !! i = Some r -> rq_use_local_loop r = false ->
  notify_request i w = Ok (tt, {|
    w_heap := w_heap w; w_conn := w_conn w;
    w_requests := <[i := set_rq_flag r]> (w_requests w);
    w_trace := w_trace w ++ [EvNotifyAll i] ++
               (if rq_callback r then [EvQueueWork i] else []) |}).
Proof.
  intros Hi Hloc. unfold notify_request.
  erewrite bind_run by (by apply request_at_run). erewrite bind_run by reflexivity.
  erewrite bind_run by (apply emit_run). rewrite Hloc.
  destruct (rq_callback r); [rewrite emit_run|rewrite ret_run];
    unfold add_event, set_w_requests; cbn [w_heap w_conn w_requests w_trace].
  - by rewrite <- app_assoc.
  - done.
Qed.

Lemma give_response_run i m r w :
  w_requests w !! i = Some r -> rq_use_local_loop r = false ->
  give_response (Some (Some i)) m w = Ok (tt, given i m r w).
Proof.
  intros Hi Hloc. unfold give_response.
  erewrite bind_run by reflexivity. erewrite bind_run by (by apply request_at_run).
  erewrite bind_run by reflexivity.
  erewrite notify_request_run; [|cbn; apply list_lookup_insert_eq; by eapply lookup_lt_Some|done].
  unfold given, set_w_requests. cbn [w_heap w_conn w_requests w_trace].
  by rewrite list_insert_insert_eq.
Qed.

(** What [give_response] does: the answer is stored, the flag is set and the waiting
    threads are notified; then the callback runs, here or on a worker thread. *)
Definition delivered (i : nat) (m : Message) (r : CallerRequest) (w : world)
    : outcome (unit * world) :=
  let w1 := {| w_heap := w_heap w; w_conn := w_conn w;
               w_requests := <[i := answered m r]> (w_requests w);
               w_trace := w_trace w ++ [EvNotifyAll i] |} in
  if rq_callback r then
    if rq_use_local_loop r then client_request i w1
    else Ok (tt, add_event (EvQueueWork i) w1)
  else Ok (tt, w1).

Lemma give_response_delivers i m r w :
  w_requests w !! i = Some r -> give_response (Some (Some i)) m w = delivered i m r w.
Proof.
  intros Hi. unfold give_response.
  erewrite bind_run by reflexivity. erewrite bind_run by (by apply request_at_run).
  erewrite bind_run by reflexivity. unfold notify_request.
  erewrite bind_run by (apply request_at_run; cbn; apply list_lookup_insert_eq;
    by eapply lookup_lt_Some).
  erewrite bind_run by reflexivity. erewrite bind_run by (apply emit_run).
  unfold delivered, add_event, set_w_requests. cbn [w_heap w_conn w_requests w_trace].
  rewrite list_insert_insert_eq. cbn [rq_callback rq_use_local_loop set_rq_result].
  by destruct (rq_callback r), (rq_use_local_loop r).
Qed.

(** The connection after the stream of the answer was released. *)
Definition released (id : Z) (w : world) : world :=
  set_w_conn (set_stream_storage (stream_released (stream_storage_ (w_conn w)) id)
                (w_conn w)) w.

Lemma get_stream_world id w :
  storage_inv CQL_STREAM_ID_MAX (stream_storage_ (w_conn w)) ->
  let s := stream_storage_ (w_conn w) in
  on_streams (get_stream id true) w =
    if decide (0 <= id < Z.of_nat CQL_STREAM_ID_MAX) then
      if decide (allocated_streams_ s !! Z.to_nat id = Some true)
      then Ok ((None, default None (storage_ s !! Z.to_nat id)), released id w)
      else Ok ((Some error_released, default None (storage_ s !! Z.to_nat id)), w)
    else Fault OutOfBounds.
Proof.
  intros Hinv s. unfold on_streams, zoom. case_decide as Hid.
  - rewrite conn_get_stream_run by done. cbv zeta. fold s. case_decide; [done|].
    subst s. by destruct w as [h c rs tr], c.
  - by rewrite (get_stream_oob CQL_STREAM_ID_MAX max_pos).
Qed.

(** [on_result] after the log and the cast. *)
Lemma on_result_cases w m r :
  m_body m = Some (BResult r) ->
  let w0 := logged CQL_LOG_DEBUG (LText "on_result") w in
  let c := w_conn w in
  on_result m w =
    if decide (kind r = CQL_RESULT_KIND_SET_KEYSPACE)
    then when (keyspace_callback_ c) (client_keyspace (keyspace r)) w0
    else match on_streams (get_stream (m_stream m) true) w0 with
      | Fault f => Fault f
      | Ok ((err, request), w1) =>
          ((if bool_decide (kind r = CQL_RESULT_KIND_PREPARED) && prepare_callback_ c then
              i ← deref request;
              q ← request_at i;
              client_prepare err (rq_data q) (prepared_id r)
            else mret tt) ;;
           match err with
           | None => give_response request m
           | Some e =>
               if decide (kind r = CQL_RESULT_KIND_PREPARED) then mret tt
               else when (connect_callback_ c) (client_connect (Some e))
           end) w1
      end.
Proof.
  intros Hb w0 c. unfold on_result. erewrite bind_run by (apply log_run). fold w0.
  erewrite bind_run by (unfold result_of; rewrite Hb; apply lift_run).
  erewrite bind_run by (apply conn_run). cbv zeta. rewrite bool_decide_decide.
  replace (w_conn w0) with c by (unfold w0; by rewrite logged_conn).
  destruct (decide (kind r = CQL_RESULT_KIND_SET_KEYSPACE)); [done|].
  destruct (decide (kind r = CQL_RESULT_KIND_PREPARED)); unfold mbind, prog_bind;
    destruct (on_streams _ w0) as [[[err q] w1]|f]; done.
Qed.

(** The cases of [on_result] when no prepare callback is set. *)
Lemma on_result_start w m r :
  plain (w_conn w) -> prepare_callback_ (w_conn w) = false -> m_body m = Some (BResult r) ->
  on_result m w =
    (let c := w_conn w in
     if decide (kind r = CQL_RESULT_KIND_SET_KEYSPACE) then
       when (keyspace_callback_ c) (client_keyspace (keyspace r)) w
     else match on_streams (get_stream (m_stream m) true) w with
       | Ok ((None, request), w1) => give_response request m w1
       | Ok ((Some e, _), w1) =>
           if decide (kind r = CQL_RESULT_KIND_PREPARED) then Ok (tt, w1)
           else when (connect_callback_ c) (client_connect (Some e)) w1
       | Fault f => Fault f
       end).
Proof.
  intros [Hlog _] Hpc Hb. unfold on_result.
  erewrite bind_run by (by apply log_off).
  erewrite bind_run by (unfold result_of; rewrite Hb; apply lift_run).
  erewrite bind_run by (apply conn_run). cbv zeta. rewrite Hpc.
  destruct (decide (kind r = CQL_RESULT_KIND_SET_KEYSPACE)); [done|].
  destruct (decide (kind r = CQL_RESULT_KIND_PREPARED)); unfold mbind, prog_bind;
    destruct (on_streams _ w) as [[[[err|] q] w1]|f]; done.
Qed.

Lemma on_result_answer w m r i q :
  plain (w_conn w) -> prepare_callback_ (w_conn w) = false -> m_body m = Some (BResult r) ->
  storage_inv CQL_STREAM_ID_MAX (stream_storage_ (w_conn w)) ->
  kind r <> CQL_RESULT_KIND_SET_KEYSPACE ->
  0 <= m_stream m < Z.of_nat CQL_STREAM_ID_MAX ->
  allocated_streams_ (stream_storage_ (w_conn w)) !! Z.to_nat (m_stream m) = Some true ->
  storage_ (stream_storage_ (w_conn w)) !! Z.to_nat (m_stream m) = Some (Some (Some i)) ->
  w_requests w !! i = Some q -> rq_use_local_loop q = false ->
  on_result m w = Ok (tt, given i m q (released (m_stream m) w)).
Proof.
  intros Hpl Hpc Hb Hinv Hk Hid Ht Hv Hq Hloc.
  rewrite (on_result_start w m r) by done. cbv zeta. rewrite decide_False by done.
  rewrite get_stream_world by done. rewrite !decide_True, Hv by done.
  by apply give_response_run.
Qed.
End answers.

(** ** Theorems *)

(** C13: [send_message] of a message whose body keeps the contract of [Body]: a
    free stream below 127 is taken for the request, its number goes into the
    header, and libuv is asked to write exactly the frame, in the clear, whether or
    not the connection has a TLS session.  The 126 streams 1
    to 126 can be in use at a time; with all of them taken, the next call
    writes past the arrays of the table. *)
Theorem send_message_spec `{Allocator} `{LibUV} `{OpenSSL} w m b cs request :
  log_callback_ (w_conn w) = false ->
  storage_inv CQL_STREAM_ID_MAX (stream_storage_ (w_conn w)) ->
  m_body m = Some b -> wire b (w_heap w) cs -> 0 <= m_opcode m <= 12 ->
  8 + zlen cs + excess b < 2147483648 ->
  let s := stream_storage_ (w_conn w) in
  let len := zlen cs + excess b in
  if decide (available_streams CQL_STREAM_ID_MAX s <= 1)
  then send_message m request w = Fault OutOfBounds
  else exists id blk,
    1 <= id < 127 /\ allocated_streams_ s !! Z.to_nat id <> Some true /\
    send_message m request w =
      Ok ((None, set_m_length len (set_m_stream id m)), sent id request (8 + len) blk w) /\
    take (Z.to_nat (8 + len)) blk =
      (Some <$> wire_header (m_version m) (m_flags m) id (m_opcode m) len) ++ cs ++
      replicate (Z.to_nat (excess b)) None /\
    let s' := stream_storage_ (w_conn (sent id request (8 + len) blk w)) in
    storage_inv CQL_STREAM_ID_MAX s' /\
    available_streams CQL_STREAM_ID_MAX s' = available_streams CQL_STREAM_ID_MAX s - 1.
Proof.
  intros Hlog Hinv Hb Hw Ho Hn s len.
  pose proof (inv_index _ _ Hinv) as Hix. fold s in Hix.
  assert (available_streams CQL_STREAM_ID_MAX s =
    Z.of_nat CQL_STREAM_ID_MAX - available_streams_index_ s) as Hav.
  { unfold available_streams. apply u64_small. pose proof max_64. lia. }
  rewrite Hav. case_decide as Hd.
  - unfold send_message. apply bind_fault. unfold on_streams, zoom.
    rewrite set_stream_last; [done|apply max_pos|done|]. fold s. lia.
  - destruct (stack_top CQL_STREAM_ID_MAX max_pos s Hinv) as (id & Htop & Hfree & Hid & Hlast).
    assert (1 <= id < Z.of_nat CQL_STREAM_ID_MAX) as Hid' by lia.
    destruct (send_message_run w m b cs request id Hlog (conj Hinv (conj Htop Hid')) Hb Hw Ho Hn)
      as (blk & Hrun & Hblk).
    replace (8 + (zlen cs + excess b) - 8) with len in * by lia.
    pose proof Hid' as Hid2. change (Z.of_nat CQL_STREAM_ID_MAX) with 127 in Hid2.
    exists id, blk. split_and!; [lia|lia|exact Hfree|exact Hrun|exact Hblk|]. cbv zeta. split.
    + cbn [stream_storage_ set_stream_storage w_conn sent]. fold s.
      apply stream_taken_inv; first [done | apply max_pos | apply max_64 | lia].
    + unfold available_streams. cbn [available_streams_index_ stream_taken stream_storage_
        set_stream_storage w_conn sent]. fold s. pose proof max_64. rewrite u64_small; lia.
Qed.

(** C12: what the connection does with a RESULT message, on every branch, with or
    without TLS, a log or a prepare callback.  A change of the keyspace only goes to
    the keyspace callback: its request is not answered and keeps its stream.  For any
    other result a number that the table has not is an access out of its bounds.  A
    stream that is taken is released; the prepare callback, if there is one and the
    result is PREPARED, is called with the text of the request; then the request, as
    it is then, gets the message and is notified, and its callback runs at once
    or goes to the worker threads, as the request says.  A stream that the
    connection took for itself has no request, and NULL is dereferenced.  For a stream
    that is not taken nothing is answered: the error goes to the connect callback, or,
    of a PREPARED, to the prepare callback together with the text of whatever
    request the pointer that [get_stream] left behind points to. *)
Theorem on_result_spec `{Allocator} `{LibUV} `{OpenSSL} `{!Client} w m r :
  storage_inv CQL_STREAM_ID_MAX (stream_storage_ (w_conn w)) ->
  m_body m = Some (BResult r) ->
  let c := w_conn w in
  let s := stream_storage_ c in
  let w0 := logged CQL_LOG_DEBUG (LText "on_result") w in
  let in_table := 0 <= m_stream m < 127 in
  let taken := allocated_streams_ s !! Z.to_nat (m_stream m) = Some true in
  let pointer := default None (storage_ s !! Z.to_nat (m_stream m)) in
  (kind r = CQL_RESULT_KIND_SET_KEYSPACE ->
     on_result m w = when (keyspace_callback_ c) (client_keyspace (keyspace r)) w0) /\
  (kind r <> CQL_RESULT_KIND_SET_KEYSPACE -> ~ in_table ->
     on_result m w = Fault OutOfBounds) /\
  (kind r <> CQL_RESULT_KIND_SET_KEYSPACE -> in_table -> taken ->
     (pointer = None -> on_result m w = Fault Uninitialised) /\
     (pointer = Some None -> on_result m w = Fault NullPointer) /\
     (forall i q, pointer = Some (Some i) -> w_requests w !! i = Some q ->
        let w1 := released (m_stream m) w0 in
        if bool_decide (kind r = CQL_RESULT_KIND_PREPARED) && prepare_callback_ c then
          match client_prepare None (rq_data q) (prepared_id r) w1 with
          | Ok (_, w2) => forall q2, w_requests w2 !! i = Some q2 ->
              on_result m w = delivered i m q2 w2
          | Fault f => on_result m w = Fault f
          end
        else on_result m w = delivered i m q w1)) /\
  (kind r <> CQL_RESULT_KIND_SET_KEYSPACE -> in_table -> ~ taken ->
     if decide (kind r = CQL_RESULT_KIND_PREPARED) then
       if prepare_callback_ c then
         (pointer = None -> on_result m w = Fault Uninitialised) /\
         (pointer = Some None -> on_result m w = Fault NullPointer) /\
         (forall i q, pointer = Some (Some i) -> w_requests w !! i = Some q ->
            on_result m w =
              client_prepare (Some error_released) (rq_data q) (prepared_id r) w0)
       else on_result m w = Ok (tt, w0)
     else on_result m w =
       when (connect_callback_ c) (client_connect (Some error_released)) w0).
Proof.
  intros Hinv Hb c s w0 in_table taken pointer.
  assert (w_conn w0 = c) as Hc0 by (unfold w0; by rewrite logged_conn).
  assert (w_requests w0 = w_requests w) as Hq0 by (unfold w0; by rewrite logged_requests).
  pose proof (on_result_cases w m r Hb) as Hr. cbv zeta in Hr. fold c w0 in Hr.
  pose proof (get_stream_world (m_stream m) w0) as Hg. cbv zeta in Hg. rewrite Hc0 in Hg.
  fold s in Hg. specialize (Hg Hinv). fold pointer in Hg.
  change (Z.of_nat CQL_STREAM_ID_MAX) with 127 in Hg. fold in_table taken in Hg.
  rewrite Hg in Hr. clear Hg. split_and!.
  - intros Hk. by rewrite Hr, decide_True.
  - intros Hk Hid. by rewrite Hr, !decide_False.
  - intros Hk Hid Ht.
    rewrite (decide_False _ _ Hk), (decide_True _ _ Hid), (decide_True _ _ Ht) in Hr.
    split_and!.
    + intros Hp. rewrite Hr, Hp. by case_match.
    + intros Hp. rewrite Hr, Hp. by case_match.
    + intros i q Hp Hq. rewrite Hp in Hr. rewrite <- Hq0 in Hq. cbv zeta. case_match.
      * erewrite bind_assoc, bind_run, bind_assoc, bind_run in Hr
          by (reflexivity || by apply request_at_run).
        rewrite Hr. unfold mbind, prog_bind.
        destruct (client_prepare _ _ _ _) as [[[] w2]|f]; [|done].
        intros q2. apply give_response_delivers.
      * rewrite Hr, bind_ret. by apply give_response_delivers.
  - intros Hk Hid Ht.
    rewrite (decide_False _ _ Hk), (decide_True _ _ Hid), (decide_False _ _ Ht) in Hr.
    rewrite bool_decide_decide in Hr.
    destruct (decide (kind r = CQL_RESULT_KIND_PREPARED)); [|exact Hr].
    destruct (prepare_callback_ c); [|exact Hr]. cbn [andb] in Hr. split_and!.
    + intros Hp. by rewrite Hr, Hp.
    + intros Hp. by rewrite Hr, Hp.
    + intros i q Hp Hq. rewrite Hp in Hr. rewrite <- Hq0 in Hq.
      erewrite bind_assoc, bind_run, bind_assoc, bind_run in Hr
        by (reflexivity || by apply request_at_run).
      rewrite Hr. unfold mbind, prog_bind.
      by destruct (client_prepare _ _ _ _) as [[[] w2]|f].
Qed.

(** ** A request and its result *)

(** The kind a result body is decoded to. *)
Definition result_kind (b : result_body) : Z :=
  match b with
  | RVoid => CQL_RESULT_KIND_VOID
  | RRows _ _ => CQL_RESULT_KIND_ROWS
  | RSetKeyspace _ => CQL_RESULT_KIND_SET_KEYSPACE
  | RPrepared _ _ => CQL_RESULT_KIND_PREPARED
  | RSchemaChange _ _ _ => CQL_RESULT_KIND_SCHEMA_CHANGE
  end.

Lemma decoded_kind h p r b r' : result_decoded h p r b r' -> kind r' = result_kind b.
Proof.
  destruct b; cbn.
  - by intros ->.
  - intros (r1 & [] & ->). cbn. by simplify_eq.
  - by intros (sp & -> & _).
  - intros (sp & [] & _). by simplify_eq.
  - by intros (s1 & s2 & s3 & -> & _).
Qed.

(** A RESULT frame with the body [rb]. *)
Definition result_frame (f : frame) (rb : result_body) : Prop :=
  fr_opcode f = CQL_OPCODE_RESULT /\ fr_payload f = Some <$> wire_result rb.

Section result.
Context `{Allocator} `{LibUV} `{OpenSSL} `{!Client}.
Implicit Types (w : world).

Lemma receive_result ev f rb size remaining w :
  log_callback_ (w_conn w) = false -> result_frame f rb -> result_wf rb ->
  0 <= fr_stream f < 128 ->
  exists blk r m,
    let h := w_heap w ++ [Some blk] in
    receive_frame ev f size remaining w = on_result m (set_w_heap h w) /\
    m_stream m = fr_stream f /\ m_body m = Some (BResult r) /\
    result_decoded h (Heap (length (w_heap w)) 0) BodyResult_default rb r.
Proof.
  intros Hlog [Ho Hp] Hwf Hs. pose proof (usable_ge (zlen (fr_payload f))).
  set (blk := fr_payload f ++
    replicate (Z.to_nat (usable (zlen (fr_payload f)) - zlen (fr_payload f))) None).
  assert (bytes_at (w_heap w ++ [Some blk]) (Heap (length (w_heap w)) 0) (wire_result rb))
    as Hat.
  { eapply cells_at_heap; [apply lookup_last|]. apply slice_Some.
    exists [], (replicate (Z.to_nat (usable (zlen (fr_payload f)) - zlen (fr_payload f))) None).
    subst blk. by rewrite Hp. }
  destruct (result_consume_run _ _ BodyResult_default rb (zlen (fr_payload f)) Hat Hwf)
    as (r & Hc & Hd); [done|].
  exists blk, r. eexists. cbv zeta. split; [|split; [|split; [|exact Hd]]].
  - rewrite (receive_frame_run ev f size remaining w (BResult BodyResult_default) (BResult r));
      [by rewrite Ho|done|by rewrite Ho|rewrite Ho; unfold CQL_OPCODE_RESULT; lia|done|].
    cbn [consume body_any]. unfold map_snd. by erewrite bind_run by exact Hc.
  - cbn. by rewrite i8_small by lia.
  - done.
Qed.
End result.

(** ** Theorems *)

(** A request that is on stream [id] gets the first RESULT message on its stream:
    when the server's frame, with any well-formed result but a change of the
    keyspace, is read, the message with the decoded result is stored in the
    request, the flag is set and the waiting threads are notified once; the stream
    is free again, and nothing else of the requests or of the trace is changed. *)
Lemma sent_answered `{Allocator} `{LibUV} `{OpenSSL} `{!Client}
    fuel w i q id n blk suggested f rb bytes :
  buf_init_ok -> plain (w_conn w) -> incomming_ (w_conn w) = Message_default ->
  prepare_callback_ (w_conn w) = false -> next_stream (w_conn w) id ->
  allocated_streams_ (stream_storage_ (w_conn w)) !! Z.to_nat id <> Some true ->
  w_requests w !! i = Some q -> rq_use_local_loop q = false ->
  result_frame f rb -> result_wf rb -> result_kind rb <> CQL_RESULT_KIND_SET_KEYSPACE ->
  fr_stream f = id -> Some <$> bytes = frame_cells f ->
  zlen bytes <= suggested < 2147483648 ->
  let w1 := sent id (Some i) n blk w in
  exists m r h w2,
    deliver fuel suggested bytes w1 = Ok (tt, w2) /\
    w_requests w2 = <[i := answered m q]> (w_requests w) /\
    m_stream m = id /\ m_body m = Some (BResult r) /\
    result_decoded h (Heap (length (w_heap w1) + 1) 0) BodyResult_default rb r /\
    w_heap w2 !! (length (w_heap w1) + 1)%nat = h !! (length (w_heap w1) + 1)%nat /\
    w_trace w2 = w_trace w1 ++ EvNotifyAll i :: (if rq_callback q then [EvQueueWork i] else []) /\
    available_streams CQL_STREAM_ID_MAX (stream_storage_ (w_conn w2)) =
      available_streams CQL_STREAM_ID_MAX (stream_storage_ (w_conn w)).
Proof.
  intros Hbuf Hpl Hinc Hpc (Hinv & Htop & Hid) Hfree Hq Hloc Hf Hwf Hk Hs Hbs Hsz w1.
  pose proof Hid as Hid2. change (Z.of_nat CQL_STREAM_ID_MAX) with 127 in Hid2.
  pose proof (inv_index _ _ Hinv) as Hix.
  assert (storage_inv CQL_STREAM_ID_MAX (stream_storage_ (w_conn w1))) as Hinv1.
  { apply stream_taken_inv; [apply max_pos|apply max_64|done| |done|done|done].
    destruct (stack_top CQL_STREAM_ID_MAX max_pos _ Hinv) as (id' & Htop' & _ & _ & Hlast).
    rewrite Htop in Htop'. injection Htop' as <-. lia. }
  destruct (receive_result (event_received fuel) f rb (zlen bytes) (zlen bytes)
    (set_w_heap (w_heap w1 ++ [Some (read_buffer suggested bytes)]) w1))
    as (b & r & m & Hrun & Hms & Hmb & Hd); [apply Hpl|done|done|lia|].
  cbv zeta in Hrun, Hd. cbn [w_heap set_w_heap] in Hrun, Hd.
  rewrite length_app in Hd. cbn [length] in Hd.
  assert (plain (w_conn w1)) as Hpl1 by done.
  pose proof (inv_flags _ _ Hinv) as Hfl. pose proof (inv_values _ _ Hinv) as Hva.
  rewrite (on_result_answer _ m r i q) in Hrun;
    [|done|done|done|done|by rewrite (decoded_kind _ _ _ _ _ Hd)|rewrite Hms, Hs; lia
     |rewrite Hms, Hs; cbn; apply list_lookup_insert_eq; lia
     |rewrite Hms, Hs; cbn; apply list_lookup_insert_eq; lia|done|done].
  eexists m, r, _, _. split; [|split; [|split; [|split; [|split; [exact Hd|]]]]].
  - rewrite (deliver_frame fuel suggested f bytes)
      by (done || by eexists; rewrite (proj1 Hf)).
    erewrite bind_run by exact Hrun.
    apply on_heap_run. cbn [w_heap given released set_w_conn set_w_heap].
    rewrite <- app_assoc. unfold delete_chars, block_at. cbn [app].
    by rewrite list_lookup_middle.
  - done.
  - by rewrite Hms.
  - done.
  - cbn [w_heap set_w_heap w_trace given w_conn stream_storage_]. split_and!.
    + by rewrite list_lookup_insert_ne, <- app_assoc by lia.
    + done.
    + unfold available_streams. cbn. rewrite !u64_small; pose proof max_64; lia.
Qed.

(** C38: an ERROR message for a request on a connection that is READY is dropped:
    the handler only releases the memory of the message.  The request is not
    notified, so its caller waits for ever, and its stream is not released. *)
Theorem error_response_dropped `{Allocator} `{LibUV} `{OpenSSL} `{!Client} w m e :
  log_callback_ (w_conn w) = false -> state_ (w_conn w) = CLIENT_STATE_READY ->
  m_body m = Some (BError e) ->
  on_error m w = destroy_message m w /\
  forall w', on_error m w = Ok (tt, w') ->
    w_requests w' = w_requests w /\ w_conn w' = w_conn w /\ w_trace w' = w_trace w.
Proof.
  intros Hlog Hst Hb.
  assert (on_error m w = destroy_message m w) as Hr.
  { unfold on_error. erewrite bind_run by (by apply log_off).
    erewrite bind_run by (unfold error_of; rewrite Hb; apply lift_run).
    erewrite bind_run by (apply conn_run). rewrite Hst, decide_False by (cbn; lia).
    by rewrite bind_ret. }
  split; [done|]. intros w'. rewrite Hr. unfold destroy_message, on_heap, zoom.
  destruct ((delete_chars (m_body_buffer m) ;; delete_body (m_body m)) (w_heap w))
    as [[[] h]|]; [|done]. by intros [= <-].
Qed.

(** C37: closing ends the process.  When the peer closes, or a read fails,
    [on_read] asks libuv to close the handle, in the state DISCONNECTING; the
    callback of the close, whatever the world is then, calls
    [event_received] in the state DISCONNECTED, which is an assertion
    failure.  The buffer of the failed read is not released. *)
Theorem close_aborts `{Allocator} `{LibUV} `{OpenSSL} `{!Client} fuel eof buf w :
  on_close fuel w = Fault AssertFailed /\
  exists w1, on_read_cb fuel (-1) eof buf w = Ok (tt, w1) /\
    state_ (w_conn w1) = CLIENT_STATE_DISCONNECTING /\ w_heap w1 = w_heap w /\
    last (w_trace w1) = Some EvClose /\ on_close fuel w1 = Fault AssertFailed.
Proof.
  assert (forall w, on_close fuel w = Fault AssertFailed) as Hclose.
  { intros w2. unfold on_close. erewrite bind_run by (apply log_run).
    erewrite bind_run by (apply upd_run). unfold event_received. cbn [event_received_n].
    by rewrite event_body_run. }
  split; [done|]. unfold on_read_cb, on_read. erewrite bind_run by (apply log_run).
  rewrite decide_True by done. set (w1 := logged _ _ _).
  assert (w_heap w1 = w_heap w) as Hh by apply logged_heap.
  destruct eof; cbn [negb]; unfold when; unfold close.
  - rewrite bind_ret. erewrite bind_run by (apply log_run).
    erewrite bind_run by (apply upd_run). rewrite emit_run.
    eexists. split; [done|]. cbn. rewrite logged_heap. split_and!; [done..| |done].
    apply last_snoc.
  - erewrite bind_run by (apply emit_run). erewrite bind_run by (apply log_run).
    erewrite bind_run by (apply upd_run). rewrite emit_run.
    eexists. split; [done|]. cbn. rewrite logged_heap. split_and!; [done..| |done].
    apply last_snoc.
Qed.

(** C36: a failure that libuv reports goes to stderr and nowhere else.  When the host name
    cannot be resolved, the connection is refused or a write fails, the connection
    stays in its state: it is not closed, the connect callback is not called, and a
    request whose frame was not written keeps its stream and waits for ever. *)
Theorem failures_ignored `{Allocator} `{LibUV} `{OpenSSL} `{!Client} fuel res buf w :
  on_resolve fuel (-1) res w =
    Ok (tt, add_event (EvStderr "getaddrinfo request error")
              (logged CQL_LOG_DEBUG (LText "on_resolve") w)) /\
  on_connect fuel (-1) w =
    Ok (tt, add_event (EvStderr "connect failed error")
              (logged CQL_LOG_DEBUG (LText "on_connect") w)) /\
  (forall w', on_write buf (-1) w = Ok (tt, w') ->
     w_conn w' = w_conn w /\ w_requests w' = w_requests w /\
     w_trace w' = w_trace (logged CQL_LOG_DEBUG (LText "on_write") w) ++ [EvStderr "Write error"]).
Proof.
  split_and!.
  - unfold on_resolve. erewrite bind_run by (apply log_run). by rewrite decide_True.
  - unfold on_connect. erewrite bind_run by (apply log_run). by rewrite decide_True.
  - intros w' Hr. unfold on_write in Hr. erewrite bind_run in Hr by (apply log_run).
    rewrite bool_decide_true in Hr by done. cbn [when] in Hr.
    erewrite bind_run in Hr by (apply emit_run). unfold on_heap, zoom in Hr.
    destruct (delete_chars _ _) as [[u h]|f]; [|done]. injection Hr as _ <-. cbn.
    by rewrite logged_conn, logged_requests.
Qed.

(** A string without a NUL up to the end of what was written. *)
Lemma scan_nul_open text k :
  0 ∉ text -> bad_read (scan_nul ((Some <$> text) ++ replicate k None)).
Proof.
  induction text as [|b text IH]; cbn.
  - destruct k; cbn; [by left|by right].
  - intros [Hb Ht]%not_elem_of_cons. rewrite decide_False by done.
    destruct (IH Ht) as [-> | ->]; [by left|by right].
Qed.

Lemma unterminated h l pre text off k :
  h !! l = Some (Some ((Some <$> (pre ++ text)) ++ replicate k None)) ->
  zlen pre = off -> 0 ∉ text -> bad_read (read_cstring (Heap l off) h).
Proof.
  intros Hl <- Ht. unfold read_cstring, target, block_at. rewrite Hl, decide_True by lia.
  rewrite fmap_app, <- app_assoc, Nat2Z.id.
  rewrite drop_app_length' by (by rewrite length_fmap).
  destruct (scan_nul_open text k Ht) as [-> | ->]; [by left|by right].
Qed.

Lemma bad_on_heap `{LibUV} `{OpenSSL} {A B} (m : prog heap A) (k : A -> prog world B) w :
  bad_read (m (w_heap w)) -> bad_read ((on_heap m ≫= k) w).
Proof.
  intros [Hf|Hf]; [left|right]; apply bind_fault; by apply on_heap_fault.
Qed.

(** The decoded error points into the message. *)
Lemma error_consume_run `{Allocator} h l k n code text :
  h !! l = Some (Some ((Some <$> (be 4 code ++ wire_string text)) ++ replicate k None)) ->
  exists c, consume (BError BodyError_default) (Heap l 0) n h = Ok ((true, BError c), h) /\
    err_message c = Heap l 6.
Proof.
  intros Hl.
  assert (bytes_at h (Heap l 0) (be 4 code ++ wire_string text)) as [A1 A2]%bytes_at_app.
  { eapply cells_at_heap; [exact Hl|]. apply slice_Some. by exists [], (replicate k None). }
  eexists. split.
  - cbn [consume body_any body_error]. unfold map_snd, BodyError_consume.
    rewrite bind_assoc. erewrite bind_run by (apply decode_int_run; exact A1).
    apply bytes_at_string in A2 as [A2 _]. unfold decode_string.
    rewrite !bind_assoc. erewrite bind_run by (apply decode_short_run; exact A2).
    reflexivity.
  - reflexivity.
Qed.

(** The text of an error of the server is not terminated, and during the
    handshake it is read as a C string: unless the text has a NUL in it, the
    connection reads past the message, out of the block or of bytes nobody
    wrote. *)
Theorem server_error_overread `{Allocator} `{LibUV} `{OpenSSL} `{!Client}
    ev f code text size remaining w :
  log_callback_ (w_conn w) = false ->
  state_value (state_ (w_conn w)) < state_value CLIENT_STATE_READY ->
  fr_opcode f = CQL_OPCODE_ERROR -> 0 <= fr_stream f < 128 ->
  fr_payload f = Some <$> (be 4 code ++ wire_string text) ->
  0 ∉ text ->
  bad_read (receive_frame ev f size remaining w).
Proof.
  intros Hlog Hst Ho Hs Hp Htext.
  set (k := Z.to_nat (usable (zlen (fr_payload f)) - zlen (fr_payload f))).
  set (h := w_heap w ++ [Some (fr_payload f ++ replicate k None)]).
  assert (h !! length (w_heap w) = Some (Some ((Some <$> (be 4 code ++ wire_string text)) ++
    replicate k None))) as Hl by (rewrite <- Hp; apply lookup_last).
  destruct (error_consume_run h _ _ (zlen (fr_payload f)) code text Hl) as (c & Hc & Hcm).
  rewrite (receive_frame_run ev f size remaining w (BError BodyError_default) (BError c));
    [|done|by rewrite Ho|rewrite Ho; unfold CQL_OPCODE_ERROR; lia|done|exact Hc].
  rewrite Ho, decide_False, decide_True by done. unfold on_error.
  erewrite bind_run by (by apply log_off). erewrite bind_run by (apply lift_run).
  erewrite bind_run by (apply conn_run). cbn [w_conn set_w_heap].
  rewrite decide_True, Hcm by done. rewrite bind_assoc. apply bad_on_heap.
  cbn [w_heap set_w_heap].
  apply (unterminated h _ (be 4 code ++ be 2 (zlen text)) text _ k); [|done|done].
  unfold wire_string in Hl. by rewrite app_assoc in Hl.
Qed.

(** The chunk of 2^64 - 1 bytes that a BIO_read of -1 stands for. *)
Lemma consume_minus_one `{Allocator} h l b :
  h !! l = Some (Some b) -> zlen b < 9223372036854775808 ->
  Message_consume Message_default (Heap l 0) (u64 (-1)) h = Fault OutOfBounds.
Proof.
  intros Hl Hb. unfold Message_consume, copy_header. cbn [m_header_received set_m_received
    Message_default m_received].
  change (i32 (0 + u64 (-1))) with (-1). rewrite decide_False by (unfold CQL_HEADER_SIZE; lia).
  apply bind_fault, bind_fault. unfold read_cells, target, block_at.
  rewrite decide_False by done. rewrite Hl. unfold slice.
  rewrite decide_False; [done|]. change (u64 (-1)) with 18446744073709551615. lia.
Qed.

(** C35: the handshake of a connection with TLS ends in a fault.  When bytes of the
    peer are pending and the BIO_read that lets OpenSSL take them has to wait for
    more, it returns -1 with SSL_ERROR_WANT_READ; [read_write] reports this as a
    chunk of 2^64 - 1 bytes without an error, and [on_read] hands the chunk to
    [consume], which reads past the end of its buffer. *)
Theorem tls_handshake_fault `{Allocator} `{LibUV} `{OpenSSL} `{!Client} `{!OpenSSLLaws}
    fuel eof buf w ssl ssl1 cs rest n2 ssl2 n3 out ssl3 :
  log_callback_ (w_conn w) = false -> ssl_ (w_conn w) = Some (Some ssl) ->
  incomming_ (w_conn w) = Message_default ->
  0 < BIO_ctrl_pending_ssl ssl ->
  usable (BIO_ctrl_pending_ssl ssl) < 9223372036854775808 ->
  BIO_read_ssl ssl (BIO_ctrl_pending_ssl ssl) = (-1, [], ssl1) ->
  SSL_get_error ssl1 (-1) = SSL_ERROR_WANT_READ ->
  cells_at (w_heap w) (buf_base buf) (cs ++ rest) ->
  zlen (cs ++ rest) < 9223372036854775808 -> zlen cs = taken ssl1 (zlen (cs ++ rest)) ->
  input_written ssl1 cs = (n2, ssl2) -> no_error ssl2 n2 ->
  network_read ssl2 = (n3, out, ssl3) -> no_error ssl3 n3 ->
  on_read_cb (S fuel) (zlen (cs ++ rest)) eof buf w = Fault OutOfBounds.
Proof.
  intros Hlog Hssl Hinc Hp Hu Hr Hw Hat Hlen Ht Hwr Hn2 Hnt Hn3.
  pose proof (pending_ssl_range ssl) as Hb. pose proof (usable_ge (BIO_ctrl_pending_ssl ssl)).
  assert (plain_read ssl = (-1, [], ssl1)) as Hpr.
  { unfold plain_read. rewrite i32_small by lia. by rewrite decide_False by lia. }
  pose proof (read_write_run ssl (buf_base buf) cs rest (w_heap w) (-1) [] ssl1 n2 ssl2 n3 out
    ssl3 Hat Hpr Ht Hwr Hnt (fun _ => or_intror Hw) (fun _ => Hn2) (fun _ => Hn3)) as Hrun.
  cbv zeta in Hrun. rewrite !decide_False in Hrun by lia.
  unfold on_read_cb, on_read. erewrite bind_run by (by apply log_off).
  rewrite decide_False by lia. erewrite bind_run by (apply conn_run). cbv beta.
  rewrite Hssl, u64_small by lia. apply bind_fault. cbn [ssl_loop].
  erewrite bind_run.
  2:{ unfold the_ssl. erewrite bind_run by (apply conn_run). cbv beta. by rewrite Hssl. }
  erewrite bind_run by (apply on_heap_run; exact Hrun). cbv beta iota.
  erewrite bind_run by (apply upd_run). cbn [rw_read_output rw_read_output_size].
  rewrite (decide_True (P := Heap _ _ <> Null /\ _)) by (split; done). apply bind_fault, bind_fault.
  unfold connection_consume. change (i32 (u64 (-1))) with (-1). cbn [Z.to_nat consume_loop].
  rewrite decide_False by done. erewrite bind_run by (apply conn_run).
  apply bind_fault, on_heap_fault. cbn [w_conn w_heap set_w_conn set_w_heap incomming_ set_ssl].
  rewrite Hinc. eapply consume_minus_one.
  - rewrite <- app_assoc. unfold output_block at 1. rewrite decide_False by lia.
    by apply list_lookup_middle.
  - unfold filled. cbn [app]. rewrite length_replicate. cbn. lia.
Qed.

(** ** Witnesses *)

#[local] Existing Instances exact_allocator linux_uv null_openssl silent_client.

(** A connection that is READY, with no stream in use, and one request. *)
Definition ready_connection : ClientConnection := set_state CLIENT_STATE_READY plain_connection.
Definition pending_request : CallerRequest := {|
  rq_flag := false; rq_error := None; rq_data := []; rq_result := None;
  rq_callback := true; rq_use_local_loop := false
|}.
Definition ready_world : world := fresh_world [] ready_connection [pending_request].

Lemma ready_next : next_stream (w_conn ready_world) 1.
Proof. by apply stream_one. Qed.

Theorem send_message_spec_witness :
  exists id blk,
    send_message startup_message (Some 0%nat) ready_world =
      Ok ((None, set_m_length 22 (set_m_stream id startup_message)),
          sent id (Some 0%nat) 30 blk ready_world) /\
    1 <= id < 127.
Proof.
  destruct (send_message_spec ready_world startup_message (BStartup BodyStartup_default)
    startup_cells (Some 0%nat) eq_refl (proj1 ready_next) eq_refl eq_refl
    ltac:(vm_compute; split; discriminate) eq_refl) as (id & blk & Hid & _ & Hrun & _).
  exists id, blk. split; [exact Hrun|exact Hid].
Defined.

Definition void_frame : frame := {|
  fr_version := 0x82; fr_flags := 0; fr_stream := 1; fr_opcode := CQL_OPCODE_RESULT;
  fr_payload := Some <$> wire_result RVoid
|}.

Theorem failures_ignored_witness :
  exists w, on_write {| buf_base := Heap 0 0; buf_len := 30 |} (-1)
      (sent 1 (Some 0%nat) 30 startup_cells ready_world) = Ok (tt, w) /\
    w_requests w = [pending_request] /\ state_ (w_conn w) = CLIENT_STATE_READY.
Proof.
  pose (w0 := sent 1 (Some 0%nat) 30 startup_cells ready_world).
  destruct (failures_ignored 0 {| ai_family := 0; ai_addr := ([] : list Z) : @sockaddr linux_uv |}
    {| buf_base := Heap 0 0; buf_len := 30 |} w0) as (_ & _ & Hwrite).
  assert (returned (on_write {| buf_base := Heap 0 0; buf_len := 30 |} (-1) w0) = true) as Hok
    by (vm_compute; reflexivity).
  destruct (on_write {| buf_base := Heap 0 0; buf_len := 30 |} (-1) w0) as [[[] w]|f] eqn:E.
  - destruct (Hwrite w eq_refl) as (Hc & Hr & _). exists w. split; [exact E|].
    split; [exact Hr|]. rewrite Hc. reflexivity.
  - discriminate Hok.
Defined.

(** A VOID result on stream 1, and the world where the request waits for it. *)
Definition void_message : Message :=
  completed 0x82 0 1 8 4 12 true (BResult (set_kind CQL_RESULT_KIND_VOID BodyResult_default))
    0 4.
Definition waiting_world : world := sent 1 (Some 0%nat) 30 startup_cells ready_world.

Theorem on_result_spec_witness :
  on_result void_message waiting_world =
    Ok (tt, given 0 void_message pending_request (released 1 waiting_world)).
Proof.
  assert (storage_inv CQL_STREAM_ID_MAX (stream_storage_ (w_conn waiting_world))) as Hinv
    by (eapply stream_two; reflexivity).
  destruct (on_result_spec waiting_world void_message
    (set_kind CQL_RESULT_KIND_VOID BodyResult_default) Hinv
    eq_refl) as (_ & _ & Hother & _).
  destruct Hother as (_ & _ & Hgiven); [vm_compute; discriminate
    |vm_compute; split; congruence|reflexivity|].
  exact (Hgiven 0%nat pending_request eq_refl eq_refl).
Defined.

Theorem error_response_dropped_witness :
  on_error (completed 0x82 0 1 0 12 20 true (BError BodyError_default) 0 12) ready_world =
  destroy_message (completed 0x82 0 1 0 12 20 true (BError BodyError_default) 0 12)
    ready_world.
Proof.
  apply (error_response_dropped ready_world _ BodyError_default); reflexivity.
Defined.

Theorem server_error_overread_witness :
  bad_read (receive_frame (event_received 0) error_frame 20 20
    (fresh_world [] plain_connection [])).
Proof.
  apply (server_error_overread (event_received 0) error_frame (-1) (bytes_of_string "foobar")
    20 20 (fresh_world [] plain_connection [])).
  - reflexivity.
  - cbn. lia.
  - reflexivity.
  - cbn. lia.
  - reflexivity.
  - vm_compute. intros Hin. repeat (apply elem_of_cons in Hin as [Hin|Hin]; [discriminate|]).
    by apply elem_of_nil in Hin.
Defined.

(** A TLS connection whose session waits for the rest of the handshake. *)
Definition tls_world : world :=
  fresh_world [Some [Some 22]] (set_ssl (Some (Some handshaking)) plain_connection) [].

Theorem tls_handshake_fault_witness :
  on_read_cb 1 1 false {| buf_base := Heap 0 0; buf_len := 1 |} tls_world = Fault OutOfBounds.
Proof.
  pose (waited := {| to_app := []; to_net := []; hello := false; waiting := true |}).
  pose (took := {| to_app := [Some 22]; to_net := []; hello := false; waiting := true |}).
  apply (@tls_handshake_fault exact_allocator linux_uv null_openssl silent_client null_laws
    0 false {| buf_base := Heap 0 0; buf_len := 1 |} tls_world handshaking waited
    [Some 22] [] 1 took 0 [] took); first [reflexivity | by right].
Defined.
