(* ===== verification/Tls.v ===== *)
(** * Reads on a connection with TLS

    The loop of [on_read] is related to a specification: a pure function,
    [tls_decode], says which chunks OpenSSL makes of the bytes, and a program,
    [tls_receive], what the connection does with them.  [read_write] reads the
    plaintext before it hands the new bytes to OpenSSL, and the loop ends when a
    call took all of its input: what a read brings is not looked at before the next
    read.  A call that fails takes nothing, and the loop makes it again. *)

From S2P Require Import Prelude Memory StdMap Common Serialization Body Query Result.
From S2P Require Import Message StreamStorage Request SslSession HeapEffects Connection.
From S2P Require Import ConnectionFacts Receive Lifecycle.

(** What the peer is to get is read into block [l] and written to the socket. *)
Definition reply_events `{LibUV} (l : nat) (out : block) : list event :=
  if decide (out = []) then []
  else [EvWrite {| buf_base := Heap l 0; buf_len := zlen out |} out].

Section reads.
Context `{Allocator} `{LibUV} `{OpenSSL} `{!OpenSSLLaws} `{!Client}.

Lemma lookup_output h n cs :
  n <> 0 -> (h ++ output_block n cs) !! length h = Some (Some (filled n cs)).
Proof. intros Hn. unfold output_block. rewrite decide_False by done. apply lookup_last. Qed.

Lemma filled_slice n cs : slice (filled n cs) 0 (zlen cs) = Some cs.
Proof. apply slice_Some. by exists [], (replicate (Z.to_nat (usable n) - length cs) None). Qed.

(** The part of the loop that sends what [read_write] left in its output. *)
Lemma send_output_run h out w :
  (forall p n, uv_buf_init p n = {| buf_base := p; buf_len := n |}) ->
  w_heap w = h ++ output_block (zlen out) out ->
  let p := if decide (out = []) then Null else Heap (length h) 0 in
  (if decide (p <> Null /\ zlen out <> 0) then
     _ ← send_data (uv_buf_init p (zlen out)); mret tt
   else mret tt) w =
  Ok (tt, {| w_heap := w_heap w; w_conn := w_conn w; w_requests := w_requests w;
             w_trace := w_trace w ++ reply_events (length h) out |}).
Proof.
  intros Hbuf Hh. cbv zeta. unfold reply_events. destruct (decide (out = [])) as [->|Hne].
  - rewrite decide_False by naive_solver. rewrite app_nil_r. by destruct w.
  - assert (zlen out <> 0) as Hz by (destruct out; [done|cbn; lia]).
    rewrite decide_True, Hbuf by done. unfold send_data.
    assert (cells_at (w_heap w) (Heap (length h) 0) out) as Hat.
    { rewrite Hh. eapply cells_at_heap; [by apply lookup_output|apply filled_slice]. }
    cbn [buf_base buf_len]. rewrite !bind_assoc.
    erewrite bind_run by (apply on_heap_run, read_cells_at; [exact Hat|done]).
    rewrite bind_assoc. erewrite bind_run by (apply emit_run). reflexivity.
Qed.
End reads.

(** ** The specification of a read

    A turn of the loop: the plaintext OpenSSL had when the turn began (with room for
    [ch_size] bytes), what it has to send at the end, and the session then. *)
Section decode.
Context `{OpenSSL}.

Record tls_chunk := {
  ch_size    : Z;
  ch_plain   : block;
  ch_reply   : block;
  ch_session : SSL
}.

#[export] Instance no_error_dec ssl n : Decision (no_error ssl n).
Proof. unfold no_error. apply _. Defined.

(** What OpenSSL makes of a turn that is offered [cs]: how many bytes it takes and the
    chunk, unless one of its calls fails or has to wait. *)
Definition tls_turn (ssl : SSL) (cs : block) : option (nat * tls_chunk) :=
  let '(n1, plain, ssl1) := plain_read ssl in
  let k := Z.to_nat (taken ssl1 (zlen cs)) in
  let '(n2, ssl2) := input_written ssl1 (take k cs) in
  let '(n3, reply, ssl3) := network_read ssl2 in
  if decide (n1 = zlen plain /\ (BIO_ctrl_pending_ssl ssl = 0 \/ no_error ssl1 n1) /\
             (take k cs = [] \/ no_error ssl2 n2) /\ (reply = [] \/ no_error ssl3 n3))
  then Some (k, {| ch_size := BIO_ctrl_pending_ssl ssl; ch_plain := plain;
                   ch_reply := reply; ch_session := ssl3 |})
  else None.

(** The turns that are needed until OpenSSL has taken all of [cs]. *)
Fixpoint tls_decode (fuel : nat) (ssl : SSL) (cs : block) : option (list tls_chunk) :=
  match fuel with
  | O => None
  | S fuel =>
      '(k, c) ← tls_turn ssl cs;
      if decide (length cs <= k)%nat then Some [c]
      else cs' ← tls_decode fuel (ch_session c) (drop k cs); Some (c :: cs')
  end.

(** More fuel changes nothing; a turn that takes a byte is a turn of progress, so a
    turn for every byte and one more are enough. *)
Lemma tls_decode_more n m ssl cs chunks :
  (n <= m)%nat -> tls_decode n ssl cs = Some chunks -> tls_decode m ssl cs = Some chunks.
Proof.
  revert m ssl cs chunks. induction n as [|n IH]; intros m ssl cs chunks Hm Hd; [done|].
  destruct m as [|m]; [lia|]. cbn [tls_decode] in *.
  destruct (tls_turn ssl cs) as [[k c]|]; [|done]. cbn [mbind option_bind] in *.
  case_decide; [done|]. destruct (tls_decode n _ _) as [chunks'|] eqn:E; [|done].
  by erewrite IH by (done || lia).
Qed.

Lemma tls_decode_total (ok : SSL -> Prop) ssl cs n :
  (forall ssl cs, ok ssl -> exists k c, tls_turn ssl cs = Some (k, c) /\
     ok (ch_session c) /\ (0 < k \/ cs = [])%nat) ->
  ok ssl -> (length cs < n)%nat -> exists chunks, tls_decode n ssl cs = Some chunks.
Proof.
  intros Hok. revert ssl cs. induction n as [|n IH]; intros ssl cs Hs Hn; [lia|].
  cbn [tls_decode]. destruct (Hok ssl cs Hs) as (k & c & -> & Hs' & Hk). cbn [mbind option_bind].
  case_decide; [by eexists|].
  destruct (IH (ch_session c) (drop k cs)) as [chunks ->]; [done| |by eexists].
  rewrite length_drop. destruct Hk as [Hk| ->]; [lia|]. cbn in *. lia.
Qed.
End decode.

(** What the connection does with the chunks, one after the other: the plaintext is
    consumed in a block of its own, then the reply is sent; if more turns follow, the
    end of the handshake is looked at. *)
Section receive.
Context `{Allocator} `{LibUV} `{OpenSSL} `{!Client}.
Variable event_received : prog world unit.

Definition to_block (n : Z) (cs : block) : prog world ptr :=
  if decide (n = 0) then mret Null
  else on_heap (p ← new_chars n; write_cells p cs ;; mret p).

Definition tls_deliver (c : tls_chunk) : prog world unit :=
  p ← to_block (ch_size c) (ch_plain c);
  q ← to_block (zlen (ch_reply c)) (ch_reply c);
  upd (set_ssl (Some (Some (ch_session c)))) ;;
  (if decide (ch_plain c = []) then mret tt
   else connection_consume event_received p (zlen (ch_plain c)) ;; on_heap (delete_chars p)) ;;
  if decide (ch_reply c = []) then mret tt
  else _ ← send_data (uv_buf_init q (zlen (ch_reply c))); mret tt.

Definition tls_restart (ssl : SSL) : prog world unit :=
  c ← conn;
  if ssl_handshake_done_ c then mret tt
  else when (SSL_is_init_finished ssl) (upd (set_state CLIENT_STATE_HANDSHAKE) ;; event_received).

Fixpoint tls_receive (chunks : list tls_chunk) : prog world unit :=
  match chunks with
  | [] => mret tt
  | [c] => tls_deliver c
  | c :: chunks => tls_deliver c ;; tls_restart (ch_session c) ;; tls_receive chunks
  end.
End receive.

(** ** The loop refines the specification *)
Section refines.
Context `{Allocator} `{LibUV} `{OpenSSL} `{!OpenSSLLaws} `{!Client}.

Lemma to_block_run n cs w :
  0 <= n < 9223372036854775808 -> zlen cs <= n ->
  to_block n cs w = Ok (if decide (n = 0) then Null else Heap (length (w_heap w)) 0,
                        set_w_heap (w_heap w ++ output_block n cs) w).
Proof.
  intros Hn Hcs. unfold to_block, output_block. case_decide.
  - rewrite app_nil_r. by destruct w.
  - apply on_heap_run. by rewrite new_fill.
Qed.

Lemma network_read_all ssl n out ssl' :
  network_read ssl = (n, out, ssl') -> zlen out = BIO_ctrl_pending_network ssl.
Proof.
  pose proof (pending_network_range ssl). unfold network_read. case_decide; intros Hr.
  - by simplify_eq/=.
  - by apply BIO_read_network_all in Hr as [_ ?]; [|lia].
Qed.

Lemma plain_read_fits ssl n plain ssl' :
  plain_read ssl = (n, plain, ssl') ->
  zlen plain <= BIO_ctrl_pending_ssl ssl /\ (BIO_ctrl_pending_ssl ssl = 0 -> n = 0 /\ plain = []).
Proof.
  pose proof (pending_ssl_range ssl). unfold plain_read. rewrite i32_small by lia.
  case_decide; intros Hr.
  - simplify_eq. cbn. split; [lia|done].
  - apply BIO_read_ssl_result in Hr as [? _]; lia.
Qed.

(** What [read_write] does in a turn. *)
Lemma tls_turn_run ssl cs k c p h :
  tls_turn ssl cs = Some (k, c) -> cells_at h p cs ->
  let h1 := h ++ output_block (ch_size c) (ch_plain c) in
  read_write ssl p (zlen cs) Null 0 rw_zero h =
    Ok ((None, ch_session c, {|
           rw_read_size := Z.of_nat k;
           rw_read_output := if decide (ch_size c = 0) then Null else Heap (length h) 0;
           rw_read_output_size := zlen (ch_plain c);
           rw_write_output := if decide (ch_reply c = []) then Null else Heap (length h1) 0;
           rw_write_output_size := zlen (ch_reply c) |}),
        h1 ++ output_block (zlen (ch_reply c)) (ch_reply c)) /\
  (k <= length cs)%nat /\ 0 <= ch_size c < 2147483648 /\ zlen (ch_plain c) <= ch_size c /\
  zlen (ch_reply c) < 2147483648.
Proof.
  unfold tls_turn. intros Ht Hat. cbv zeta.
  destruct (plain_read ssl) as [[n1 plain] ssl1] eqn:E1.
  destruct (input_written ssl1 _) as [n2 ssl2] eqn:E2.
  destruct (network_read ssl2) as [[n3 reply] ssl3] eqn:E3.
  case_decide as Hd; [|done]. destruct Hd as (Hn1 & He1 & He2 & He3).
  injection Ht as <- <-. cbn [ch_size ch_plain ch_reply ch_session].
  pose proof (guarantee_nonneg ssl1). pose proof (pending_ssl_range ssl) as Hpb.
  pose proof (plain_read_fits _ _ _ _ E1) as [Hfit Hnone].
  pose proof (network_read_all _ _ _ _ E3) as Hall. pose proof (pending_network_range ssl2).
  assert (0 <= taken ssl1 (zlen cs) <= zlen cs) as Hk by (unfold taken; case_decide; lia).
  set (k := Z.to_nat (taken ssl1 (zlen cs))) in *.
  assert (k <= length cs)%nat as Hkl by lia.
  split; [|split_and!; lia].
  rewrite <- (take_drop k cs) in Hat.
  assert (zlen (take k cs) = taken ssl1 (zlen (take k cs ++ drop k cs))) as Htk
    by (rewrite take_drop, length_take; lia).
  rewrite <- (take_drop k cs) at 1.
  rewrite (read_write_run ssl p (take k cs) (drop k cs) h n1 plain ssl1 n2 ssl2 n3 reply ssl3);
    [|done..| | |].
  - rewrite length_take, Nat.min_l by done. do 3 f_equal.
    case_decide as Hz; [destruct (Hnone Hz) as [-> ->]; done|].
    by rewrite Hn1, u64_small by lia.
  - intros Hp. destruct He1 as [|He1]; [done|]. by rewrite u64_small by lia.
  - intros Hne. by destruct He2.
  - intros Hne. by destruct He3.
Qed.

Lemma the_ssl_run ssl w : ssl_ (w_conn w) = Some (Some ssl) -> the_ssl w = Ok (ssl, w).
Proof.
  intros Hssl. unfold the_ssl. erewrite bind_run by (apply conn_run). cbv beta. by rewrite Hssl.
Qed.

(** The pointers that [read_write] sets point to a block where there are bytes. *)
Lemma decide_out_block {A} n (cs : block) l (a b : A) :
  zlen cs <= n ->
  (if decide ((if decide (n = 0) then Null else Heap l 0) <> Null /\ zlen cs <> 0)
   then a else b) = (if decide (cs = []) then b else a).
Proof.
  intros Hn. destruct cs as [|x cs]; [by rewrite decide_False by naive_solver|].
  cbn [length] in *. rewrite (decide_False (P := n = 0)) by lia.
  by rewrite decide_True by (split; [done|lia]).
Qed.

Lemma decide_reply_block {A} (cs : block) l (a b : A) :
  (if decide ((if decide (cs = []) then Null else Heap l 0) <> Null /\ zlen cs <> 0)
   then a else b) = (if decide (cs = []) then b else a).
Proof. destruct cs as [|x cs]; [done|]. by rewrite decide_True by done. Qed.

(** A turn of the loop. *)
Lemma ssl_loop_turn ev fuel p cs ssl k c w :
  ssl_ (w_conn w) = Some (Some ssl) -> cells_at (w_heap w) p cs ->
  tls_turn ssl cs = Some (k, c) ->
  ssl_loop ev (S fuel) p (zlen cs) w =
  (tls_deliver ev c ;;
   if decide (Z.of_nat k < zlen cs) then
     (c ← conn;
      if ssl_handshake_done_ c then mret tt
      else
        ssl ← the_ssl;
        done ← lift (handshake_done (Some ssl));
        when done (upd (set_state CLIENT_STATE_HANDSHAKE) ;; ev)) ;;
     ssl_loop ev fuel (padd p (Z.of_nat k)) (zlen cs - Z.of_nat k)
   else mret tt) w.
Proof.
  intros Hssl Hat Ht. destruct (tls_turn_run _ _ _ _ _ _ Ht Hat) as (Hrun & Hk & Hsz & Hpl & Hrp).
  cbv zeta in Hrun. cbn [ssl_loop].
  erewrite bind_run by (by apply the_ssl_run).
  erewrite bind_run by (apply on_heap_run; exact Hrun). cbv beta iota.
  cbn [rw_read_output rw_read_output_size rw_write_output rw_write_output_size rw_read_size].
  unfold tls_deliver. rewrite !bind_assoc.
  erewrite (bind_run (to_block _ _)) by (apply to_block_run; lia). cbv beta.
  rewrite bind_assoc.
  erewrite (bind_run (to_block _ _)) by (apply to_block_run; lia). cbv beta.
  rewrite bind_assoc. cbn [w_heap set_w_heap].
  erewrite !(bind_run (upd _)) by (apply upd_run). rewrite bind_assoc.
  change (set_w_heap ?a (set_w_heap ?b w)) with (set_w_heap a w).
  apply bind_cong; [|intros _ w1; apply bind_cong].
  - rewrite decide_out_block by done. by destruct (decide (ch_plain c = [])).
  - rewrite decide_reply_block.
    destruct (decide (ch_reply c = [])) as [E|E]; [done|].
    rewrite (decide_False (P := zlen (ch_reply c) = 0)); [done|]. by destruct (ch_reply c).
  - intros _ w2. destruct (decide (Z.of_nat k < zlen cs)); [|done].
    symmetry. apply bind_assoc.
Qed.

Context (l : nat) (b : block) (Hc : client_ok l) (d f0 : nat).
Abbreviation ev := (event_received_n (S d) f0).
Abbreviation L s := (left_alone l (Some b) s).

Lemma to_block_left_alone n cs s : keeps (L s) (to_block n cs) (off_block l).
Proof.
  apply reading_left_alone. intros m0. unfold to_block. case_decide; [by apply safe_ret|].
  apply on_heap_safe. eapply safe_bind; [apply new_chars_safe|intros p Hp].
  eapply safe_bind; [by apply write_cells_safe|intros _ _]. by apply safe_ret.
Qed.

Lemma tls_deliver_left_alone c s w w' :
  L s w -> tls_deliver ev c w = Ok (tt, w') -> L (Some (Some (ch_session c))) w'.
Proof.
  intros Hw. unfold tls_deliver. intros (p & w1 & Hp & Hrun)%bind_inv.
  destruct (to_block_left_alone _ _ s _ _ _ Hw Hp) as [Hw1 Hoff].
  apply bind_inv in Hrun as (q & w2 & Hq & Hrun).
  destruct (to_block_left_alone _ _ s _ _ _ Hw1 Hq) as [Hw2 _].
  apply bind_inv in Hrun as ([] & w3 & [= <-] & Hrun).
  set (s' := Some (Some (ch_session c))) in *.
  assert (keeps (L s')
    ((if decide (ch_plain c = []) then mret tt
      else connection_consume ev p (zlen (ch_plain c)) ;; on_heap (delete_chars p)) ;;
     (if decide (ch_reply c = []) then mret tt
      else _ ← send_data (uv_buf_init q (zlen (ch_reply c))); mret tt)) (fun _ => True)) as Hk.
  { clear Hrun. apply (keeps_bind _ _ _ (fun _ => True)).
    - case_decide; [by apply keeps_ret|].
      eapply keeps_bind; [by apply consume_loop_left_alone|intros _ _].
      apply reading_left_alone. intros m0. by apply on_heap_safe, delete_chars_safe.
    - intros _ _. case_decide; [by apply keeps_ret|].
      eapply keeps_bind; [apply reading_left_alone; intros m0; apply send_data_safe|].
      intros _ _. by apply keeps_ret. }
  destruct Hw2 as (Hh & Ho & _). by eapply Hk in Hrun as [? _].
Qed.

Lemma tls_restart_left_alone ssl s : keeps (L s) (tls_restart ev ssl) (fun _ => True).
Proof.
  unfold tls_restart.
  eapply keeps_bind; [apply reading_left_alone; intros; apply conn_safe|intros c _].
  destruct (ssl_handshake_done_ c); [by apply keeps_ret|]. apply keeps_when.
  apply reading_left_alone. intros m0. apply next_event_safe; auto.
Qed.

Lemma tls_decode_cons fuel ssl cs chunks :
  tls_decode fuel ssl cs = Some chunks -> chunks <> [].
Proof.
  destruct fuel as [|fuel]; [done|]. cbn [tls_decode].
  destruct (tls_turn ssl cs) as [[k c]|]; [|done]. cbn [mbind option_bind].
  case_decide; [by intros [= <-]|]. by destruct (tls_decode fuel _ _); intros [= <-].
Qed.

Lemma ssl_loop_decode fuel off cs ssl chunks w :
  L (Some (Some ssl)) w -> slice b off (zlen cs) = Some cs ->
  tls_decode fuel ssl cs = Some chunks ->
  ssl_loop ev fuel (Heap l off) (zlen cs) w = tls_receive ev chunks w.
Proof.
  revert off cs ssl chunks w. induction fuel as [|fuel IH]; intros off cs ssl chunks w Hw Hsl Hd;
    [done|].
  cbn [tls_decode] in Hd. destruct (tls_turn ssl cs) as [[k c]|] eqn:Ht; [|done].
  cbn [mbind option_bind] in Hd. pose proof Hw as (Hh & _ & Hssl).
  assert (cells_at (w_heap w) (Heap l off) cs) as Hat by (by eapply cells_at_heap).
  pose proof (tls_turn_run _ _ _ _ _ _ Ht Hat) as (_ & Hk & _).
  erewrite ssl_loop_turn by done. case_decide as Hlast.
  - injection Hd as <-. cbn [tls_receive]. rewrite decide_False by lia.
    unfold mbind, prog_bind. by destruct (tls_deliver ev c w) as [[[] w']|f].
  - destruct (tls_decode fuel _ _) as [chunks'|] eqn:E; [|done]. injection Hd as <-.
    pose proof (tls_decode_cons _ _ _ _ E) as Hne. rewrite decide_True by lia.
    replace (tls_receive ev (c :: chunks')) with
      (tls_deliver ev c ;; tls_restart ev (ch_session c) ;; tls_receive ev chunks')
      by (by destruct chunks').
    apply bind_ext_run. intros [] w1 Hw1. apply tls_deliver_left_alone with (s := Some (Some ssl)) in Hw1; [|done].
    transitivity ((tls_restart ev (ch_session c) ;;
      ssl_loop ev fuel (padd (Heap l off) (Z.of_nat k)) (zlen cs - Z.of_nat k)) w1).
    + apply bind_cong; [|done]. unfold tls_restart.
      erewrite !(bind_run conn) by (apply conn_run). cbv beta.
      destruct (ssl_handshake_done_ _); [done|].
      erewrite bind_run by (apply the_ssl_run, Hw1). reflexivity.
    + apply bind_ext_run. intros [] w2 Hw2.
      destruct (tls_restart_left_alone _ _ _ _ _ Hw1 Hw2) as [Hw2' _].
      replace (zlen cs - Z.of_nat k) with (zlen (drop k cs)) by (rewrite length_drop; lia).
      apply (IH _ _ (ch_session c)); [done| |done].
      rewrite <- (take_drop k cs) in Hsl. rewrite length_app, Nat2Z.inj_add in Hsl.
      apply slice_app_inv in Hsl as [_ Hsl]; [|lia..].
      rewrite length_take, Nat.min_l in Hsl by lia. cbn [padd]. 
      rewrite Nat2Z.id, drop_app_length' in Hsl by (rewrite length_take; lia). done.
Qed.

(** A BIO_read that returns 0, such as after the peer closed the TLS connection,
    while bytes of the peer wait: the turn moves nothing. *)
Definition refuses (ssl : SSL) : Prop :=
  0 < BIO_ctrl_pending_ssl ssl /\ ~ no_error ssl 0 /\
  BIO_read_ssl ssl (BIO_ctrl_pending_ssl ssl) = (0, [], ssl).

Lemma read_write_refused ssl p size h :
  refuses ssl ->
  exists e, read_write ssl p size Null 0 rw_zero h =
    Ok ((Some e, ssl, {|
           rw_read_size := 0; rw_read_output := Heap (length h) 0;
           rw_read_output_size := 0; rw_write_output := Null;
           rw_write_output_size := 0 |}),
        h ++ [Some (filled (BIO_ctrl_pending_ssl ssl) [])]).
Proof.
  intros (Hp & He & Hr). pose proof (pending_ssl_range ssl) as Hb.
  assert (exists e, check_error ssl 0 147 = Some e) as [e Hce].
  { unfold check_error. rewrite decide_True by (unfold no_error in He; cbn in *; tauto).
    by eexists. }
  exists e. unfold read_write, rw_write_input. rewrite decide_True, bind_ret by done.
  unfold rw_read_plain. cbv zeta. rewrite i32_small, decide_False, Hr by lia. cbv beta iota.
  erewrite bind_run by (rewrite new_fill by (cbn; lia); reflexivity). cbv beta iota.
  change (u64 0) with 0. by rewrite Hce.
Qed.
End refines.

(** ** A session that refuses to read *)
Section refused.
Context `{Allocator} `{LibUV} `{OpenSSL} `{!OpenSSLLaws} `{!Client}.

(** The block that a turn allocates for the plaintext and loses. *)
Definition lost_block (ssl : SSL) : option block :=
  Some (filled (BIO_ctrl_pending_ssl ssl) []).
Definition lose (n : nat) (ssl : SSL) (w : world) : world :=
  set_w_heap (w_heap w ++ replicate n (lost_block ssl)) w.

(** The world after a turn that has sent OPTIONS on stream [id]. *)
Definition options_sent (id : Z) (ssl : SSL) (w : world) : world :=
  let w1 := lose 1 ssl w in
  sent id None 8 ((Some <$> wire_header 0x02 0 id CQL_OPCODE_OPTIONS 0) ++
                  replicate (Z.to_nat (usable 0 - 8)) None)
    (set_w_conn (set_state CLIENT_STATE_HANDSHAKE (w_conn w1)) w1).

Context (ssl : SSL) (Href : refuses ssl).
Implicit Types (w : world).

Lemma refused_turn ev fuel p size w :
  0 < size -> ssl_ (w_conn w) = Some (Some ssl) ->
  ssl_loop ev (S fuel) p size w =
  (tls_restart ev ssl ;; ssl_loop ev fuel p size) (lose 1 ssl w).
Proof.
  intros Hsize Hs. cbn [ssl_loop]. erewrite bind_run by (by apply the_ssl_run).
  destruct (read_write_refused ssl p size (w_heap w) Href) as [e Hrun].
  erewrite bind_run by (apply on_heap_run; exact Hrun). cbv beta iota.
  erewrite bind_run by (apply upd_run).
  cbn [rw_read_output rw_read_output_size rw_write_output rw_write_output_size rw_read_size].
  rewrite !(decide_False (P := _ /\ 0 <> 0)) by tauto. rewrite !bind_ret.
  rewrite decide_True, padd_0, Z.sub_0_r by done.
  replace (set_w_conn _ _) with (lose 1 ssl w).
  2:{ unfold lose, lost_block. destruct w as [h c rs tr], c. cbn in *. by subst. }
  unfold tls_restart. rewrite bind_assoc.
  erewrite !(bind_run conn) by (apply conn_run). cbv beta.
  apply bind_cong; [|done]. destruct (ssl_handshake_done_ _); [done|].
  by erewrite bind_run by (by apply the_ssl_run).
Qed.

Lemma lose_lose n m w : lose n ssl (lose m ssl w) = lose (m + n) ssl w.
Proof.
  unfold lose, set_w_heap. cbn [w_heap w_conn w_requests w_trace].
  by rewrite <- app_assoc, replicate_add.
Qed.

(** Between the turns nothing happens if the flag is set, which nothing does, or if
    the handshake is not finished. *)
Definition idle (w : world) : bool :=
  ssl_handshake_done_ (w_conn w) || negb (SSL_is_init_finished ssl).

Lemma idle_restart ev w : idle w = true -> tls_restart ev ssl w = Ok (tt, w).
Proof.
  unfold idle, tls_restart. erewrite bind_run by (apply conn_run). cbv beta.
  destruct (ssl_handshake_done_ _); [done|]. by destruct (SSL_is_init_finished ssl).
Qed.

Lemma idle_turns ev n fuel p size w :
  0 < size -> ssl_ (w_conn w) = Some (Some ssl) -> idle w = true ->
  ssl_loop ev (n + fuel) p size w = ssl_loop ev fuel p size (lose n ssl w).
Proof.
  intros Hsize. revert w. induction n as [|n IH]; intros w Hs Hi.
  { unfold lose. cbn [replicate]. rewrite app_nil_r. by destruct w. }
  change (S n + fuel)%nat with (S (n + fuel)). rewrite refused_turn by done.
  erewrite bind_run by (by apply idle_restart).
  rewrite IH by done. by rewrite lose_lose.
Qed.

Lemma idle_diverges ev fuel p size w :
  0 < size -> ssl_ (w_conn w) = Some (Some ssl) -> idle w = true ->
  ssl_loop ev fuel p size w = Fault OutOfFuel.
Proof.
  intros Hsize Hs Hi. pose proof (idle_turns ev fuel 0 p size w Hsize Hs Hi) as E.
  by rewrite Nat.add_0_r in E.
Qed.

(** When the handshake is finished, every turn sends OPTIONS. *)
Lemma finished_restart f0 w :
  idle w = false -> log_callback_ (w_conn w) = false ->
  tls_restart (event_received f0) ssl w =
    send_options (set_w_conn (set_state CLIENT_STATE_HANDSHAKE (w_conn w)) w).
Proof.
  unfold idle, tls_restart. intros Hi Hlog. erewrite bind_run by (apply conn_run). cbv beta.
  destruct (ssl_handshake_done_ _); [done|]. destruct (SSL_is_init_finished ssl); [|done].
  cbn [when]. erewrite bind_run by (apply upd_run).
  unfold event_received. cbn [event_received_n]. rewrite event_body_run.
  cbn [w_conn set_w_conn state_ set_state]. unfold logged.
  cbn [w_conn set_w_conn log_callback_ set_state]. by rewrite Hlog.
Qed.

Lemma streams_left_range w :
  storage_inv CQL_STREAM_ID_MAX (stream_storage_ (w_conn w)) ->
  streams_left w = 127 - available_streams_index_ (stream_storage_ (w_conn w)) /\
  1 <= streams_left w.
Proof.
  intros Hinv. pose proof (inv_index _ _ Hinv) as Hix.
  change (Z.of_nat CQL_STREAM_ID_MAX) with 127 in *.
  assert (streams_left w = 127 - available_streams_index_ (stream_storage_ (w_conn w))) as ->.
  { unfold streams_left, available_streams. apply u64_small.
    change (Z.of_nat CQL_STREAM_ID_MAX) with 127 in *. lia. }
  lia.
Qed.

Lemma finished_turn p size w :
  0 < size -> ssl_ (w_conn w) = Some (Some ssl) -> idle w = false ->
  log_callback_ (w_conn w) = false ->
  storage_inv CQL_STREAM_ID_MAX (stream_storage_ (w_conn w)) ->
  if decide (1 < streams_left w /\ 8 <= usable 0) then
    exists id, 1 <= id < 127 /\
      storage_inv CQL_STREAM_ID_MAX (stream_storage_ (w_conn (options_sent id ssl w))) /\
      streams_left (options_sent id ssl w) = streams_left w - 1 /\
      forall f0 fuel, ssl_loop (event_received f0) (S fuel) p size w =
        ssl_loop (event_received f0) fuel p size (options_sent id ssl w)
  else forall f0 fuel, ssl_loop (event_received f0) (S fuel) p size w = Fault OutOfBounds.
Proof.
  intros Hsize Hs Hi Hlog Hinv. destruct (streams_left_range w Hinv) as [Hl Hl1].
  set (w1 := lose 1 ssl w).
  set (w2 := set_w_conn (set_state CLIENT_STATE_HANDSHAKE (w_conn w1)) w1).
  assert (forall f0 fuel, ssl_loop (event_received f0) (S fuel) p size w =
    (send_options ;; ssl_loop (event_received f0) fuel p size) w2) as Hturn.
  { intros f0 fuel. rewrite refused_turn by done. fold w1.
    unfold mbind, prog_bind. by rewrite finished_restart. }
  destruct (decide (streams_left w <= 1)) as [Hd|Hd].
  { rewrite decide_False by lia. intros f0 fuel. rewrite Hturn. apply bind_fault.
    unfold send_options. erewrite bind_run by (by apply log_off).
    erewrite (bind_run (on_heap (Message_init _))) by (apply on_heap_run; reflexivity).
    apply bind_fault. unfold send_message. apply bind_fault. unfold on_streams, zoom.
    rewrite set_stream_last; [done|apply max_pos|done|].
    change (Z.of_nat CQL_STREAM_ID_MAX) with 127.
    change (stream_storage_ (w_conn (set_w_heap _ w2))) with (stream_storage_ (w_conn w)). lia. }
  destruct (stack_top CQL_STREAM_ID_MAX max_pos _ Hinv) as (id & Htop & Hfree & Hid & Hlast).
  change (Z.of_nat CQL_STREAM_ID_MAX) with 127 in Hid, Hlast.
  assert (next_stream (w_conn w2) id) as Hnext.
  { split; [exact Hinv|]. split; [exact Htop|].
    change (Z.of_nat CQL_STREAM_ID_MAX) with 127. lia. }
  pose proof (send_options_run w2 id Hlog Hnext) as Hrun.
  destruct (decide (8 <= usable 0)) as [Hu|Hu].
  - rewrite decide_True by lia. exists id. split; [lia|].
    assert (storage_inv CQL_STREAM_ID_MAX
      (stream_storage_ (w_conn (options_sent id ssl w)))) as Hinv'.
    { apply stream_taken_inv; first [apply max_pos | apply max_64 | done | idtac];
      change (Z.of_nat CQL_STREAM_ID_MAX) with 127; cbn [w_conn set_w_conn stream_storage_ set_state lose set_w_heap]; lia. }
    split; [done|]. split; [|intros f0 fuel; rewrite Hturn; by erewrite bind_run by exact Hrun].
    destruct (streams_left_range _ Hinv') as [-> _]. rewrite Hl. cbn. lia.
  - rewrite decide_False by lia. intros f0 fuel. rewrite Hturn. by apply bind_fault.
Qed.

(** The turns until the table of the streams, or the block for OPTIONS, is overrun. *)
Definition turns_left (w : world) : Z := if decide (8 <= usable 0) then streams_left w else 1.

Lemma finished_overruns f0 fuel p size w :
  0 < size -> ssl_ (w_conn w) = Some (Some ssl) -> idle w = false ->
  log_callback_ (w_conn w) = false ->
  storage_inv CQL_STREAM_ID_MAX (stream_storage_ (w_conn w)) ->
  ssl_loop (event_received f0) fuel p size w =
    Fault (if decide (Z.of_nat fuel < turns_left w) then OutOfFuel else OutOfBounds).
Proof.
  intros Hsize. revert w. induction fuel as [|fuel IH]; intros w Hs Hi Hlog Hinv;
    destruct (streams_left_range w Hinv) as [_ Hl].
  { rewrite decide_True; [done|]. unfold turns_left. case_decide; lia. }
  pose proof (finished_turn p size w Hsize Hs Hi Hlog Hinv) as Ht.
  unfold turns_left. case_decide as Hd.
  - destruct Ht as (id & _ & Hinv' & Hl' & ->). rewrite IH by done.
    unfold turns_left. rewrite Hl'. rewrite !(decide_True (P := 8 <= usable 0)) by tauto.
    f_equal. do 2 case_decide; done || lia.
  - rewrite Ht. rewrite decide_False; [done|]. case_decide; lia.
Qed.
End refused.

(** C14: a read of a connection with TLS: on a connection where no call of OpenSSL fails
    or has to wait, the loop of [on_read] is the specification [tls_receive] of the
    chunks OpenSSL makes of the bytes ([tls_decode]); it returns when that does.
    Every byte is handed to OpenSSL once and in order; the plaintext of a turn is
    consumed as a whole before the reply of the turn is sent.  A turn reads the
    plaintext before it hands on new bytes, so what the last turn hands on waits for
    the next read; and the end of the handshake is looked at between two turns, each
    time anew, and not after the last. *)
Theorem tls_read_refines `{Allocator} `{LibUV} `{OpenSSL} `{!OpenSSLLaws} `{!Client}
    fuel n eof l len cs rest ssl chunks w :
  client_ok l -> message_off l (incomming_ (w_conn w)) ->
  ssl_ (w_conn w) = Some (Some ssl) -> w_heap w !! l = Some (Some (cs ++ rest)) ->
  zlen cs < 9223372036854775808 ->
  tls_decode n ssl cs = Some chunks -> (n <= fuel)%nat ->
  let buf := {| buf_base := Heap l 0; buf_len := len |} in
  on_read_cb fuel (zlen cs) eof buf w =
  (log CQL_LOG_DEBUG (LText "on_read") ;;
   tls_receive (event_received fuel) chunks ;; on_heap (free_buffer buf)) w.
Proof.
  intros Hc Ho Hssl Hl Hlen Hd Hn. cbv zeta. unfold on_read_cb, on_read.
  erewrite !(bind_run (log _ _)) by (apply log_run). set (w1 := logged _ _ w).
  assert (left_alone l (Some (cs ++ rest)) (Some (Some ssl)) w1) as Hw1.
  { unfold w1. split_and!; [unfold holds; by rewrite logged_heap|by rewrite logged_conn..]. }
  rewrite decide_False by lia. erewrite bind_run by (apply conn_run). cbv beta.
  destruct Hw1 as (Hh & Ho1 & Hs1) eqn:E. rewrite Hs1, u64_small by lia.
  apply bind_cong; [|done]. cbn [buf_base].
  apply (ssl_loop_decode l (cs ++ rest) Hc 1 fuel fuel 0 cs ssl chunks w1); [done| |].
  - apply slice_Some. by exists [], rest.
  - by eapply tls_decode_more.
Qed.


(** One read of a connection with TLS whose bytes all fit into the BIO, when OpenSSL
    held no plaintext before: the bytes go to OpenSSL, and what it has for the
    peer is written to the socket.  That is all: [incomming_], the streams, the
    requests and the state stay as they are, whatever plaintext OpenSSL holds now
    ([BIO_ctrl_pending_ssl ssl3]) and even if the handshake is now finished
    ([SSL_is_init_finished ssl3]). *)
Theorem tls_read_buffered `{Allocator} `{LibUV} `{OpenSSL} `{!OpenSSLLaws} `{!Client}
    fuel eof l len w ssl cs rest n2 ssl2 n3 out ssl3 :
  (forall p n, uv_buf_init p n = {| buf_base := p; buf_len := n |}) ->
  log_callback_ (w_conn w) = false -> ssl_ (w_conn w) = Some (Some ssl) ->
  BIO_ctrl_pending_ssl ssl = 0 ->
  w_heap w !! l = Some (Some (cs ++ rest)) ->
  0 < zlen cs <= BIO_get_write_guarantee ssl -> zlen cs < 9223372036854775808 ->
  BIO_write_network ssl cs = (n2, ssl2) -> no_error ssl2 n2 ->
  network_read ssl2 = (n3, out, ssl3) -> no_error ssl3 n3 ->
  let h := w_heap w in
  on_read_cb (S fuel) (zlen cs) eof {| buf_base := Heap l 0; buf_len := len |} w =
    Ok (tt, {|
      w_heap := <[l := None]> (h ++ output_block (zlen out) out);
      w_conn := set_ssl (Some (Some ssl3)) (w_conn w);
      w_requests := w_requests w;
      w_trace := w_trace w ++ reply_events (length h) out
    |}).
Proof.
  intros Hbuf Hlog Hssl Hp Hl Hcs Hsz Hwr Hn2 Hnt Hn3 h.
  assert (cells_at h (Heap l 0) cs) as Hat.
  { eapply cells_at_heap; [exact Hl|]. apply slice_Some. by exists [], rest. }
  assert (zlen cs = taken ssl (zlen (cs ++ []))) as Ht.
  { unfold taken. rewrite app_nil_r, decide_True; lia. }
  assert (cs <> []) as Hne by (intros ->; cbn in Hcs; lia).
  assert (plain_read ssl = (0, [], ssl)) as Hpr by (unfold plain_read; by rewrite Hp).
  assert (input_written ssl cs = (n2, ssl2)) as Hiw
    by (unfold input_written; by rewrite decide_False).
  assert (cells_at h (Heap l 0) (cs ++ [])) as Hat' by by rewrite app_nil_r.
  pose proof (read_write_run ssl (Heap l 0) cs [] h 0 [] ssl n2 ssl2 n3 out ssl3 Hat' Hpr Ht
    Hiw Hnt (fun Hn => False_ind _ (Hn Hp)) (fun _ => Hn2) (fun _ => Hn3)) as Hrun.
  cbv zeta in Hrun. rewrite Hp, app_nil_r in Hrun.
  change (output_block 0 []) with (@nil (option block)) in Hrun.
  rewrite !(decide_True (P := 0 = 0)), app_nil_r in Hrun by done.
  unfold on_read_cb, on_read. erewrite bind_run by (by apply log_off).
  rewrite decide_False by lia. erewrite bind_run by (apply conn_run). cbv beta.
  rewrite Hssl, u64_small by lia. cbn [ssl_loop buf_base].
  erewrite bind_run.
  2:{ erewrite bind_run.
      2:{ unfold the_ssl. erewrite bind_run by (apply conn_run). cbv beta. by rewrite Hssl. }
      erewrite bind_run by (apply on_heap_run; exact Hrun). cbv beta iota.
      erewrite bind_run by (apply upd_run).
      cbn [rw_read_output rw_read_output_size rw_write_output rw_write_output_size rw_read_size].
      rewrite (decide_False (P := Null <> Null /\ _)) by naive_solver. rewrite bind_ret.
      erewrite bind_run by (by apply send_output_run).
      rewrite decide_False by lia. reflexivity. }
  cbn [w_heap w_conn w_requests w_trace set_w_heap set_w_conn]. unfold free_buffer.
  cbn [buf_base]. erewrite on_heap_run; [reflexivity|].
  unfold delete_chars, block_at. cbn [w_heap].
  by rewrite (lookup_app_l_Some _ _ _ _ Hl).
Qed.

(** ** Witness

    The last bytes of a handshake arrive: the session is finished and holds three
    bytes for the application, and the connection still waits for the handshake. *)
#[local] Existing Instances exact_allocator linux_uv null_openssl silent_client.

Definition finishing : null_ssl := {|
  to_app := []; to_net := Some <$> [9]; hello := true; waiting := false
|}.
Definition finished : null_ssl := {|
  to_app := Some <$> [1; 2; 3]; to_net := []; hello := true; waiting := false
|}.
Definition finishing_world : world :=
  fresh_world [Some (Some <$> [1; 2; 3])]
    (set_state CLIENT_STATE_CONNECTED (set_ssl (Some (Some finishing)) plain_connection)) [].

Theorem tls_read_buffered_witness :
  exists w, on_read_cb 1 3 false {| buf_base := Heap 0 0; buf_len := 3 |} finishing_world =
      Ok (tt, w) /\
    state_ (w_conn w) = CLIENT_STATE_CONNECTED /\ ssl_ (w_conn w) = Some (Some finished) /\
    BIO_ctrl_pending_ssl finished = 3 /\ SSL_is_init_finished finished = true /\
    w_trace w = [EvWrite {| buf_base := Heap 1 0; buf_len := 1 |} [Some 9]].
Proof.
  pose (took := {| to_app := Some <$> [1; 2; 3]; to_net := Some <$> [9]; hello := true;
                   waiting := false |}).
  eexists. split.
  { change 3 with (zlen (Some <$> [1; 2; 3] : block)) at 1.
    refine (@tls_read_buffered exact_allocator linux_uv null_openssl null_laws silent_client
      0 false 0 3 finishing_world finishing (Some <$> [1; 2; 3]) [] 3 took 1 [Some 9] finished _ _ _ _ _ _ _ _ _ _ _);
      first [reflexivity | by left | cbn; unfold bio_room; lia]. }
  split_and!; reflexivity.
Defined.

(** The session holds the plaintext of READY and has a byte to send. *)
Definition ready_session : null_ssl := {|
  to_app := frame_cells ready_frame; to_net := [Some 9]; hello := true; waiting := false
|}.
Definition fed_session : null_ssl := {|
  to_app := Some <$> [1; 2; 3]; to_net := []; hello := true; waiting := false
|}.
Definition tls_reading (ssl : null_ssl) : world :=
  fresh_world [Some (Some <$> [1; 2; 3])]
    (set_state CLIENT_STATE_SUPPORTED (set_ssl (Some (Some ssl)) plain_connection)) [].

Theorem tls_read_refines_witness :
  observe (on_read_cb 4 3 false {| buf_base := Heap 0 0; buf_len := 3 |}
             (tls_reading ready_session))
    (fun w => (state_ (w_conn w), ssl_ (w_conn w), w_trace w)) =
  Ok (CLIENT_STATE_READY, Some (Some fed_session),
      [EvWrite {| buf_base := Heap 2 0; buf_len := 1 |} [Some 9]]).
Proof.
  pose proof (@tls_read_refines exact_allocator linux_uv null_openssl null_laws silent_client
    4 4 false 0 3 (Some <$> [1; 2; 3]) [] ready_session
    [{| ch_size := 8; ch_plain := frame_cells ready_frame; ch_reply := [Some 9];
        ch_session := fed_session |}] (tls_reading ready_session)
    (silent_client_ok 0) (message_off_default 0) eq_refl eq_refl eq_refl eq_refl
    (le_n 4)) as Hr.
  etransitivity; [exact (f_equal (fun o => observe o _) Hr)|]. vm_compute. reflexivity.
Defined.

(** The peer has closed the TLS connection and sent more. *)
Definition closed_session : null_ssl := {|
  to_app := [Some 23]; to_net := []; hello := true; waiting := true
|}.

(** The flag that would stop the looks at the handshake. *)
Definition set_handshake_done (c : ClientConnection) : ClientConnection := {|
  state_ := state_ c; incomming_ := incomming_ c; stream_storage_ := stream_storage_ c;
  connect_callback_ := connect_callback_ c; keyspace_callback_ := keyspace_callback_ c;
  prepare_callback_ := prepare_callback_ c; log_callback_ := log_callback_ c;
  address_ := address_ c; address_string_ := address_string_ c;
  address_family_ := address_family_ c; hostname_ := hostname_ c; port_ := port_ c;
  resolver_hints_ := resolver_hints_ c; ssl_ := ssl_ c; ssl_handshake_done_ := true;
  compression_ := compression_ c; cql_version_ := cql_version_ c
|}.

