(* ===== verification/Exchange.v ===== *)
(** * A request, from one end to the other

    [exec] on a connection, the peer that decodes the frame, and its answer: the
    theorems of the parts put together. *)

From S2P Require Import Prelude Memory StdMap Common Serialization Body Query Result.
From S2P Require Import Message StreamStorage Request SslSession HeapEffects Connection.
From S2P Require Import ConnectionFacts Receive Lifecycle Answers.

(** The request that [exec] makes. *)
Definition made (d : list Z) (callback : bool) : CallerRequest := {|
  rq_flag := false; rq_error := None; rq_data := d; rq_result := None;
  rq_callback := callback; rq_use_local_loop := false
|}.

Section exchange.
Context `{Allocator} `{LibUV} `{OpenSSL} `{!Client}.
Implicit Types (w : world).

(** A stream that can be taken. *)
Lemma free_stream (c : ClientConnection) :
  storage_inv CQL_STREAM_ID_MAX (stream_storage_ c) ->
  1 < available_streams CQL_STREAM_ID_MAX (stream_storage_ c) ->
  exists id, next_stream c id /\
    allocated_streams_ (stream_storage_ c) !! Z.to_nat id <> Some true.
Proof.
  intros Hinv Hav. pose proof (inv_index _ _ Hinv) as Hix. unfold available_streams in Hav.
  rewrite u64_small in Hav by (pose proof max_64; lia).
  destruct (stack_top CQL_STREAM_ID_MAX max_pos _ Hinv) as (id & Htop & Hfree & Hid & Hlast).
  exists id. split; [|exact Hfree]. split; [done|]. split; [done|]. lia.
Qed.

Lemma exec_run w m b cs d callback id :
  log_callback_ (w_conn w) = false -> next_stream (w_conn w) id ->
  m_body m = Some b -> wire b (w_heap w) cs -> 0 <= m_opcode m <= 12 ->
  8 + zlen cs + excess b < 2147483648 ->
  let n := 8 + (zlen cs + excess b) in
  let m' := set_m_length (n - 8) (set_m_stream id m) in
  let i := length (w_requests w) in
  exists blk,
    exec (Ok d) m callback w =
      Ok ((i, m'), sent id (Some i) n blk (set_w_requests (w_requests w ++ [made d callback]) w)) /\
    take (Z.to_nat n) blk =
      (Some <$> header_of m') ++ cs ++ replicate (Z.to_nat (excess b)) None.
Proof.
  intros Hlog Hs Hb Hw Ho Hn n m' i.
  set (w1 := set_w_requests (w_requests w ++ [made d callback]) w).
  destruct (send_message_run w1 m b cs (Some i) id Hlog Hs Hb Hw Ho Hn) as (blk & Hrun & Hblk).
  exists blk. split; [|exact Hblk]. unfold exec.
  erewrite bind_run by reflexivity. cbn [w_requests]. fold i.
  erewrite bind_run.
  2:{ apply request_at_run. cbn [w_requests set_w_requests]. apply list_lookup_middle. done. }
  erewrite bind_run by reflexivity.
  match goal with |- _ ?w2 = _ => assert (w2 = w1) as -> end.
  { subst w1. unfold set_w_requests. cbn [w_heap w_conn w_requests w_trace]. f_equal.
    by rewrite insert_app_r_alt, Nat.sub_diag. }
  erewrite bind_run by exact Hrun. reflexivity.
Qed.
End exchange.

(** ** Theorem *)

(** C6: the whole way of a request.  [exec] on a connection that is free to send makes one
    request and has one frame written.  A peer that is fed the frame gets a message
    with the opcode and the length of the one that was sent.  And when the peer's
    answer, a RESULT frame on the stream of that message, is read, the request, and
    no other, has the decoded result, its waiting threads are notified once, and the
    stream is free again. *)
Theorem request_exchange `{Allocator} `{LibUV} `{OpenSSL} `{!Client}
    fuel w m b cs d callback :
  buf_init_ok -> plain (w_conn w) -> incomming_ (w_conn w) = Message_default ->
  prepare_callback_ (w_conn w) = false ->
  storage_inv CQL_STREAM_ID_MAX (stream_storage_ (w_conn w)) ->
  1 < available_streams CQL_STREAM_ID_MAX (stream_storage_ (w_conn w)) ->
  m_body m = Some b -> wire b (w_heap w) cs -> 0 <= m_opcode m <= 12 ->
  8 + zlen cs + excess b < 2147483648 ->
  let i := length (w_requests w) in
  let len := zlen cs + excess b in
  exists m' w1 buf frame,
    exec (Ok d) m callback w = Ok ((i, m'), w1) /\
    w_requests w1 = w_requests w ++ [made d callback] /\
    w_trace w1 = w_trace w ++ [EvWrite buf frame] /\ zlen frame = 8 + len /\
    forall hp l b0 ns mp hp',
      hp !! l = Some (Some frame) -> allocate_body (m_opcode m) = mret b0 ->
      feed Message_default [(Heap l 0, 8 + len)] hp = Ok ((ns, mp), hp') ->
      m_opcode mp = m_opcode m /\ m_length mp = len /\
      forall f rb bytes suggested,
        result_frame f rb -> result_wf rb -> result_kind rb <> CQL_RESULT_KIND_SET_KEYSPACE ->
        fr_stream f = m_stream mp -> Some <$> bytes = frame_cells f ->
        zlen bytes <= suggested < 2147483648 ->
        exists mr r h w2,
          deliver fuel suggested bytes w1 = Ok (tt, w2) /\
          w_requests w2 = w_requests w ++ [answered mr (made d callback)] /\
          m_body mr = Some (BResult r) /\
          result_decoded h (Heap (length (w_heap w1) + 1) 0) BodyResult_default rb r /\
          w_trace w2 = w_trace w1 ++ EvNotifyAll i :: (if callback then [EvQueueWork i] else []) /\
          available_streams CQL_STREAM_ID_MAX (stream_storage_ (w_conn w2)) =
            available_streams CQL_STREAM_ID_MAX (stream_storage_ (w_conn w)).
Proof.
  intros Hbuf Hpl Hinc Hpc Hinv Hav Hb Hw Ho Hn i len. pose proof (excess_nonneg b).
  destruct (free_stream _ Hinv Hav) as (id & Hnext & Hfree).
  pose proof Hnext as (_ & _ & Hid). change (Z.of_nat CQL_STREAM_ID_MAX) with 127 in Hid.
  destruct (exec_run w m b cs d callback id (proj1 Hpl) Hnext Hb Hw Ho Hn) as (blk & Hrun & Hblk).
  cbv zeta in Hrun, Hblk. fold i len in Hrun, Hblk. replace (8 + len - 8) with len in * by lia.
  eexists _, _, _, _. split; [exact Hrun|]. split; [done|]. split; [done|].
  rewrite Hblk. split.
  { rewrite !length_app, length_fmap, length_replicate.
    change (length (header_of _)) with 8%nat. lia. }
  intros hp l b0 ns mp hp' Hl Hb0 Hfeed.
  rewrite (feed_frame hp l (m_version m) (m_flags m) id (m_opcode m) len
    (cs ++ replicate (Z.to_nat (excess b)) None) b0) in Hfeed;
    [| |rewrite length_app, length_replicate; lia|lia
      |by replace (u8 (m_opcode m)) with (m_opcode m) by int_solve].
  2:{ eapply cells_at_heap; [exact Hl|]. apply slice_Some. exists [], [].
      by rewrite app_nil_r. }
  destruct (consume b0 _ _ _) as [[[ok b'] h2]|f]; [|done]. injection Hfeed as <- <- <-.
  cbn [m_opcode m_length m_stream completed set_m_ready headed].
  rewrite i8_small by lia. split; [int_solve|]. split; [done|].
  intros f rb bytes suggested Hf Hwf Hk Hs Hbytes Hsz.
  destruct (sent_answered fuel (set_w_requests (w_requests w ++ [made d callback]) w) i
    (made d callback) id (8 + len) blk suggested f rb bytes)
    as (mr & r & h & w2 & Hd & Hrq & _ & Hmb & Hdec & _ & Htr & Hav2); try done.
  { cbn [w_requests set_w_requests]. by apply list_lookup_middle. }
  exists mr, r, h, w2. split_and!; try done.
  rewrite Hrq. cbn [w_requests set_w_requests]. by rewrite insert_app_r_alt, Nat.sub_diag.
Qed.

(** ** Witness

    A STARTUP is sent; the peer decodes it and answers with a VOID result. *)
#[local] Existing Instances exact_allocator linux_uv null_openssl silent_client.

Definition idle_world : world := fresh_world [] ready_connection [].

(** The one frame that a call wrote. *)
Definition written {A} (r : outcome (A * world)) : option block :=
  match r with
  | Ok (_, w) => match w_trace w with [EvWrite _ cs] => Some cs | _ => None end
  | Fault _ => None
  end.

Theorem request_exchange_witness :
  exists m' w1 mr w2,
    exec (Ok []) startup_message true idle_world = Ok ((0%nat, m'), w1) /\
    deliver 0 64 (wire_header 0x82 0 1 8 4 ++ be 4 1) w1 = Ok (tt, w2) /\
    w_requests w2 = [answered mr (made [] true)].
Proof.
  destruct (request_exchange 0 idle_world startup_message (BStartup BodyStartup_default)
    startup_cells [] true) as (m' & w1 & buf & frame & Hrun & _ & Htr & _ & Hpeer);
    [by intros p n|by split|reflexivity|reflexivity|apply (stream_one ready_connection eq_refl)
    |reflexivity|reflexivity|reflexivity|vm_compute; split; discriminate|reflexivity|].
  assert (Some frame = Some ((Some <$> wire_header 2 0 1 1 22) ++ startup_cells)) as Hframe.
  { transitivity (written (exec (Ok []) startup_message true idle_world)).
    - rewrite Hrun. unfold written. by rewrite Htr.
    - vm_compute. reflexivity. }
  apply (inj Some) in Hframe as ->.
  destruct (Hpeer [Some ((Some <$> wire_header 2 0 1 1 22) ++ startup_cells)] 0%nat
    (BStartup BodyStartup_default) [30] (completed 2 0 1 1 22 30 true
      (BStartup BodyStartup_default) 1 22) _ eq_refl eq_refl ltac:(vm_compute; reflexivity))
    as (_ & _ & Hanswer).
  destruct (Hanswer void_frame RVoid (wire_header 0x82 0 1 8 4 ++ be 4 1) 64)
    as (mr & r & h & w2 & Hd & Hrq & _);
    [split; reflexivity|exact I|vm_compute; discriminate|reflexivity|vm_compute; reflexivity
    |vm_compute; split; [discriminate|reflexivity]|].
  exists m', w1, mr, w2. split; [exact Hrun|]. split; [exact Hd|exact Hrq].
Defined.
