(* ===== verification/Pipeline.v ===== *)
(** * Many requests at a time

    Several calls of [exec] before any answer, and the answers in any order and in
    any number of reads: every request gets the answer to its own frame.  The
    requests and the answers are folded from one step each: [sent_all] says what a
    list of calls leaves, [answered_all] what a list of answers does, and both
    compose. *)

From S2P Require Import Prelude Memory StdMap Common Serialization Body Query Result.
From S2P Require Import Message StreamStorage Request SslSession HeapEffects Connection.
From S2P Require Import ConnectionFacts Receive Lifecycle Answers Exchange.

(** Old blocks are as they were. *)
Definition kept (h h' : heap) : Prop :=
  (length h <= length h')%nat /\ forall k, (k < length h)%nat -> h' !! k = h !! k.

#[export] Instance kept_preorder : PreOrder kept.
Proof.
  split; [done|]. intros h1 h2 h3 [L1 K1] [L2 K2]. split; [lia|].
  intros k Hk. rewrite K2 by lia. by apply K1.
Qed.

Lemma kept_app h l : kept h (h ++ l).
Proof. split; [rewrite length_app; lia|]. intros k Hk. by apply lookup_app_l. Qed.

(** What a body is encoded to is not changed by new blocks. *)
Lemma wire_alloc `{Allocator} (b : body) h cs x : wire b h cs -> wire b (h ++ [x]) cs.
Proof.
  cbn. destruct b; cbn; try done.
  - intros (msg & Hm & Hn). exists msg. split; [by apply cells_at_alloc|done].
  - intros (vals & Hv & Hcs). exists vals. split; [|done].
    eapply Forall2_impl; [exact Hv|]. intros v bs [Ha Hl].
    split; [by apply cells_at_alloc|done].
Qed.

Lemma wire_app `{Allocator} (b : body) h cs l : wire b h cs -> wire b (h ++ l) cs.
Proof.
  revert h. induction l as [|x l IH]; intros h Hw; [by rewrite app_nil_r|].
  rewrite (cons_middle x), app_assoc. by apply IH, wire_alloc.
Qed.

(** ** Calls and answers *)

(** What the user hands to [exec]. *)
Record call := {
  call_data     : list Z;
  call_message  : Message;
  call_callback : bool
}.

(** A RESULT frame of the server, for a request. *)
Record answer := {
  an_request : nat;
  an_frame   : frame;
  an_body    : result_body
}.

Section pipeline.
Context `{Allocator} `{LibUV} `{OpenSSL} `{!Client}.
Implicit Types (w : world) (c : call) (a : answer).

(** The constructor of a request makes a string of NULL; the calls here are on an
    implementation that returns from it, with [call_data]. *)
Fixpoint exec_all (calls : list call) : prog world (list (nat * Message)) :=
  match calls with
  | [] => mret []
  | c :: calls =>
      r ← exec (Ok (call_data c)) (call_message c) (call_callback c);
      rs ← exec_all calls;
      mret (r :: rs)
  end.

Fixpoint deliver_all (fuel : nat) (suggested : Z) (reads : list (list Z)) : prog world unit :=
  match reads with
  | [] => mret tt
  | bytes :: reads => deliver fuel suggested bytes ;; deliver_all fuel suggested reads
  end.

(** A message that can be sent. *)
Definition call_ok (h : heap) c : Prop :=
  exists b cs, m_body (call_message c) = Some b /\ wire b h cs /\
    0 <= m_opcode (call_message c) <= 12 /\ 8 + zlen cs + excess b < 2147483648.

(** Request [i] is on stream [id]. *)
Definition on_stream w (id : Z) (i : nat) : Prop :=
  0 <= id < 127 /\
  allocated_streams_ (stream_storage_ (w_conn w)) !! Z.to_nat id = Some true /\
  storage_ (stream_storage_ (w_conn w)) !! Z.to_nat id = Some (Some (Some i)).

Definition made_for c : CallerRequest := made (call_data c) (call_callback c).

(** What is written for a call: the header of the message with the stream it was given
    and the length of its body, and the body. *)
Definition frame_written (h : heap) (cr : call * (nat * Message)) (e : event) : Prop :=
  let '(c, (_, m)) := cr in
  exists buf b cs, m_body (call_message c) = Some b /\ wire b h cs /\
    m = set_m_length (zlen cs + excess b) (set_m_stream (m_stream m) (call_message c)) /\
    e = EvWrite buf ((Some <$> header_of m) ++ cs ++ replicate (Z.to_nat (excess b)) None).

(** ** Sending *)

(** What the calls leave: a request each, in order, on a stream each. *)
Record sent_all w (calls : list call) (rs : list (nat * Message)) w' : Prop := {
  sa_serving  : serving w';
  sa_heap     : exists l, w_heap w' = w_heap w ++ l;
  sa_requests : w_requests w' = w_requests w ++ (made_for <$> calls);
  sa_numbers  : rs.*1 = seq (length (w_requests w)) (length calls);
  sa_streams  : Forall (fun r => on_stream w' (m_stream r.2) r.1) rs;
  sa_old      : forall id i, on_stream w id i -> on_stream w' id i;
  sa_left     : streams_left w' = streams_left w - zlen calls;
  sa_trace    : exists es, w_trace w' = w_trace w ++ es /\
                  Forall2 (frame_written (w_heap w')) (zip calls rs) es
}.

Lemma streams_left_index w :
  storage_inv CQL_STREAM_ID_MAX (stream_storage_ (w_conn w)) ->
  streams_left w = 127 - available_streams_index_ (stream_storage_ (w_conn w)).
Proof.
  intros Hinv. pose proof (inv_index _ _ Hinv) as Hix.
  unfold streams_left, available_streams. apply u64_small.
  change (Z.of_nat CQL_STREAM_ID_MAX) with 127 in *. lia.
Qed.

(** A stream that is taken for another request stays so. *)
Lemma on_stream_taken w w' id i id' i' :
  stream_storage_ (w_conn w') = stream_taken (stream_storage_ (w_conn w)) id (Some i) ->
  allocated_streams_ (stream_storage_ (w_conn w)) !! Z.to_nat id <> Some true ->
  on_stream w id' i' -> on_stream w' id' i'.
Proof.
  intros Hs Hfree (Hb & Ha & Hv). split; [done|]. rewrite Hs. cbn.
  assert (Z.to_nat id <> Z.to_nat id') by (intros E; by rewrite E in Hfree).
  by rewrite !list_lookup_insert_ne.
Qed.

Lemma exec_sent w c :
  serving w -> 1 < streams_left w -> call_ok (w_heap w) c ->
  exists r w', exec (Ok (call_data c)) (call_message c) (call_callback c) w = Ok (r, w') /\
    sent_all w [c] [r] w'.
Proof.
  intros Hsv Hleft (b & cs & Hb & Hw & Ho & Hn). destruct Hsv as [Hpl Hinc Hpc Hinv].
  destruct (free_stream _ Hinv Hleft) as (id & Hnext & Hfree).
  pose proof Hnext as (_ & Htop & Hid). change (Z.of_nat CQL_STREAM_ID_MAX) with 127 in Hid.
  destruct (exec_run w (call_message c) b cs (call_data c) (call_callback c) id (proj1 Hpl)
    Hnext Hb Hw Ho Hn) as (blk & Hrun & Hblk).
  cbv zeta in Hrun, Hblk.
  replace (8 + (zlen cs + excess b) - 8) with (zlen cs + excess b) in * by lia.
  eexists _, _. split; [exact Hrun|].
  pose proof (inv_flags _ _ Hinv) as Hfl. pose proof (inv_values _ _ Hinv) as Hva.
  pose proof (streams_left_index w Hinv) as Hix.
  assert (storage_inv CQL_STREAM_ID_MAX
    (stream_taken (stream_storage_ (w_conn w)) id (Some (length (w_requests w))))) as Hinv'.
  { apply stream_taken_inv; first [apply max_pos | apply max_64 | done | idtac].
    change (Z.of_nat CQL_STREAM_ID_MAX) with 127. lia. }
  constructor.
  - by constructor.
  - by eexists.
  - done.
  - done.
  - apply Forall_singleton. cbn. split; [lia|]. cbn.
    split; apply list_lookup_insert_eq; rewrite ?Hfl, ?Hva; unfold CQL_STREAM_ID_MAX; lia.
  - intros id' i'. by eapply on_stream_taken.
  - rewrite streams_left_index, Hix by done. cbn. lia.
  - eexists. split; [done|]. constructor; [|constructor].
    eexists _, b, cs. split; [done|]. split; [by apply wire_app|].
    split; [done|]. by rewrite Hblk.
Qed.

Lemma frame_written_app h l cr e : frame_written h cr e -> frame_written (h ++ l) cr e.
Proof.
  destruct cr as [c [i m]]. intros (buf & b & cs & Hb & Hw & Hrest).
  exists buf, b, cs. split; [done|]. split; [by apply wire_app|done].
Qed.

Lemma sent_all_cons w c calls r rs w1 w2 :
  sent_all w [c] [r] w1 -> sent_all w1 calls rs w2 -> sent_all w (c :: calls) (r :: rs) w2.
Proof.
  intros [_ [l1 Hh1] Hr1 Hn1 Hs1 Ho1 Hl1 (es1 & Ht1 & Hf1)]
    [Hv2 [l2 Hh2] Hr2 Hn2 Hs2 Ho2 Hl2 (es2 & Ht2 & Hf2)].
  constructor.
  - done.
  - exists (l1 ++ l2). by rewrite Hh2, Hh1, app_assoc.
  - by rewrite Hr2, Hr1, <- app_assoc.
  - replace (length (w_requests w1)) with (S (length (w_requests w))) in Hn2
      by (rewrite Hr1, length_app; cbn; lia).
    cbn in Hn1 |- *. injection Hn1 as Hn1. by rewrite Hn1, <- Hn2.
  - apply Forall_cons in Hs1 as [Hs1 _]. constructor; [by apply Ho2|done].
  - intros id i Hi. by apply Ho2, Ho1.
  - rewrite Hl2, Hl1. cbn [length]. lia.
  - exists (es1 ++ es2). split; [by rewrite Ht2, Ht1, app_assoc|].
    change (zip (c :: calls) (r :: rs)) with ([(c, r)] ++ zip calls rs). apply Forall2_app; [|done].
    rewrite Hh2. eapply Forall2_impl; [exact Hf1|]. intros. by apply frame_written_app.
Qed.

Lemma exec_all_sent w calls :
  serving w -> zlen calls < streams_left w -> Forall (call_ok (w_heap w)) calls ->
  exists rs w', exec_all calls w = Ok (rs, w') /\ sent_all w calls rs w'.
Proof.
  revert w. induction calls as [|c calls IH]; intros w Hsv Hleft Hok.
  - exists [], w. split; [done|]. constructor; cbn; try done.
    + exists []. by rewrite app_nil_r.
    + by rewrite app_nil_r.
    + lia.
    + exists []. rewrite app_nil_r. by split.
  - apply Forall_cons in Hok as [Hc Hok]. cbn [length] in Hleft.
    destruct (exec_sent w c Hsv) as (r & w1 & Hrun & Hs1); [lia|done|].
    destruct (IH w1) as (rs & w2 & Hrun2 & Hs2).
    + apply Hs1.
    + rewrite (sa_left _ _ _ _ Hs1). cbn. lia.
    + destruct (sa_heap _ _ _ _ Hs1) as [l ->]. eapply Forall_impl; [exact Hok|].
      intros c' (b & cs & Hb & Hw & Hrest). exists b, cs. split; [done|].
      split; [by apply wire_app|done].
    + exists (r :: rs), w2. split; [|by eapply sent_all_cons].
      cbn [exec_all]. erewrite bind_run by exact Hrun. by erewrite bind_run by exact Hrun2.
Qed.
(** ** Receiving *)

Definition answer_ok a : Prop :=
  result_frame (an_frame a) (an_body a) /\ result_wf (an_body a) /\
  result_kind (an_body a) <> CQL_RESULT_KIND_SET_KEYSPACE.

(** The request of the answer waits for it. *)
Definition pending w a : Prop :=
  on_stream w (fr_stream (an_frame a)) (an_request a) /\
  exists q, w_requests w !! an_request a = Some q /\ rq_use_local_loop q = false.

(** The request, which was [q], has the answer: the message that came on its stream,
    whose body is decoded from a block that was made after the first [lo]. *)
Definition answered_with (lo : nat) w (q : CallerRequest) a : Prop :=
  exists m r h k, w_requests w !! an_request a = Some (answered m q) /\
    m_stream m = fr_stream (an_frame a) /\ m_body m = Some (BResult r) /\
    result_decoded h (Heap k 0) BodyResult_default (an_body a) r /\
    (lo <= k < length (w_heap w))%nat /\ w_heap w !! k = h !! k.

(** The waiting threads are notified, and the callback goes to the worker threads. *)
Definition notes w a : list event :=
  EvNotifyAll (an_request a) ::
  match w_requests w !! an_request a with
  | Some q => if rq_callback q then [EvQueueWork (an_request a)] else []
  | None => []
  end.

Record answered_all w (l : list answer) w' : Prop := {
  aa_serving : serving w';
  aa_heap    : kept (w_heap w) (w_heap w');
  aa_answers : Forall (fun a => exists q, w_requests w !! an_request a = Some q /\
                         answered_with (length (w_heap w)) w' q a) l;
  aa_others  : forall i, i ∉ an_request <$> l -> w_requests w' !! i = w_requests w !! i;
  aa_streams : forall id i, on_stream w id i -> i ∉ an_request <$> l -> on_stream w' id i;
  aa_left    : streams_left w' = streams_left w + zlen l;
  aa_trace   : w_trace w' = w_trace w ++ concat (notes w <$> l)
}.

Lemma answered_all_nil w : serving w -> answered_all w [] w.
Proof.
  intros Hsv. constructor; cbn; try done; [lia|by rewrite app_nil_r].
Qed.

Lemma answered_with_kept lo lo' w w' q a :
  (lo' <= lo)%nat -> kept (w_heap w) (w_heap w') ->
  w_requests w' !! an_request a = w_requests w !! an_request a ->
  answered_with lo w q a -> answered_with lo' w' q a.
Proof.
  intros Hlo [Hlen Hkept] Hrq (m & r & h & k & Hq & Hs & Hb & Hd & Hk & Hh).
  exists m, r, h, k. split_and!; try done; [by rewrite Hrq|lia..|]. rewrite Hkept by lia. done.
Qed.

(** The answers that come later are to other requests. *)
Lemma answered_all_app w l1 l2 w1 w2 :
  NoDup (an_request <$> (l1 ++ l2)) ->
  answered_all w l1 w1 -> answered_all w1 l2 w2 -> answered_all w (l1 ++ l2) w2.
Proof.
  rewrite fmap_app. intros (_ & Hdisj & _)%NoDup_app A1 A2.
  assert (forall a, a ∈ l2 -> an_request a ∉ an_request <$> l1) as Hl2.
  { intros a Ha Hin. apply (Hdisj _ Hin). by apply list_elem_of_fmap_2. }
  constructor.
  - apply A2.
  - etransitivity; [apply A1|apply A2].
  - apply Forall_app. split; apply Forall_forall; intros a Ha.
    + destruct (proj1 (Forall_forall _ _) (aa_answers _ _ _ A1) a Ha) as (q & Hq & Hans).
      exists q. split; [done|]. eapply answered_with_kept; [done|apply A2| |exact Hans].
      apply (aa_others _ _ _ A2). by apply Hdisj, list_elem_of_fmap_2.
    + destruct (proj1 (Forall_forall _ _) (aa_answers _ _ _ A2) a Ha) as (q & Hq & Hans).
      exists q. rewrite (aa_others _ _ _ A1) in Hq by auto. split; [done|].
      eapply answered_with_kept; [|reflexivity|done|exact Hans]. apply (aa_heap _ _ _ A1).
  - intros i Hi. rewrite fmap_app, not_elem_of_app in Hi.
    rewrite (aa_others _ _ _ A2), (aa_others _ _ _ A1); tauto.
  - intros id i Hs Hi. rewrite fmap_app, not_elem_of_app in Hi.
    apply (aa_streams _ _ _ A2); [|tauto]. apply (aa_streams _ _ _ A1); tauto.
  - rewrite (aa_left _ _ _ A2), (aa_left _ _ _ A1), length_app. lia.
  - rewrite (aa_trace _ _ _ A2), (aa_trace _ _ _ A1), fmap_app, concat_app, app_assoc.
    f_equal. f_equal. apply list_fmap_ext. intros k a Ha. unfold notes.
    rewrite (aa_others _ _ _ A1); [done|]. apply Hl2. by eapply list_elem_of_lookup_2.
Qed.

Lemma pending_after w l w' a :
  answered_all w l w' -> an_request a ∉ an_request <$> l -> pending w a -> pending w' a.
Proof.
  intros A Ha [Hs (q & Hq & Hloc)]. split; [by apply (aa_streams _ _ _ A)|].
  exists q. by rewrite (aa_others _ _ _ A).
Qed.

Lemma receive_answer ev size remaining w a :
  serving w -> pending w a -> answer_ok a ->
  exists w', receive_frame ev (an_frame a) size remaining w = Ok (tt, w') /\
    answered_all w [a] w'.
Proof.
  intros [Hpl Hinc Hpc Hinv] [(Hid & Ha & Hv) (q & Hq & Hloc)] (Hf & Hwf & Hk).
  destruct (receive_result ev (an_frame a) (an_body a) size remaining w (proj1 Hpl) Hf Hwf)
    as (blk & r & m & Hrun & Hms & Hmb & Hd); [lia|].
  cbv zeta in Hrun, Hd.
  rewrite (on_result_answer _ m r (an_request a) q) in Hrun;
    [|done|done|done|done|by rewrite (decoded_kind _ _ _ _ _ Hd)
     |rewrite Hms; change (Z.of_nat CQL_STREAM_ID_MAX) with 127; lia
     |by rewrite Hms|by rewrite Hms|done|done].
  eexists. split; [exact Hrun|]. rewrite Hms.
  assert (1 <= fr_stream (an_frame a)) as Hid1.
  { destruct (decide (fr_stream (an_frame a) = 0)) as [E|]; [|lia].
    rewrite E in Ha. by apply (inv_zero _ _ Hinv) in Ha. }
  pose proof (stream_released_inv CQL_STREAM_ID_MAX max_pos _ _ Hinv Ha Hid1) as Hinv'.
  pose proof (inv_flags _ _ Hinv) as Hfl.
  constructor.
  - by constructor.
  - apply kept_app.
  - apply Forall_singleton. exists q. split; [done|].
    exists m, r, (w_heap w ++ [Some blk]), (length (w_heap w)). split_and!; try done.
    + apply list_lookup_insert_eq. by eapply lookup_lt_Some.
    + cbn. rewrite length_app. cbn. lia.
  - intros i Hi. cbn. apply list_lookup_insert_ne. set_solver.
  - intros id i (Hb & Hal & Hst) Hi. split; [done|]. cbn.
    assert (Z.to_nat (fr_stream (an_frame a)) <> Z.to_nat id) as Hne.
    { intros E. rewrite <- E, Hv in Hst. injection Hst as <-. apply Hi. cbn. set_solver. }
    by rewrite list_lookup_insert_ne.
  - rewrite !streams_left_index by done. cbn. lia.
  - cbn. rewrite app_nil_r. unfold notes. by rewrite Hq.
Qed.

Lemma cells_at_kept h h' l off cs :
  kept h h' -> (l < length h)%nat -> cells_at h (Heap l off) cs -> cells_at h' (Heap l off) cs.
Proof.
  intros [_ Hk] Hl. unfold cells_at, read_cells, target, block_at. rewrite Hk by done.
  case_decide; [by intros [= <-]|]. repeat case_match; naive_solver.
Qed.

(** The bytes of a list of answers. *)
Definition answer_cells (l : list answer) : block :=
  concat ((fun a => frame_cells (an_frame a)) <$> l).

(** The loop of [consume] over a buffer of answers, in block [k]. *)
Lemma consume_answers ev k size l n off w :
  serving w -> Forall (pending w) l -> Forall answer_ok l -> NoDup (an_request <$> l) ->
  cells_at (w_heap w) (Heap k off) (answer_cells l) -> (k < length (w_heap w))%nat ->
  zlen (answer_cells l) < 2147483648 -> (length l < n)%nat ->
  exists w', consume_loop ev n (Heap k off) size (zlen (answer_cells l)) w = Ok (tt, w') /\
    answered_all w l w'.
Proof.
  revert n off w. induction l as [|a l IH]; intros n off w Hsv Hp Hok Hnd Hat Hk Hlen Hn.
  - exists w. split; [by destruct n|by apply answered_all_nil].
  - destruct n as [|n]; [lia|]. apply Forall_cons in Hp as [Hpa Hp], Hok as [Hoka Hok].
    change (answer_cells (a :: l)) with (frame_cells (an_frame a) ++ answer_cells l) in *.
    rewrite consume_loop_frame;
      [|apply Hsv|by eexists; rewrite (proj1 (proj1 Hoka))|done|done].
    destruct (receive_answer ev size (zlen (frame_cells (an_frame a) ++ answer_cells l)) w a
      Hsv Hpa Hoka) as (w1 & Hrun & A1).
    erewrite bind_run by exact Hrun. pose proof (aa_heap _ _ _ A1) as Hkept.
    apply cells_at_app in Hat as [_ Hat]. cbn [padd] in Hat.
    rewrite length_app, Nat2Z.inj_add in Hlen. cbn [length] in Hn.
    rewrite fmap_cons in Hnd. pose proof (NoDup_cons_1_1 _ _ Hnd) as Hfresh.
    destruct (IH n (off + zlen (frame_cells (an_frame a))) w1) as (w2 & Hrun2 & A2).
    + apply A1.
    + apply Forall_forall. intros a' Ha'. eapply pending_after; [exact A1| |].
      * cbn. rewrite list_elem_of_singleton. intros E. apply Hfresh. rewrite <- E.
        by apply list_elem_of_fmap_2.
      * by eapply Forall_forall in Hp.
    + done.
    + by apply NoDup_cons_1_2 in Hnd.
    + by eapply cells_at_kept.
    + destruct Hkept. lia.
    + lia.
    + lia.
    + exists w2. split; [exact Hrun2|]. by apply (answered_all_app w [a] l w1).
Qed.

(** A read that brings whole answers: the buffer is made before and deleted after. *)
Lemma deliver_answers fuel suggested bytes l w :
  buf_init_ok -> serving w -> Forall (pending w) l -> Forall answer_ok l ->
  NoDup (an_request <$> l) -> Some <$> bytes = answer_cells l ->
  zlen bytes <= suggested < 2147483648 ->
  exists w', deliver fuel suggested bytes w = Ok (tt, w') /\ answered_all w l w'.
Proof.
  intros Hbuf Hsv Hp Hok Hnd Hbytes Hsz. rewrite deliver_run by (done || apply Hsv).
  set (k := length (w_heap w)). set (w1 := set_w_heap _ w).
  assert (zlen bytes = zlen (answer_cells l)) as Hlen by (by rewrite <- Hbytes, length_fmap).
  pose proof (read_buffer_cells suggested bytes (w_heap w) (proj1 Hsz)) as Hat.
  rewrite Hbytes in Hat. rewrite Hlen in *.
  assert (length l <= length (answer_cells l))%nat as Hcount.
  { clear. induction l as [|a l IH]; [done|].
    change (answer_cells (a :: l)) with (frame_cells (an_frame a) ++ answer_cells l).
    pose proof (length_frame_cells (an_frame a)). rewrite length_app. cbn [length]. lia. }
  destruct (consume_answers (event_received fuel) k (zlen (answer_cells l)) l
    (S (Z.to_nat (zlen (answer_cells l)))) 0 w1) as (w2 & Hrun & A); try done.
  { destruct Hsv. by constructor. }
  { cbn. rewrite length_app. cbn. lia. }
  { lia. }
  { lia. }
  erewrite bind_run by exact Hrun. destruct A as [Hsv2 [Hl2 Hk2] Ha2 Ho2 Hs2 Hf2 Ht2].
  cbn [w1 w_heap set_w_heap] in Hl2, Hk2, Ha2. rewrite length_app in Hl2, Hk2, Ha2.
  cbn [length] in Hl2, Hk2, Ha2.
  assert (w_heap w2 !! k = Some (Some (read_buffer suggested bytes))) as Hbk.
  { rewrite Hk2 by (unfold k; lia). apply lookup_last. }
  eexists. split.
  { apply on_heap_run. unfold delete_chars, block_at. rewrite Hbk. reflexivity. }
  constructor; cbn [w_heap w_conn w_requests w_trace set_w_heap].
  - destruct Hsv2. by constructor.
  - split; [rewrite length_insert; lia|]. intros i Hi. fold k in Hi.
    rewrite list_lookup_insert_ne, Hk2, lookup_app_l by (unfold k in *; lia). done.
  - eapply Forall_impl; [exact Ha2|]. intros a (q & Hq & m & r & h & i & Hans).
    destruct Hans as (Hrq & Hms & Hmb & Hd & Hi & Hh). exists q. split; [exact Hq|].
    exists m, r, h, i. cbn [w_heap set_w_heap]. rewrite length_insert.
    split_and!; try done; [lia..|].
    rewrite list_lookup_insert_ne by (unfold k; lia). done.
  - exact Ho2.
  - exact Hs2.
  - exact Hf2.
  - exact Ht2.
Qed.

Lemma deliver_all_answers fuel suggested reads batches w :
  buf_init_ok -> serving w ->
  let l := concat batches in
  Forall (pending w) l -> Forall answer_ok l -> NoDup (an_request <$> l) ->
  Forall2 (fun bytes b => Some <$> bytes = answer_cells b /\ zlen bytes <= suggested)
    reads batches -> suggested < 2147483648 ->
  exists w', deliver_all fuel suggested reads w = Ok (tt, w') /\ answered_all w l w'.
Proof.
  intros Hbuf Hsv l. subst l. intros Hp Hok Hnd Hreads Hsz. revert w Hsv Hp Hok Hnd.
  induction Hreads as [|bytes b reads batches [Hb Hlen] Hreads IH]; intros w Hsv Hp Hok Hnd.
  - exists w. split; [done|by apply answered_all_nil].
  - cbn [concat] in *. apply Forall_app in Hp as [Hp1 Hp2], Hok as [Hok1 Hok2].
    pose proof Hnd as Hnd'. rewrite fmap_app in Hnd'.
    apply NoDup_app in Hnd' as (Hnd1 & Hdisj & Hnd2).
    destruct (deliver_answers fuel suggested bytes b w) as (w1 & Hrun & A1); try done.
    destruct (IH w1) as (w2 & Hrun2 & A2); [apply A1| |done|done|].
    + apply Forall_forall. intros a Ha. eapply pending_after; [exact A1| |].
      * intros Hin. apply (Hdisj _ Hin). by apply list_elem_of_fmap_2.
      * by eapply Forall_forall in Hp2.
    + exists w2. split; [|by eapply answered_all_app].
      cbn [deliver_all]. by erewrite bind_run by exact Hrun.
Qed.

Lemma streams_differ w (rs : list (nat * Message)) :
  Forall (fun r => on_stream w (m_stream r.2) r.1) rs -> NoDup rs.*1 ->
  NoDup ((fun r => m_stream r.2) <$> rs).
Proof.
  induction 1 as [|r rs (_ & _ & Hr) Hrs IH]; cbn; [constructor|].
  intros [Hn Hnd]%NoDup_cons. constructor; [|by apply IH].
  intros (r' & Heq & Hin)%list_elem_of_fmap.
  eapply Forall_forall in Hrs as (_ & _ & Hr'); [|exact Hin].
  rewrite <- Heq, Hr in Hr'. injection Hr' as E. apply Hn. rewrite E.
  by apply list_elem_of_fmap_2.
Qed.

Lemma sent_pending w calls rs w' a m :
  sent_all w calls rs w' -> (an_request a, m) ∈ rs -> fr_stream (an_frame a) = m_stream m ->
  pending w' a.
Proof.
  intros S Hin Hs. split.
  - rewrite Hs. by apply (proj1 (Forall_forall _ _) (sa_streams _ _ _ _ S)) in Hin.
  - apply (list_elem_of_fmap_2 fst) in Hin. rewrite (sa_numbers _ _ _ _ S) in Hin.
    apply elem_of_seq in Hin as [Hlo Hhi]. cbn in Hlo, Hhi.
    destruct (lookup_lt_is_Some_2 calls (an_request a - length (w_requests w))) as [c Hc]; [lia|].
    exists (made_for c). split; [|done].
    rewrite (sa_requests _ _ _ _ S), lookup_app_r by done.
    by rewrite list_lookup_fmap, Hc.
Qed.

(** What becomes of answers to the calls that led to [w]: the answers in the batches,
    one read each, are to different ones of the requests [rs], on their streams. *)
Definition answers_sorted (fuel : nat) (suggested : Z) (rs : list (nat * Message)) w : Prop :=
  forall batches reads,
    let l := concat batches in
    NoDup (an_request <$> l) ->
    Forall (fun a => answer_ok a /\
      exists m, (an_request a, m) ∈ rs /\ fr_stream (an_frame a) = m_stream m) l ->
    Forall2 (fun bytes b => Some <$> bytes = answer_cells b /\ zlen bytes <= suggested)
      reads batches -> suggested < 2147483648 ->
    exists w', deliver_all fuel suggested reads w = Ok (tt, w') /\ answered_all w l w'.

Lemma calls_answered fuel suggested w calls :
  buf_init_ok -> serving w -> zlen calls < streams_left w -> Forall (call_ok (w_heap w)) calls ->
  exists rs w1, exec_all calls w = Ok (rs, w1) /\ sent_all w calls rs w1 /\
    NoDup ((fun r => m_stream r.2) <$> rs) /\ answers_sorted fuel suggested rs w1.
Proof.
  intros Hbuf Hsv Hleft Hok.
  destruct (exec_all_sent w calls Hsv Hleft Hok) as (rs & w1 & Hrun & S).
  exists rs, w1. split; [exact Hrun|]. split; [exact S|]. split.
  - eapply streams_differ; [apply S|]. rewrite (sa_numbers _ _ _ _ S). apply NoDup_seq.
  - intros batches reads l Hnd Hans Hreads Hsz.
    apply deliver_all_answers; try done; [apply S|..]; eapply Forall_impl; try exact Hans.
    + intros a (_ & m & Hin & Hs). by eapply sent_pending.
    + by intros a [Ha _].
Qed.
End pipeline.

(** ** Theorems *)

(** C4: requests are pipelined and their answers sorted out.  On a connection that
    serves, any number of calls of [exec] that leaves a stream over makes a request
    each and writes a frame each, on streams that differ ([sent_all]).  Then the
    RESULT frames of the server may come for any of the requests, in any order, and
    in any number of reads of whole frames: every request that is answered gets the
    message that came on its own stream, with the decoded body of that frame, the
    other requests stay as they are, the threads are notified in the order of the
    answers, once each, and the streams are free again ([answered_all]). *)
Theorem pipelined_requests `{Allocator} `{LibUV} `{OpenSSL} `{!Client} fuel suggested w calls :
  buf_init_ok -> serving w -> zlen calls < streams_left w ->
  Forall (call_ok (w_heap w)) calls ->
  exists rs w1, exec_all calls w = Ok (rs, w1) /\ sent_all w calls rs w1 /\
    NoDup ((fun r => m_stream r.2) <$> rs) /\ answers_sorted fuel suggested rs w1.
Proof. apply calls_answered. Qed.

(** C3: a connection from its construction to the answers.  The server greets it, and
    a user whose connect callback leaves the connection alone makes up to 124 calls
    when it is READY: the run does not fault, what libuv was asked to write is the
    handshake and then the frames of the calls in order, and whatever RESULT frames
    the server sends for them are sorted out as in [answers_sorted]. *)
Theorem session_run `{Allocator} `{LibUV} `{OpenSSL} `{!Client}
    fuel cb kb res suggested supported ready c w calls :
  buf_init_ok -> ClientConnection_init None = Ok c -> w_conn w = c ->
  server_greets suggested supported ready -> 8 <= usable 0 ->
  (forall w', client_connect None w' = Ok (tt, w')) ->
  zlen calls < 125 -> Forall (call_ok (w_heap w)) calls ->
  exists rs w1,
    (handshake_run fuel cb kb res suggested supported ready ;; exec_all calls) w = Ok (rs, w1) /\
    rs.*1 = seq (length (w_requests w)) (length calls) /\
    w_requests w1 = w_requests w ++ (made_for <$> calls) /\
    (exists es, w_trace w1 = w_trace w ++ handshake_trace (length (w_heap w)) res ++ es /\
       Forall2 (frame_written (w_heap w1)) (zip calls rs) es) /\
    answers_sorted fuel suggested rs w1.
Proof.
  intros Hbuf Hc Hw Hgreet Hu Hcl Hcalls Hok.
  pose proof (handshake_run_ready fuel cb kb res suggested supported ready c w Hbuf Hc Hw Hgreet)
    as Hr. cbv zeta in Hr. rewrite decide_True in Hr by done.
  destruct Hr as (w0 & l & Hrun & Hsv & _ & Htr & Hrq & Hleft & Hheap & b & Hb).
  assert (when cb (client_connect None) w0 = Ok (tt, w0)) as Hcb by (destruct cb; [apply Hcl|done]).
  set (w2 := set_w_heap (w_heap w ++ <[4%nat := None]> l) w0).
  assert (handshake_run fuel cb kb res suggested supported ready w = Ok (tt, w2)) as Hrun'.
  { rewrite Hrun. erewrite bind_run by exact Hcb. apply on_heap_run.
    unfold delete_chars, block_at. rewrite Hheap, lookup_app_r, Nat.add_comm, Nat.add_sub, Hb by lia.
    f_equal. f_equal. by rewrite insert_app_r_alt, Nat.add_sub by lia. }
  destruct (calls_answered fuel suggested w2 calls Hbuf) as (rs & w1 & Hex & S & _ & Hans).
  - destruct Hsv. by constructor.
  - change (streams_left w2) with (streams_left w0). lia.
  - eapply Forall_impl; [exact Hok|]. intros c' (b' & cs & Hb' & Hw' & Hrest).
    exists b', cs. split; [done|]. split; [by apply wire_app|done].
  - exists rs, w1. split; [by erewrite bind_run by exact Hrun'|].
    destruct S as [_ _ Hrq1 Hnum _ _ _ (es & Htr1 & Hes)].
    cbn [w2 w_requests w_trace set_w_heap] in Hrq1, Hnum, Htr1. rewrite Hrq in Hrq1, Hnum.
    split_and!; [done..| |exact Hans]. exists es. split; [|exact Hes].
    by rewrite Htr1, Htr, <- app_assoc.
Qed.

(** ** Witness

    Two calls; the answer to the second comes first, and both come in one read. *)
#[local] Existing Instances exact_allocator linux_uv null_openssl silent_client.

Definition two_calls : list call :=
  [{| call_data := [1]; call_message := startup_message; call_callback := true |};
   {| call_data := [2]; call_message := startup_message; call_callback := false |}].

Definition void_answer (i : nat) (stream : Z) : answer := {|
  an_request := i; an_body := RVoid;
  an_frame := {| fr_version := 0x82; fr_flags := 0; fr_stream := stream;
                 fr_opcode := CQL_OPCODE_RESULT; fr_payload := Some <$> wire_result RVoid |}
|}.

Lemma void_answer_ok i stream : answer_ok (void_answer i stream).
Proof. split; [by split|]. split; [done|]. vm_compute. discriminate. Qed.

Lemma one_zero_differ : NoDup [1%nat; 0%nat].
Proof. by apply (bool_decide_unpack _). Qed.

(** The requests and their streams. *)
Definition given_streams (r : outcome (list (nat * Message) * world)) : list (nat * Z) :=
  match r with Ok (rs, _) => (fun r => (r.1, m_stream r.2)) <$> rs | Fault _ => [] end.

Lemma given_two rs w i j s t :
  given_streams (Ok (rs, w)) = [(i, s); (j, t)] ->
  exists m n, rs = [(i, m); (j, n)] /\ m_stream m = s /\ m_stream n = t.
Proof.
  destruct rs as [|[i1 m1] [|[i2 m2] [|]]]; try done. cbn. intros [= -> <- -> <-].
  by exists m1, m2.
Qed.

Theorem pipelined_requests_witness :
  exists rs w1 w2,
    exec_all two_calls idle_world = Ok (rs, w1) /\
    deliver_all 0 64
      [wire_header 0x82 0 2 8 4 ++ be 4 1 ++ wire_header 0x82 0 1 8 4 ++ be 4 1] w1 =
      Ok (tt, w2) /\
    answered_all w1 [void_answer 1 2; void_answer 0 1] w2.
Proof.
  destruct (pipelined_requests 0 64 idle_world two_calls) as (rs & w1 & Hrun & _ & _ & Hans).
  { by intros p n. }
  { constructor; [by split|reflexivity|reflexivity|apply (stream_one ready_connection eq_refl)]. }
  { reflexivity. }
  { repeat constructor; exists (BStartup BodyStartup_default), startup_cells;
      (split; [reflexivity|split; [reflexivity|split; [vm_compute; split; discriminate|reflexivity]]]). }
  assert (given_streams (Ok (rs, w1)) = [(0%nat, 1); (1%nat, 2)]) as Hst
    by (rewrite <- Hrun; vm_compute; reflexivity).
  destruct (given_two _ _ _ _ _ _ Hst) as (m1 & m2 & -> & Hs1 & Hs2).
  exists [(0%nat, m1); (1%nat, m2)], w1.
  destruct (Hans [[void_answer 1 2; void_answer 0 1]]
    [wire_header 0x82 0 2 8 4 ++ be 4 1 ++ wire_header 0x82 0 1 8 4 ++ be 4 1])
    as (w2 & Hd & A).
  - exact one_zero_differ.
  - constructor; [|constructor; [|constructor]]; (split; [apply void_answer_ok|]).
    + exists m2. split; [right; left|by rewrite Hs2].
    + exists m1. split; [left|by rewrite Hs1].
  - constructor; [|constructor]. split; [reflexivity|vm_compute; discriminate].
  - reflexivity.
  - exists w2. split_and!; [exact Hrun|exact Hd|exact A].
Defined.

(** The whole life of a connection, with an allocator that makes a little more usable. *)
#[local] Existing Instance glibc_allocator.

Theorem session_run_witness :
  exists rs w1 w2,
    (handshake_run 0 true false localhost 65536
       (wire_header 0x82 0 1 6 (zlen supported_bytes) ++ supported_bytes)
       (wire_header 0x82 0 1 2 0) ;; exec_all two_calls) (fresh_world [] plain_connection []) =
      Ok (rs, w1) /\
    deliver_all 0 65536
      [wire_header 0x82 0 4 8 4 ++ be 4 1; wire_header 0x82 0 3 8 4 ++ be 4 1] w1 = Ok (tt, w2) /\
    answered_all w1 [void_answer 1 4; void_answer 0 3] w2.
Proof.
  destruct (session_run 0 true false localhost 65536
    (wire_header 0x82 0 1 6 (zlen supported_bytes) ++ supported_bytes)
    (wire_header 0x82 0 1 2 0) plain_connection (fresh_world [] plain_connection []) two_calls)
    as (rs & w1 & Hrun & _ & _ & _ & Hans).
  { by intros p n. }
  { reflexivity. }
  { reflexivity. }
  { exists supported_frame, ready_frame, supported_bytes,
      [(key_CQL_VERSION, [bytes_of_string "3.0.0"])], [].
    split; [vm_compute; reflexivity|]. split; [vm_compute; reflexivity|].
    split; [vm_compute; split; [discriminate|reflexivity]|].
    split; [vm_compute; discriminate|]. split; [reflexivity|]. split; [reflexivity|].
    split; [cbn; lia|]. split; [cbn; lia|]. split; [reflexivity|].
    split; [vm_compute; repeat constructor; discriminate|]. vm_compute. reflexivity. }
  { vm_compute. discriminate. }
  { reflexivity. }
  { reflexivity. }
  { repeat constructor; exists (BStartup BodyStartup_default), startup_cells;
      (split; [reflexivity|split; [reflexivity|split; [vm_compute; split; discriminate|reflexivity]]]). }
  assert (given_streams (Ok (rs, w1)) = [(0%nat, 3); (1%nat, 4)]) as Hst
    by (rewrite <- Hrun; vm_compute; reflexivity).
  destruct (given_two _ _ _ _ _ _ Hst) as (m1 & m2 & -> & Hs1 & Hs2).
  exists [(0%nat, m1); (1%nat, m2)], w1.
  destruct (Hans [[void_answer 1 4]; [void_answer 0 3]]
    [wire_header 0x82 0 4 8 4 ++ be 4 1; wire_header 0x82 0 3 8 4 ++ be 4 1])
    as (w2 & Hd & A).
  - exact one_zero_differ.
  - constructor; [|constructor; [|constructor]]; (split; [apply void_answer_ok|]).
    + exists m2. split; [right; left|by rewrite Hs2].
    + exists m1. split; [left|by rewrite Hs1].
  - repeat constructor; vm_compute; discriminate.
  - reflexivity.
  - exists w2. split_and!; [exact Hrun|exact Hd|exact A].
Defined.
