(* ===== verification/Invariant.v ===== *)
(** * The invariant of a connection

    What holds between the events of a connection, with or without TLS, whatever
    their order: the stream table is sound, and every request is on at most one
    stream and is notified at most once, when its answer is there; without TLS
    [incomming_] waits for bytes.  The theorem is a rule induction over the events
    of libuv and the calls of the user. *)

From stdpp Require Import relations.
From S2P Require Import Prelude Memory StdMap Common Serialization Body Query Result.
From S2P Require Import Message StreamStorage Request SslSession HeapEffects Connection Typing.
From S2P Require Import ConnectionFacts Receive Lifecycle Answers.

Section invariant.
Context `{Allocator} `{LibUV} `{OpenSSL} `{!Client}.
Implicit Types (w : world) (s : StreamStorage (option nat)) (tls : bool).

(** Stream [id] is taken for request [i]. *)
Definition in_flight s (id i : nat) : Prop :=
  allocated_streams_ s !! id = Some true /\ storage_ s !! id = Some (Some (Some i)).

Definition is_notify (i : nat) (e : event) : bool :=
  match e with EvNotifyAll j => bool_decide (i = j) | _ => false end.

(** How often the threads that wait for request [i] were notified. *)
Definition notifications (i : nat) (tr : list event) : nat :=
  length (filter (fun e => is_notify i e = true) tr).

#[global] Arguments notifications : simpl never.

(** A request that was made and is not answered. *)
Definition unanswered (i : nat) w : Prop :=
  exists q, w_requests w !! i = Some q /\ rq_flag q = false.

(** One that is on no stream either. *)
Definition idle (i : nat) w : Prop :=
  unanswered i w /\ forall id, ~ in_flight (stream_storage_ (w_conn w)) id i.

(** The state of a connection; [tls] is whether it may have a TLS session. *)
Definition conn_mode tls (c : ClientConnection) : Prop :=
  (tls = false -> ssl_ c = None) /\ prepare_callback_ c = false.

(** What a run of the connection starts from: whether there may be a TLS session; how
    often each request was notified before the trace begins; and the requests that
    are left to other connections. *)
Record scope := {
  sc_tls    : bool;
  sc_before : nat -> nat;
  sc_others : nat -> CallerRequest -> Prop
}.

(** [P] holds of the message that is being received, and [o] is the request, if
    any, that the running code is about to put on a stream or to answer. *)
Record conn_inv (sc : scope) (P : Message -> Prop) (o : option nat) w : Prop := {
  ci_mode      : conn_mode (sc_tls sc) (w_conn w);
  ci_incomming : P (incomming_ (w_conn w));
  ci_streams   : storage_inv CQL_STREAM_ID_MAX (stream_storage_ (w_conn w));
  ci_flight    : forall id i, in_flight (stream_storage_ (w_conn w)) id i -> unanswered i w;
  ci_unique    : forall id1 id2 i, in_flight (stream_storage_ (w_conn w)) id1 i ->
                   in_flight (stream_storage_ (w_conn w)) id2 i -> id1 = id2;
  ci_answer    : forall i q, w_requests w !! i = Some q -> rq_flag q = true ->
                   rq_result q <> None \/ rq_error q <> None;
  ci_notified  : forall i, (sc_before sc i + notifications i (w_trace w))%nat =
                   match w_requests w !! i with
                   | Some q => if rq_flag q then 1%nat else 0%nat
                   | None => 0%nat
                   end;
  ci_idle      : forall i, o = Some i -> idle i w;
  ci_others    : forall i q, sc_others sc i q ->
                   w_requests w !! i = Some q /\ o <> Some i /\
                   forall id, ~ in_flight (stream_storage_ (w_conn w)) id i
}.

#[local] Arguments ci_mode {_}.
#[local] Arguments ci_incomming {_}.
#[local] Arguments ci_idle {_}.

Lemma conn_inv_weaken {sc} P (P' : Message -> Prop) o w :
  (forall m, P m -> P' m) -> conn_inv sc P o w -> conn_inv sc P' None w.
Proof.
  intros HP [Hpl Hinc Hst Hfl Hun Han Hno Hid Hot]. constructor; auto; [intros i [=]|].
  intros i q Hi. by destruct (Hot i q Hi) as (? & _ & ?).
Qed.

Section programs.
Context {sc : scope} (P : Message -> Prop) (o : option nat).
Abbreviation K := (conn_inv sc P o).

(** ** Programs that keep the invariant *)

(** The invariant does not look at the heap. *)
Lemma conn_inv_heap h w : K w -> K (set_w_heap h w).
Proof. intros []. by constructor. Qed.

Lemma on_heap_keeps {A} (m : prog heap A) : keeps K (on_heap m) (fun _ => True).
Proof.
  intros w a w' Hw Hr. unfold on_heap, zoom in Hr.
  destruct (m (w_heap w)) as [[b h]|f]; [|done]. injection Hr as -> <-.
  split; [by apply conn_inv_heap|done].
Qed.

Lemma notifications_snoc i tr e :
  notifications i (tr ++ [e]) =
    (notifications i tr + (if is_notify i e then 1 else 0))%nat.
Proof.
  unfold notifications. rewrite filter_app, length_app, filter_cons. cbn.
  by destruct (is_notify i e).
Qed.

Lemma emit_keeps e : (forall i, is_notify i e = false) -> keeps K (emit e) (fun _ => True).
Proof.
  intros He w a w' [] [= <- <-]. split; [|done]. constructor; cbn; try done.
  intros i. by rewrite notifications_snoc, He, Nat.add_0_r.
Qed.

Lemma upd_keeps f :
  (forall c, stream_storage_ (f c) = stream_storage_ c) ->
  (forall c, conn_mode (sc_tls sc) c -> conn_mode (sc_tls sc) (f c)) ->
  (forall c, P (incomming_ c) -> P (incomming_ (f c))) ->
  keeps K (upd f) (fun _ => True).
Proof.
  intros E Hmode Hinc w a w' [] [= <- <-]. split; [|done].
  constructor; cbn; unfold idle in *; cbn; rewrite ?E; auto.
Qed.

Lemma conn_keeps : keeps K conn (fun _ => True).
Proof. by intros w a w' Hw [= <- <-]. Qed.

Lemma lift_keeps {A} (x : outcome A) : keeps K (lift x) (fun _ => True).
Proof. intros w a w' Hw Hr. destruct x; [|done]. by injection Hr as <- <-. Qed.

Lemma request_at_keeps i : keeps K (request_at i) (fun _ => True).
Proof.
  intros w r w' Hw Hr. unfold request_at in Hr. inv_prog.
  unfold get in *. simplify_eq. case_match; [inv_prog; done|done].
Qed.
End programs.

#[local] Hint Resolve on_heap_keeps conn_keeps lift_keeps request_at_keeps : keeps.
#[local] Hint Extern 1 (keeps _ (emit _) _) => apply emit_keeps; done : keeps.
#[local] Hint Extern 1 (keeps _ (upd _) _) => by (apply upd_keeps; [|intros ? []|]) : keeps.

Lemma log_keeps {sc} P o level m : keeps (conn_inv sc P o) (log level m) (fun _ => True).
Proof. unfold log. keeps_solve. Qed.
#[local] Hint Resolve log_keeps : keeps.

(** ** Taking and releasing streams *)

(** What a successful call of [set_stream] did. *)
Lemma set_stream_cases s x o err id s' :
  storage_inv CQL_STREAM_ID_MAX s -> set_stream CQL_STREAM_ID_MAX x o s = Ok ((err, id), s') ->
  err = None /\ s' = stream_taken s id x /\ free_id s id /\
  1 <= id < Z.of_nat CQL_STREAM_ID_MAX /\ storage_inv CQL_STREAM_ID_MAX s'.
Proof.
  intros Hinv Hr. pose proof (inv_index _ _ Hinv) as Hix.
  destruct (decide (available_streams_index_ s = Z.of_nat CQL_STREAM_ID_MAX - 1)) as [E|E].
  { by rewrite set_stream_last in Hr by (done || apply max_pos). }
  destruct (stack_top CQL_STREAM_ID_MAX max_pos s Hinv) as (top & Htop & Hfree & Hid & Hlast).
  assert (1 <= top < Z.of_nat CQL_STREAM_ID_MAX) as Hid' by lia.
  rewrite conn_set_stream_run with (id := top) in Hr by done. injection Hr as <- <- <-.
  split_and!; [done|done|done|lia|lia|].
  apply stream_taken_inv; first [done | apply max_pos | apply max_64 | lia].
Qed.

(** The streams after one was taken for [x]. *)
Lemma in_flight_taken s id x id' i :
  free_id s id -> 1 <= id < Z.of_nat CQL_STREAM_ID_MAX ->
  storage_inv CQL_STREAM_ID_MAX s ->
  in_flight (stream_taken s id x) id' i <->
  (id' = Z.to_nat id /\ x = Some i) \/ (id' <> Z.to_nat id /\ in_flight s id' i).
Proof.
  intros Hf Hid [Hi Hst Hfl Hva _ _ _ _]. unfold in_flight. cbn.
  destruct (decide (id' = Z.to_nat id)) as [->|Hne].
  - rewrite !list_lookup_insert_eq by lia. naive_solver.
  - rewrite !list_lookup_insert_ne by done. naive_solver.
Qed.

Lemma in_flight_released s id id' i :
  storage_inv CQL_STREAM_ID_MAX s -> 0 <= id < Z.of_nat CQL_STREAM_ID_MAX ->
  in_flight (stream_released s id) id' i <-> id' <> Z.to_nat id /\ in_flight s id' i.
Proof.
  intros [Hi Hst Hfl Hva _ _ _ _] Hid. unfold in_flight. cbn.
  destruct (decide (id' = Z.to_nat id)) as [->|Hne].
  - rewrite list_lookup_insert_eq by lia. naive_solver.
  - rewrite list_lookup_insert_ne by done. naive_solver.
Qed.

Lemma set_stream_keeps {sc} P x id w err id' w' :
  conn_inv sc P x w -> on_streams (set_stream CQL_STREAM_ID_MAX x id) w = Ok ((err, id'), w') ->
  err = None /\ conn_inv sc P None w'.
Proof.
  intros [Hpl Hinc Hst Hfl Hun Han Hno Hid Hot] Hr. unfold on_streams, zoom in Hr.
  destruct (set_stream _ _ _ _) as [[[e i1] s']|f] eqn:E; [|done].
  injection Hr as -> -> <-.
  destruct (set_stream_cases _ _ _ _ _ _ Hst E) as (-> & -> & Hf & Hr & Hst').
  pose proof (in_flight_taken (stream_storage_ (w_conn w)) id' x) as Hin.
  split; [done|]. constructor; cbn; try done.
  - intros i j [[_ ->]|[_ Hj]]%Hin; [by destruct (Hid j eq_refl)|by eapply Hfl|done..].
  - intros i1 i2 j Hr1%Hin Hr2%Hin; [|done..].
    destruct Hr1 as [[-> ->]|[_ Hr1]], Hr2 as [[-> Hj]|[_ Hr2]]; simplify_eq.
    + done.
    + by destruct (Hid j eq_refl) as [_ []%(fun H => H i2)].
    + by destruct (Hid j eq_refl) as [_ []%(fun H => H i1)].
    + by eapply Hun.
  - intros j q Hj. destruct (Hot j q Hj) as (Hjq & Hjo & Hjn). split_and!; [done|done|].
    intros i1 [[_ ->]|[_ Hi1]]%Hin; [done|by apply (Hjn i1)|done..].
Qed.

Lemma send_data_keeps {sc} P o buf : keeps (conn_inv sc P o) (send_data buf) (fun _ => True).
Proof. unfold send_data. keeps_solve. Qed.

Lemma send_message_keeps {sc} P x m w err m' w' :
  conn_inv sc P x w -> send_message m x w = Ok ((err, m'), w') ->
  err = None /\ conn_inv sc P None w'.
Proof.
  intros Hw Hr. unfold send_message in Hr. apply bind_inv in Hr as ([e id] & w1 & Hr1 & Hr).
  destruct (set_stream_keeps _ _ _ _ _ _ _ Hw Hr1) as [-> Hw1].
  apply bind_inv in Hr as ([[[ok m1] base] len] & w2 & Hr2 & Hr).
  destruct (on_heap_keeps _ _ _ _ _ _ Hw1 Hr2) as [Hw2 _].
  destruct ok; [|done].
  apply bind_inv in Hr as (nm & w3 & Hr3 & Hr). destruct (lift_keeps _ _ _ _ _ _ Hw2 Hr3) as [Hw3 _].
  apply bind_inv in Hr as ([] & w4 & Hr4 & Hr). 
  destruct (log_keeps _ _ _ _ _ _ _ Hw3 Hr4) as [Hw4 _].
  apply bind_inv in Hr as (e & w5 & Hr5 & Hr).
  assert (e = None) as -> by (unfold send_data in Hr5; by inv_prog).
  destruct (send_data_keeps _ _ _ _ _ _ Hw4 Hr5) as [Hw5 _]. by inv_prog.
Qed.

(** The request whose stream [get_stream] released is idle. *)
Lemma get_stream_keeps {sc} P w id err r w' :
  conn_inv sc P None w -> on_streams (get_stream id true) w = Ok ((err, r), w') ->
  match err, r with
  | None, Some (Some i) => conn_inv sc P (Some i) w'
  | _, _ => conn_inv sc P None w'
  end.
Proof.
  intros Hw Hr. destruct Hw as [Hpl Hinc Hst Hfl Hun Han Hno Hid Hot] eqn:Ew. clear Ew.
  rewrite get_stream_world in Hr by done. case_decide as Hb; [|done].
  case_decide as Ht; [|by simplify_eq].
  pose proof (in_flight_released (stream_storage_ (w_conn w)) id) as Hin.
  assert (forall o, (forall i, o = Some i -> idle i (released id w)) ->
    (forall i q, sc_others sc i q -> o <> Some i) ->
    conn_inv sc P o (released id w)) as Hk.
  { intros o Ho Hoo. constructor; cbn; try done.
    - destruct (decide (id = 0)) as [->|]; [by destruct (inv_zero _ _ Hst)|].
      apply stream_released_inv; first [done | apply max_64 | lia].
    - intros i j [_ Hj]%Hin; [by eapply Hfl|done..].
    - intros i1 i2 j [_ Hr1]%Hin [_ Hr2]%Hin; [by eapply Hun|done..].
    - intros j q Hj. destruct (Hot j q Hj) as (Hjq & _ & Hjn).
      split_and!; [done|by eapply Hoo|]. intros i1 [_ Hi1]%Hin; [by apply (Hjn i1)|done..]. }
  destruct (storage_ _ !! Z.to_nat id) as [r0|] eqn:Ev; injection Hr as <- <- <-; cbn.
  2: { by apply Hk. }
  destruct r0 as [[i|]|]; cbn; apply Hk; try done.
  all: assert (in_flight (stream_storage_ (w_conn w)) (Z.to_nat id) i) as Hi by done.
  - intros ? [= <-].
    split; [by eapply Hfl|]. intros j [Hne Hj]%Hin; [|done..]. by destruct Hne; eapply Hun.
  - intros j q Hj [= ->]. destruct (Hot j q Hj) as (_ & _ & Hjn). by apply (Hjn (Z.to_nat id)).
Qed.

(** ** Requests *)

(** The world in which request [i] is [q]. *)
Abbreviation with_request i q w := (set_w_requests (<[i := q]> (w_requests w)) w).

Lemma unanswered_put i j q q' w :
  w_requests w !! i = Some q -> rq_flag q' = false ->
  unanswered j w -> unanswered j (with_request i q' w).
Proof.
  intros Hi Hf (q0 & Hq & Hq0). unfold unanswered. cbn.
  destruct (decide (i = j)) as [->|Hne].
  - exists q'. split; [|done]. apply list_lookup_insert_eq. by eapply lookup_lt_Some.
  - exists q0. by rewrite list_lookup_insert_ne.
Qed.

(** An assignment to the idle request. *)
Lemma put_request_inv {sc} P i q q' w :
  conn_inv sc P (Some i) w -> w_requests w !! i = Some q -> rq_flag q = false ->
  rq_flag q' = false -> conn_inv sc P (Some i) (with_request i q' w).
Proof.
  intros [Hpl Hinc Hst Hfl Hun Han Hno Hid Hot] Hi Hq Hq'.
  pose proof (lookup_lt_Some _ _ _ Hi) as Hlt. constructor; cbn; try done.
  - intros id j Hj. eapply unanswered_put; [done..|]. by eapply Hfl.
  - intros j r Hr Hf. destruct (decide (i = j)) as [->|Hne].
    + rewrite list_lookup_insert_eq in Hr by done. simplify_eq. congruence.
    + rewrite list_lookup_insert_ne in Hr by done. by eapply Han.
  - intros j. rewrite Hno. destruct (decide (i = j)) as [->|Hne].
    + by rewrite list_lookup_insert_eq, Hi, Hq, Hq'.
    + by rewrite list_lookup_insert_ne.
  - intros j Ej. destruct (Hid j Ej) as [Hu Hn]. split; [|done]. by eapply unanswered_put.
  - intros j r Hj. destruct (Hot j r Hj) as (Hjr & Hjo & Hjn). split_and!; [|done|done].
    rewrite list_lookup_insert_ne by congruence. done.
Qed.

(** The idle request that has its answer is notified. *)
Lemma notified_inv {sc} P i q w :
  conn_inv sc P (Some i) w -> w_requests w !! i = Some q ->
  rq_result q <> None \/ rq_error q <> None ->
  conn_inv sc P None (add_event (EvNotifyAll i) (with_request i (set_rq_flag q) w)).
Proof.
  intros [Hpl Hinc Hst Hfl Hun Han Hno Hid Hot] Hi Hres.
  destruct (Hid i eq_refl) as [(q0 & Hq0 & Hff) Hidle]. simplify_eq.
  pose proof (lookup_lt_Some _ _ _ Hi) as Hlt. constructor; cbn; try done.
  - intros id j Hj. destruct (Hfl _ _ Hj) as (r & Hr & Hrf). exists r. cbn.
    rewrite list_lookup_insert_ne; [done|]. intros ->. by destruct (Hidle id).
  - intros j r Hr Hf. destruct (decide (i = j)) as [->|Hne].
    + rewrite list_lookup_insert_eq in Hr by done. by simplify_eq.
    + rewrite list_lookup_insert_ne in Hr by done. by eapply Han.
  - intros j. rewrite notifications_snoc, Nat.add_assoc, Hno. cbn.
    destruct (decide (i = j)) as [->|Hne].
    + by rewrite list_lookup_insert_eq, Hi, Hff, bool_decide_true.
    + rewrite list_lookup_insert_ne, bool_decide_false by congruence. lia.
  - intros j r Hj. destruct (Hot j r Hj) as (Hjr & Hjo & Hjn). split_and!; [|done|done].
    rewrite list_lookup_insert_ne by congruence. done.
Qed.

Lemma idle_request {sc} P i w : conn_inv sc P (Some i) w ->
  exists q, w_requests w !! i = Some q /\ rq_flag q = false.
Proof. intros Hw. by destruct (ci_idle _ _ _ Hw i eq_refl) as [? _]. Qed.

(** A new request is idle. *)
Lemma new_request_inv {sc} P d w i w' :
  conn_inv sc P None w -> new_request d w = Ok (i, w') -> conn_inv sc P (Some i) w'.
Proof.
  intros [Hpl Hinc Hst Hfl Hun Han Hno Hid Hot] Hr. unfold new_request in Hr.
  apply bind_inv in Hr as (q & w1 & Hq & Hr).
  assert (w1 = w /\ rq_flag q = false) as [-> Hf].
  { unfold lift in Hq. destruct d; cbn in Hq; by simplify_eq. }
  injection Hr as <- <-.
  assert (forall j r, w_requests w !! j = Some r -> (w_requests w ++ [q]) !! j = Some r)
    as Hold by (intros; by apply lookup_app_l_Some).
  assert (forall j r, (w_requests w ++ [q]) !! j = Some r ->
    w_requests w !! j = Some r \/ j = length (w_requests w) /\ r = q) as Hnew.
  { intros j r [Hj|[Hj Hr]]%lookup_app_Some; [by left|]. right.
    apply list_lookup_singleton_Some in Hr as [Hr ->]. split; [lia|done]. }
  constructor; cbn; try done.
  - intros id j Hj. destruct (Hfl _ _ Hj) as (r & Hr & ?). exists r. split; [by apply Hold|done].
  - intros j r [Hr|[-> ->]]%Hnew Hrf; [by eapply Han|congruence].
  - intros j. rewrite Hno. destruct (w_requests w !! j) as [r|] eqn:E; [by rewrite (Hold _ _ E)|].
    destruct ((w_requests w ++ [q]) !! j) as [r|] eqn:E2; [|done].
    apply Hnew in E2 as [E2|[-> ->]]; [congruence|]. by rewrite Hf.
  - intros j [= <-]. split.
    + exists q. split; [cbn; by rewrite lookup_app_r, Nat.sub_diag|done].
    + intros id Hj. destruct (Hfl _ _ Hj) as (r & Hr & _). cbn in Hr.
      apply lookup_lt_Some in Hr. lia.
  - intros j r Hj. destruct (Hot j r Hj) as (Hjr & _ & Hjn). split_and!; [by apply Hold| |done].
    intros [= <-]. apply lookup_lt_Some in Hjr. lia.
Qed.

Lemma request_at_inv i w r w1 :
  request_at i w = Ok (r, w1) -> w1 = w /\ w_requests w !! i = Some r.
Proof.
  intros Hr. unfold request_at in Hr. apply bind_inv in Hr as (w0 & w2 & [= <- <-] & Hr).
  case_match; [by injection Hr as <- <-|done].
Qed.

(** Reading the idle request and assigning to it. *)
Lemma assign_request_inv {sc} P i w r w1 q u w2 :
  conn_inv sc P (Some i) w -> request_at i w = Ok (r, w1) -> put_request i q w1 = Ok (u, w2) ->
  rq_flag q = rq_flag r ->
  conn_inv sc P (Some i) w2 /\ w_requests w2 !! i = Some q.
Proof.
  intros Hw [-> Hi]%request_at_inv Hp Hq. injection Hp as <- <-.
  destruct (idle_request _ _ _ Hw) as (r' & Hi' & Hf). simplify_eq. split.
  - eapply put_request_inv; [done..|congruence].
  - cbn. apply list_lookup_insert_eq. by eapply lookup_lt_Some.
Qed.

(** The destructor of a message is code on the heap. *)
Lemma destroy_keeps {sc} P o m : keeps (conn_inv sc P o) (destroy_message m) (fun _ => True).
Proof. unfold destroy_message. apply on_heap_keeps. Qed.

(** ** The messages the connection sends for itself *)

(** Sending, and then deleting the message. *)
Lemma send_destroy_keeps {sc} P m :
  keeps (conn_inv sc P None) ('(_, m) ← send_message m None; destroy_message m) (fun _ => True).
Proof.
  intros w a w' Hw Hr. apply bind_inv in Hr as ([e m'] & w1 & Hr1 & Hr).
  destruct (send_message_keeps _ _ _ _ _ _ _ Hw Hr1) as [_ Hw1].
  by eapply destroy_keeps.
Qed.
#[local] Hint Resolve send_destroy_keeps : keeps.

Lemma send_options_keeps {sc} P : keeps (conn_inv sc P None) send_options (fun _ => True).
Proof. unfold send_options. keeps_solve. Qed.

Lemma send_startup_keeps {sc} P : keeps (conn_inv sc P None) send_startup (fun _ => True).
Proof. unfold send_startup. keeps_solve. Qed.

Lemma set_keyspace_keeps {sc} P k :
  keeps (conn_inv sc P None) (connection_set_keyspace k) (fun _ => True).
Proof. unfold connection_set_keyspace. keeps_solve. Qed.

(** ** The calls that make a request *)

Lemma connection_prepare_keeps {sc} P d st n cb :
  keeps (conn_inv sc P None) (connection_prepare d st n cb) (fun _ => True).
Proof.
  intros w a w' Hw Hr. unfold connection_prepare in Hr.
  apply bind_inv in Hr as (i & w1 & Hr1 & Hr). eapply new_request_inv in Hr1; [|exact Hw].
  apply bind_inv in Hr as (m & w2 & Hr2 & Hr).
  destruct (on_heap_keeps _ _ _ _ _ _ Hr1 Hr2) as [Hw2 _].
  destruct (m_body m) as [[]|]; try done.
  apply bind_inv in Hr as (pr & w3 & Hr3 & Hr).
  destruct (on_heap_keeps _ _ _ _ _ _ Hw2 Hr3) as [Hw3 _].
  apply bind_inv in Hr as (data & w4 & Hr4 & Hr).
  destruct (on_heap_keeps _ _ _ _ _ _ Hw3 Hr4) as [Hw4 _].
  apply bind_inv in Hr as (r & w5 & Hr5 & Hr). apply bind_inv in Hr as (u & w6 & Hr6 & Hr).
  destruct (assign_request_inv _ _ _ _ _ _ _ _ Hw4 Hr5 Hr6) as [Hw6 _]; [done|].
  apply bind_inv in Hr as ([e m'] & w7 & Hr7 & Hr).
  destruct (send_message_keeps _ _ _ _ _ _ _ Hw6 Hr7) as [-> Hw7]. by injection Hr as <- <-.
Qed.

Lemma exec_keeps {sc} P d m cb : keeps (conn_inv sc P None) (exec d m cb) (fun _ => True).
Proof.
  intros w a w' Hw Hr. unfold exec in Hr.
  apply bind_inv in Hr as (i & w1 & Hr1 & Hr). eapply new_request_inv in Hr1; [|exact Hw].
  apply bind_inv in Hr as (r & w5 & Hr5 & Hr). apply bind_inv in Hr as (u & w6 & Hr6 & Hr).
  destruct (assign_request_inv _ _ _ _ _ _ _ _ Hr1 Hr5 Hr6) as [Hw6 _]; [done|].
  apply bind_inv in Hr as ([e m'] & w7 & Hr7 & Hr).
  destruct (send_message_keeps _ _ _ _ _ _ _ Hw6 Hr7) as [-> Hw7]. by injection Hr as <- <-.
Qed.

(** ** Answers

    The code of the user is asked to keep the invariant too.  It may call the
    connection: [connection_set_keyspace], [connection_prepare] and [exec] do. *)
Record client_keeps : Prop := {
  client_connect_keeps sc P e : keeps (conn_inv sc P None) (client_connect e) (fun _ => True);
  client_keyspace_keeps sc P sp : keeps (conn_inv sc P None) (client_keyspace sp) (fun _ => True);
  client_request_keeps sc P i : keeps (conn_inv sc P None) (client_request i) (fun _ => True)
}.

Context (Hclient : client_keeps).
#[local] Hint Resolve client_connect_keeps client_keyspace_keeps client_request_keeps : keeps.

(** The idle request gets its answer. *)
Lemma give_response_keeps {sc} P i m w u w' :
  conn_inv sc P (Some i) w -> give_response (Some (Some i)) m w = Ok (u, w') ->
  conn_inv sc P None w'.
Proof.
  intros Hw Hr. unfold give_response, notify_request in Hr.
  apply bind_inv in Hr as (i' & w0 & [= <- <-] & Hr).
  apply bind_inv in Hr as (r & w1 & Hr1 & Hr). apply bind_inv in Hr as (u2 & w2 & Hr2 & Hr).
  destruct (assign_request_inv _ _ _ _ _ _ _ _ Hw Hr1 Hr2) as [Hw2 Hi2]; [done|].
  apply bind_inv in Hr as (r3 & w3 & Hr3 & Hr). apply request_at_inv in Hr3 as [-> Hi3].
  rewrite Hi2 in Hi3. injection Hi3 as <-.
  apply bind_inv in Hr as (u4 & w4 & [= <- <-] & Hr).
  apply bind_inv in Hr as (u5 & w5 & [= <- <-] & Hr).
  assert (conn_inv sc P None (add_event (EvNotifyAll i)
    (with_request i (set_rq_flag (set_rq_result m r)) w2))) as Hw5.
  { apply notified_inv; [done..|by left]. }
  assert (keeps (conn_inv sc P None)
    (if rq_callback (set_rq_result m r) then
       if rq_use_local_loop (set_rq_result m r) then client_request i
       else emit (EvQueueWork i) else mret tt) (fun _ => True)) as Hk by keeps_solve.
  by destruct (Hk _ _ _ Hw5 Hr).
Qed.

(** The stream of an answer is released and its request answered. *)
Lemma answer_keeps {sc} P m (k : option Error -> option (option nat) -> prog world unit) :
  (forall e, keeps (conn_inv sc P None) (k (Some e) None) (fun _ => True)) ->
  (forall e r, k (Some e) r = k (Some e) None) ->
  (forall r, k None r = give_response r m) ->
  keeps (conn_inv sc P None)
    ('(err, request) ← on_streams (get_stream (m_stream m) true); k err request)
    (fun _ => True).
Proof.
  intros Hk1 Hk2 Hk3 w u w' Hw Hr. apply bind_inv in Hr as ([err r] & w1 & Hg & Hr).
  pose proof (get_stream_keeps _ _ _ _ _ _ Hw Hg) as Hw1. split; [|done].
  destruct err as [e|].
  - rewrite Hk2 in Hr. by destruct (Hk1 e _ _ _ Hw1 Hr).
  - rewrite Hk3 in Hr. destruct r as [[i|]|]; [|done..]. by eapply give_response_keeps.
Qed.

Lemma conn_mode_keeps {sc} P o : keeps (conn_inv sc P o) conn (conn_mode (sc_tls sc)).
Proof. intros w c w' Hw [= <- <-]. split; [done|apply Hw]. Qed.

Lemma on_result_keeps {sc} P m : keeps (conn_inv sc P None) (on_result m) (fun _ => True).
Proof.
  unfold on_result. eapply keeps_bind; [eauto with keeps|intros _ _].
  eapply keeps_bind; [eauto with keeps|intros r _].
  eapply keeps_bind; [apply conn_mode_keeps|intros c [_ Hpc]]. rewrite Hpc.
  case_decide; [keeps_solve|]. case_decide.
  - apply (answer_keeps P m (fun err request => mret tt ;; match err with
      | None => give_response request m | Some _ => mret tt end)); [|done..].
    intros e. keeps_solve.
  - apply (answer_keeps P m (fun err request => match err with
      | None => give_response request m
      | Some e => when (connect_callback_ c) (client_connect (Some e)) end)); [|done..].
    intros e. keeps_solve.
Qed.
#[local] Hint Resolve on_result_keeps : keeps.

(** ** The state machine *)

Lemma notify_ready_keeps {sc} P : keeps (conn_inv sc P None) notify_ready (fun _ => True).
Proof. unfold notify_ready. keeps_solve. Qed.

Lemma notify_error_keeps {sc} P e : keeps (conn_inv sc P None) (notify_error e) (fun _ => True).
Proof. unfold notify_error. keeps_solve. Qed.
#[local] Hint Resolve send_options_keeps send_startup_keeps notify_ready_keeps
  notify_error_keeps destroy_keeps : keeps.

(** What holds of a message that is fed. *)
Definition fed (P : Message -> Prop) : Prop :=
  P Message_default /\
  forall m p n k m' h h', P m -> Message_consume m p n h = Ok ((k, m'), h') -> P m'.

Lemma typed_fed : fed message_typed.
Proof. split; [apply default_typed|]. intros. by eapply consume_typed. Qed.

(** What [consume] and the loop of [on_read] keep, whatever [event_received] they
    are given. *)
Section received.
Context {sc : scope} (P : Message -> Prop) (event : prog world unit).
Context (Hev : keeps (conn_inv sc P None) event (fun _ => True)).
#[local] Hint Resolve Hev : keeps.

Lemma dispatch_keeps m size remaining :
  keeps (conn_inv sc P None) (dispatch event m size remaining) (fun _ => True).
Proof.
  unfold dispatch.
  eapply keeps_bind; [eauto with keeps|intros nm _].
  eapply keeps_bind; [eauto with keeps|intros _ _].
  repeat case_decide; try apply keeps_fail.
  - unfold on_supported. keeps_solve.
  - unfold on_error. keeps_solve.
  - unfold on_ready. keeps_solve.
  - apply on_result_keeps.
Qed.
#[local] Hint Resolve dispatch_keeps : keeps.

Context (HP : fed P) (Htls : sc_tls sc = true).

Lemma set_incomming_keeps m :
  P m -> keeps (conn_inv sc P None) (upd (set_incomming m)) (fun _ => True).
Proof. intros Hm. by apply upd_keeps; [|intros ? []|]. Qed.

Lemma set_ssl_keeps x : keeps (conn_inv sc P None) (upd (set_ssl x)) (fun _ => True).
Proof. apply upd_keeps; [done| |done]. intros c [_ Hc]. split; [congruence|done]. Qed.
#[local] Hint Resolve set_incomming_keeps set_ssl_keeps : keeps.

Lemma incomming_keeps : keeps (conn_inv sc P None) conn (fun c => P (incomming_ c)).
Proof. intros w c w' Hw [= <- <-]. split; [done|apply Hw]. Qed.

Lemma message_consume_keeps m p n :
  P m -> keeps (conn_inv sc P None) (on_heap (Message_consume m p n)) (fun x => P x.2).
Proof.
  intros Hm w [k m'] w' Hw Hr. split; [by eapply on_heap_keeps|]. unfold on_heap, zoom in Hr.
  destruct (Message_consume _ _ _ _) as [[a h]|f] eqn:E; [|done]. injection Hr as -> <-.
  by eapply (proj2 HP).
Qed.

Lemma consume_any_keeps input size :
  keeps (conn_inv sc P None) (connection_consume event input size) (fun _ => True).
Proof.
  unfold connection_consume. generalize (S (Z.to_nat (i32 size))) as n. intros n.
  generalize (i32 size) as remaining. revert input.
  induction n as [|n IH]; intros input remaining; cbn [consume_loop]; [keeps_solve|].
  case_decide; [keeps_solve|].
  eapply keeps_bind; [apply incomming_keeps|intros c Hc].
  eapply keeps_bind; [by apply message_consume_keeps|intros [k m] Hm]. cbn [snd] in Hm.
  pose proof (set_incomming_keeps _ Hm). pose proof (set_incomming_keeps _ (proj1 HP)).
  keeps_solve.
Qed.
#[local] Hint Resolve consume_any_keeps send_data_keeps : keeps.

Lemma the_ssl_keeps : keeps (conn_inv sc P None) the_ssl (fun _ => True).
Proof. unfold the_ssl. keeps_solve. Qed.
#[local] Hint Resolve the_ssl_keeps : keeps.

Lemma ssl_loop_keeps n input size :
  keeps (conn_inv sc P None) (ssl_loop event n input size) (fun _ => True).
Proof.
  revert input size. induction n as [|n IH]; intros input size; cbn [ssl_loop]; keeps_solve.
Qed.
#[local] Hint Resolve ssl_loop_keeps : keeps.

Lemma on_read_any_keeps fuel nread eof buf :
  keeps (conn_inv sc P None) (on_read event fuel nread eof buf) (fun _ => True).
Proof. unfold on_read, close. keeps_solve. Qed.
End received.

Lemma event_keeps {sc} P fuel d :
  (sc_tls sc = true -> fed P) ->
  keeps (conn_inv sc P None) (event_received_n d fuel) (fun _ => True).
Proof.
  intros HP. induction d as [|d IH]; [apply keeps_fail|].
  cbn [event_received_n]. unfold event_body.
  eapply keeps_bind; [eauto with keeps|intros _ _].
  eapply keeps_bind; [apply conn_keeps|intros c _].
  destruct (state_ c); try apply keeps_fail.
  - unfold resolve. keeps_solve.
  - unfold connect. keeps_solve.
  - unfold ssl_handshake.
    eapply keeps_bind; [apply conn_mode_keeps|intros c2 [Hssl _]]. destruct (sc_tls sc) eqn:Htls.
    + pose proof (on_read_any_keeps P _ IH (HP eq_refl) Htls). keeps_solve.
    + rewrite Hssl by done. keeps_solve.
  - apply send_options_keeps.
  - apply send_startup_keeps.
  - apply notify_ready_keeps.
Qed.
#[local] Hint Resolve event_keeps : keeps.

(** Without TLS the message waits for bytes. *)
Definition waiting (m : Message) : Prop := receiving m /\ message_typed m.

(** The loop of [consume]: between its iterations [incomming_] is receiving, with
    room for what remains. *)
Lemma consume_loop_keeps sc event n buffer size remaining w w' :
  (forall P, keeps (conn_inv sc P None) event (fun _ => True)) ->
  conn_inv sc waiting None w -> 0 <= remaining ->
  m_received (incomming_ (w_conn w)) + remaining < 2147483648 ->
  consume_loop event n buffer size remaining w = Ok (tt, w') ->
  conn_inv sc waiting None w'.
Proof.
  intros Hev. revert buffer remaining w. induction n as [|n IH]; intros buffer remaining w Hw Hr Hmax Hrun;
    cbn [consume_loop] in Hrun; (case_decide as Hz; [by injection Hrun as <-|]); [done|].
  apply bind_inv in Hrun as (c & w1 & [= <- <-] & Hrun).
  apply bind_inv in Hrun as ([k m] & w2 & Hc & Hrun).
  destruct (on_heap_keeps _ _ _ _ _ _ Hw Hc) as [Hw2 _].
  pose proof (ci_incomming _ _ _ Hw) as [Hrec Hty].
  assert (0 <= m_received (incomming_ (w_conn w))) by (destruct Hrec as [_ [[]|(?&?&?)]]; lia).
  assert (0 < k <= remaining /\ (m_body_ready m = true \/ k = remaining /\ waiting m /\
    m_received m = m_received (incomming_ (w_conn w)) + remaining)) as [Hk Hm].
  { unfold on_heap, zoom in Hc. destruct (Message_consume _ _ _ _) as [[b h]|f] eqn:E; [|done].
    injection Hc as -> <-. rewrite u64_small in E by lia.
    pose proof (proj2 typed_fed _ _ _ _ _ _ _ Hty E) as Hty'.
    eapply message_consume_step in E; [|exact Hrec|lia|exact Hmax].
    destruct E as [? [?|(?&?&?)]]; [by auto|]. split; [done|]. by right. }
  assert (forall P, conn_inv sc P None w2 -> forall m', P m' ->
    conn_inv sc P None (set_w_conn (set_incomming m' (w_conn w2)) w2)) as Hset.
  { intros P [] m' Hm'. by constructor. }
  apply bind_inv in Hrun as ([] & w3 & [= <-] & Hrun).
  apply bind_inv in Hrun as ([] & w4 & Hr4 & Hrun). rewrite bool_decide_false in Hr4 by lia.
  injection Hr4 as <-. rewrite i32_small in Hrun by lia.
  apply bind_inv in Hrun as ([] & w5 & Hr5 & Hrun).
  destruct Hm as [Hready|(-> & Hm & Hn)].
  - rewrite Hready in Hr5. apply bind_inv in Hr5 as ([] & w6 & [= <-] & Hr5).
    apply (dispatch_keeps (eq Message_default) _ (Hev _)) in Hr5 as [Hw5 _].
    + pose proof (ci_incomming _ _ _ Hw5) as Hdef. eapply IH; [| |..|exact Hrun]; [|lia|].
      * eapply conn_inv_weaken; [|exact Hw5]. intros ? <-. by split; [apply receiving_default|apply default_typed].
      * rewrite <- Hdef. cbn. lia.
    + destruct Hw2. by constructor.
  - destruct (m_body_ready m) eqn:Hb; [by destruct Hm as [[] _]; congruence|]. injection Hr5 as <-.
    rewrite Z.sub_diag in Hrun. destruct n; cbn [consume_loop] in Hrun;
      rewrite decide_True in Hrun by done; injection Hrun as <-; by apply Hset.
Qed.

(** ** The events of a connection

    The calls of the user, and the callbacks of libuv with what it passes. *)
Inductive call : Type :=
  | CallInit (connect keyspace : bool)
  | CallSetKeyspace (k : list Z)
  | CallPrepare (data_of_null : outcome (list Z)) (statement : ptr) (size : Z) (callback : bool)
  | CallExec (data_of_null : outcome (list Z)) (m : Message) (callback : bool)
  | CallClose
  | OnResolve (status : Z) (res : addrinfo)
  | OnConnect (status : Z)
  | OnRead (nread : Z) (eof : bool) (buf : uv_buf)
  | OnWrite (buf : uv_buf) (status : Z)
  | OnClose.

Definition run_call (fuel : nat) (c : call) : prog world unit :=
  match c with
  | CallInit connect keyspace => connection_init fuel connect keyspace
  | CallSetKeyspace k => connection_set_keyspace k
  | CallPrepare d st n cb => _ ← connection_prepare d st n cb; mret tt
  | CallExec d m cb => _ ← exec d m cb; mret tt
  | CallClose => close
  | OnResolve status res => on_resolve fuel status res
  | OnConnect status => on_connect fuel status
  | OnRead nread eof buf => on_read_cb fuel nread eof buf
  | OnWrite buf status => on_write buf status
  | OnClose => on_close fuel
  end.

(** Without TLS a read fails or brings bytes, and the message they go to counts
    them in 31 bits. *)
Definition call_ok (c : call) w : bool :=
  match c, ssl_ (w_conn w) with
  | OnRead nread _ _, None =>
      bool_decide (nread = -1 \/
        0 <= nread /\ m_received (incomming_ (w_conn w)) + nread < 2147483648)
  | _, _ => true
  end.

(** What holds of the message that is received. *)
Definition expects tls : Message -> Prop := if tls then message_typed else waiting.

(** Between the events the rest of the program and libuv use the heap. *)
Inductive conn_step (fuel : nat) : world -> world -> Prop :=
  | step_call c w w' :
      call_ok c w = true -> run_call fuel c w = Ok (tt, w') -> conn_step fuel w w'
  | step_heap h w : conn_step fuel w (set_w_heap h w).

Lemma on_read_keeps sc fuel nread eof buf w u w' :
  sc_tls sc = false ->
  conn_inv sc waiting None w -> call_ok (OnRead nread eof buf) w = true ->
  on_read_cb fuel nread eof buf w = Ok (u, w') -> conn_inv sc waiting None w'.
Proof.
  intros Htls Hw Hok Hr. unfold on_read_cb, on_read in Hr. unfold call_ok in Hok.
  rewrite (proj1 (ci_mode _ _ _ Hw) Htls), bool_decide_eq_true in Hok.
  pose proof (ci_incomming _ _ _ Hw) as [Hrec _].
  assert (0 <= m_received (incomming_ (w_conn w))) by (destruct Hrec as [_ [[]|(?&?&?)]]; lia).
  rewrite (bind_run _ _ _ _ _ (log_run _ _ _)) in Hr.
  assert (conn_inv sc waiting None (logged CQL_LOG_DEBUG (LText "on_read") w)) as Hl
    by (eapply (log_keeps waiting None); [exact Hw|apply log_run]).
  case_decide as Hn.
  - assert (keeps (conn_inv sc waiting None)
      (when (negb eof) (emit (EvStderr "Read error")) ;; close) (fun _ => True)) as Hk
      by (unfold close; keeps_solve).
    by eapply Hk.
  - destruct Hok as [|[Hn0 Hmax]]; [done|].
    erewrite bind_run in Hr by (apply conn_run).
    rewrite (proj1 (ci_mode _ _ _ Hl) Htls) in Hr.
    apply bind_inv in Hr as ([] & w1 & Hc & Hr). unfold connection_consume in Hc.
    rewrite u64_small, i32_small in Hc by lia.
    apply consume_loop_keeps with (sc := sc) in Hc;
      [|intros P; apply event_keeps; congruence|done|done|by rewrite logged_conn].
    by destruct (on_heap_keeps _ _ _ _ _ _ Hc Hr).
Qed.

Lemma run_call_keeps {sc} fuel c w w' :
  conn_inv sc (expects (sc_tls sc)) None w -> (sc_tls sc = false -> call_ok c w = true) ->
  run_call fuel c w = Ok (tt, w') -> conn_inv sc (expects (sc_tls sc)) None w'.
Proof.
  intros Hw Hok Hr.
  assert (sc_tls sc = true -> fed (expects (sc_tls sc))) as HP by (intros ->; apply typed_fed).
  assert (keeps (conn_inv sc (expects (sc_tls sc)) None) (event_received fuel) (fun _ => True)) as Hev
    by (by apply event_keeps).
  assert (forall m, keeps (conn_inv sc (expects (sc_tls sc)) None) m (fun _ => True) ->
    m w = Ok (tt, w') -> conn_inv sc (expects (sc_tls sc)) None w') as Hdone.
  { intros m Hm Hr'. by destruct (Hm _ _ _ Hw Hr'). }
  destruct c; cbn [run_call] in Hr;
    first [destruct (sc_tls sc) eqn:Htls; [|by eapply on_read_keeps; auto] | idtac];
    revert Hr; apply Hdone; clear Hdone Hok.
  - unfold connection_init. keeps_solve.
  - apply set_keyspace_keeps.
  - pose proof (@connection_prepare_keeps sc (expects (sc_tls sc))). keeps_solve.
  - pose proof (@exec_keeps sc (expects (sc_tls sc))). keeps_solve.
  - unfold close. keeps_solve.
  - unfold on_resolve. keeps_solve.
  - unfold on_connect. keeps_solve.
  - by apply on_read_any_keeps; [|apply HP|].
  - unfold on_write. keeps_solve.
  - unfold on_close. keeps_solve.
Qed.

(** Whether the connection is given a TLS session. *)
Definition has_tls (session : option SSLSession) : bool :=
  match session with Some _ => true | None => false end.

Lemma session_connection session c :
  ClientConnection_init session = Ok c ->
  conn_mode (has_tls session) c /\ incomming_ c = Message_default /\
  stream_storage_ c = StreamStorage_init CQL_STREAM_ID_MAX i8.
Proof.
  unfold ClientConnection_init, conn_mode. destruct session as [s|]; [|by intros [= <-]].
  destruct (init s) as [b s']. destruct (handshake true s'); [|done]. by intros [= <-].
Qed.

(** A connection by itself, from its start. *)
Definition alone tls : scope := {|
  sc_tls := tls; sc_before := fun _ => 0%nat; sc_others := fun _ _ => False
|}.

Lemma new_connection_inv session w :
  ClientConnection_init session = Ok (w_conn w) -> w_requests w = [] -> w_trace w = [] ->
  conn_inv (alone (has_tls session)) (expects (has_tls session)) None w.
Proof.
  intros (Hmode & Hinc & Hst)%session_connection Hrq Htr.
  assert (forall id i, ~ in_flight (stream_storage_ (w_conn w)) id i) as Hno.
  { intros id i [Ha _]. rewrite Hst in Ha.
    cbn [allocated_streams_ StreamStorage_init] in Ha.
    by apply lookup_replicate in Ha as [? _]. }
  constructor.
  - done.
  - rewrite Hinc. destruct session; [|split; [apply receiving_default|]]; apply default_typed.
  - rewrite Hst. apply storage_inv_init; [apply max_pos|apply i8_id].
  - intros id i Hi. by destruct (Hno id i).
  - intros id1 id2 i Hi. by destruct (Hno id1 i).
  - intros i q. by rewrite Hrq.
  - intros i. by rewrite Hrq, Htr.
  - done.
  - done.
Qed.
End invariant.

(** ** Theorem *)

(** C1: the invariant of a connection, with TLS or without, by rule induction over
    its events.  Whatever the user calls and libuv calls back, in any order, as
    long as no step faults: the stream table is sound and at most 126 streams
    are taken; a request is on at most one stream, and one that is on a stream is
    not answered yet; a request is notified at most once, exactly when its flag is
    set, and then it has a result or an error; [incomming_] is well typed, and
    without TLS it waits for bytes.  With TLS nothing is asked of what the peer sends or OpenSSL answers. *)
Theorem connection_invariant `{Allocator} `{LibUV} `{OpenSSL} `{!Client} fuel session w0 w :
  client_keeps -> ClientConnection_init session = Ok (w_conn w0) ->
  w_requests w0 = [] -> w_trace w0 = [] -> rtc (conn_step fuel) w0 w ->
  let s := stream_storage_ (w_conn w) in
  storage_inv CQL_STREAM_ID_MAX s /\ 1 <= available_streams CQL_STREAM_ID_MAX s /\
  (session = None -> receiving (incomming_ (w_conn w))) /\ message_typed (incomming_ (w_conn w)) /\
  (forall i q, w_requests w !! i = Some q ->
     notifications i (w_trace w) = (if rq_flag q then 1 else 0)%nat /\
     (rq_flag q = true -> rq_result q <> None \/ rq_error q <> None) /\
     (forall id, in_flight s id i -> rq_flag q = false) /\
     (forall id1 id2, in_flight s id1 i -> in_flight s id2 i -> id1 = id2)) /\
  (forall id i, in_flight s id i -> (i < length (w_requests w))%nat) /\
  (forall i, w_requests w !! i = None -> notifications i (w_trace w) = 0%nat).
Proof.
  intros Hclient Hc Hrq Htr Hrtc s.
  assert (conn_inv (alone (has_tls session)) (expects (has_tls session)) None w)
    as [Hpl Hinc Hst Hfl Hun Han Hno _ _].
  { pose proof (new_connection_inv _ _ Hc Hrq Htr) as H0'. clear s Hc Hrq Htr.
    induction Hrtc as [w|w w1 w2 Hstep _ IH]; [done|]. apply IH.
    destruct Hstep as [c w w1 Hok Hr|h w]; [|by apply conn_inv_heap].
    by apply (run_call_keeps Hclient (sc := alone (has_tls session)) fuel c w w1). }
  pose proof (inv_index _ _ Hst) as Hix. fold s in Hst, Hfl, Hun, Hix. split_and!.
  - done.
  - unfold available_streams. change (Z.of_nat CQL_STREAM_ID_MAX) with 127 in *.
    rewrite u64_small; lia.
  - by intros ->; apply Hinc.
  - destruct session; apply Hinc.
  - intros i q Hi. pose proof (Hno i) as Hn. cbn in Hn. rewrite Hi in Hn. split_and!.
    + done.
    + by apply (Han i q).
    + intros id Hi2. destruct (Hfl _ _ Hi2) as (q2 & Hq2 & Hf). by simplify_eq.
    + intros id1 id2 Hi1 Hi2. by eapply Hun.
  - intros id i Hi. destruct (Hfl _ _ Hi) as (q & Hq & _). by eapply lookup_lt_Some.
  - intros i Hi. pose proof (Hno i) as Hn. cbn in Hn. by rewrite Hi in Hn.
Qed.

(** ** Witness

    A request is sent and answered: [exec], the read of the server's frame. *)
#[local] Existing Instances exact_allocator linux_uv null_openssl silent_client.

Definition first_call : call := CallExec (Ok []) startup_message true.
Definition void_reply : block :=
  Some <$> wire_header 0x82 0 1 CQL_OPCODE_RESULT 4 ++ be 4 CQL_RESULT_KIND_VOID.

(** The reply is put into a new block, and read. *)
Definition reply_read (h : heap) : call :=
  OnRead 12 false {| buf_base := Heap (length h) 0; buf_len := 12 |}.
Definition with_reply (w : world) : world := set_w_heap (w_heap w ++ [Some void_reply]) w.

(** A call, the reply, and what is looked at in the end. *)
Definition reply_run (c : call) (w : world) : option (nat * bool) :=
  match run_call 0 c w with
  | Ok (_, w1) =>
      let c := reply_read (w_heap w1) in
      match run_call 0 c (with_reply w1) with
      | Ok (_, w2) => Some (notifications 0 (w_trace w2), call_ok c (with_reply w1))
      | Fault _ => None
      end
  | Fault _ => None
  end.

Lemma reply_run_steps c w n :
  call_ok c w = true -> reply_run c w = Some (n, true) ->
  exists w', rtc (conn_step 0) w w' /\ notifications 0 (w_trace w') = n.
Proof.
  unfold reply_run. intros Hc Hrun.
  destruct (run_call 0 c w) as [[[] w1]|f] eqn:E1; [|done]. cbv zeta in Hrun.
  destruct (run_call 0 (reply_read _) _) as [[[] w2]|f] eqn:E2; [|done].
  injection Hrun as Hn Hok. exists w2. split; [|done].
  eapply rtc_l; [by eapply step_call|].
  eapply rtc_l; [exact (step_heap 0 (w_heap w1 ++ [Some void_reply]) w1)|].
  apply rtc_once. exact (step_call 0 (reply_read (w_heap w1)) (with_reply w1) w2 Hok E2).
Qed.

Lemma silent_keeps : client_keeps.
Proof. split; intros; by apply keeps_ret. Qed.

(** A user that sends a request as soon as the connection is ready, and changes the
    keyspace in the callback of a request, is one of those the theorem admits. *)
Definition calling_client : Client := {|
  client_connect := fun _ => _ ← exec (Ok []) startup_message true; mret tt;
  client_keyspace := fun _ => mret tt;
  client_prepare := fun _ _ _ => mret tt;
  client_request := fun _ => connection_set_keyspace (bytes_of_string "system")
|}.

Lemma calling_keeps : @client_keeps linux_uv null_openssl calling_client.
Proof.
  split; intros sc P x; cbn.
  - pose proof (exec_keeps (sc := sc) P). keeps_solve.
  - by apply keeps_ret.
  - apply set_keyspace_keeps.
Qed.

Theorem connection_invariant_witness :
  exists w, rtc (conn_step 0) (fresh_world [] plain_connection []) w /\
    notifications 0 (w_trace w) = 1%nat /\ receiving (incomming_ (w_conn w)).
Proof.
  destruct (reply_run_steps first_call (fresh_world [] plain_connection []) 1 eq_refl)
    as (w & Hrtc & Hn).
  { vm_compute. reflexivity. }
  exists w. split; [exact Hrtc|]. split; [exact Hn|].
  refine (proj1 (proj2 (proj2 (connection_invariant 0 None (fresh_world [] plain_connection []) w
    silent_keeps plain_connection_init eq_refl eq_refl Hrtc))) eq_refl).
Defined.
