(* ===== verification/Pool.v ===== *)
(** * cql_pool.hpp

    The pool of the connections to one host, over a world that all connections
    of a loop share: the heap, the connections by number, the requests and a
    trace that says which connection asked for what.  A call of a connection is
    its program of [Connection], run on that connection. *)

From S2P Require Import Prelude Memory StdMap Common Serialization Body Query Result.
From S2P Require Import Message StreamStorage Request SslSession Connection.

(** ** Data *)

(** A pool; a [ClientConnection*] is the number of a connection.  The loop is
    the world. *)
Record Pool `{OpenSSL} := {
  ssl_context_               : option SSL_CTX;
  pool_address_              : list Z;
  core_connections_per_host_ : Z;
  max_connections_per_host_  : Z;
  max_simultaneous_creation_ : Z;
  connections_               : list nat;
  connections_pending_       : list nat
}.

Section pool_data.
Context `{LibUV} `{OpenSSL}.

(** A deleted connection keeps its number. *)
Record pool_world := {
  pw_heap     : heap;
  pw_conns    : list (option ClientConnection);
  pw_requests : list CallerRequest;
  pw_trace    : list (nat * event)
}.

(** The world of connection [k]. *)
Definition conn_world (w : pool_world) (c : ClientConnection) : world := {|
  w_heap := pw_heap w; w_conn := c; w_requests := pw_requests w; w_trace := []
|}.

(** A call of connection [k]. *)
Definition on_connection {A} (k : nat) (m : prog world A) : prog pool_world A := fun w =>
  match pw_conns w !! k with
  | Some (Some c) =>
      match m (conn_world w c) with
      | Ok (a, w') =>
          Ok (a, {| pw_heap := w_heap w';
                    pw_conns := <[k := Some (w_conn w')]> (pw_conns w);
                    pw_requests := w_requests w';
                    pw_trace := pw_trace w ++ (pair k <$> w_trace w') |})
      | Fault f => Fault f
      end
  | Some None => Fault UseAfterFree
  | None => Fault OutOfBounds
  end.

(** [new ClientConnection] *)
Definition add_connection (c : ClientConnection) : prog pool_world nat := fun w =>
  Ok (length (pw_conns w),
      {| pw_heap := pw_heap w; pw_conns := pw_conns w ++ [Some c];
         pw_requests := pw_requests w; pw_trace := pw_trace w |}).

Definition delete_connection (k : nat) : prog pool_world unit := fun w =>
  match pw_conns w !! k with
  | Some (Some _) =>
      Ok (tt, {| pw_heap := pw_heap w; pw_conns := <[k := None]> (pw_conns w);
                 pw_requests := pw_requests w; pw_trace := pw_trace w |})
  | _ => Fault UseAfterFree
  end.

Definition set_pending (l : list nat) (p : Pool) : Pool := {|
  ssl_context_ := ssl_context_ p; pool_address_ := pool_address_ p;
  core_connections_per_host_ := core_connections_per_host_ p;
  max_connections_per_host_ := max_connections_per_host_ p;
  max_simultaneous_creation_ := max_simultaneous_creation_ p;
  connections_ := connections_ p; connections_pending_ := l
|}.

(** The user of a pooled connection: [Pool::connect_callback], and the callback
    of a request. *)
Definition connect_callback (error : option Error) : prog world unit := mret tt.

Definition pooled (request_callback : nat -> prog world unit) : Client := {|
  client_connect := connect_callback;
  client_keyspace := fun _ => mret tt;
  client_prepare := fun _ _ _ => mret tt;
  client_request := request_callback
|}.
End pool_data.

(** ** Operations *)

Section pool.
Context `{Allocator} `{LibUV} `{OpenSSL}.
Variable request_callback : nat -> prog world unit.
#[local] Instance pool_client : Client := pooled request_callback.

Definition spawn_connection (p : Pool) : prog pool_world Pool :=
  c ← (fun w => match ClientConnection_init (SSLSession_new <$> ssl_context_ p) with
                | Ok c => Ok (c, w) | Fault f => Fault f end);
  connection ← add_connection c;
  on_connection connection (connection_init 1 true false) ;;
  mret (set_pending (connections_pending_ p ++ [connection]) p).

(** The loop of the constructor. *)
Fixpoint spawn_connections (n : nat) (p : Pool) : prog pool_world Pool :=
  match n with
  | O => mret p
  | S n => p ← spawn_connection p; spawn_connections n p
  end.

Definition Pool_init (ssl_context : option SSL_CTX) (address : list Z)
    (core_connections max_connections max_simultaneous : Z) : prog pool_world Pool :=
  spawn_connections (Z.to_nat core_connections) {|
    ssl_context_ := ssl_context; pool_address_ := address;
    core_connections_per_host_ := core_connections;
    max_connections_per_host_ := max_connections;
    max_simultaneous_creation_ := max_simultaneous;
    connections_ := []; connections_pending_ := []
  |}.

(** The destructor. *)
Fixpoint delete_connections (cs : list nat) : prog pool_world unit :=
  match cs with
  | [] => mret tt
  | c :: cs => delete_connection c ;; delete_connections cs
  end.

Definition Pool_destroy (p : Pool) : prog pool_world unit :=
  delete_connections (connections_ p).

(** The public operations do nothing yet. *)
Definition pool_prepare (p : Pool) : Pool := p.
Definition pool_execute (p : Pool) : Pool := p.
Definition pool_shutdown (p : Pool) : Pool := p.
Definition pool_set_keyspace (p : Pool) : Pool := p.

Definition maybe_spawn_connection (p : Pool) : prog pool_world Pool :=
  if decide (max_simultaneous_creation_ p <= zlen (connections_pending_ p)) then mret p
  else if decide (max_connections_per_host_ p <=
                  u64 (zlen (connections_ p) + zlen (connections_pending_ p))) then mret p
  else spawn_connection p.

(** [available_streams] of connection [k]. *)
Definition connection_streams (k : nat) : prog pool_world Z := fun w =>
  match pw_conns w !! k with
  | Some (Some c) => Ok (available_streams CQL_STREAM_ID_MAX (stream_storage_ c), w)
  | Some None => Fault UseAfterFree
  | None => Fault OutOfBounds
  end.

Definition least_busy_comp (a b : nat) : prog pool_world bool :=
  x ← connection_streams a;
  y ← connection_streams b;
  mret (bool_decide (x < y)).

(** std::max_element: the first of the greatest, or the end of the range. *)
Fixpoint max_element_from (best : nat) (cs : list nat) : prog pool_world nat :=
  match cs with
  | [] => mret best
  | c :: cs =>
      less ← least_busy_comp best c;
      max_element_from (if (less : bool) then c else best) cs
  end.

Definition max_element (cs : list nat) : prog pool_world (option nat) :=
  match cs with
  | [] => mret None
  | c :: cs => best ← max_element_from c cs; mret (Some best)
  end.

(** The iterator is dereferenced whether it is the end or not. *)
Definition find_least_busy (p : Pool) : prog pool_world (option nat) :=
  it ← max_element (connections_ p);
  match it with
  | Some c =>
      n ← connection_streams c;
      mret (if decide (n <> 0) then Some c else None)
  | None => fail OutOfBounds
  end.

Definition error_max_connections : Error := {|
  e_source := CQL_ERROR_SOURCE_LIBRARY; e_code := CQL_ERROR_LIB_MAX_CONNECTIONS;
  e_message := bytes_of_string "all connections busy";
  e_file := "cql_pool.hpp"; e_line := 159
|}.

(** What is written to [*output], and the error; [output] tells whether the
    pointer is not NULL. *)
Definition borrow_connection (p : Pool) (output : bool)
    : prog pool_world (option nat * option Error) :=
  c ← find_least_busy p;
  (if output then mret tt else fail NullPointer) ;;
  if output then mret (c, None)
  else if decide (max_connections_per_host_ p <= zlen (connections_ p))
  then mret (c, Some error_max_connections)
  else mret (c, None).
End pool.
