(* ===== verification/PoolFacts.v ===== *)
(** * What the pool does

    The connections a pool makes, how many, and which one it lends. *)

From S2P Require Import Prelude Memory StdMap Common Serialization Body Query Result.
From S2P Require Import Message StreamStorage Request SslSession HeapEffects Connection.
From S2P Require Import ConnectionFacts Lifecycle Pool.

Section pool_facts.
Context `{Allocator} `{LibUV} `{OpenSSL}.
Context (request_callback : nat -> prog world unit).
Implicit Types (w : pool_world) (p : Pool) (k n : nat).

(** ** Spawning *)

(** What libuv is asked to do for every connection. *)
Definition resolve_event : event :=
  EvGetaddrinfo (bytes_of_string "localhost") (bytes_of_string "9042")
    {| hint_family := PF_INET; hint_socktype := SOCK_STREAM;
       hint_protocol := IPPROTO_TCP; hint_flags := 0 |}.

Definition new_connection : ClientConnection := {|
  state_ := CLIENT_STATE_NEW; incomming_ := Message_default;
  stream_storage_ := StreamStorage_init CQL_STREAM_ID_MAX i8;
  connect_callback_ := true; keyspace_callback_ := false;
  prepare_callback_ := false; log_callback_ := false;
  address_ := None; address_string_ := []; address_family_ := PF_INET;
  hostname_ := bytes_of_string "localhost"; port_ := bytes_of_string "9042";
  resolver_hints_ := {| hint_family := PF_INET; hint_socktype := SOCK_STREAM;
                        hint_protocol := IPPROTO_TCP; hint_flags := 0 |};
  ssl_ := None; ssl_handshake_done_ := false;
  compression_ := []; cql_version_ := bytes_of_string "3.0.0"
|}.

(** The world with [n] more connections, each of which asked for its host. *)
Definition spawned n w : pool_world := {|
  pw_heap := pw_heap w; pw_conns := pw_conns w ++ replicate n (Some new_connection);
  pw_requests := pw_requests w;
  pw_trace := pw_trace w ++ ((fun k => (k, resolve_event)) <$> seq (length (pw_conns w)) n)
|}.

Definition grown n w p : Pool :=
  set_pending (connections_pending_ p ++ seq (length (pw_conns w)) n) p.

Lemma spawn_connection_run p w :
  ssl_context_ p = None ->
  spawn_connection request_callback p w = Ok (grown 1 w p, spawned 1 w).
Proof.
  intros Hssl. unfold spawn_connection. rewrite Hssl.
  erewrite bind_run by reflexivity. erewrite bind_run by reflexivity.
  erewrite bind_run; [done|]. unfold on_connection. cbn [pw_conns].
  rewrite lookup_app_r, Nat.sub_diag by done. cbn [lookup list_lookup].
  unfold conn_world. cbn [pw_heap pw_requests].
  rewrite connection_init_run by done. cbn [w_heap w_conn w_requests w_trace set_w_conn add_event].
  rewrite insert_app_r_alt, Nat.sub_diag by done. done.
Qed.

Lemma spawned_app n m w : spawned m (spawned n w) = spawned (n + m) w.
Proof.
  unfold spawned. cbn [pw_heap pw_conns pw_requests pw_trace].
  by rewrite length_app, length_replicate, replicate_add, seq_app, fmap_app, !app_assoc.
Qed.

Lemma grown_app n m w p : grown m (spawned n w) (grown n w p) = grown (n + m) w p.
Proof.
  unfold grown, set_pending. cbn. rewrite length_app, length_replicate, seq_app.
  by rewrite app_assoc.
Qed.

Lemma grown_0 w p : grown 0 w p = p.
Proof. unfold grown. cbn. rewrite app_nil_r. by destruct p. Qed.

Lemma spawned_0 w : spawned 0 w = w.
Proof. unfold spawned. cbn. rewrite !app_nil_r. by destruct w. Qed.

Lemma spawn_connections_run n p w :
  ssl_context_ p = None ->
  spawn_connections request_callback n p w = Ok (grown n w p, spawned n w).
Proof.
  revert p w. induction n as [|n IH]; intros p w Hssl; cbn [spawn_connections].
  - by rewrite grown_0, spawned_0.
  - erewrite bind_run by (by apply spawn_connection_run). rewrite IH by done.
    by rewrite grown_app, spawned_app.
Qed.

(** A call of [maybe_spawn_connection], and [k] of them. *)
Definition room p : bool :=
  bool_decide (zlen (connections_pending_ p) < max_simultaneous_creation_ p) &&
  bool_decide (zlen (connections_ p) + zlen (connections_pending_ p) <
               max_connections_per_host_ p).

Lemma maybe_spawn_run p w :
  ssl_context_ p = None ->
  zlen (connections_ p) + zlen (connections_pending_ p) < 18446744073709551616 ->
  maybe_spawn_connection request_callback p w =
    if room p then Ok (grown 1 w p, spawned 1 w) else Ok (p, w).
Proof.
  intros Hssl Hn. unfold maybe_spawn_connection, room. rewrite u64_small by lia.
  destruct (decide (_ <= _)) as [Hd|Hd]; [by rewrite bool_decide_false by lia|].
  rewrite bool_decide_true by lia. cbn [andb].
  destruct (decide (_ <= _)) as [He|He]; [by rewrite bool_decide_false by lia|].
  rewrite bool_decide_true by lia. by apply spawn_connection_run.
Qed.

Fixpoint maybe_spawns k p : prog pool_world Pool :=
  match k with
  | O => mret p
  | S k => p ← maybe_spawn_connection request_callback p; maybe_spawns k p
  end.

Lemma maybe_spawns_run k p w :
  ssl_context_ p = None -> connections_ p = [] ->
  zlen (connections_pending_ p) + Z.of_nat k < 18446744073709551616 ->
  exists n, maybe_spawns k p w = Ok (grown n w p, spawned n w) /\
    let pending := zlen (connections_pending_ p) in
    pending + Z.of_nat n =
      Z.max pending (Z.min (pending + Z.of_nat k)
        (Z.min (max_simultaneous_creation_ p) (max_connections_per_host_ p))).
Proof.
  revert p w. induction k as [|k IH]; intros p w Hssl Hc Hk; cbn [maybe_spawns].
  - exists 0%nat. rewrite grown_0, spawned_0. split; [done|]. cbv zeta. lia.
  - unfold mbind, prog_bind. rewrite maybe_spawn_run by (rewrite ?Hc; cbn; lia || done).
    unfold room. rewrite Hc. cbn [length]. change (Z.of_nat 0) with 0. rewrite Z.add_0_l.
    destruct (bool_decide _ && _) eqn:Hroom.
    + apply andb_true_iff in Hroom as [Hr1%bool_decide_eq_true Hr2%bool_decide_eq_true].
      destruct (IH (grown 1 w p) (spawned 1 w)) as (n & Hrun & Hn); [done|done|..].
      { cbn. rewrite length_app. cbn. lia. }
      exists (1 + n)%nat. rewrite Hrun, grown_app, spawned_app. split; [done|]. cbv zeta in *.
      cbn [connections_pending_ grown set_pending max_simultaneous_creation_
        max_connections_per_host_] in Hn. rewrite length_app in Hn. cbn [length seq] in Hn. lia.
    + destruct (IH p w) as (n & Hrun & Hn); [done|done|lia|].
      exists n. split; [done|]. cbv zeta in *.
      apply andb_false_iff in Hroom as [Hr1%bool_decide_eq_false|Hr1%bool_decide_eq_false]; lia.
Qed.

End pool_facts.

(** ** The least busy connection *)

Section least_busy.
Context `{LibUV} `{OpenSSL}.
Implicit Types (w : pool_world) (p : Pool) (k : nat).

(** How many streams connection [k] has left. *)
Definition streams_left w k : option Z :=
  match pw_conns w !! k with
  | Some (Some c) => Some (available_streams CQL_STREAM_ID_MAX (stream_storage_ c))
  | _ => None
  end.

Lemma connection_streams_run w k (z : Z) :
  streams_left w k = Some z -> connection_streams k w = Ok (z, w).
Proof. unfold streams_left, connection_streams. repeat case_match; naive_solver. Qed.

(** [k] is the first of the greatest of [cs]. *)
Definition first_max (f : nat -> Z) k (cs : list nat) : Prop :=
  exists pre post, cs = pre ++ k :: post /\
    Forall (fun j => f j < f k) pre /\ Forall (fun j => f j <= f k) post.

Lemma first_max_elem f k cs : first_max f k cs -> k ∈ cs.
Proof.
  intros (pre & post & -> & _). rewrite elem_of_app, elem_of_cons. auto.
Qed.

Lemma first_max_less f best c cs k :
  f best < f c -> first_max f k (c :: cs) -> first_max f k (best :: c :: cs).
Proof.
  intros Hlt (pre & post & Hcs & Hpre & Hpost). exists (best :: pre), post.
  rewrite Hcs. split; [done|]. split; [|done]. constructor; [|done].
  destruct pre as [|c' pre]; injection Hcs as <- _; [done|].
  apply Forall_cons in Hpre as [? _]. lia.
Qed.

Lemma first_max_geq f best c cs k :
  f c <= f best -> first_max f k (best :: cs) -> first_max f k (best :: c :: cs).
Proof.
  intros Hle (pre & post & Hcs & Hpre & Hpost).
  destruct pre as [|b pre]; injection Hcs as <- ->.
  - exists [], (c :: post). split; [done|]. split; [done|]. by constructor.
  - exists (best :: c :: pre), post. split; [done|]. split; [|done].
    apply Forall_cons in Hpre as [? ?]. repeat constructor; [done|lia|done].
Qed.

Lemma max_element_run w (f : nat -> Z) best cs :
  Forall (fun k => streams_left w k = Some (f k)) (best :: cs) ->
  exists k, max_element_from best cs w = Ok (k, w) /\ first_max f k (best :: cs).
Proof.
  revert best. induction cs as [|c cs IH]; intros best Hall; cbn [max_element_from].
  - exists best. split; [done|]. exists [], []. by repeat constructor.
  - apply Forall_cons in Hall as [Hb [Hc Hcs]%Forall_cons].
    unfold least_busy_comp. rewrite bind_assoc.
    erewrite bind_run by (by apply connection_streams_run). rewrite bind_assoc.
    erewrite bind_run by (by apply connection_streams_run). rewrite bind_ret.
    destruct (decide (f best < f c)) as [Hlt|Hge].
    + rewrite bool_decide_true by done. destruct (IH c) as (k & Hrun & Hmax); [by constructor|].
      exists k. split; [done|by apply first_max_less].
    + rewrite bool_decide_false by done.
      destruct (IH best) as (k & Hrun & Hmax); [by constructor|].
      exists k. split; [done|]. apply first_max_geq; [lia|done].
Qed.

Lemma find_least_busy_run w (f : nat -> Z) p :
  connections_ p <> [] -> Forall (fun k => streams_left w k = Some (f k)) (connections_ p) ->
  exists k, first_max f k (connections_ p) /\
    find_least_busy p w = Ok (if decide (f k = 0) then None else Some k, w).
Proof.
  unfold find_least_busy. destruct (connections_ p) as [|c cs] eqn:E; [done|]. intros _ Hall.
  destruct (max_element_run w f c cs Hall) as (k & Hrun & Hmax).
  exists k. split; [done|].
  cbn [max_element]. rewrite bind_assoc. erewrite bind_run by exact Hrun. rewrite bind_ret.
  rewrite Forall_forall in Hall.
  erewrite bind_run by (eapply connection_streams_run, Hall, first_max_elem; exact Hmax).
  destruct (decide (f k <> 0)), (decide (f k = 0)); done || lia.
Qed.
End least_busy.

(** ** Theorems *)

(** C30: a pool never lends a connection.  The constructor makes the core
    connections and [maybe_spawn_connection] another one as long as fewer than
    the two limits are pending; but a connection only ever becomes pending, no
    code moves it to [connections_].  So the limits hold, in numbers: of [k]
    calls as many connect as the smaller limit admits; every connection
    resolves localhost:9042, whatever the address of the pool is;
    [borrow_connection] dereferences the end of the empty list; and the
    destructor deletes none of the connections. *)
Theorem pool_never_lends `{Allocator} `{LibUV} `{OpenSSL} request_callback
    address core max simultaneous (k : nat) (w : pool_world) :
  0 <= core -> core + Z.of_nat k < 18446744073709551616 ->
  exists n p w',
    (p ← Pool_init request_callback None address core max simultaneous;
     maybe_spawns request_callback k p) w = Ok (p, w') /\
    Z.of_nat n = Z.max core (Z.min (core + Z.of_nat k) (Z.min simultaneous max)) /\
    connections_pending_ p = seq (length (pw_conns w)) n /\
    pw_conns w' = pw_conns w ++ replicate n (Some new_connection) /\
    pw_trace w' = pw_trace w ++
      ((fun c => (c, resolve_event)) <$> seq (length (pw_conns w)) n) /\
    (forall output, borrow_connection p output w' = Fault OutOfBounds) /\
    Pool_destroy p w' = Ok (tt, w').
Proof.
  intros Hcore Hk. unfold Pool_init.
  erewrite bind_run by (by apply spawn_connections_run).
  match goal with |- context [maybe_spawns _ k ?p] => set (p0 := p) end.
  destruct (maybe_spawns_run request_callback k p0 (spawned (Z.to_nat core) w))
    as (n & Hrun & Hn); [done|done|..].
  { cbn. rewrite length_seq. lia. }
  exists (Z.to_nat core + n)%nat. do 2 eexists. split; [exact Hrun|].
  cbn [connections_pending_ p0 grown set_pending app max_simultaneous_creation_
    max_connections_per_host_] in Hn. rewrite length_seq in Hn.
  subst p0. rewrite grown_app, spawned_app. split_and!; [lia|done..].
Qed.

(** Which connection is lent, from a pool with live connections: the first of
    those with the most streams left.  The error "all connections busy" is never
    made, because the test is of the pointer to write to: with no stream left
    NULL is lent without an error.  And that does not happen either: a sound
    table always counts a stream, the one that cannot be taken (see
    [streams_exhausted]), so that an exhausted connection is lent. *)
Theorem borrow_spec `{Allocator} `{LibUV} `{OpenSSL} p (w : pool_world) (f : nat -> Z) :
  connections_ p <> [] -> Forall (fun k => streams_left w k = Some (f k)) (connections_ p) ->
  exists k,
    first_max f k (connections_ p) /\
    borrow_connection p true w = Ok ((if decide (f k = 0) then None else Some k, None), w) /\
    borrow_connection p false w = Fault NullPointer /\
    ((forall j c, j ∈ connections_ p -> pw_conns w !! j = Some (Some c) ->
        storage_inv CQL_STREAM_ID_MAX (stream_storage_ c)) ->
     borrow_connection p true w = Ok ((Some k, None), w)).
Proof.
  intros Hne Hall. destruct (find_least_busy_run w f p Hne Hall) as (k & Hmax & Hrun).
  pose proof (first_max_elem _ _ _ Hmax) as Hin.
  assert (borrow_connection p true w =
    Ok ((if decide (f k = 0) then None else Some k, None), w)) as Hb.
  { unfold borrow_connection. by erewrite bind_run by exact Hrun. }
  exists k. split_and!; [done|done|..].
  - unfold borrow_connection. by erewrite bind_run by exact Hrun.
  - intros Hinv. rewrite Hb, decide_False; [done|].
    rewrite Forall_forall in Hall. specialize (Hall k Hin). unfold streams_left in Hall.
    destruct (pw_conns w !! k) as [[c|]|] eqn:Ec; [|done..]. injection Hall as <-.
    pose proof (inv_index _ _ (Hinv k c Hin Ec)) as Hix. unfold available_streams.
    change (Z.of_nat CQL_STREAM_ID_MAX) with 127 in *. rewrite u64_small; lia.
Qed.

(** ** Witnesses *)

#[local] Existing Instances exact_allocator linux_uv null_openssl.

Definition empty_world : pool_world := {|
  pw_heap := []; pw_conns := []; pw_requests := []; pw_trace := []
|}.

(** Two core connections, and three calls that find the limit reached. *)
Theorem pool_never_lends_witness :
  exists p w',
    (p ← Pool_init (fun _ => mret tt) None (bytes_of_string "10.0.0.1") 2 8 1;
     maybe_spawns (fun _ => mret tt) 3 p) empty_world = Ok (p, w') /\
    connections_pending_ p = [0; 1]%nat /\
    borrow_connection p true w' = Fault OutOfBounds.
Proof.
  destruct (pool_never_lends (fun _ => mret tt) (bytes_of_string "10.0.0.1") 2 8 1 3
    empty_world ltac:(lia) ltac:(lia)) as (n & p & w' & Hrun & Hn & Hp & _ & _ & Hb & _).
  assert (n = 2%nat) as -> by lia.
  exists p, w'. split; [exact Hrun|]. split; [exact Hp|apply Hb].
Defined.

(** A pool with two connections, the second without streams in use. *)
Definition busy_connection : ClientConnection :=
  set_stream_storage (stream_taken (StreamStorage_init CQL_STREAM_ID_MAX i8) 1 None)
    plain_connection.
Definition lending_pool : Pool := {|
  ssl_context_ := None; pool_address_ := []; core_connections_per_host_ := 2;
  max_connections_per_host_ := 2; max_simultaneous_creation_ := 1;
  connections_ := [0; 1]%nat; connections_pending_ := []
|}.
Definition lending_world : pool_world := {|
  pw_heap := []; pw_conns := [Some busy_connection; Some plain_connection];
  pw_requests := []; pw_trace := []
|}.

Theorem borrow_spec_witness :
  borrow_connection lending_pool true lending_world = Ok ((Some 1%nat, None), lending_world).
Proof.
  destruct (borrow_spec lending_pool lending_world
    (fun k => if decide (k = 0%nat) then 126 else 127))
    as (k & (pre & post & Hcs & Hpre & Hpost) & Hb & _).
  - discriminate.
  - repeat constructor.
  - destruct pre as [|a [|b pre]].
    + injection Hcs as <- <-. exfalso. apply Forall_cons in Hpost as [Hp _].
      vm_compute in Hp. by apply Hp.
    + injection Hcs as <- <- <-. exact Hb.
    + exfalso. injection Hcs as <- <- Hnil. by destruct pre.
Defined.
