(* ===== verification/PoolInvariant.v ===== *)
(** * The invariant of the connections of a loop

    The connections of a loop share the heap and the requests, and their events come
    in any order.  The invariant of one connection, with the requests of the others
    set aside, gives the invariant of all: a request is on at most one stream of
    one connection, whichever events happen. *)

From stdpp Require Import relations.
From S2P Require Import Prelude Memory StdMap Common Serialization Body Query Result.
From S2P Require Import Message StreamStorage Request SslSession HeapEffects Connection Typing.
From S2P Require Import ConnectionFacts Receive Lifecycle Answers Invariant Pool PoolFacts.

Section pool_invariant.
Context `{Allocator} `{LibUV} `{OpenSSL}.
Variable request_callback : nat -> prog world unit.
#[local] Instance callback_client : Client := pooled request_callback.
Implicit Types (w : pool_world).

Definition live w (k : nat) (c : ClientConnection) : Prop := pw_conns w !! k = Some (Some c).

(** How often request [i] was notified, by any connection. *)
Definition pool_notifications (i : nat) w : nat := notifications i (pw_trace w).*2.

Record pool_inv w : Prop := {
  pi_conns    : forall k c, live w k c ->
                  conn_mode true c /\ message_typed (incomming_ c) /\
                  storage_inv CQL_STREAM_ID_MAX (stream_storage_ c);
  pi_flight   : forall k c id i, live w k c -> in_flight (stream_storage_ c) id i ->
                  exists q, pw_requests w !! i = Some q /\ rq_flag q = false;
  pi_unique   : forall k1 k2 c1 c2 id1 id2 i, live w k1 c1 -> live w k2 c2 ->
                  in_flight (stream_storage_ c1) id1 i -> in_flight (stream_storage_ c2) id2 i ->
                  k1 = k2 /\ id1 = id2;
  pi_answer   : forall i q, pw_requests w !! i = Some q -> rq_flag q = true ->
                  rq_result q <> None \/ rq_error q <> None;
  pi_notified : forall i, pool_notifications i w =
                  match pw_requests w !! i with
                  | Some q => if rq_flag q then 1%nat else 0%nat
                  | None => 0%nat
                  end
}.

(** ** From all connections to one, and back *)

(** Connection [k] among the others. *)
Definition among (k : nat) w : scope := {|
  sc_tls := true;
  sc_before := fun i => pool_notifications i w;
  sc_others := fun i q => pw_requests w !! i = Some q /\
    exists k' c' id, k' <> k /\ live w k' c' /\ in_flight (stream_storage_ c') id i
|}.

Lemma pool_conn w k c :
  pool_inv w -> live w k c -> conn_inv (among k w) message_typed None (conn_world w c).
Proof.
  intros [Hc Hfl Hun Han Hno] Hk. destruct (Hc k c Hk) as (Hm & Ht & Hs).
  constructor; cbn [conn_world w_conn w_requests w_trace among sc_tls sc_before sc_others];
    try done.
  - intros id i Hi. by eapply Hfl.
  - intros id1 id2 i Hi1 Hi2. by destruct (Hun k k c c id1 id2 i Hk Hk Hi1 Hi2).
  - intros i. by rewrite <- Hno, Nat.add_0_r.
  - intros i q (Hq & k' & c' & id & Hne & Hk' & Hi). split_and!; [done|done|].
    intros id2 Hi2. by destruct (Hun k' k c' c id id2 i Hk' Hk Hi Hi2).
Qed.

Lemma pool_notifications_app i (tr tr' : list (nat * event)) :
  notifications i (tr ++ tr').*2 = (notifications i tr.*2 + notifications i tr'.*2)%nat.
Proof. unfold notifications. by rewrite fmap_app, filter_app, length_app. Qed.

(** The loop after connection [k] has run to [w1]. *)
Definition after_conn (k : nat) (w1 : world) w : pool_world := {|
  pw_heap := w_heap w1; pw_conns := <[k := Some (w_conn w1)]> (pw_conns w);
  pw_requests := w_requests w1; pw_trace := pw_trace w ++ (pair k <$> w_trace w1)
|}.

Lemma conn_pool w k c (w1 : world) :
  pool_inv w -> live w k c -> conn_inv (among k w) message_typed None w1 ->
  pool_inv (after_conn k w1 w).
Proof.
  intros [Hc Hfl Hun Han Hno] Hk [Hm Ht Hs Hfl1 Hun1 Han1 Hno1 _ Hot].
  pose proof (lookup_lt_Some _ _ _ Hk) as Hlt.
  assert (forall k' c', live (after_conn k w1 w) k' c' ->
    k' = k /\ c' = w_conn w1 \/ k' <> k /\ live w k' c') as Hlive.
  { intros k' c' Hk'. unfold live in *. cbn in Hk'. destruct (decide (k' = k)) as [->|Hne].
    - rewrite list_lookup_insert_eq in Hk' by done. simplify_eq. by left.
    - rewrite list_lookup_insert_ne in Hk' by done. by right. }
  assert (forall k' c' id i, k' <> k -> live w k' c' -> in_flight (stream_storage_ c') id i ->
    exists q, sc_others (among k w) i q) as Hfr.
  { intros k' c' id i Hne Hk' Hi. destruct (Hfl _ _ _ _ Hk' Hi) as (q & Hq & _).
    exists q. split; [done|]. by exists k', c', id. }
  constructor; cbn [pw_requests pw_trace after_conn].
  - intros k' c' [[-> ->]|[_ Hk']]%Hlive; [done|by eapply Hc].
  - intros k' c' id i [[-> ->]|[Hne Hk']]%Hlive Hi; [by eapply Hfl1|].
    destruct (Hfr _ _ _ _ Hne Hk' Hi) as (q & Ho). exists q.
    split; [by apply Hot|]. destruct (Hfl _ _ _ _ Hk' Hi) as (q' & Hq' & ?).
    destruct Ho as [Hq _]. by simplify_eq.
  - intros k1 k2 c1 c2 id1 id2 i [[-> ->]|[Hn1 L1]]%Hlive [[-> ->]|[Hn2 L2]]%Hlive I1 I2.
    + split; [done|by eapply Hun1].
    + destruct (Hfr _ _ _ _ Hn2 L2 I2) as (q & Ho). by destruct (Hot i q Ho) as (_ & _ & []%(fun H => H id1)).
    + destruct (Hfr _ _ _ _ Hn1 L1 I1) as (q & Ho). by destruct (Hot i q Ho) as (_ & _ & []%(fun H => H id2)).
    + by eapply Hun.
  - exact Han1.
  - intros i. unfold pool_notifications. cbn [pw_trace after_conn].
    rewrite pool_notifications_app, <- list_fmap_compose.
    rewrite (list_fmap_ext _ id), list_fmap_id by done. apply Hno1.
Qed.

(** A program that keeps the invariant of its connection keeps that of the loop. *)
Lemma on_connection_inv {A} k (m : prog world A) a w w' :
  (forall sc, sc_tls sc = true -> keeps (conn_inv sc message_typed None) m (fun _ => True)) ->
  pool_inv w -> on_connection k m w = Ok (a, w') -> pool_inv w'.
Proof.
  intros Hm Hw Hr. unfold on_connection in Hr.
  destruct (pw_conns w !! k) as [[c|]|] eqn:Hk; [|done..].
  destruct (m (conn_world w c)) as [[b w1]|f] eqn:Hrun; [|done]. injection Hr as -> <-.
  apply (conn_pool w k c); [done|done|].
  by destruct (Hm (among k w) eq_refl _ _ _ (pool_conn _ _ _ Hw Hk) Hrun).
Qed.

(** ** The steps of a loop

    An event of a connection, the heap in between, a new connection, the deletion of
    one.  [Pool_init] and [maybe_spawn_connection] spawn, [Pool_destroy] deletes, and
    [borrow_connection] only reads. *)
Inductive pool_step (fuel : nat) : pool_world -> pool_world -> Prop :=
  | pool_call k c w w' :
      on_connection k (run_call fuel c) w = Ok (tt, w') -> pool_step fuel w w'
  | pool_heap h w :
      pool_step fuel w {| pw_heap := h; pw_conns := pw_conns w;
                          pw_requests := pw_requests w; pw_trace := pw_trace w |}
  | pool_spawn p p' w w' :
      spawn_connection request_callback p w = Ok (p', w') -> pool_step fuel w w'
  | pool_delete k w w' :
      delete_connection k w = Ok (tt, w') -> pool_step fuel w w'.

Context (Hcallback : forall sc P i,
  keeps (conn_inv sc P None) (request_callback i) (fun _ => True)).

Lemma pooled_keeps : client_keeps.
Proof. split; intros sc P x; cbn; [by apply keeps_ret..|apply Hcallback]. Qed.

Lemma call_inv fuel k c u w w' :
  pool_inv w -> on_connection k (run_call fuel c) w = Ok (u, w') -> pool_inv w'.
Proof.
  intros Hw Hr. eapply on_connection_inv; [|exact Hw|exact Hr].
  intros sc Htls w1 [] w2 Hw1 Hr1. split; [|done].
  pose proof (run_call_keeps pooled_keeps (sc := sc) fuel c w1 w2) as Hk.
  rewrite Htls in Hk. by apply Hk.
Qed.

(** A connection that was just made has no request. *)
Lemma add_connection_inv w session c :
  pool_inv w -> ClientConnection_init session = Ok c ->
  pool_inv {| pw_heap := pw_heap w; pw_conns := pw_conns w ++ [Some c];
              pw_requests := pw_requests w; pw_trace := pw_trace w |}.
Proof.
  intros [Hc Hfl Hun Han Hno] (Hmode & Hinc & Hst)%session_connection.
  assert (forall id i, ~ in_flight (stream_storage_ c) id i) as Hfresh.
  { intros id i [Ha _]. rewrite Hst in Ha. cbn [allocated_streams_ StreamStorage_init] in Ha.
    by apply lookup_replicate in Ha as [? _]. }
  assert (forall k c', live {| pw_heap := pw_heap w; pw_conns := pw_conns w ++ [Some c];
      pw_requests := pw_requests w; pw_trace := pw_trace w |} k c' ->
    live w k c' \/ c' = c) as Hlive.
  { intros k c' [Hk|[_ Hk]]%lookup_app_Some; [by left|].
    apply list_lookup_singleton_Some in Hk as [_ [= <-]]. by right. }
  constructor; cbn [pw_requests pw_trace]; try done.
  - intros k c' [Hk| ->]%Hlive; [by eapply Hc|]. split_and!.
    + split; [done|apply Hmode].
    + rewrite Hinc. apply default_typed.
    + rewrite Hst. apply storage_inv_init; [apply max_pos|apply i8_id].
  - intros k c' id i [Hk| ->]%Hlive Hi; [by eapply Hfl|by destruct (Hfresh id i)].
  - intros k1 k2 c1 c2 id1 id2 i Hk1 Hk2 Hi1 Hi2.
    destruct (Hlive _ _ Hk1) as [L1| ->]; [|by destruct (Hfresh id1 i)].
    destruct (Hlive _ _ Hk2) as [L2| ->]; [|by destruct (Hfresh id2 i)]. by eapply Hun.
Qed.

Lemma spawn_inv p p' w w' :
  pool_inv w -> spawn_connection request_callback p w = Ok (p', w') -> pool_inv w'.
Proof.
  intros Hw Hr. unfold spawn_connection in Hr.
  apply bind_inv in Hr as (c & w1 & Hc & Hr).
  destruct (ClientConnection_init _) as [c'|f] eqn:Einit; [|done]. injection Hc as <- <-.
  apply bind_inv in Hr as (k & w2 & [= <- <-] & Hr).
  apply bind_inv in Hr as ([] & w3 & Hr & [= <- <-]).
  eapply (call_inv 1 _ (CallInit true false)); [|exact Hr]. by eapply add_connection_inv.
Qed.

Lemma delete_inv k u w w' : pool_inv w -> delete_connection k w = Ok (u, w') -> pool_inv w'.
Proof.
  intros [Hc Hfl Hun Han Hno] Hr. unfold delete_connection in Hr.
  destruct (pw_conns w !! k) as [[c|]|] eqn:Hk; [|done..]. injection Hr as _ <-.
  assert (forall k' c', <[k := None]> (pw_conns w) !! k' = Some (Some c') -> live w k' c') as Hlive.
  { intros k' c' Hk'. destruct (decide (k' = k)) as [->|Hne].
    - rewrite list_lookup_insert_eq in Hk' by by eapply lookup_lt_Some. done.
    - by rewrite list_lookup_insert_ne in Hk'. }
  constructor; cbn [pw_requests pw_trace]; unfold live; cbn [pw_conns]; try done.
  - intros k' c' Hk'%Hlive. by eapply Hc.
  - intros k' c' id i Hk'%Hlive. by eapply Hfl.
  - intros k1 k2 c1 c2 id1 id2 i Hk1%Hlive Hk2%Hlive. by eapply Hun.
Qed.
End pool_invariant.

(** ** Theorem *)

(** C5: all the connections of a loop, whatever their number, with or without TLS, and
    whatever order their events come in: each has a sound stream table and a
    well-typed message; a request is on at most one stream of at most one connection,
    and not answered while it is on one; and it is notified at most once, by all
    connections together, exactly when its flag is set, and then it has a result or
    an error. *)
Theorem pool_invariant `{Allocator} `{LibUV} `{OpenSSL} request_callback fuel w0 w :
  (forall sc P i, keeps (conn_inv sc P None) (request_callback i) (fun _ => True)) ->
  pw_conns w0 = [] -> pw_requests w0 = [] -> pw_trace w0 = [] ->
  rtc (pool_step request_callback fuel) w0 w ->
  (forall k c, live w k c ->
     storage_inv CQL_STREAM_ID_MAX (stream_storage_ c) /\ message_typed (incomming_ c)) /\
  (forall k1 k2 c1 c2 id1 id2 i,
     live w k1 c1 -> live w k2 c2 ->
     in_flight (stream_storage_ c1) id1 i -> in_flight (stream_storage_ c2) id2 i ->
     k1 = k2 /\ id1 = id2) /\
  (forall k c id i, live w k c -> in_flight (stream_storage_ c) id i ->
     exists q, pw_requests w !! i = Some q /\ rq_flag q = false) /\
  (forall i q, pw_requests w !! i = Some q ->
     pool_notifications i w = (if rq_flag q then 1 else 0)%nat /\
     (rq_flag q = true -> rq_result q <> None \/ rq_error q <> None)).
Proof.
  intros Hcb Hconns Hreqs Htrace Hrtc. assert (pool_inv w) as [Hc Hfl Hun Han Hno].
  { assert (pool_inv w0) as H0'.
    { constructor; unfold live; rewrite ?Hconns, ?Hreqs; try done.
      intros i. unfold pool_notifications. by rewrite Htrace. }
    clear Hconns Hreqs Htrace. induction Hrtc as [w|w w1 w2 Hstep _ IH]; [done|]. apply IH.
    destruct Hstep as [k c w w1 Hr|h w|p p' w w1 Hr|k w w1 Hr].
    - by eapply call_inv.
    - by destruct H0'.
    - by eapply spawn_inv.
    - by eapply delete_inv. }
  split_and!.
  - intros k c Hk. by destruct (Hc k c Hk) as (_ & ? & ?).
  - exact Hun.
  - exact Hfl.
  - intros i q Hi. pose proof (Hno i) as Hn. rewrite Hi in Hn. split; [done|by eapply Han].
Qed.

(** ** Witness

    Two connections send a request each, on stream 1 of both; the answer to the first
    is read. *)
#[local] Existing Instances exact_allocator linux_uv null_openssl.

Definition no_callback : nat -> prog (@world linux_uv null_openssl) unit := fun _ => mret tt.

Definition spawned_pool : Pool := {|
  ssl_context_ := None; pool_address_ := []; core_connections_per_host_ := 2;
  max_connections_per_host_ := 8; max_simultaneous_creation_ := 2;
  connections_ := []; connections_pending_ := []
|}.

Definition pooled_call (k : nat) (c : call) : prog pool_world unit :=
  on_connection k (@run_call exact_allocator linux_uv null_openssl (pooled no_callback) 0 c).

Definition reply_in_heap (w : pool_world) : pool_world := {|
  pw_heap := pw_heap w ++ [Some void_reply]; pw_conns := pw_conns w;
  pw_requests := pw_requests w; pw_trace := pw_trace w
|}.

Definition two_sends : prog pool_world unit :=
  p ← spawn_connection no_callback spawned_pool;
  p ← spawn_connection no_callback p;
  pooled_call 0 first_call ;; pooled_call 1 first_call.

Definition two_requests (w : pool_world) : outcome pool_world :=
  match two_sends w with
  | Ok (_, w1) =>
      match pooled_call 0 (reply_read (pw_heap w1)) (reply_in_heap w1) with
      | Ok (_, w2) => Ok w2
      | Fault f => Fault f
      end
  | Fault f => Fault f
  end.

Lemma two_requests_steps w w' :
  two_requests w = Ok w' -> rtc (pool_step no_callback 0) w w'.
Proof.
  unfold two_requests. intros Hr.
  destruct (two_sends w) as [[[] w1]|f] eqn:E1; [|done].
  destruct (pooled_call 0 (reply_read _) _) as [[[] w2]|f] eqn:E2; [|done]. injection Hr as <-.
  unfold two_sends in E1. apply bind_inv in E1 as (p1 & v1 & S1 & E1). apply bind_inv in E1 as (p2 & v2 & S2 & E1).
  apply bind_inv in E1 as ([] & v3 & S3 & S4).
  eapply rtc_l; [by eapply pool_spawn|]. eapply rtc_l; [by eapply pool_spawn|].
  eapply rtc_l; [by eapply (pool_call _ _ 0)|]. eapply rtc_l; [by eapply (pool_call _ _ 1)|].
  eapply rtc_l; [apply (pool_heap _ _ (pw_heap w1 ++ [Some void_reply]))|].
  apply rtc_once. exact (pool_call _ _ 0 _ _ _ E2).
Qed.

(** What is looked at in the end. *)
Definition seen_of (r : outcome pool_world) : option (nat * nat * list bool) :=
  match r with
  | Ok w => Some (pool_notifications 0 w, pool_notifications 1 w, rq_flag <$> pw_requests w)
  | Fault _ => None
  end.

Theorem pool_invariant_witness :
  exists w, rtc (pool_step no_callback 0) empty_world w /\
    rq_flag <$> pw_requests w = [true; false] /\
    pool_notifications 0 w = 1%nat /\ pool_notifications 1 w = 0%nat.
Proof.
  assert (seen_of (two_requests empty_world) = Some (1, 0, [true; false])%nat) as Hseen
    by (vm_compute; reflexivity).
  destruct (two_requests empty_world) as [w|f] eqn:E; [|discriminate Hseen].
  apply two_requests_steps in E. exists w. split; [exact E|].
  injection Hseen as _ _ Hflags. split; [exact Hflags|].
  destruct (pool_invariant no_callback 0 empty_world w
    ltac:(intros sc P i; by apply keeps_ret) eq_refl eq_refl eq_refl E) as (_ & _ & _ & Hreq).
  destruct (pw_requests w) as [|q0 [|q1 rs]] eqn:Erq; try discriminate Hflags.
  injection Hflags as Hf0 Hf1 _. split.
  - rewrite (proj1 (Hreq 0%nat q0 eq_refl)), Hf0. reflexivity.
  - rewrite (proj1 (Hreq 1%nat q1 eq_refl)), Hf1. reflexivity.
Defined.
