(* ===== verification/Session.v ===== *)
(** * cql_session.hpp

    A session: a vector of workers, each with a loop, a thread that runs it and the
    pools of its hosts.  What libuv is asked to do with the loops and the threads is
    a trace; a run of a worker is the world of its loop. *)

From stdpp Require Import gmap.
From S2P Require Import Prelude Memory StdMap Common Serialization Body Query Result.
From S2P Require Import Message StreamStorage MpmcQueue Request SslSession HeapEffects.
From S2P Require Import Connection ConnectionFacts Lifecycle Pool PoolFacts.

(** ** Data *)

(** The pointer to the TLS context is indeterminate, NULL, or a context. *)
Definition context_ptr `{OpenSSL} : Type := option (option SSL_CTX).

(** [IOWorker]: whether its thread was created, and the pools by host; a pool is
    shared by nobody else. *)
Record IOWorker `{OpenSSL} := {
  io_thread      : bool;
  io_ssl_context : context_ptr;
  pools          : gmap (list Z) Pool
}.

(** What a worker asks of libuv, and what the session prints. *)
Inductive worker_event : Set :=
  | WvLoopNew
  | WvThreadCreate
  | WvRun
  | WvStop
  | WvJoin
  | WvLoopDelete
  | WvPrint (message : list Z).

Definition worker_emit (e : worker_event) : prog (list worker_event) unit :=
  modify (fun tr => tr ++ [e]).

Record Session `{OpenSSL} := {
  io_loops_     : list IOWorker;
  s_ssl_context : context_ptr;
  queue_        : MpmcQueue nat
}.

Section session.
Context `{Allocator} `{LibUV} `{OpenSSL}.
Variable request_callback : nat -> prog world unit.

(** ** Operations *)

Definition IOWorker_new : prog (list worker_event) IOWorker :=
  worker_emit WvLoopNew ;;
  mret {| io_thread := false; io_ssl_context := None; pools := ∅ |}.

(** The function of the thread. *)
Definition worker_run : prog (list worker_event) unit := worker_emit WvRun.

Definition run_async (worker : IOWorker) : prog (list worker_event) IOWorker :=
  worker_emit WvThreadCreate ;;
  mret {| io_thread := true; io_ssl_context := io_ssl_context worker; pools := pools worker |}.

Definition stop (worker : IOWorker) : prog (list worker_event) unit := worker_emit WvStop.

(** The handle of the thread is indeterminate until the thread is created. *)
Definition join (worker : IOWorker) : prog (list worker_event) unit :=
  if io_thread worker then worker_emit WvJoin else fail Uninitialised.

(** The body of the destructor; the pools are destroyed after it. *)
Definition IOWorker_destroy (worker : IOWorker) : prog (list worker_event) unit :=
  worker_emit WvLoopDelete.

(** A pointer that is read before it was written. *)
Definition read_context (c : context_ptr) : outcome (option SSL_CTX) :=
  match c with Some c => Ok c | None => Fault Uninitialised end.

(** The pool is made before it is looked whether the host is known; [insert]
    does nothing for a known host, and then the new pool is destroyed. *)
Definition add_pool (host : list Z) (core_connections max_connections : Z) (worker : IOWorker)
    : prog pool_world IOWorker :=
  match read_context (io_ssl_context worker) with
  | Fault f => fail f
  | Ok ctx =>
      pool ← Pool_init request_callback ctx host core_connections max_connections 1;
      match pools worker !! host with
      | Some _ => Pool_destroy pool ;; mret worker
      | None => mret {| io_thread := io_thread worker; io_ssl_context := io_ssl_context worker;
                        pools := <[host := pool]> (pools worker) |}
      end
  end.

(** The loop of the constructor. *)
Fixpoint new_workers (n : nat) : prog (list worker_event) (list IOWorker) :=
  match n with
  | O => mret []
  | S n => worker ← IOWorker_new; workers ← new_workers n; mret (worker :: workers)
  end.

Definition Session_init (io_loop_count : nat) : prog (list worker_event) Session :=
  fun tr =>
    match MpmcQueue_init 1024 with
    | Ok q =>
        (workers ← new_workers io_loop_count;
         mret {| io_loops_ := workers; s_ssl_context := None; queue_ := q |}) tr
    | Fault f => Fault f
    end.

(** Both overloads of [log]. *)
Definition session_log (level : Z) (message : list Z) : prog (list worker_event) unit :=
  worker_emit (WvPrint message).

Definition ssl_session_new (s : Session) : outcome (option SSLSession) :=
  match read_context (s_ssl_context s) with
  | Ok ctx => Ok (SSLSession_new <$> ctx)
  | Fault f => Fault f
  end.

(** The public operations do nothing yet: the requests are NULL. *)
Definition session_prepare (s : Session) : option nat := None.
Definition session_execute (s : Session) : option nat := None.
Definition session_shutdown (s : Session) : Session := s.
Definition session_set_keyspace (s : Session) : Session := s.
End session.

(** ** Lemmas *)

Section lemmas.
Context `{Allocator} `{LibUV} `{OpenSSL}.
Context (request_callback : nat -> prog world unit).

(** The pool a worker without TLS makes, and its connections. *)
Definition fresh_pool (host : list Z) (core max : Z) (w : pool_world) : Pool := {|
  ssl_context_ := None; pool_address_ := host; core_connections_per_host_ := core;
  max_connections_per_host_ := max; max_simultaneous_creation_ := 1;
  connections_ := [];
  connections_pending_ := seq (length (pw_conns w)) (Z.to_nat core)
|}.

Lemma fresh_pool_run host core max w :
  Pool_init request_callback None host core max 1 w =
    Ok (fresh_pool host core max w, spawned (Z.to_nat core) w).
Proof. unfold Pool_init. by rewrite spawn_connections_run. Qed.
End lemmas.

(** ** Theorems *)

(** What [IOWorker::add_pool] does.  The pointer to the TLS context of a worker
    is never set: on a worker as the constructor leaves it the call reads an
    indeterminate pointer.  On a worker without TLS a new host gets a pool with
    its core connections, and the pools of the other hosts stay; for a host
    that has a pool the map stays as it is, but the core connections of a
    second pool are made, and nobody deletes them. *)
Theorem add_pool_spec `{Allocator} `{LibUV} `{OpenSSL} request_callback
    host core max (worker : IOWorker) (w : pool_world) :
  (io_ssl_context worker = None ->
     add_pool request_callback host core max worker w = Fault Uninitialised) /\
  (io_ssl_context worker = Some None -> exists worker' w',
     add_pool request_callback host core max worker w = Ok (worker', w') /\
     pools worker' !! host =
       Some (default (fresh_pool host core max w) (pools worker !! host)) /\
     (forall host', host' <> host -> pools worker' !! host' = pools worker !! host') /\
     pw_conns w' = pw_conns w ++ replicate (Z.to_nat core) (Some new_connection) /\
     (pools worker !! host <> None -> worker' = worker)).
Proof.
  unfold add_pool. split; intros ->; [done|]. cbn [read_context].
  erewrite bind_run by (apply fresh_pool_run).
  destruct (pools worker !! host) as [p|] eqn:E.
  - exists worker, (spawned (Z.to_nat core) w). by rewrite E.
  - do 2 eexists. split; [done|]. cbn. split; [by rewrite lookup_insert_eq|].
    split; [|done]. intros host' Hne. by rewrite lookup_insert_ne.
Qed.

Lemma new_workers_run `{OpenSSL} n tr :
  new_workers n tr = Ok (replicate n {| io_thread := false; io_ssl_context := None; pools := ∅ |},
                         tr ++ replicate n WvLoopNew).
Proof.
  revert tr. induction n as [|n IH]; intros tr; cbn [new_workers replicate].
  - by rewrite app_nil_r.
  - unfold IOWorker_new. erewrite bind_run by reflexivity. erewrite bind_run by apply IH.
    by rewrite <- app_assoc.
Qed.

(** A new session: a loop for each worker, which nobody deletes; its queue is empty and
    has room for 1024 requests; a worker that is joined before it runs reads the
    handle of no thread, and one that runs is stopped and joined; no worker can add a
    pool and no TLS session can be made, because the context is read before it is
    set. *)
Theorem session_start `{Allocator} `{LibUV} `{OpenSSL} (n : nat) tr :
  exists s, Session_init n tr = Ok (s, tr ++ replicate n WvLoopNew) /\
    length (io_loops_ s) = n /\ queue_ s = fresh_queue (2 ^ 10) /\
    ssl_session_new s = Fault Uninitialised /\
    forall worker, worker ∈ io_loops_ s ->
      join worker tr = Fault Uninitialised /\
      (worker ← run_async worker; stop worker ;; join worker) tr =
        Ok (tt, tr ++ [WvThreadCreate; WvStop; WvJoin]) /\
      forall request_callback host core max (w : pool_world),
        add_pool request_callback host core max worker w = Fault Uninitialised.
Proof.
  unfold Session_init. rewrite (init_run 10) by lia. erewrite bind_run by apply new_workers_run.
  eexists. split; [done|]. cbn [io_loops_ queue_ s_ssl_context].
  split; [by rewrite length_replicate|]. split; [done|]. split; [done|].
  intros worker [-> _]%elem_of_replicate. split_and!; [done| |done].
  transitivity (Ok (tt, ((tr ++ [WvThreadCreate]) ++ [WvStop]) ++ [WvJoin])); [reflexivity|].
  by rewrite <- !app_assoc.
Qed.

(** ** Witness *)

#[local] Existing Instances exact_allocator linux_uv null_openssl.

(** A second pool for a known host, whose two connections nobody owns. *)
Definition known_host : list Z := bytes_of_string "10.0.0.1".
Definition known_worker : IOWorker := {|
  io_thread := true; io_ssl_context := Some None;
  pools := {[ known_host := fresh_pool known_host 1 8 empty_world ]}
|}.

Theorem add_pool_spec_witness :
  exists w', add_pool (fun _ => mret tt) known_host 2 8 known_worker empty_world =
    Ok (known_worker, w') /\ pw_conns w' = [Some new_connection; Some new_connection].
Proof.
  destruct (add_pool_spec (fun _ => mret tt) known_host 2 8 known_worker empty_world)
    as [_ Hadd].
  destruct (Hadd eq_refl) as (worker' & w' & Hrun & _ & _ & Hconns & Hsame).
  rewrite Hsame in Hrun by discriminate. exists w'. split; [exact Hrun|exact Hconns].
Defined.
