(* ===== verification/Cluster.v ===== *)
(** * cql_cluster.hpp

    The options of a cluster and the sessions it does not make yet, and the
    client program (client/main.cpp), which asks it for one. *)

From S2P Require Import Prelude Memory StdMap Common SslSession Session.

(** ** Data *)

Record Cluster := {
  port_                       : list Z;
  cql_version_                : list Z;
  compression_                : Z;
  max_schema_agreement_wait_  : Z;
  control_connection_timeout_ : Z;
  contact_points_             : list (list Z);
  thread_count_io_            : Z;
  thread_count_callback_      : Z;
  cluster_log_callback_       : bool
}.

Definition Cluster_init : Cluster := {|
  port_ := bytes_of_string "9042"; cql_version_ := bytes_of_string "3.0.0";
  compression_ := 0; max_schema_agreement_wait_ := 10; control_connection_timeout_ := 10;
  contact_points_ := []; thread_count_io_ := 1; thread_count_callback_ := 4;
  cluster_log_callback_ := false
|}.

Definition set_port (v : list Z) (c : Cluster) : Cluster := {|
  port_ := v; cql_version_ := cql_version_ c; compression_ := compression_ c;
  max_schema_agreement_wait_ := max_schema_agreement_wait_ c;
  control_connection_timeout_ := control_connection_timeout_ c;
  contact_points_ := contact_points_ c; thread_count_io_ := thread_count_io_ c;
  thread_count_callback_ := thread_count_callback_ c;
  cluster_log_callback_ := cluster_log_callback_ c
|}.
Definition set_cql_version (v : list Z) (c : Cluster) : Cluster := {|
  port_ := port_ c; cql_version_ := v; compression_ := compression_ c;
  max_schema_agreement_wait_ := max_schema_agreement_wait_ c;
  control_connection_timeout_ := control_connection_timeout_ c;
  contact_points_ := contact_points_ c; thread_count_io_ := thread_count_io_ c;
  thread_count_callback_ := thread_count_callback_ c;
  cluster_log_callback_ := cluster_log_callback_ c
|}.
Definition set_contact_points (v : list (list Z)) (c : Cluster) : Cluster := {|
  port_ := port_ c; cql_version_ := cql_version_ c; compression_ := compression_ c;
  max_schema_agreement_wait_ := max_schema_agreement_wait_ c;
  control_connection_timeout_ := control_connection_timeout_ c;
  contact_points_ := v; thread_count_io_ := thread_count_io_ c;
  thread_count_callback_ := thread_count_callback_ c;
  cluster_log_callback_ := cluster_log_callback_ c
|}.
Definition set_numbers (compression wait timeout io callback : Z) (c : Cluster) : Cluster := {|
  port_ := port_ c; cql_version_ := cql_version_ c; compression_ := compression;
  max_schema_agreement_wait_ := wait; control_connection_timeout_ := timeout;
  contact_points_ := contact_points_ c; thread_count_io_ := io;
  thread_count_callback_ := callback; cluster_log_callback_ := cluster_log_callback_ c
|}.
Definition log_callback (callback : bool) (c : Cluster) : Cluster := {|
  port_ := port_ c; cql_version_ := cql_version_ c; compression_ := compression_ c;
  max_schema_agreement_wait_ := max_schema_agreement_wait_ c;
  control_connection_timeout_ := control_connection_timeout_ c;
  contact_points_ := contact_points_ c; thread_count_io_ := thread_count_io_ c;
  thread_count_callback_ := thread_count_callback_ c; cluster_log_callback_ := callback
|}.

(** ** Operations *)

(** The value is read as an [int] first, whatever the option; the numbers that
    are a [size_t] get its sign extended. *)
Definition cluster_option (key : Z) (value : ptr) (size : Z) (c : Cluster)
    : prog heap Cluster :=
  bs ← read_bytes value 4;
  let int_value := i32 (le_value bs) in
  let string := read_bytes value size in
  if decide (key = CQL_OPTION_THREADS_IO) then
    mret (set_numbers (compression_ c) (max_schema_agreement_wait_ c)
            (control_connection_timeout_ c) (u64 int_value) (thread_count_callback_ c) c)
  else if decide (key = CQL_OPTION_THREADS_CALLBACK) then
    mret (set_numbers (compression_ c) (max_schema_agreement_wait_ c)
            (control_connection_timeout_ c) (thread_count_io_ c) (u64 int_value) c)
  else if decide (key = CQL_OPTION_CONTACT_POINT_ADD) then
    s ← string; mret (set_contact_points (contact_points_ c ++ [s]) c)
  else if decide (key = CQL_OPTION_PORT) then s ← string; mret (set_port s c)
  else if decide (key = CQL_OPTION_CQL_VERSION) then s ← string; mret (set_cql_version s c)
  else if decide (key = CQL_OPTION_COMPRESSION) then
    mret (set_numbers int_value (max_schema_agreement_wait_ c)
            (control_connection_timeout_ c) (thread_count_io_ c) (thread_count_callback_ c) c)
  else if decide (key = CQL_OPTION_CONTROL_CONNECTION_TIMEOUT) then
    mret (set_numbers (compression_ c) (max_schema_agreement_wait_ c) (u64 int_value)
            (thread_count_io_ c) (thread_count_callback_ c) c)
  else if decide (key = CQL_OPTION_SCHEMA_AGREEMENT_WAIT) then
    mret (set_numbers (compression_ c) (u64 int_value) (control_connection_timeout_ c)
            (thread_count_io_ c) (thread_count_callback_ c) c)
  else mret c.

(** The three overloads of [connect]: the session is NULL. *)
Definition connect_chars `{OpenSSL} (keyspace : ptr) (size : Z) (c : Cluster)
    : option Session := None.
Definition connect_string `{OpenSSL} (keyspace : list Z) (c : Cluster) : option Session :=
  connect_chars (Chars keyspace 0) (zlen keyspace) c.
Definition cluster_connect `{OpenSSL} (c : Cluster) : option Session := connect_chars Null 0 c.

(** ** client/main.cpp *)

(** The line that goes to the standard output. *)
Definition print_log (level : Z) (message : list Z) (size : Z) : list Z :=
  bytes_of_string "log: " ++ message ++ [10].

(** The session is used without a test. *)
Definition client_main `{OpenSSL} : outcome Session :=
  match cluster_connect (log_callback true Cluster_init) with
  | Some session => Ok (session_shutdown session)
  | None => Fault NullPointer
  end.

(** ** Theorems *)

(** The two kinds of options, and how a cluster shows them. *)
Definition string_option (key : Z) (c : Cluster) : option (list Z) :=
  if decide (key = CQL_OPTION_PORT) then Some (port_ c)
  else if decide (key = CQL_OPTION_CQL_VERSION) then Some (cql_version_ c)
  else if decide (key = CQL_OPTION_CONTACT_POINT_ADD) then last (contact_points_ c)
  else None.
Definition number_option (key : Z) (c : Cluster) : option Z :=
  if decide (key = CQL_OPTION_THREADS_IO) then Some (thread_count_io_ c)
  else if decide (key = CQL_OPTION_THREADS_CALLBACK) then Some (thread_count_callback_ c)
  else if decide (key = CQL_OPTION_COMPRESSION) then Some (compression_ c)
  else if decide (key = CQL_OPTION_CONTROL_CONNECTION_TIMEOUT)
  then Some (control_connection_timeout_ c)
  else if decide (key = CQL_OPTION_SCHEMA_AGREEMENT_WAIT)
  then Some (max_schema_agreement_wait_ c)
  else None.

Definition string_keys : list Z :=
  [CQL_OPTION_PORT; CQL_OPTION_CQL_VERSION; CQL_OPTION_CONTACT_POINT_ADD].
Definition size_keys : list Z :=
  [CQL_OPTION_THREADS_IO; CQL_OPTION_THREADS_CALLBACK;
   CQL_OPTION_CONTROL_CONNECTION_TIMEOUT; CQL_OPTION_SCHEMA_AGREEMENT_WAIT].

(** The options of [c'] are those of [c], [key] apart. *)
Definition others_kept (key : Z) (c c' : Cluster) : Prop :=
  forall k, k <> key -> string_option k c' = string_option k c /\
                        number_option k c' = number_option k c.

Section option_lemmas.
Context (h : heap) (l : nat) (v : list Z).
Hypothesis Hv : h !! l = Some (Some (Some <$> v)).

Lemma value_read n :
  0 <= n <= zlen v -> read_bytes (Heap l 0) n h = Ok (take (Z.to_nat n) v, h).
Proof.
  intros Hn. apply read_bytes_at; [|rewrite length_take; lia].
  eapply cells_at_heap; [exact Hv|]. apply slice_Some.
  exists [], (Some <$> drop (Z.to_nat n) v). cbn [app]. rewrite <- fmap_app, take_drop.
  split; [done|]. by rewrite !length_fmap.
Qed.

Lemma value_short : zlen v < 4 -> read_bytes (Heap l 0) 4 h = Fault OutOfBounds.
Proof.
  intros Hs. unfold read_bytes. apply bind_fault. unfold read_cells, target, block_at.
  rewrite Hv. cbn [decide]. rewrite decide_False by done. unfold slice.
  rewrite decide_False; [done|]. rewrite length_fmap. lia.
Qed.
End option_lemmas.

(** C33: an option is set from the bytes of its value.  Whatever the option, the first
    four bytes are read as an [int]: a value of fewer bytes, the port "80" for
    example, is read past its end.  Otherwise the option that was named holds
    the bytes of the value, or the number, whose sign is extended to a
    [size_t]; a contact point is added at the end; no other option changes; and
    an unknown option changes nothing. *)
Theorem cluster_option_spec h l (v : list Z) key c :
  h !! l = Some (Some (Some <$> v)) ->
  let run := cluster_option key (Heap l 0) (zlen v) c h in
  let number := i32 (le_value (take 4 v)) in
  (zlen v < 4 -> run = Fault OutOfBounds) /\
  (4 <= zlen v -> exists c', run = Ok (c', h) /\ others_kept key c c' /\
     (key ∈ string_keys -> string_option key c' = Some v) /\
     (key = CQL_OPTION_CONTACT_POINT_ADD -> contact_points_ c' = contact_points_ c ++ [v]) /\
     (key ∈ size_keys -> number_option key c' = Some (u64 number)) /\
     (key = CQL_OPTION_COMPRESSION -> number_option key c' = Some number) /\
     (key ∉ CQL_OPTION_COMPRESSION :: string_keys ++ size_keys -> c' = c)).
Proof.
  intros Hv run number. split.
  - intros Hs. subst run. unfold cluster_option. apply bind_fault. by apply value_short with v.
  - intros Hs. subst run number. unfold cluster_option.
    erewrite bind_run by (apply (value_read h l v Hv); lia). cbv zeta.
    assert (read_bytes (Heap l 0) (zlen v) h = Ok (v, h)) as Hstr.
    { rewrite (value_read h l v Hv) by lia. by rewrite Nat2Z.id, firstn_all. }
    unfold others_kept, string_keys, size_keys, string_option, number_option.
    repeat (case_decide; [subst key; first
      [ erewrite bind_run by exact Hstr | idtac ]; eexists; split; [done|]; split;
        [ intros k Hk; split; repeat case_decide; first [done | congruence] |
          split_and!; intros Hin; first [done | set_solver | cbn; by rewrite last_snoc] ]|]).
    exists c. split_and!; intros; first [done | congruence | set_solver].
Qed.

(** The port "80" as two bytes, and the address of a contact point. *)
Theorem cluster_option_spec_witness :
  cluster_option CQL_OPTION_PORT (Heap 0 0) 2 Cluster_init [Some (Some <$> [56; 48])] =
    Fault OutOfBounds /\
  exists c', cluster_option CQL_OPTION_CONTACT_POINT_ADD (Heap 0 0) 9 Cluster_init
    [Some (Some <$> bytes_of_string "127.0.0.1")] =
      Ok (c', [Some (Some <$> bytes_of_string "127.0.0.1")]) /\
    contact_points_ c' = [bytes_of_string "127.0.0.1"].
Proof.
  split.
  - apply (cluster_option_spec [Some (Some <$> [56; 48])] 0 [56; 48] CQL_OPTION_PORT Cluster_init
      eq_refl). cbn. lia.
  - destruct (cluster_option_spec [Some (Some <$> bytes_of_string "127.0.0.1")] 0
      (bytes_of_string "127.0.0.1") CQL_OPTION_CONTACT_POINT_ADD Cluster_init eq_refl)
      as [_ Hset].
    destruct Hset as (c' & Hrun & _ & _ & Hcp & _); [cbn; lia|].
    exists c'. split; [exact Hrun|]. rewrite Hcp by reflexivity. reflexivity.
Defined.

(** The client program calls a member of a null session. *)
Theorem client_main_null `{OpenSSL} : client_main = Fault NullPointer.
Proof. reflexivity. Qed.
