(* ===== verification/Server.v ===== *)
(** * server/main.cpp

    The test server: it accepts connections and hands what it reads to a
    message of the connection.  What it asks of libuv is a trace; the loop of
    libuv calls [on_new_connection] and [handle_read]. *)

From S2P Require Import Prelude Memory StdMap Common Serialization Body Query Result.
From S2P Require Import Message HeapEffects.

(** ** Data *)

Inductive server_event : Set :=
  | SvTcpInit
  | SvBind (host : string) (port : Z)
  | SvListen (backlog : Z)
  | SvStderr (s : string)
  | SvRun
  | SvAccept (client : nat)
  | SvReadStart (client : nat)
  | SvClose (client : nat).

(** The connections by number; of each the message [incomming].  Their [state] is
    never set or read. *)
Record server := {
  sv_heap  : heap;
  sv_conns : list Message;
  sv_trace : list server_event
}.

Definition sv_emit (e : server_event) : prog server unit := modify (fun s => {|
  sv_heap := sv_heap s; sv_conns := sv_conns s; sv_trace := sv_trace s ++ [e] |}).

(** [new Connection(context)] *)
Definition Connection_new : prog server nat := fun s =>
  Ok (length (sv_conns s),
      {| sv_heap := sv_heap s; sv_conns := sv_conns s ++ [Message_default];
         sv_trace := sv_trace s |}).

Section server.
Context `{Allocator}.

(** ** Operations *)

(** [delete incomming] *)
Definition delete_message (m : Message) : prog heap unit :=
  delete_chars (m_body_buffer m) ;; delete_body (m_body m).

(** What [consume] returns is taken for whether the message is complete. *)
Definition consume_incomming (buf : uv_buf) (incomming : Message) : prog heap Message :=
  '(consumed, incomming) ← Message_consume incomming (buf_base buf) (buf_len buf);
  if decide (consumed <> 0) then delete_message incomming ;; mret Message_default
  else mret incomming.

Definition consume_buffer (connection : nat) (buf : uv_buf) : prog server unit := fun s =>
  match sv_conns s !! connection with
  | Some incomming =>
      match consume_incomming buf incomming (sv_heap s) with
      | Ok (incomming, h) =>
          Ok (tt, {| sv_heap := h; sv_conns := <[connection := incomming]> (sv_conns s);
                     sv_trace := sv_trace s |})
      | Fault f => Fault f
      end
  | None => Fault OutOfBounds
  end.

(** The whole buffer is consumed, and not the [nread] bytes that were read. *)
Definition handle_read (client : nat) (nread : Z) (eof : bool) (buf : uv_buf)
    : prog server unit :=
  if decide (nread = -1) then
    when (negb eof) (sv_emit (SvStderr "Read error")) ;;
    sv_emit (SvClose client)
  else consume_buffer client buf.

(** [accepted] is the result of uv_accept. *)
Definition on_new_connection (status accepted : Z) : prog server unit :=
  if decide (status = -1) then mret tt
  else
    sv_emit SvTcpInit ;;
    client ← Connection_new;
    sv_emit (SvAccept client) ;;
    if decide (accepted = 0) then sv_emit (SvReadStart client)
    else sv_emit (SvClose client).

(** [listen] and [run] are the results of uv_listen and uv_run. *)
Definition server_main (listen run : Z) : prog server Z :=
  sv_emit SvTcpInit ;;
  sv_emit (SvBind "127.0.0.1" 7777) ;;
  sv_emit (SvListen 128) ;;
  if decide (listen <> 0) then sv_emit (SvStderr "Listen error") ;; mret 1
  else sv_emit SvRun ;; mret run.

(** ** Lemmas *)

(** After a read there is no message any more. *)
Lemma consume_incomming_forgets buf h m h' :
  0 < buf_len buf < 2147483648 ->
  consume_incomming buf Message_default h = Ok (m, h') -> m = Message_default.
Proof.
  intros Hn Hr. unfold consume_incomming in Hr. apply bind_inv in Hr as ([n m1] & h1 & Hc & Hr).
  apply message_consume_step in Hc as [Hpos _]; [|apply receiving_default|lia|cbn; lia].
  rewrite decide_True in Hr by lia. by inv_prog.
Qed.

(** A header that is not all there. *)
Lemma initialised_open (bs : list Z) n :
  initialised ((Some <$> bs) ++ replicate (S n) None) = None.
Proof. induction bs as [|b bs IH]; [done|]. cbn in *. unfold initialised in IH. by rewrite IH. Qed.

Lemma consume_short h l (bs : list Z) n buf :
  zlen bs < 8 -> h !! l = Some (Some ((Some <$> bs) ++ replicate n None)) ->
  buf_base buf = Heap l 0 -> 8 <= buf_len buf <= zlen bs + Z.of_nat n ->
  buf_len buf < 2147483648 ->
  consume_incomming buf Message_default h = Fault Uninitialised.
Proof.
  intros Hbs Hl Hb Hlen Hmax. unfold consume_incomming, Message_consume. rewrite Hb.
  apply bind_fault. cbn [m_received m_header_received Message_default set_m_received].
  unfold CQL_HEADER_SIZE. rewrite i32_small, decide_True by lia.
  replace (u64 (buf_len buf - u64 (0 + buf_len buf - 8))) with 8 by int_solve.
  set (cs := (Some <$> bs) ++ replicate (8 - length bs) None).
  assert (zlen cs = 8) as Hcs.
  { unfold cs. rewrite length_app, length_fmap, length_replicate. lia. }
  assert (read_cells (Heap l 0) 8 h = Ok (cs, h)) as Hread.
  { apply read_cells_at; [|done]. eapply cells_at_heap; [exact Hl|]. apply slice_Some.
    exists [], (replicate (n - (8 - length bs)) None). split; [|done]. unfold cs.
    rewrite <- app_assoc, <- replicate_add. cbn [app]. do 2 f_equal. lia. }
  unfold copy_header. rewrite bind_assoc. erewrite bind_run by exact Hread.
  cbn [m_header_buffer m_header_buffer_pos Message_default set_m_received].
  rewrite decide_True by (rewrite length_replicate; lia). rewrite bind_ret.
  apply bind_fault. unfold parse_header. cbn [m_header_buffer set_m_header].
  unfold splice. change (take (Z.to_nat 0) (replicate 8 None)) with (@nil (option Z)).
  change (Z.to_nat 0 + length cs)%nat with (length cs). cbn [app].
  rewrite drop_ge, app_nil_r by (rewrite length_replicate; lia). unfold cs.
  destruct (8 - length bs)%nat as [|k] eqn:Ek; [lia|].
  by rewrite initialised_open.
Qed.

(** Every connection waits for the first byte of a message. *)
Definition forgetful (s : server) : Prop := Forall (fun m => m = Message_default) (sv_conns s).

Lemma sv_emit_forgetful e s u s' :
  forgetful s -> sv_emit e s = Ok (u, s') -> forgetful s'.
Proof. by intros Hs [= _ <-]. Qed.
End server.

(** A callback of libuv. *)
Inductive server_call : Type :=
  | NewConnection (status accepted : Z)
  | Read (client : nat) (nread : Z) (eof : bool) (buf : uv_buf).

Definition run_server_call `{Allocator} (c : server_call) : prog server unit :=
  match c with
  | NewConnection status accepted => on_new_connection status accepted
  | Read client nread eof buf => handle_read client nread eof buf
  end.

(** libuv reads into buffers that are not empty. *)
Definition buffer_ok (c : server_call) : Prop :=
  match c with Read _ _ _ buf => 0 < buf_len buf < 2147483648 | _ => True end.

Fixpoint run_server_calls `{Allocator} (cs : list server_call) : prog server unit :=
  match cs with [] => mret tt | c :: cs => run_server_call c ;; run_server_calls cs end.

Lemma server_call_forgetful `{Allocator} c :
  buffer_ok c -> keeps forgetful (run_server_call c) (fun _ => True).
Proof.
  intros Hc s u s' Hs Hr. split; [|done]. destruct c as [status accepted|k nread eof buf];
    cbn [run_server_call] in Hr.
  - unfold on_new_connection in Hr. case_decide; [by injection Hr as _ <-|].
    apply bind_inv in Hr as (? & s1 & [= _ <-] & Hr).
    apply bind_inv in Hr as (? & s2 & [= _ <-] & Hr).
    apply bind_inv in Hr as (? & s3 & [= _ <-] & Hr).
    case_decide; injection Hr as _ <-; unfold forgetful; cbn;
      apply Forall_app_2; [done|by constructor|done|by constructor].
  - unfold handle_read in Hr. case_decide.
    + apply bind_inv in Hr as (? & s1 & Hr1 & [= _ <-]).
      destruct eof; by injection Hr1 as _ <-.
    + unfold consume_buffer in Hr. destruct (sv_conns s !! k) as [m|] eqn:Em; [|done].
      assert (m = Message_default) as -> by (by eapply Forall_lookup_1 in Hs).
      destruct (consume_incomming buf _ _) as [[m h]|f] eqn:Ec; [|done].
      injection Hr as _ <-. unfold forgetful. cbn. apply Forall_insert; [done|].
      by eapply consume_incomming_forgets.
Qed.

(** ** Theorems *)

(** C31: the server never puts a message together.  [consume] returns how many bytes
    it took, and [consume_buffer] takes any number but 0 for a complete
    message: whatever libuv reads, in any order on any connections, after every
    callback each connection has a fresh message, so the rest of a frame that
    arrives in two reads is taken for a header, and what follows a frame in a
    buffer is lost.  And since the whole buffer is consumed, a read of fewer
    than eight bytes uses bytes that were never written. *)
Theorem server_forgets `{Allocator} cs s s' :
  sv_conns s = [] -> Forall buffer_ok cs -> run_server_calls cs s = Ok (tt, s') ->
  Forall (fun m => m = Message_default) (sv_conns s') /\
  forall k l (bs : list Z) (n : nat) buf nread eof,
    (k < length (sv_conns s'))%nat -> zlen bs < 8 ->
    sv_heap s' !! l = Some (Some ((Some <$> bs) ++ replicate n None)) ->
    buf_base buf = Heap l 0 -> 8 <= buf_len buf <= zlen bs + Z.of_nat n ->
    buf_len buf < 2147483648 -> nread <> -1 ->
    handle_read k nread eof buf s' = Fault Uninitialised.
Proof.
  intros Hs Hcs Hr.
  assert (forgetful s') as Hf.
  { assert (forgetful s) as Hf by (unfold forgetful; by rewrite Hs). clear Hs.
    revert s Hf Hr. induction Hcs as [|c cs Hc Hcs IH]; intros s Hf Hr; cbn in Hr.
    - by injection Hr as <-.
    - apply bind_inv in Hr as ([] & s1 & Hr1 & Hr).
      destruct (server_call_forgetful c Hc _ _ _ Hf Hr1) as [Hf1 _]. by eapply IH. }
  split; [done|]. intros k l bs n buf nread eof Hk Hbs Hl Hb Hlen Hmax Hn.
  unfold handle_read. rewrite decide_False by done. unfold consume_buffer.
  destruct (lookup_lt_is_Some_2 _ _ Hk) as [m Hm]. rewrite Hm.
  assert (m = Message_default) as -> by (by eapply Forall_lookup_1 in Hf).
  by erewrite consume_short.
Qed.

(** ** Witness *)

(** Two bytes of a frame in a buffer of 16, on the first connection. *)
Definition short_server : server := {|
  sv_heap := [Some ((Some <$> [0x02; 0]) ++ replicate 14 None)]; sv_conns := [];
  sv_trace := []
|}.

#[local] Existing Instance exact_allocator.

Theorem server_forgets_witness :
  exists s', run_server_calls [NewConnection 0 0] short_server = Ok (tt, s') /\
    handle_read 0 2 false {| buf_base := Heap 0 0; buf_len := 16 |} s' = Fault Uninitialised.
Proof.
  eexists. split; [reflexivity|].
  apply (server_forgets [NewConnection 0 0] short_server _ eq_refl
    ltac:(repeat constructor) eq_refl) with (l := 0%nat) (bs := [0x02; 0]) (n := 14%nat);
    first [reflexivity | cbn; lia].
Defined.
